(* ===== verification/_CoqProject ===== *)
-Q . S2P
Prelude.v
Utf8.v
GoStrings.v
NumSet.v
GoTime.v
Decoder.v
Encoder.v
Wire.v
Utf7.v
Base64.v
ConnState.v
Registry.v
Imap.v
Writers.v
Message.v
Mailbox.v
MailboxFacts.v
MemStore.v
MemSession.v
MemFacts.v
MemWorld.v
MemProps.v
Conn.v
Commands.v
Dispatch.v
Replies.v
Gate.v
Mock.v
Config.v
MemServer.v
Tracker.v
Auth.v
ClientParse.v
Client.v
ClientFacts.v
Exchange.v
EndToEnd.v
DataExchange.v
Limits.v
ClientConc.v
ClientWitness.v
ExtBase.v
ExtCommands.v
ExtSearch.v
ExtMessages.v
Extensions.v
ExtReplies.v
Constants.v
ExtGate.v
ExtWitness.v
GoFloat.v
Middleware.v
MiddlewareFacts.v
Guarded.v
Timeout.v
Lifecycle.v
LifecycleFacts.v
Pool.v
ClientTLS.v
Typing.v
ServerWitness.v
