(* ===== verification/Prelude.v ===== *)
(** * imap-go: a verification of an IMAP server, client and their extensions

    The program is a Go library.  A server reads command lines from a
    connection, dispatches them to handlers and lets the handlers call a
    backend session; extensions add handlers or wrap existing ones, middleware
    wraps all of them; an in-memory backend implements the session.  A client
    writes command lines and parses what the server sends.  Both sides stand on
    a wire package that encodes and decodes the syntax, and on SASL mechanisms.

    The development is a shallow embedding.  A Go function is a function; one
    that can fail returns [res], whose other values are a panic ([Panic]) and a
    loop that never ends ([Hang]); one that works on shared data is a [St]
    computation that passes it on, also when it fails.  Integers are [Z] with
    the wrap-around of their type written out, strings are lists of bytes,
    maps are [gmap]s, pointers into shared data are locations of a heap.  The
    order in which Go ranges over a map, the clock and the Unicode case tables
    are arguments.  Goroutines are steps of a relation at the granularity of
    the critical sections and atomic operations of the source.

    ** Files and the code they model

    Language and libraries.
    - Prelude: conventions, errors, the state and error monad, tactics, lists.
    - Utf8, GoStrings, GoTime, GoFloat, Base64: runes, package strings, strconv
      and fmt, package time, float64 with durations, padded base64.

    Wire format and data.
    - Decoder, Encoder: wire/decoder.go, wire/encoder.go, wire/literal.go;
      Wire: what is written is read back.
    - Utf7: wire/utf7; NumSet: numset.go; Imap: the structures of the root
      package (imap.go, fetch.go, search.go, store.go, status.go, list.go,
      append.go, copy.go, select.go).
    - ConnState: state/ (machine, transitions, allowed states).
    - Registry: extension/registry.go, the dependency resolution.

    The in-memory backend, server/memserver.
    - Message, Mailbox: message.go, mailbox.go; MemStore: user.go and
      server.go, the heap that sessions share; MemSession: session.go, one
      definition for each session operation.
    - MailboxFacts, MemFacts, MemWorld, MemProps: the invariant of the store,
      its preservation by every interleaving of sessions, what follows from it,
      and the specification of the operations.

    The server.
    - Conn: capability.go, server/options.go, server/session.go (the interface
      of a backend, class [Backend]), server/conn.go, server/handler.go;
      Writers: server/writers.go.
    - Commands: server/commands, every built-in handler over any [Backend].
    - Dispatch: server/dispatch.go, the command loop of server/conn.go.
    - Lifecycle: server/server.go, that is [Serve], [handleConn], [Shutdown] as
      goroutines over the fields of [Server]; LifecycleFacts.
    - Config: server/options.go and [New], a server from its options.
    - Middleware, MiddlewareFacts: middleware/; Timeout: middleware/timeout.go,
      a handler interleaved with its deadline and the commands that follow.
    - Tracker: server/tracker.go with its locks.
    - Replies, Gate, Typing: what all handlers have in common, that is how
      they answer, what they let through before a login, and the types of what
      they read.
    - MemServer: the in-memory sessions as an instance of [Backend], and any
      number of connections over one store.  Mock: the session of
      imaptest/mock, another instance.

    Extensions, extensions/ and extension/extension.go.
    - ExtBase: data and the optional interfaces of a session; ExtCommands,
      ExtSearch, ExtMessages: the handlers and wrappers; Extensions: what each
      package declares and how a server installs it; ExtReplies, ExtGate;
      Guarded: extensions behind middleware.
    - Constants: the names of capability.go, command.go and response.go against
      the extensions and the handlers.

    Authentication and the client.
    - Auth: auth/, both sides of every mechanism and the registry.
    - ClientParse: quoting and the parsers of client/; Client: the state, the
      reader and every command (client.go, reader.go, command.go, auth.go,
      mailbox.go, message.go, idle.go, capability.go); ClientConc: several
      commands, the reader and [Close] as goroutines.
    - Exchange, EndToEnd, DataExchange, Limits, ClientFacts: a command of the
      client against the handlers of the server, through the bytes they
      exchange.
    - ClientTLS: client/starttls.go, the handshake and two readers over one
      socket.
    - Pool: client/pool.

    ClientWitness, ExtWitness and ServerWitness instantiate theorems on
    concrete servers, clients and runs.

    ** What is shown

    - The server refines the session operations ([server_refines]): whatever
      bytes clients send, in any interleaving, the store is that of a sequence
      of well-formed session operations.  For those the invariant of the store
      holds in every reachable world ([mem_invariant]), UIDs persist
      ([uids_persist]), users are isolated ([user_isolation]) and nothing
      panics but what is named ([mem_no_panic]); STORE, FETCH, COPY, LIST,
      EXPUNGE, SEARCH and the mailbox operations do what their specification
      says.
    - Every command gets one tagged reply ([one_reply]), also with any
      extensions installed in any order ([extension_one_reply]) and behind any
      chain of middlewares ([guarded_one_reply]); the cases that do not are
      stated ([condstore_unanswered], [timeout_replies], and a STARTTLS whose
      handshake fails).  What a command line gives has the type of the fields
      that hold it ([arguments_typed]).
    - Nothing but LOGIN under the rules of the configuration reaches the
      backend before authentication ([login_gate], [plaintext_conn]), and
      exactly twelve extension commands do not check ([extension_gate]).  A
      server is closed unless its options open it ([closed_by_default]) and
      announces what they say ([announced]); a mock without a login function is
      never reached ([mock_inert]); AUTHENTICATE has no handler
      ([vocabulary], [authenticate_refused]).
    - A server behind any chain of middlewares answers as without them, up to
      recovered panics and the rate limit ([middleware_refines]); the limit is
      exact at one instant ([rate_limit_burst]) and the metrics are the counts
      they name ([metrics_exact]).
    - The fields of a running server agree with its goroutines
      ([lifecycle_invariant]); the number of connections is bounded
      ([connection_limit]); after [Shutdown] every goroutine ends
      ([shutdown_drains]), and the races in which the server does not keep to
      this are exhibited ([shutdown_races]).  Trackers report every change
      ([tracker_counts]) and can deadlock ([tracker_deadlock]).
    - Client and server agree end to end on operations without data, SELECT,
      LIST, SEARCH and STATUS; what does not get through is stated
      ([append_end_to_end], [store_rejected], [list_hang],
      [client_arg_roundtrip]).  Concurrent commands get their own results
      ([client_delivery]); the pool hands a client to one user at a time
      ([pool_exclusive]); a TLS upgrade of the client succeeds only if its first
      reader takes nothing of the handshake ([starttls_race]).
    - Round trips: wire strings and literals, modified UTF-7, number sets;
      the pattern matcher against its meaning; the resolution of dependencies
      is sound, complete and terminates; both sides of every SASL mechanism
      agree.

    ** Bounds and fuel

    A loop over input is a fixpoint on fuel that the caller sets from the
    length of what is left to read, plus one or two where a last round reads
    nothing: every round consumes a byte, so the fuel cannot run out, except
    where the source itself loops without consuming, and there running out is
    the result [Hang].  [serve_fuel] counts the bytes in clear and inside TLS.
    Kahn's loop in Registry runs once per extension.  The float64 results hold
    for whole numbers below 2^53.  [int64] counters wrap.

    ** Not modelled

    - client/handler.go declares types that nothing uses.
    - Sockets, TLS records, deadlines, loggers and dialling: a connection is
      the bytes it still delivers and the writes made to it, and a handshake
      succeeds or fails.  [bufio] has no size limit.
    - Under a timeout the other commands of the connection are any change that
      does not answer the same tag; FETCH is given by its atomic steps, other
      handlers by any steps that answer once ([answers]).
    - [Idle] of the in-memory session blocks on a channel and has no effect.
    - Body structures, which no code fills; constants of extension data that no
      code reads; the setters of client/options.go.
    - imaptest/harness.go and examples/: they open sockets and call the library,
      without logic of their own. *)

From Stdlib Require Export Ascii ZArith Lia.
From stdpp Require Export base list strings gmap option.

(** The byte, string and error conventions every other file uses. *)

Declare Scope imap_scope.
Delimit Scope imap_scope with imap.
#[global] Open Scope Z_scope.
#[global] Open Scope imap_scope.

Create HintDb imap discriminated.
Create Rewrite HintDb imap_simpl.

(** ** Bytes

    A Go [string] or [[]byte] is the list of its bytes.  A string literal of
    the source is written as a Rocq string and coerced. *)

Abbreviation bytes := (list ascii).

Definition bytes_of (s : string) : bytes := String.list_ascii_of_string s.
Coercion bytes_of : string >-> list.
#[global] Arguments bytes_of : simpl never.

(** The number a byte stands for, and Go's conversion [byte(n)]. *)
Definition bval (c : ascii) : Z := Z.of_N (N_of_ascii c).
Definition byte_of (z : Z) : ascii := ascii_of_N (Z.to_N (z mod 256)).

Lemma bval_range c : 0 <= bval c < 256.
Proof. unfold bval. pose proof (N_ascii_bounded c). lia. Qed.

Lemma byte_of_bval c : byte_of (bval c) = c.
Proof.
  unfold byte_of. pose proof (bval_range c).
  rewrite Z.mod_small by done. unfold bval.
  by rewrite N2Z.id, ascii_N_embedding.
Qed.

Lemma bval_byte_of z : bval (byte_of z) = z mod 256.
Proof.
  unfold byte_of, bval. pose proof (Z.mod_pos_bound z 256 ltac:(lia)).
  rewrite N_ascii_embedding by lia. by rewrite Z2N.id by lia.
Qed.

Lemma bval_inj c d : bval c = bval d -> c = d.
Proof. intros H. by rewrite <- (byte_of_bval c), <- (byte_of_bval d), H. Qed.

Lemma bval_byte_of_small z : 0 <= z < 256 -> bval (byte_of z) = z.
Proof. intros ?. by rewrite bval_byte_of, Z.mod_small. Qed.

Lemma byte_of_eq z c : z = bval c -> byte_of z = c.
Proof. intros ->. apply byte_of_bval. Qed.

#[export] Hint Resolve bval_range : imap.
#[export] Hint Rewrite byte_of_bval : imap_simpl.

(** Byte tests of the source, as booleans. *)
Definition beqb (c d : ascii) : bool := bool_decide (c = d).

Notation "c =c d" := (beqb c d) (at level 70) : imap_scope.
Notation "s =s t" := (bool_decide (s = (t : bytes))) (at level 70) : imap_scope.

Lemma beqb_true c d : (c =c d) = true <-> c = d.
Proof. apply bool_decide_eq_true. Qed.
Lemma beqb_false c d : (c =c d) = false <-> c <> d.
Proof. apply bool_decide_eq_false. Qed.
Lemma beqb_refl c : (c =c c) = true.
Proof. by apply beqb_true. Qed.
#[export] Hint Rewrite beqb_refl : imap_simpl.

(** Control bytes used in the code. *)
Definition NUL : ascii := "000".
Definition SOH : ascii := "001".
Definition TAB : ascii := "009".
Definition LF  : ascii := "010".
Definition CR  : ascii := "013".
Definition DQ  : ascii := "034".
Definition crlf : bytes := [CR; LF].

(** ** Machine integers

    Go integers are [Z] together with the wrap-around of their type. *)
Definition u8  (z : Z) : Z := z mod 2 ^ 8.
Definition u16 (z : Z) : Z := z mod 2 ^ 16.
Definition u32 (z : Z) : Z := z mod 2 ^ 32.
Definition u64 (z : Z) : Z := z mod 2 ^ 64.
Definition i64 (z : Z) : Z := (z + 2 ^ 63) mod 2 ^ 64 - 2 ^ 63.

Lemma u32_small z : 0 <= z < 2 ^ 32 -> u32 z = z.
Proof. apply Z.mod_small. Qed.
Lemma u32_range z : 0 <= u32 z < 2 ^ 32.
Proof. apply Z.mod_pos_bound. lia. Qed.
Lemma u64_small z : 0 <= z < 2 ^ 64 -> u64 z = z.
Proof. apply Z.mod_small. Qed.
Lemma i64_small z : - 2 ^ 63 <= z < 2 ^ 63 -> i64 z = z.
Proof. intros. unfold i64. rewrite Z.mod_small; lia. Qed.
Lemma i64_range z : - 2 ^ 63 <= i64 z < 2 ^ 63.
Proof. unfold i64. pose proof (Z.mod_pos_bound (z + 2 ^ 63) (2 ^ 64)). lia. Qed.
#[export] Hint Resolve u32_small u32_range u64_small i64_small i64_range : imap.

Lemma i64_step a b : i64 (i64 a + b) = i64 (a + b).
Proof.
  unfold i64. f_equal.
  replace ((a + 2 ^ 63) mod 2 ^ 64 - 2 ^ 63 + b + 2 ^ 63) with ((a + 2 ^ 63) mod 2 ^ 64 + b) by lia.
  rewrite Z.add_mod_idemp_l by done. f_equal. lia.
Qed.

(** The length of a Go string or slice, an [int]. *)
Definition len {A} (l : list A) : Z := Z.of_nat (length l).

Lemma len_nonneg {A} (l : list A) : 0 <= len l.
Proof. unfold len. lia. Qed.
Lemma len_nil {A} : len (@nil A) = 0.
Proof. done. Qed.
Lemma len_cons {A} (x : A) l : len (x :: l) = 1 + len l.
Proof. unfold len. simpl. lia. Qed.
Lemma len_app {A} (l k : list A) : len (l ++ k) = len l + len k.
Proof. unfold len. rewrite length_app. lia. Qed.
#[export] Hint Rewrite @len_nil @len_cons @len_app : imap_simpl.
#[export] Hint Resolve len_nonneg : imap.

(** ** Errors

    Go's [error] values.  [Errorf] keeps the arguments of [fmt.Errorf] apart
    so that the text can be rendered (GoStrings) and the wrapped error is still
    there to inspect. *)
Inductive StatusResponseType :=
| StatusOK | StatusNO | StatusBAD | StatusBYE | StatusPREAUTH
| StatusOther (s : bytes).                         (* the type is a string *)

Inductive num_error := ErrSyntax | ErrRange.

Inductive error :=
| EOF                                              (* io.EOF *)
| ErrUnexpectedEOF                                 (* io.ErrUnexpectedEOF *)
| NumError (fn s : bytes) (e : num_error)          (* *strconv.NumError *)
| Errorf (args : list fmt_arg)                     (* fmt.Errorf *)
| IMAPError (ty : StatusResponseType) (code : bytes) (arg : option bytes) (text : bytes)
                                                   (* *imap.IMAPError *)
| MemError (msg : bytes)                           (* *memserver.IMAPError *)
with fmt_arg :=
| Txt (s : bytes)
| QByte (c : ascii)                                (* %q of a byte *)
| QStr (s : bytes)                                 (* %q of a string *)
| Wrap (e : error).                                (* %w *)

Definition emsg (s : bytes) : error := Errorf [Txt s].

(** The constructors of [imap.IMAPError] in response.go. *)
Definition ErrNo (text : bytes) : error := IMAPError StatusNO [] None text.
Definition ErrNoWithCode (code text : bytes) : error := IMAPError StatusNO code None text.
Definition ErrBadWithCode (code text : bytes) : error := IMAPError StatusBAD code None text.
Definition ErrBad (text : bytes) : error := IMAPError StatusBAD [] None text.
Definition ErrBye (text : bytes) : error := IMAPError StatusBYE [] None text.

(** ** Outcomes

    A Go call returns a value, returns an error, panics, or never returns. *)
Inductive res (A : Type) :=
| Ok (a : A)
| Err (e : error)
| Panic
| Hang.
Arguments Ok {A} a.
Arguments Err {A} e.
Arguments Panic {A}.
Arguments Hang {A}.

#[export] Instance res_ret : MRet res := fun A a => Ok a.
#[export] Instance res_bind : MBind res := fun A B k m =>
  match m with
  | Ok a => k a
  | Err e => Err e
  | Panic => Panic
  | Hang => Hang
  end.
#[export] Instance res_fmap : FMap res := fun A B f m =>
  match m with
  | Ok a => Ok (f a)
  | Err e => Err e
  | Panic => Panic
  | Hang => Hang
  end.

Definition is_ok {A} (r : res A) : bool := match r with Ok _ => true | _ => false end.
Definition is_err {A} (r : res A) : bool := match r with Err _ => true | _ => false end.

Lemma res_bind_Ok {A B} (m : res A) (k : A -> res B) b :
  m ≫= k = Ok b <-> exists a, m = Ok a /\ k a = Ok b.
Proof.
  destruct m; simpl; split; try (by eauto); by intros (? & [= <-] & ?).
Qed.

(** ** State passing with outcomes

    [St S A] is a computation over a state [S]; the state survives an error,
    as a mutated Go object does. *)
Definition St (S A : Type) := S -> res A * S.

Section St.
Context {S : Type}.

#[export] Instance st_ret : MRet (St S) := fun A a s => (Ok a, s).
#[export] Instance st_bind : MBind (St S) := fun A B k m s =>
  match m s with
  | (Ok a, s') => k a s'
  | (Err e, s') => (Err e, s')
  | (Panic, s') => (Panic, s')
  | (Hang, s') => (Hang, s')
  end.

Definition st_get : St S S := fun s => (Ok s, s).
Definition st_put (s : S) : St S unit := fun _ => (Ok tt, s).
Definition st_fail {A} (e : error) : St S A := fun s => (Err e, s).
Definition st_panic {A} : St S A := fun s => (Panic, s).
Definition st_hang {A} : St S A := fun s => (Hang, s).

(** [if err := m; err != nil { return f(err) }] *)
Definition on_err {A} (m : St S A) (f : error -> error) : St S A := fun s =>
  match m s with
  | (Err e, s') => (Err (f e), s')
  | r => r
  end.

(** A call whose error the source inspects. *)
Definition attempt {A} (m : St S A) : St S (error + A) := fun s =>
  match m s with
  | (Ok a, s') => (Ok (inr a), s')
  | (Err e, s') => (Ok (inl e), s')
  | (Panic, s') => (Panic, s')
  | (Hang, s') => (Hang, s')
  end.
End St.

Lemma st_bind_ok {S A B} (m : St S A) (k : A -> St S B) s s' a :
  m s = (Ok a, s') -> (m ≫= k) s = k a s'.
Proof. intros H. unfold mbind, st_bind. by rewrite H. Qed.
Lemma st_bind_err {S A B} (m : St S A) (k : A -> St S B) s s' e :
  m s = (Err e, s') -> (m ≫= k) s = (Err e, s').
Proof. intros H. unfold mbind, st_bind. by rewrite H. Qed.
Lemma on_err_ok {S A} (m : St S A) f s s' a :
  m s = (Ok a, s') -> on_err m f s = (Ok a, s').
Proof. intros H. unfold on_err. by rewrite H. Qed.
Lemma on_err_err {S A} (m : St S A) f s s' e :
  m s = (Err e, s') -> on_err m f s = (Err (f e), s').
Proof. intros H. unfold on_err. by rewrite H. Qed.

(** [m '?>' e]: any error of [m] is replaced by [e]. *)
Notation "m ?> e" := (on_err m (fun _ => e)) (at level 61, left associativity) : imap_scope.

(** ** Lists of bytes *)

Fixpoint take_while {A} (p : A -> bool) (l : list A) : list A :=
  match l with
  | [] => []
  | x :: l' => if p x then x :: take_while p l' else []
  end.
Fixpoint drop_while {A} (p : A -> bool) (l : list A) : list A :=
  match l with
  | [] => []
  | x :: l' => if p x then drop_while p l' else l
  end.

Section While.
Context {A : Type} (p : A -> bool).

Lemma take_drop_while l : take_while p l ++ drop_while p l = l.
Proof. induction l as [|x l IH]; simpl; [done|]. destruct (p x); simpl; congruence. Qed.

Lemma take_while_all l : forallb p (take_while p l) = true.
Proof. induction l as [|x l IH]; simpl; [done|]. destruct (p x) eqn:E; simpl; by rewrite ?E. Qed.

(** [rest] does not start with a byte the loop would also take. *)
Definition stops (rest : list A) : Prop :=
  match rest with [] => True | x :: _ => p x = false end.

Lemma drop_while_stops l : stops (drop_while p l).
Proof. induction l as [|x l IH]; simpl; [done|]. by destruct (p x) eqn:E. Qed.

Lemma take_while_app l rest :
  forallb p l = true -> stops rest -> take_while p (l ++ rest) = l.
Proof.
  intros Hl Hr. induction l as [|x l IH]; simpl in *.
  - destruct rest as [|y rest]; simpl in *; [done|]. by rewrite Hr.
  - apply andb_true_iff in Hl as [-> Hl]. by rewrite IH.
Qed.

Lemma drop_while_app l rest :
  forallb p l = true -> stops rest -> drop_while p (l ++ rest) = rest.
Proof.
  intros Hl Hr. induction l as [|x l IH]; simpl in *.
  - destruct rest as [|y rest]; simpl in *; [done|]. by rewrite Hr.
  - apply andb_true_iff in Hl as [-> Hl]. by rewrite IH.
Qed.
End While.
#[export] Hint Resolve take_while_all drop_while_stops : imap.

Lemma forallb_Forall {A} (p : A -> bool) l :
  forallb p l = true <-> Forall (fun x => p x = true) l.
Proof. induction l as [|x l IH]; simpl; [by split|]. by rewrite andb_true_iff, list.Forall_cons, IH. Qed.

(** How many elements pass a test. *)
Definition count_if {A} (f : A -> bool) (l : list A) : Z :=
  foldr (fun a n => (if f a then 1 else 0) + n) 0 l.
Lemma count_if_nonneg {A} (f : A -> bool) l : 0 <= count_if f l.
Proof. induction l as [|a l IH]; simpl; [done|]. destruct (f a); lia. Qed.
Lemma count_if_app {A} (f : A -> bool) l k : count_if f (l ++ k) = count_if f l + count_if f k.
Proof. induction l as [|a l IH]; simpl; [done|]. rewrite IH. lia. Qed.
Lemma count_if_insert {A} (f : A -> bool) l i x y :
  l !! i = Some x ->
  count_if f (<[i := y]> l) = count_if f l + (if f y then 1 else 0) - (if f x then 1 else 0).
Proof.
  revert i. induction l as [|a l IH]; intros [|i] Hi; simplify_eq/=; [lia|]. rewrite (IH i Hi). lia.
Qed.

Lemma list_filter_ext {A} (P Q : A -> Prop) `{!forall x, Decision (P x), !forall x, Decision (Q x)}
    (l : list A) :
  (forall x, x ∈ l -> P x <-> Q x) -> filter P l = filter Q l.
Proof.
  induction l as [|x l IH]; intros Hext; [done|].
  assert (P x <-> Q x) as Hx by (apply Hext; left).
  assert (filter P l = filter Q l) as Hl by (apply IH; intros; apply Hext; by right).
  destruct (decide (P x)).
  - rewrite !filter_cons_True by naive_solver. by rewrite Hl.
  - rewrite !filter_cons_False by naive_solver. done.
Qed.

Lemma Forall_sublist {A} (P : A -> Prop) l k : l `sublist_of` k -> Forall P k -> Forall P l.
Proof.
  induction 1 as [|x l k _ IH|x l k _ IH]; [done|..]; rewrite !list.Forall_cons; naive_solver.
Qed.

(** ** Tactics *)

(** Case analysis on the test of every [if] in the goal. *)
Ltac case_if :=
  match goal with
  | |- context [if ?c then _ else _] => destruct c eqn:?
  end.

(** Turn boolean tests of the source into propositions. *)
Ltac to_prop :=
  repeat match goal with
  | H : (_ =c _) = true |- _ => apply beqb_true in H
  | H : (_ =c _) = false |- _ => apply beqb_false in H
  | H : bool_decide _ = true |- _ => apply bool_decide_eq_true in H
  | H : bool_decide _ = false |- _ => apply bool_decide_eq_false in H
  | H : _ && _ = true |- _ => apply andb_true_iff in H as [? ?]
  | H : _ || _ = false |- _ => apply orb_false_iff in H as [? ?]
  | H : _ && _ = false |- _ => apply andb_false_iff in H
  | H : _ || _ = true |- _ => apply orb_true_iff in H
  | H : negb _ = true |- _ => apply negb_true_iff in H
  | H : negb _ = false |- _ => apply negb_false_iff in H
  | H : (_ <=? _) = true |- _ => apply Z.leb_le in H
  | H : (_ <=? _) = false |- _ => apply Z.leb_gt in H
  | H : (_ <? _) = true |- _ => apply Z.ltb_lt in H
  | H : (_ <? _) = false |- _ => apply Z.ltb_ge in H
  | H : (_ =? _) = true |- _ => apply Z.eqb_eq in H
  | H : (_ =? _) = false |- _ => apply Z.eqb_neq in H
  end.

(** Evaluate the byte tests between two known bytes. *)
Ltac eval_beq :=
  repeat match goal with
  | |- context [beqb ?a ?b] =>
    let v := eval vm_compute in (beqb a b) in
    lazymatch v with
    | true => change (beqb a b) with true
    | false => change (beqb a b) with false
    end
  end.

(** Evaluate the comparisons of known values. *)
Ltac eval_words :=
  repeat match goal with
  | |- context [@bool_decide ?P ?D] =>
    let v := eval vm_compute in (@bool_decide P D) in
    lazymatch v with
    | true => change (@bool_decide P D) with true
    | false => change (@bool_decide P D) with false
    end
  end.
