(* ===== verification/Utf8.v ===== *)
(** * Runes and UTF-8

    Go's [for range] over a string, [utf8.DecodeRune], [Builder.WriteRune] and
    the conversion [string(r)], with Go's treatment of invalid input: an
    invalid byte decodes to U+FFFD and consumes one byte, an invalid rune is
    written as U+FFFD.  The Unicode case tables are an interface ([Unicode])
    whose laws fix the ASCII range; the strings functions that need them are in
    GoStrings. *)

From S2P Require Import Prelude.

Definition RuneError : Z := 0xFFFD.

Definition in_range (lo hi x : Z) : bool := (lo <=? x) && (x <=? hi).

Lemma in_range_true lo hi x : in_range lo hi x = true <-> lo <= x <= hi.
Proof. unfold in_range. rewrite andb_true_iff, !Z.leb_le. done. Qed.

(** A continuation byte, 10xxxxxx. *)
Definition cont (c : ascii) : bool := in_range 0x80 0xBF (bval c).

Definition surrogate (r : Z) : bool := in_range 0xD800 0xDFFF r.
Definition valid_rune (r : Z) : bool := in_range 0 0x10FFFF r && negb (surrogate r).

Definition encode3 (r : Z) : bytes :=
  [byte_of (0xE0 + r / 4096); byte_of (0x80 + r / 64 mod 64); byte_of (0x80 + r mod 64)].

Definition encode_rune (r : Z) : bytes :=
  if negb (valid_rune r) then encode3 RuneError
  else if r <? 0x80 then [byte_of r]
  else if r <? 0x800 then [byte_of (0xC0 + r / 64); byte_of (0x80 + r mod 64)]
  else if r <? 0x10000 then encode3 r
  else [byte_of (0xF0 + r / 262144); byte_of (0x80 + r / 4096 mod 64);
        byte_of (0x80 + r / 64 mod 64); byte_of (0x80 + r mod 64)].

Definition encode_runes (rs : list Z) : bytes := concat (encode_rune <$> rs).

(** The rune and the width of the valid encoding [s] starts with, if any. *)
Definition decode_rune (s : bytes) : option (Z * nat) :=
  match s with
  | [] => None
  | c0 :: t =>
    let x := bval c0 in
    if x <? 0x80 then Some (x, 1%nat)
    else if x <? 0xC2 then None
    else if x <? 0xE0 then
      match t with
      | c1 :: _ => if cont c1 then Some ((x - 0xC0) * 64 + (bval c1 - 0x80), 2%nat) else None
      | _ => None
      end
    else if x <? 0xF0 then
      match t with
      | c1 :: c2 :: _ =>
        if cont c1 && cont c2
           && (if x =? 0xE0 then 0xA0 <=? bval c1 else true)
           && (if x =? 0xED then bval c1 <=? 0x9F else true)
        then Some ((x - 0xE0) * 4096 + (bval c1 - 0x80) * 64 + (bval c2 - 0x80), 3%nat)
        else None
      | _ => None
      end
    else if x <? 0xF5 then
      match t with
      | c1 :: c2 :: c3 :: _ =>
        if cont c1 && cont c2 && cont c3
           && (if x =? 0xF0 then 0x90 <=? bval c1 else true)
           && (if x =? 0xF4 then bval c1 <=? 0x8F else true)
        then Some ((x - 0xF0) * 262144 + (bval c1 - 0x80) * 4096
                   + (bval c2 - 0x80) * 64 + (bval c3 - 0x80), 4%nat)
        else None
      | _ => None
      end
    else None
  end.

(** The runes [for _, r := range s] yields; [skip] bytes of the current rune
    are still to be passed over. *)
Fixpoint runes_go (skip : nat) (s : bytes) : list Z :=
  match s with
  | [] => []
  | _ :: t =>
    match skip with
    | S k => runes_go k t
    | O =>
      match decode_rune s with
      | Some (r, w) => r :: runes_go (pred w) t
      | None => RuneError :: runes_go 0 t
      end
    end
  end.
Definition runes (s : bytes) : list Z := runes_go 0 s.

(** [utf8.ValidString]. *)
Fixpoint valid_go (skip : nat) (s : bytes) : bool :=
  match s with
  | [] => true
  | _ :: t =>
    match skip with
    | S k => valid_go k t
    | O =>
      match decode_rune s with
      | Some (_, w) => valid_go (pred w) t
      | None => false
      end
    end
  end.
Definition valid_utf8 (s : bytes) : bool := valid_go 0 s.

Definition is_ascii (c : ascii) : bool := bval c <? 0x80.
Definition ascii_string (s : bytes) : bool := forallb is_ascii s.

(** ** Lemmas *)

Lemma runes_go_drop k s : runes_go k s = runes (drop k s).
Proof.
  revert k. induction s as [|c s IH]; intros [|k]; try done.
  simpl. by rewrite IH.
Qed.

Lemma valid_go_drop k s : valid_go k s = valid_utf8 (drop k s).
Proof.
  revert k. induction s as [|c s IH]; intros [|k]; try done.
  simpl. by rewrite IH.
Qed.

Lemma decode_rune_width s r w :
  decode_rune s = Some (r, w) -> exists k, w = S k /\ (w <= length s)%nat.
Proof.
  unfold decode_rune. destruct s as [|c0 t]; [done|].
  repeat case_match; intros [= <- <-]; eexists; split; try done; simpl; lia.
Qed.

(** One step of the decoder on a valid prefix. *)
Lemma runes_step s r w :
  decode_rune s = Some (r, w) -> runes s = r :: runes (drop w s).
Proof.
  intros H. destruct (decode_rune_width _ _ _ H) as (k & -> & Hk).
  destruct s as [|c s]; [done|]. unfold runes at 1. cbn -[decode_rune].
  rewrite H. simpl. by rewrite runes_go_drop.
Qed.

Lemma valid_step s r w :
  decode_rune s = Some (r, w) -> valid_utf8 s = valid_utf8 (drop w s).
Proof.
  intros H. destruct (decode_rune_width _ _ _ H) as (k & -> & Hk).
  destruct s as [|c s]; [done|]. unfold valid_utf8 at 1. cbn -[decode_rune].
  rewrite H. simpl. by rewrite valid_go_drop.
Qed.

Ltac div_mod_facts r :=
  pose proof (Z.mod_pos_bound r 64 ltac:(lia));
  pose proof (Z.div_mod r 64 ltac:(lia));
  pose proof (Z.mod_pos_bound (r / 64) 64 ltac:(lia));
  pose proof (Z.div_mod (r / 64) 64 ltac:(lia));
  pose proof (Z.mod_pos_bound (r / 4096) 64 ltac:(lia));
  pose proof (Z.div_mod (r / 4096) 64 ltac:(lia));
  assert (r / 64 / 64 = r / 4096) by (rewrite Z.div_div by lia; done);
  assert (r / 4096 / 64 = r / 262144) by (rewrite Z.div_div by lia; done).

Ltac decide_tests :=
  repeat match goal with
  | |- context [?a <? ?b] =>
      first [ replace (a <? b) with true by (symmetry; apply Z.ltb_lt; lia)
            | replace (a <? b) with false by (symmetry; apply Z.ltb_ge; lia) ]
  | |- context [?a =? ?b] =>
      first [ replace (a =? b) with true by (symmetry; apply Z.eqb_eq; lia)
            | replace (a =? b) with false by (symmetry; apply Z.eqb_neq; lia)
            | destruct (Z.eqb_spec a b) ]
  | |- context [?a <=? ?b] =>
      first [ replace (a <=? b) with true by (symmetry; apply Z.leb_le; lia)
            | replace (a <=? b) with false by (symmetry; apply Z.leb_gt; lia) ]
  end.

(** Decoding what [WriteRune] wrote gives the rune back, whatever follows. *)
Lemma decode_encode_rune r rest :
  valid_rune r = true ->
  decode_rune (encode_rune r ++ rest) = Some (r, length (encode_rune r)).
Proof.
  intros Hv. unfold encode_rune. rewrite Hv. simpl negb. cbn match.
  unfold valid_rune, surrogate, in_range in Hv.
  apply andb_true_iff in Hv as [Hr Hs]. apply andb_true_iff in Hr as [H0 H1].
  apply negb_true_iff, andb_false_iff in Hs. rewrite !Z.leb_gt in Hs. to_prop.
  div_mod_facts r. unfold encode3.
  destruct (Z.ltb_spec r 0x80); [|destruct (Z.ltb_spec r 0x800);
    [|destruct (Z.ltb_spec r 0x10000)]];
  unfold decode_rune, cont, in_range; simpl app; simpl length;
  cbv beta iota zeta; rewrite ?bval_byte_of_small by lia;
  decide_tests; simpl; decide_tests; f_equal; f_equal; lia.
Qed.

Lemma encode_rune_length r : (1 <= length (encode_rune r) <= 4)%nat.
Proof. unfold encode_rune, encode3. repeat case_match; simpl; lia. Qed.

Lemma runes_encode r rest :
  valid_rune r = true -> runes (encode_rune r ++ rest) = r :: runes rest.
Proof.
  intros Hv. rewrite (runes_step _ _ _ (decode_encode_rune _ _ Hv)).
  by rewrite drop_app_length.
Qed.

(** Decoding inverts encoding on valid runes. *)
Lemma runes_encode_runes rs :
  Forall (fun r => valid_rune r = true) rs -> runes (encode_runes rs) = rs.
Proof.
  unfold encode_runes. induction 1 as [|r rs Hr _ IH]; [done|].
  cbn [fmap list_fmap concat]. by rewrite runes_encode, IH.
Qed.

Ltac break_bytes :=
  repeat match goal with
  | H : context [bval ?c] |- _ =>
      lazymatch goal with
      | _ : 0 <= bval c < 256 |- _ => fail
      | _ => pose proof (bval_range c)
      end
  | |- context [bval ?c] =>
      lazymatch goal with
      | _ : 0 <= bval c < 256 |- _ => fail
      | _ => pose proof (bval_range c)
      end
  end.

(** A decoded rune is valid and re-encodes to the bytes it was read from. *)
Lemma encode_decode_rune s r w :
  decode_rune s = Some (r, w) -> valid_rune r = true /\ encode_rune r = take w s.
Proof.
  unfold decode_rune, cont, in_range. destruct s as [|c0 t]; [done|].
  pose proof (bval_range c0).
  repeat (case_match; try done); intros [= <- <-]; to_prop;
    rewrite ?andb_true_iff, ?Z.leb_le in *; destruct_and?;
    repeat match goal with H : (if ?b then _ else _) = true |- _ =>
      destruct b eqn:?; to_prop end; break_bytes.
  all: match goal with |- valid_rune ?r = true /\ _ =>
    assert (Hv : valid_rune r = true)
      by (unfold valid_rune, surrogate, in_range;
          rewrite andb_true_iff, negb_true_iff, andb_false_iff, !andb_true_iff, !Z.leb_le, !Z.leb_gt; lia)
  end.
  all: split; [exact Hv|].
  all: unfold encode_rune; rewrite Hv; simpl negb; cbn match; unfold encode3.
  all: match goal with |- context [?r <? 0x80] => remember r as rr eqn:Err end.
  all: div_mod_facts rr; decide_tests; simpl take.
  all: repeat (f_equal; try (apply byte_of_eq; lia)).
  all: lia.
Qed.

Lemma bytes_len_ind (P : bytes -> Prop) :
  (forall s, (forall t, (length t < length s)%nat -> P t) -> P s) -> forall s, P s.
Proof.
  intros H s. remember (length s) as n eqn:Hn. revert s Hn.
  induction (lt_wf n) as [n _ IH]. intros s ->. apply H. intros t Ht. by apply (IH (length t)).
Qed.

Lemma valid_cases s :
  valid_utf8 s = true ->
  s = [] \/ exists r w, decode_rune s = Some (r, w) /\ valid_utf8 (drop w s) = true.
Proof.
  destruct s as [|c s]; [by left|]. intros Hv. right.
  unfold valid_utf8 in Hv. cbn -[decode_rune] in Hv.
  destruct (decode_rune (c :: s)) as [[r w]|] eqn:E; [|done].
  exists r, w. split; [done|]. rewrite <- (valid_step _ _ _ E).
  unfold valid_utf8. cbn -[decode_rune]. by rewrite E.
Qed.

(** Re-encoding the runes of a valid string gives the string. *)
Lemma encode_runes_runes s :
  valid_utf8 s = true -> encode_runes (runes s) = s.
Proof.
  induction s as [s IH] using bytes_len_ind. intros Hv.
  destruct (valid_cases s Hv) as [->|(r & w & E & Hv')]; [done|].
  rewrite (runes_step _ _ _ E). unfold encode_runes. cbn [fmap list_fmap concat].
  destruct (encode_decode_rune _ _ _ E) as [_ ->].
  destruct (decode_rune_width _ _ _ E) as (k & -> & Hk).
  assert (Hs : encode_runes (runes (drop (S k) s)) = drop (S k) s).
  { apply IH; [|done]. rewrite length_drop. lia. }
  unfold encode_runes in Hs. by rewrite Hs, take_drop.
Qed.

Lemma runes_valid s : Forall (fun r => valid_rune r = true) (runes s).
Proof.
  induction s as [s IH] using bytes_len_ind.
  destruct s as [|c s]; [constructor|].
  destruct (decode_rune (c :: s)) as [[r w]|] eqn:E.
  - rewrite (runes_step _ _ _ E). constructor; [by eapply encode_decode_rune|].
    destruct (decode_rune_width _ _ _ E) as (k & -> & Hk). apply IH.
    rewrite length_drop. simpl in *. lia.
  - unfold runes. cbn -[decode_rune]. rewrite E. constructor; [done|].
    apply (IH s). simpl. lia.
Qed.

Lemma decode_ascii c s : is_ascii c = true -> decode_rune (c :: s) = Some (bval c, 1%nat).
Proof. unfold is_ascii, decode_rune. by intros ->. Qed.

Lemma runes_cons_ascii c s : is_ascii c = true -> runes (c :: s) = bval c :: runes s.
Proof. intros Hc. by rewrite (runes_step _ _ _ (decode_ascii c s Hc)). Qed.

Lemma runes_ascii_app s t : ascii_string s = true -> runes (s ++ t) = (bval <$> s) ++ runes t.
Proof.
  intros Hs. induction s as [|c s IH]; [done|]. simpl in *.
  apply andb_true_iff in Hs as [Hc Hs]. by rewrite runes_cons_ascii, IH.
Qed.

Lemma runes_ascii s : ascii_string s = true -> runes s = bval <$> s.
Proof. intros Hs. pose proof (runes_ascii_app s [] Hs) as H. by rewrite !app_nil_r in H. Qed.

Lemma encode_rune_ascii r : 0 <= r < 0x80 -> encode_rune r = [byte_of r].
Proof.
  intros Hr. unfold encode_rune, valid_rune, surrogate, in_range. by decide_tests.
Qed.

(** ** The Unicode tables

    [unicode.ToUpper], [unicode.ToLower], the orbits of [unicode.SimpleFold]
    (given by a representative of each orbit) and [unicode.IsPrint].  The ASCII
    range is fixed; of the rest it is only used that upper case is valid and
    its own upper case. *)
Definition upper_ascii (r : Z) : Z := if in_range 97 122 r then r - 32 else r.
Definition lower_ascii (r : Z) : Z := if in_range 65 90 r then r + 32 else r.

Class Unicode := {
  ToUpperRune : Z -> Z;
  ToLowerRune : Z -> Z;
  foldKey : Z -> Z;
  IsPrint : Z -> bool;
  ToUpperRune_ascii r : 0 <= r < 0x80 -> ToUpperRune r = upper_ascii r;
  ToLowerRune_ascii r : 0 <= r < 0x80 -> ToLowerRune r = lower_ascii r;
  foldKey_ascii r : 0 <= r < 0x80 -> foldKey r = lower_ascii r;
  IsPrint_ascii r : 0 <= r < 0x80 -> IsPrint r = in_range 0x20 0x7E r;
  ToUpperRune_idem r : ToUpperRune (ToUpperRune r) = ToUpperRune r;
  ToUpperRune_valid r : valid_rune r = true -> valid_rune (ToUpperRune r) = true;
}.

(** Tables with the letters outside ASCII whose case mapping or folding lands
    in ASCII: dotless i, long s, the Kelvin sign and I with dot above. *)
Program Definition basic_unicode : Unicode := {|
  ToUpperRune r := if r =? 0x131 then 73 else if r =? 0x17F then 83 else upper_ascii r;
  ToLowerRune r := if r =? 0x212A then 107 else if r =? 0x130 then 105 else lower_ascii r;
  foldKey r := if r =? 0x212A then 107 else if r =? 0x17F then 115 else lower_ascii r;
  IsPrint r := in_range 0x20 0x7E r;
|}.
Next Obligation. intros; cbn beta. by decide_tests. Qed.
Next Obligation. intros; cbn beta. by decide_tests. Qed.
Next Obligation. intros; cbn beta. by decide_tests. Qed.
Next Obligation. done. Qed.
Next Obligation.
  intros r; cbn beta. destruct (Z.eqb_spec r 0x131) as [->|]; [done|].
  destruct (Z.eqb_spec r 0x17F) as [->|]; [done|]. unfold upper_ascii, in_range.
  destruct (Z.leb_spec 97 r), (Z.leb_spec r 122); cbn [andb]; try lia; by decide_tests.
Qed.
Next Obligation.
  intros r; cbn beta. destruct (Z.eqb_spec r 0x131) as [->|]; [done|].
  destruct (Z.eqb_spec r 0x17F) as [->|]; [done|]. unfold upper_ascii, in_range.
  destruct (Z.leb_spec 97 r), (Z.leb_spec r 122); cbn [andb]; [|done..].
  unfold valid_rune, surrogate, in_range. by decide_tests.
Qed.
