(* ===== verification/GoStrings.v ===== *)
(** * Go's strings, bytes, strconv and fmt, as the code uses them

    Case mapping and folding work on runes (Utf8); searching, splitting and
    trimming work on bytes.  [strconv] keeps Go's order of the syntax and range
    checks.  [Error] renders an error value as its message. *)

From S2P Require Import Prelude Utf8.

(** ** Case *)
Section Case.
Context {U : Unicode}.

Definition ToUpper (s : bytes) : bytes := encode_runes (ToUpperRune <$> runes s).
Definition ToLower (s : bytes) : bytes := encode_runes (ToLowerRune <$> runes s).
Definition fold_key (s : bytes) : list Z := foldKey <$> runes s.
Definition EqualFold (s t : bytes) : bool := bool_decide (fold_key s = fold_key t).
End Case.

(** ** Searching *)
Fixpoint HasPrefix (s p : bytes) : bool :=
  match p, s with
  | [], _ => true
  | c :: p', d :: s' => (c =c d) && HasPrefix s' p'
  | _, _ => false
  end.
Definition HasSuffix (s p : bytes) : bool :=
  bool_decide (length p <= length s)%nat && (drop (length s - length p) s =s p).
Definition TrimSuffix (s p : bytes) : bytes :=
  if HasSuffix s p then take (length s - length p) s else s.

(** The index of the first byte [c], [None] where Go returns -1. *)
Fixpoint IndexByte (s : bytes) (c : ascii) : option nat :=
  match s with
  | [] => None
  | d :: s' => if d =c c then Some O else S <$> IndexByte s' c
  end.

(** The index of the first occurrence of [sub]. *)
Fixpoint Index (s sub : bytes) : option nat :=
  if HasPrefix s sub then Some O
  else match s with
       | [] => None
       | _ :: s' => S <$> Index s' sub
       end.
(** [strings.LastIndex] for one byte. *)
Fixpoint LastIndexByte (s : bytes) (c : ascii) : option nat :=
  match s with
  | [] => None
  | d :: s' =>
    match LastIndexByte s' c with
    | Some i => Some (S i)
    | None => if d =c c then Some O else None
    end
  end.
Definition Contains (s sub : bytes) : bool :=
  match Index s sub with Some _ => true | None => false end.

(** ** Splitting and joining *)

(** [strings.Split] with a nonempty separator: [cur] holds the bytes of the
    current field, [skip] the bytes of a matched separator still to pass. *)
Fixpoint split_go (sep : bytes) (skip : nat) (cur s : bytes) : list bytes :=
  match s with
  | [] => [cur]
  | c :: s' =>
    match skip with
    | S k => split_go sep k cur s'
    | O => if HasPrefix s sep then cur :: split_go sep (pred (length sep)) [] s'
           else split_go sep 0 (cur ++ [c]) s'
    end
  end.
Definition Split (s sep : bytes) : list bytes := split_go sep 0 [] s.

(** [strings.SplitN] with [n >= 1]: at most [n] fields, the last one unsplit. *)
Fixpoint SplitN (s sep : bytes) (n : nat) : list bytes :=
  match n with
  | O => []
  | S O => [s]
  | S n' =>
    match Index s sep with
    | None => [s]
    | Some i => take i s :: SplitN (drop (i + length sep) s) sep n'
    end
  end.

Fixpoint Join (parts : list bytes) (sep : bytes) : bytes :=
  match parts with
  | [] => []
  | [p] => p
  | p :: rest => p ++ sep ++ Join rest sep
  end.

(** ** Trimming *)

(** The encodings of the runes [unicode.IsSpace] accepts. *)
Definition space_runes : list Z :=
  [9; 10; 11; 12; 13; 32; 0x85; 0xA0; 0x1680; 0x2000; 0x2001; 0x2002; 0x2003; 0x2004;
   0x2005; 0x2006; 0x2007; 0x2008; 0x2009; 0x200A; 0x2028; 0x2029; 0x202F; 0x205F; 0x3000].
Definition spaces : list bytes := Eval vm_compute in (encode_rune <$> space_runes).

(** Drop one leading element of [ws], if [s] starts with one. *)
Definition trim_left1 (ws : list bytes) (s : bytes) : option bytes :=
  match List.find (HasPrefix s) ws with
  | Some w => Some (drop (length w) s)
  | None => None
  end.
Fixpoint trim_left_go (fuel : nat) (ws : list bytes) (s : bytes) : bytes :=
  match fuel with
  | O => s
  | S f => match trim_left1 ws s with
           | Some s' => trim_left_go f ws s'
           | None => s
           end
  end.
Definition trim_left (ws : list bytes) (s : bytes) : bytes := trim_left_go (length s) ws s.
Definition trim_right (ws : list bytes) (s : bytes) : bytes :=
  reverse (trim_left (reverse <$> ws) (reverse s)).
Definition TrimSpace (s : bytes) : bytes := trim_right spaces (trim_left spaces s).

(** [strings.Trim(s, cutset)] for a one-byte cutset. *)
Definition Trim1 (s : bytes) (c : ascii) : bytes :=
  trim_right [[c]] (trim_left [[c]] s).

(** ** strconv *)
Definition digit (d : Z) : ascii := byte_of (48 + d).
Definition is_digit (c : ascii) : bool := in_range 48 57 (bval c).

Fixpoint format_go (fuel : nat) (n : Z) : bytes :=
  match fuel with
  | O => []
  | S f => if n <? 10 then [digit n] else format_go f (n / 10) ++ [digit (n mod 10)]
  end.
(** [strconv.FormatUint(n, 10)]; a number has at most as many decimal as
    binary digits. *)
Definition FormatUint (n : Z) : bytes := format_go (S (Z.to_nat (Z.log2 n))) n.
Definition FormatInt (n : Z) : bytes :=
  if n <? 0 then "-"%char :: FormatUint (- n) else FormatUint n.
Definition Itoa : Z -> bytes := FormatInt.

(** The digit value of a byte in [ParseUint], where letters count from 10. *)
Definition digit_val (c : ascii) : option Z :=
  let x := bval c in
  if in_range 48 57 x then Some (x - 48)
  else if in_range 97 122 x then Some (x - 87)
  else if in_range 65 90 x then Some (x - 55)
  else None.

Definition cutoff10 : Z := (2 ^ 64 - 1) / 10 + 1.

Fixpoint parse_go (maxVal : Z) (n : Z) (s : bytes) : num_error + Z :=
  match s with
  | [] => inr n
  | c :: s' =>
    match digit_val c with
    | Some d =>
      if 10 <=? d then inl ErrSyntax
      else if cutoff10 <=? n then inl ErrRange
      else let n1 := n * 10 + d in
           if maxVal <? n1 then inl ErrRange else parse_go maxVal n1 s'
    | None => inl ErrSyntax
    end
  end.

Definition parse_uint (bits : Z) (s : bytes) : num_error + Z :=
  match s with
  | [] => inl ErrSyntax
  | _ => parse_go (2 ^ bits - 1) 0 s
  end.

Definition ParseUint (s : bytes) (bits : Z) : res Z :=
  match parse_uint bits s with
  | inr n => Ok n
  | inl e => Err (NumError "ParseUint" s e)
  end.

Definition parse_int (s : bytes) : num_error + Z :=
  let (neg, t) :=
    match s with
    | c :: t => if c =c "+" then (false, t) else if c =c "-" then (true, t) else (false, s)
    | [] => (false, s)
    end in
  match parse_uint 64 t with
  | inl ErrSyntax => inl ErrSyntax
  | inl ErrRange => inl ErrRange
  | inr un =>
    if negb neg && (2 ^ 63 <=? un) then inl ErrRange
    else if neg && (2 ^ 63 <? un) then inl ErrRange
    else inr (if neg then - un else un)
  end.
(** [strconv.ParseInt(s, 10, 64)] and [strconv.Atoi(s)]. *)
Definition ParseInt (s : bytes) : res Z :=
  match parse_int s with
  | inr n => Ok n
  | inl e => Err (NumError "ParseInt" s e)
  end.
(** [strconv.ParseInt(s, 10, 32)] *)
Definition ParseInt32 (s : bytes) : res Z :=
  let (neg, t) :=
    match s with
    | c :: t => if c =c "+" then (false, t) else if c =c "-" then (true, t) else (false, s)
    | [] => (false, s)
    end in
  match parse_uint 32 t with
  | inl e => Err (NumError "ParseInt" s e)
  | inr un =>
    if (negb neg && (2 ^ 31 <=? un)) || (neg && (2 ^ 31 <? un)) then Err (NumError "ParseInt" s ErrRange)
    else Ok (if neg then - un else un)
  end.
Definition Atoi (s : bytes) : res Z :=
  match parse_int s with
  | inr n => Ok n
  | inl e => Err (NumError "Atoi" s e)
  end.

(** ** fmt's %q and error messages *)
Section Quote.
Context {U : Unicode}.

Definition hex (d : Z) : ascii := byte_of (if d <? 10 then 48 + d else 87 + d).
Definition hex_digits (w : nat) (r : Z) : bytes :=
  (fun i => hex (r / 16 ^ Z.of_nat i mod 16)) <$> reverse (seq 0 w).

Definition BSL : ascii := "092".

(** [strconv.appendEscapedRune] for the quote character [q]. *)
Definition escape_rune (q : ascii) (r : Z) : bytes :=
  if (r =? bval q) || (r =? bval BSL) then [BSL; byte_of r]
  else if IsPrint r then encode_rune r
  else if r =? 7 then [BSL; "a"%char] else if r =? 8 then [BSL; "b"%char]
  else if r =? 12 then [BSL; "f"%char] else if r =? 10 then [BSL; "n"%char]
  else if r =? 13 then [BSL; "r"%char] else if r =? 9 then [BSL; "t"%char]
  else if r =? 11 then [BSL; "v"%char]
  else if (r <? 32) || (r =? 127) then [BSL; "x"%char] ++ hex_digits 2 r
  else if r <? 0x10000 then [BSL; "u"%char] ++ hex_digits 4 r
  else [BSL; "U"%char] ++ hex_digits 8 r.

(** [strconv.Quote]: invalid bytes are written as \x escapes. *)
Fixpoint quote_go (skip : nat) (s : bytes) : bytes :=
  match s with
  | [] => []
  | c :: t =>
    match skip with
    | S k => quote_go k t
    | O =>
      match decode_rune s with
      | Some (r, w) => escape_rune DQ r ++ quote_go (pred w) t
      | None => [BSL; "x"%char] ++ hex_digits 2 (bval c) ++ quote_go 0 t
      end
    end
  end.
Definition Quote (s : bytes) : bytes := [DQ] ++ quote_go 0 s ++ [DQ].

(** %q of a [byte]: a quoted rune. *)
Definition QuoteRune (c : ascii) : bytes :=
  ["039"%char] ++ escape_rune "039"%char (bval c) ++ ["039"%char].

Definition num_error_text (e : num_error) : bytes :=
  match e with ErrSyntax => "invalid syntax" | ErrRange => "value out of range" end.

Definition status_text (t : StatusResponseType) : bytes :=
  match t with
  | StatusOK => "OK" | StatusNO => "NO" | StatusBAD => "BAD"
  | StatusBYE => "BYE" | StatusPREAUTH => "PREAUTH" | StatusOther s => s
  end.

(** [StatusResponse.Error] *)
Definition StatusResponse_Error (ty : StatusResponseType) (code : bytes)
    (arg : option bytes) (text : bytes) : bytes :=
  status_text ty
  ++ (if code =s [] then []
      else " [" ++ code ++ (match arg with Some a => " " ++ a | None => [] end) ++ "]")
  ++ (if text =s [] then [] else " " ++ text).

(** The [Error] method of each error type. *)
Fixpoint Error (e : error) : bytes :=
  match e with
  | EOF => "EOF"
  | ErrUnexpectedEOF => "unexpected EOF"
  | NumError fn s k =>
      ("strconv." : bytes) ++ fn ++ ": parsing " ++ Quote s ++ ": " ++ num_error_text k
  | Errorf args => concat ((fun a => fmt_text a) <$> args)
  | IMAPError ty code arg text => StatusResponse_Error ty code arg text
  | MemError m => m
  end
with fmt_text (a : fmt_arg) : bytes :=
  match a with
  | Txt s => s
  | QByte c => QuoteRune c
  | QStr s => Quote s
  | Wrap e => Error e
  end.
End Quote.

(** ** Lemmas: case *)
Section CaseFacts.
Context {U : Unicode}.

Definition upper_char (c : ascii) : ascii := byte_of (upper_ascii (bval c)).
Definition lower_char (c : ascii) : ascii := byte_of (lower_ascii (bval c)).

Lemma encode_runes_ascii (f : Z -> Z) s :
  (forall r, 0 <= r < 0x80 -> 0 <= f r < 0x80) -> ascii_string s = true ->
  encode_runes (f <$> runes s) = (fun c => byte_of (f (bval c))) <$> s.
Proof.
  intros Hf Hs. rewrite runes_ascii by done. unfold encode_runes, ascii_string in *.
  induction s as [|c s IH]; [done|]. simpl in *. apply andb_true_iff in Hs as [Hc Hs].
  unfold is_ascii in Hc. to_prop. pose proof (bval_range c).
  rewrite encode_rune_ascii by (apply Hf; lia). simpl. f_equal. by apply IH.
Qed.

Lemma ToUpper_ascii s : ascii_string s = true -> ToUpper s = upper_char <$> s.
Proof.
  intros Hs. unfold ToUpper. rewrite encode_runes_ascii; [|intros r Hr|done].
  - apply list_fmap_ext. intros i c Hc. unfold upper_char. rewrite ToUpperRune_ascii; [done|].
    apply forallb_Forall in Hs. rewrite Forall_lookup in Hs. specialize (Hs _ _ Hc).
    unfold is_ascii in Hs. to_prop. pose proof (bval_range c). lia.
  - rewrite ToUpperRune_ascii by done. unfold upper_ascii, in_range.
    destruct (_ && _) eqn:E; to_prop; lia.
Qed.

Lemma ToUpper_app p s : ascii_string p = true -> ToUpper (p ++ s) = ToUpper p ++ ToUpper s.
Proof.
  intros Hp. unfold ToUpper. rewrite runes_ascii_app, (runes_ascii p) by done.
  rewrite fmap_app. unfold encode_runes. by rewrite fmap_app, concat_app.
Qed.
Lemma ToUpper_idem s : ToUpper (ToUpper s) = ToUpper s.
Proof.
  unfold ToUpper. rewrite runes_encode_runes.
  - rewrite <- list_fmap_compose. f_equal. apply list_fmap_ext. intros i r _. apply ToUpperRune_idem.
  - apply Forall_fmap. eapply list.Forall_impl; [apply runes_valid|]. intros r. apply ToUpperRune_valid.
Qed.

Lemma EqualFold_refl s : EqualFold s s = true.
Proof. unfold EqualFold. by rewrite bool_decide_true. Qed.
Lemma EqualFold_sym s t : EqualFold s t = EqualFold t s.
Proof. unfold EqualFold. apply bool_decide_ext. by split. Qed.
Lemma EqualFold_trans s t u :
  EqualFold s t = true -> EqualFold t u = true -> EqualFold s u = true.
Proof. unfold EqualFold. rewrite !bool_decide_eq_true. congruence. Qed.
Lemma EqualFold_spec s t : EqualFold s t = true <-> fold_key s = fold_key t.
Proof. apply bool_decide_eq_true. Qed.
Lemma EqualFold_cong s t u : EqualFold s t = true -> EqualFold s u = EqualFold t u.
Proof. unfold EqualFold. rewrite bool_decide_eq_true. intros ->. done. Qed.
End CaseFacts.

(** ** Lemmas: searching *)
Lemma HasPrefix_spec s p : HasPrefix s p = true <-> exists t, s = p ++ t.
Proof.
  revert s. induction p as [|c p IH]; intros s; simpl; [by destruct s; split; eauto|].
  destruct s as [|d s]; simpl; [split; [done|by intros [? ?]]|].
  rewrite andb_true_iff, beqb_true, IH. split.
  - intros [-> [t ->]]. by exists t.
  - intros [t [= -> ->]]. eauto.
Qed.

Lemma HasPrefix_app p t : HasPrefix (p ++ t) p = true.
Proof. apply HasPrefix_spec. eauto. Qed.

Lemma IndexByte_Some s c i :
  IndexByte s c = Some i <->
  exists t, s = take i s ++ c :: t /\ c ∉ take i s /\ t = drop (S i) s /\ (i < length s)%nat.
Proof.
  revert i. induction s as [|d s IH]; intros i; simpl.
  - split; [done|]. by intros (? & ? & ? & ? & ?%Nat.nlt_0_r).
  - destruct (d =c c) eqn:E; to_prop; subst.
    + split.
      * intros [= <-]. exists s. simpl. repeat split; [set_solver|lia].
      * intros (t & H & Hn & _ & _). destruct i; [done|]. simpl in *. set_solver.
    + destruct i as [|i]; simpl.
      * split; [destruct (IndexByte s c); naive_solver|]. intros (t & [= ? ?] & _). done.
      * transitivity (IndexByte s c = Some i).
        { destruct (IndexByte s c); simpl; naive_solver. }
        rewrite IH. split; intros (t & H1 & H2 & H3 & H4); exists t.
        -- repeat split; [by rewrite <- H1|set_solver|done|lia].
        -- repeat split; [by injection H1|set_solver|done|lia].
Qed.

Lemma IndexByte_app s c t : c ∉ s -> IndexByte (s ++ c :: t) c = Some (length s).
Proof.
  induction s as [|d s IH]; simpl; intros Hn.
  - by rewrite beqb_refl.
  - destruct (d =c c) eqn:E; to_prop; [set_solver|]. rewrite IH; set_solver.
Qed.

Lemma IndexByte_None s c : IndexByte s c = None <-> c ∉ s.
Proof.
  induction s as [|d s IH]; simpl; [set_solver|].
  destruct (d =c c) eqn:E; to_prop; subst; [set_solver|].
  rewrite fmap_None, IH. set_solver.
Qed.

Lemma IndexByte_cut s c i :
  IndexByte s c = Some i -> s = take i s ++ c :: drop (S i) s /\ c ∉ take i s.
Proof. intros (t & ? & ? & -> & _)%IndexByte_Some. done. Qed.

(** ** Lemmas: splitting *)
Lemma HasPrefix1 s c : HasPrefix s [c] = match s with d :: _ => c =c d | [] => false end.
Proof. destruct s as [|d s]; simpl; [done|]. destruct s; simpl; by rewrite andb_true_r. Qed.

Lemma split1_field c cur s :
  c ∉ s -> forall rest, split_go [c] 0 cur (s ++ c :: rest) = (cur ++ s) :: split_go [c] 0 [] rest.
Proof.
  revert cur. induction s as [|d s IH]; intros cur Hn rest.
  - cbn [app split_go]. by rewrite HasPrefix1, beqb_refl, app_nil_r.
  - cbn [app split_go]. rewrite HasPrefix1.
    destruct (c =c d) eqn:E; to_prop; [set_solver|].
    rewrite IH by set_solver. by rewrite <- app_assoc.
Qed.

Lemma split1_last c cur s : c ∉ s -> split_go [c] 0 cur s = [cur ++ s].
Proof.
  revert cur. induction s as [|d s IH]; intros cur Hn; cbn [split_go]; [by rewrite app_nil_r|].
  rewrite HasPrefix1. destruct (c =c d) eqn:E; to_prop; [set_solver|].
  rewrite IH by set_solver. by rewrite <- app_assoc.
Qed.

(** Splitting at a byte inverts joining with it. *)
Lemma Split_Join1 c parts :
  parts <> [] -> Forall (fun p => c ∉ p) parts -> Split (Join parts [c]) [c] = parts.
Proof.
  unfold Split. intros Hne HF. induction HF as [|p parts Hp HF IH]; [done|].
  destruct parts as [|q parts].
  - simpl. by rewrite split1_last.
  - change (Join (p :: q :: parts) [c]) with (p ++ c :: Join (q :: parts) [c]).
    rewrite split1_field by done. by rewrite IH.
Qed.

Lemma Index1 s c : Index s [c] = IndexByte s c.
Proof.
  induction s as [|d s IH]; [done|]. cbn [Index IndexByte]. rewrite HasPrefix1, IH.
  destruct (c =c d) eqn:E1, (d =c c) eqn:E2; to_prop; congruence.
Qed.
Lemma SplitN1_field c s t n : c ∉ s -> SplitN (s ++ c :: t) [c] (S (S n)) = s :: SplitN t [c] (S n).
Proof.
  intros Hc. cbn [SplitN]. rewrite Index1, IndexByte_app by done. f_equal; [by rewrite take_app_length|].
  f_equal. cbn [length]. rewrite drop_app_add. done.
Qed.
Lemma SplitN1_last c s n : c ∉ s -> SplitN s [c] (S n) = [s].
Proof. intros Hc. destruct n; [done|]. cbn [SplitN]. by rewrite Index1, (proj2 (IndexByte_None s c)). Qed.

Lemma split_go_ne sep k cur s : split_go sep k cur s <> [].
Proof.
  revert k cur. induction s as [|c s IH]; intros k cur; simpl; [done|].
  destruct k; [|apply IH]. by case_if.
Qed.

(** Joining at a byte inverts splitting at it, and no field has the byte. *)
Lemma Join_split1 c s cur : Join (split_go [c] 0 cur s) [c] = cur ++ s.
Proof.
  revert cur. induction s as [|d s IH]; intros cur; cbn [split_go]; [by rewrite app_nil_r|].
  rewrite HasPrefix1. destruct (c =c d) eqn:E; to_prop; subst.
  - pose proof (split_go_ne [d] 0 [] s). simpl pred.
    change (Join (?p :: ?q) ?r) with (Join ([p] ++ q) r).
    destruct (split_go [d] 0 [] s) as [|x l] eqn:El; [done|].
    change (Join ([cur] ++ x :: l) [d]) with (cur ++ [d] ++ Join (x :: l) [d]).
    rewrite <- El, IH. done.
  - rewrite IH. by rewrite <- app_assoc.
Qed.

Lemma Join_Split1 c s : Join (Split s [c]) [c] = s.
Proof. apply Join_split1. Qed.

(** ** Lemmas: trimming *)

(** Printable ASCII other than the space. *)
Definition graphic (c : ascii) : bool := in_range 0x21 0x7E (bval c).

Definition ws_ok (w : bytes) : bool :=
  match w with c :: _ => negb (graphic c) | [] => false end.

Lemma trim_left_id ws s :
  forallb ws_ok ws = true ->
  match s with c :: _ => graphic c = true | [] => True end -> trim_left ws s = s.
Proof.
  intros Hws Hs. unfold trim_left. destruct s as [|c s]; [done|]. simpl.
  unfold trim_left1. destruct (List.find _ ws) as [w|] eqn:E; [|done].
  apply List.find_some in E as [Hin Hp]. apply forallb_Forall in Hws.
  rewrite list.Forall_forall in Hws. specialize (Hws w ltac:(by apply list_elem_of_In)).
  destruct w as [|d w]; [done|]. simpl in *. to_prop. subst. congruence.
Qed.

Lemma TrimSpace_id s : forallb graphic s = true -> TrimSpace s = s.
Proof.
  intros Hs. unfold TrimSpace, trim_right.
  rewrite (trim_left_id spaces s); [|done|].
  2:{ destruct s as [|c s]; [done|]. by apply andb_true_iff in Hs as [? ?]. }
  rewrite trim_left_id; [by rewrite reverse_involutive|done|].
  destruct (reverse s) as [|c t] eqn:E; [done|].
  apply forallb_Forall in Hs. rewrite <- (reverse_involutive s), E in Hs.
  rewrite list.Forall_forall in Hs. apply Hs. rewrite elem_of_reverse. set_solver.
Qed.

(** ** Lemmas: numbers *)
Lemma digit_val_digit d : 0 <= d < 10 -> digit_val (digit d) = Some d.
Proof.
  intros Hd. unfold digit_val, digit. rewrite bval_byte_of_small by lia.
  unfold in_range. decide_tests. simpl. f_equal. lia.
Qed.
Lemma is_digit_digit d : 0 <= d < 10 -> is_digit (digit d) = true.
Proof. intros. unfold is_digit, digit. rewrite bval_byte_of_small by lia. apply in_range_true. lia. Qed.
Lemma is_digit_graphic c : is_digit c = true -> graphic c = true.
Proof. unfold is_digit, graphic. rewrite !in_range_true. lia. Qed.

Lemma format_go_digits fuel n :
  0 <= n -> forallb is_digit (format_go fuel n) = true.
Proof.
  revert n. induction fuel as [|f IH]; intros n Hn; simpl; [done|].
  destruct (n <? 10) eqn:E; to_prop; simpl; [by rewrite is_digit_digit|].
  rewrite forallb_app, IH by (apply Z.div_pos; lia). simpl.
  rewrite is_digit_digit; [done|]. apply Z.mod_pos_bound; lia.
Qed.

Lemma FormatUint_digits n : 0 <= n -> forallb is_digit (FormatUint n) = true.
Proof. apply format_go_digits. Qed.

Lemma FormatUint_ne n : FormatUint n <> [].
Proof. unfold FormatUint. simpl. case_if; [done|]. by destruct (format_go _ _). Qed.

Lemma parse_go_app mv n s t :
  parse_go mv n (s ++ t) =
  match parse_go mv n s with inr m => parse_go mv m t | inl e => inl e end.
Proof.
  revert n. induction s as [|c s IH]; intros n; simpl; [done|].
  destruct (digit_val c) as [d|]; [|done].
  destruct (10 <=? d); [done|]. destruct (cutoff10 <=? n); [done|].
  destruct (mv <? _); [done|]. apply IH.
Qed.

Lemma parse_format_go mv fuel n :
  mv < 2 ^ 64 -> 0 <= n <= mv -> n < 2 ^ Z.of_nat fuel -> (0 < fuel)%nat ->
  parse_go mv 0 (format_go fuel n) = inr n.
Proof.
  intros Hmv. revert n. induction fuel as [|f IH]; intros n Hn Hf Hp; [lia|]. simpl.
  destruct (n <? 10) eqn:E; to_prop.
  - simpl. rewrite digit_val_digit by lia. unfold cutoff10. by decide_tests.
  - pose proof (Z.div_mod n 10 ltac:(lia)). pose proof (Z.mod_pos_bound n 10 ltac:(lia)).
    rewrite Nat2Z.inj_succ, Z.pow_succ_r in Hf by lia.
    destruct f as [|f]; [simpl in Hf; lia|].
    rewrite parse_go_app, IH by lia. cbn [parse_go].
    rewrite digit_val_digit by lia. change cutoff10 with 1844674407370955162.
    decide_tests. f_equal. lia.
Qed.

(** Parsing what [FormatUint] printed gives the number back. *)
Lemma parse_uint_FormatUint bits n :
  0 <= bits <= 64 -> 0 <= n < 2 ^ bits -> parse_uint bits (FormatUint n) = inr n.
Proof.
  intros Hb Hn. unfold parse_uint.
  destruct (FormatUint n) eqn:E; [by apply FormatUint_ne in E|]. rewrite <- E.
  apply parse_format_go; [|lia| |lia].
  - assert (2 ^ bits <= 2 ^ 64) by (apply Z.pow_le_mono_r; lia). lia.
  - rewrite Nat2Z.inj_succ, Z2Nat.id by apply Z.log2_nonneg.
    destruct (decide (n = 0)) as [->|]; [done|]. apply Z.log2_spec. lia.
Qed.

Lemma ParseUint_FormatUint bits n :
  0 <= bits <= 64 -> 0 <= n < 2 ^ bits -> ParseUint (FormatUint n) bits = Ok n.
Proof. intros. unfold ParseUint. by rewrite parse_uint_FormatUint. Qed.

Lemma FormatUint_inj n m :
  0 <= n < 2 ^ 64 -> 0 <= m < 2 ^ 64 -> FormatUint n = FormatUint m -> n = m.
Proof.
  intros Hn Hm E. pose proof (parse_uint_FormatUint 64 n ltac:(lia) Hn) as H1.
  rewrite E, (parse_uint_FormatUint 64 m) in H1 by lia. by injection H1.
Qed.

Lemma parse_go_range mv n s m :
  0 <= n <= mv -> parse_go mv n s = inr m -> 0 <= m <= mv.
Proof.
  revert n. induction s as [|c s IH]; intros n Hn; simpl; [intros [= <-]; lia|].
  destruct (digit_val c) as [d|] eqn:Ed; [|done].
  assert (0 <= d).
  { unfold digit_val, in_range in Ed. repeat case_match; simplify_eq; to_prop; lia. }
  repeat case_match; try done. to_prop. apply IH. lia.
Qed.

Lemma ParseUint_range s bits n :
  0 <= bits -> ParseUint s bits = Ok n -> 0 <= n < 2 ^ bits.
Proof.
  intros Hb. unfold ParseUint, parse_uint. destruct s as [|c s]; [done|].
  destruct (parse_go _ 0 (c :: s)) eqn:E; intros [= <-].
  pose proof (Z.pow_pos_nonneg 2 bits ltac:(lia) Hb).
  apply parse_go_range in E; lia.
Qed.

Lemma parse_int_FormatInt n : 0 <= n < 2 ^ 63 -> parse_int (FormatUint n) = inr n.
Proof.
  intros Hn. pose proof (FormatUint_digits n ltac:(lia)) as Hd.
  pose proof (parse_uint_FormatUint 64 n ltac:(lia) ltac:(lia)) as Hp.
  unfold parse_int. destruct (FormatUint n) as [|c s] eqn:E; [by apply FormatUint_ne in E|].
  simpl in Hd. apply andb_true_iff in Hd as [Hc _].
  destruct (c =c "+") eqn:E1; to_prop; [by subst|].
  destruct (c =c "-") eqn:E2; to_prop; [by subst|].
  rewrite Hp. simpl. by decide_tests.
Qed.
