(* ===== verification/NumSet.v ===== *)
(** * Number sets (numset.go)

    Sequence and UID sets as lists of ranges, their textual form and their
    parser.  In a range a bound of 0 stands for the asterisk. *)

From S2P Require Import Prelude Utf8 GoStrings.

(** ** Data and operations *)
Record NumRange := mkRange { Start : Z; Stop : Z }.

#[export] Instance NumRange_eq_dec : EqDecision NumRange.
Proof. solve_decision. Defined.

Definition NumRange_Contains (r : NumRange) (num : Z) : bool :=
  if Stop r =? 0 then Start r <=? num
  else
    let '(start, stop) :=
      if Stop r <? Start r then (Stop r, Start r) else (Start r, Stop r) in
    (start <=? num) && (num <=? stop).

Definition NumRange_String (r : NumRange) : bytes :=
  if Start r =? Stop r then FormatUint (Start r)
  else
    let start := FormatUint (Start r) in
    let stop := if Stop r =? 0 then ("*" : bytes) else FormatUint (Stop r) in
    start ++ ":" ++ stop.

Definition parseSeqNum (s : bytes) : res Z :=
  if s =s "*" then Ok 0
  else
    match ParseUint s 32 with
    | Ok n =>
      if n =? 0 then Err (emsg "imap: sequence number must be non-zero") else Ok (u32 n)
    | Err e => Err (Errorf [Txt "imap: invalid number "; QStr s; Txt ": "; Wrap e])
    | Panic => Panic
    | Hang => Hang
    end.

(** One field of a set: a number or a range. *)
Definition parseNumPart (part : bytes) : res NumRange :=
  let part := TrimSpace part in
  if part =s [] then Err (emsg "imap: empty range in number set")
  else
    match IndexByte part ":" with
    | None => num ← parseSeqNum part; Ok (mkRange num num)
    | Some colonIdx =>
      start ← parseSeqNum (take colonIdx part);
      stop ← parseSeqNum (drop (S colonIdx) part);
      Ok (mkRange start stop)
    end.

Fixpoint parseNumParts (parts : list bytes) : res (list NumRange) :=
  match parts with
  | [] => Ok []
  | p :: rest => r ← parseNumPart p; rs ← parseNumParts rest; Ok (r :: rs)
  end.

Definition parseNumSet (s : bytes) : res (list NumRange) :=
  if s =s [] then Err (emsg "imap: empty number set")
  else parseNumParts (Split s ",").

Definition formatNumSet (ranges : list NumRange) : bytes :=
  match ranges with
  | [] => []
  | _ => Join (NumRange_String <$> ranges) ","
  end.

Definition ranges_dynamic (set : list NumRange) : bool :=
  existsb (fun r => (Start r =? 0) || (Stop r =? 0)) set.
Definition ranges_contain (set : list NumRange) (num : Z) : bool :=
  existsb (fun r => NumRange_Contains r num) set.

(** [SeqSet] and [UIDSet] are distinct types over the same ranges. *)
Record SeqSet := mkSeqSet { SeqSet_Ranges : list NumRange }.
Record UIDSet := mkUIDSet { UIDSet_Ranges : list NumRange }.

Definition ParseSeqSet (s : bytes) : res SeqSet := ranges ← parseNumSet s; Ok (mkSeqSet ranges).
Definition SeqSet_String (ss : SeqSet) : bytes := formatNumSet (SeqSet_Ranges ss).
Definition SeqSet_Dynamic (ss : SeqSet) : bool := ranges_dynamic (SeqSet_Ranges ss).
Definition SeqSet_Contains (ss : SeqSet) (num : Z) : bool := ranges_contain (SeqSet_Ranges ss) num.
Definition SeqSet_AddNum (ss : SeqSet) (nums : list Z) : SeqSet :=
  mkSeqSet (SeqSet_Ranges ss ++ ((fun n => mkRange n n) <$> nums)).
Definition SeqSet_AddRange (ss : SeqSet) (start stop : Z) : SeqSet :=
  mkSeqSet (SeqSet_Ranges ss ++ [mkRange start stop]).
Definition SeqSet_IsEmpty (ss : SeqSet) : bool := (length (SeqSet_Ranges ss) =? 0)%nat.

Definition ParseUIDSet (s : bytes) : res UIDSet := ranges ← parseNumSet s; Ok (mkUIDSet ranges).
Definition UIDSet_String (us : UIDSet) : bytes := formatNumSet (UIDSet_Ranges us).
Definition UIDSet_Dynamic (us : UIDSet) : bool := ranges_dynamic (UIDSet_Ranges us).
Definition UIDSet_Contains (us : UIDSet) (uid : Z) : bool := ranges_contain (UIDSet_Ranges us) uid.
Definition UIDSet_AddNum (us : UIDSet) (uids : list Z) : UIDSet :=
  mkUIDSet (UIDSet_Ranges us ++ ((fun n => mkRange n n) <$> uids)).
Definition UIDSet_AddRange (us : UIDSet) (start stop : Z) : UIDSet :=
  mkUIDSet (UIDSet_Ranges us ++ [mkRange start stop]).
Definition UIDSet_IsEmpty (us : UIDSet) : bool := (length (UIDSet_Ranges us) =? 0)%nat.

(** The [NumSet] interface: one of the two set types. *)
Inductive NumSet :=
| NumSeq (s : SeqSet)
| NumUID (s : UIDSet).
Definition Ranges (ns : NumSet) : list NumRange :=
  match ns with NumSeq s => SeqSet_Ranges s | NumUID s => UIDSet_Ranges s end.
Definition NumSet_String (ns : NumSet) : bytes :=
  match ns with NumSeq s => SeqSet_String s | NumUID s => UIDSet_String s end.
Definition NumSet_Dynamic (ns : NumSet) : bool :=
  match ns with NumSeq s => SeqSet_Dynamic s | NumUID s => UIDSet_Dynamic s end.

(** [imap.NumKind] *)
Inductive NumKind := NumKindSeq | NumKindUID.
#[export] Instance NumKind_eq_dec : EqDecision NumKind.
Proof. solve_decision. Defined.

(** ** Well-formed ranges *)

(** What the parser can produce: 32-bit bounds. *)
Definition range_wf (r : NumRange) : Prop := 0 <= Start r < 2 ^ 32 /\ 0 <= Stop r < 2 ^ 32.
(** A range whose first bound is a number, not the asterisk. *)
Definition start_num (r : NumRange) : Prop := Start r <> 0.

Lemma parseSeqNum_range s n : parseSeqNum s = Ok n -> 0 <= n < 2 ^ 32.
Proof.
  unfold parseSeqNum. case_if; [by intros [= <-]|].
  destruct (ParseUint s 32) as [m|e| |] eqn:E; try done.
  apply ParseUint_range in E; [|done]. case_if; [done|]. intros [= <-]. apply u32_range.
Qed.

Lemma parseNumPart_wf p r : parseNumPart p = Ok r -> range_wf r.
Proof.
  unfold parseNumPart. case_if; [done|]. destruct (IndexByte _ _).
  - rewrite res_bind_Ok. intros (s & Hs & H). apply res_bind_Ok in H as (t & Ht & [= <-]).
    split; simpl; by eapply parseSeqNum_range.
  - rewrite res_bind_Ok. intros (s & Hs & [= <-]). split; simpl; by eapply parseSeqNum_range.
Qed.

Lemma parseNumParts_Forall2 parts rs :
  parseNumParts parts = Ok rs <-> Forall2 (fun p r => parseNumPart p = Ok r) parts rs.
Proof.
  revert rs. induction parts as [|p parts IH]; intros rs; simpl.
  - split; [intros [= <-]; constructor|by inversion 1].
  - rewrite res_bind_Ok. setoid_rewrite res_bind_Ok. setoid_rewrite IH. split.
    + intros (r & Hr & rs' & Hrs & [= <-]). by constructor.
    + inversion 1; subst. eauto 10.
Qed.

Lemma parseNumSet_wf s rs : parseNumSet s = Ok rs -> Forall range_wf rs /\ rs <> [].
Proof.
  unfold parseNumSet. case_if; [done|]. rewrite parseNumParts_Forall2. intros HF. split.
  - eapply Forall2_Forall_r; [done|]. apply list.Forall_true. apply parseNumPart_wf.
  - intros ->. inversion HF as [H|]. symmetry in H. by apply split_go_ne in H.
Qed.

(** ** Parsing a printed number *)
Lemma FormatUint_no_byte n c : 0 <= n -> is_digit c = false -> c ∉ FormatUint n.
Proof.
  intros Hn Hc Hin. pose proof (FormatUint_digits n Hn) as H. apply forallb_Forall in H.
  rewrite list.Forall_forall in H. specialize (H c Hin). congruence.
Qed.

Lemma parseSeqNum_FormatUint n :
  0 <= n < 2 ^ 32 ->
  parseSeqNum (FormatUint n) =
  if n =? 0 then Err (emsg "imap: sequence number must be non-zero") else Ok n.
Proof.
  intros Hn. unfold parseSeqNum.
  rewrite bool_decide_eq_false_2.
  2:{ intros H. apply (FormatUint_no_byte n "*"%char ltac:(lia) ltac:(done)). rewrite H. set_solver. }
  rewrite ParseUint_FormatUint by lia. by rewrite u32_small.
Qed.

Lemma FormatUint_graphic n : 0 <= n -> forallb graphic (FormatUint n) = true.
Proof.
  intros Hn. pose proof (FormatUint_digits n Hn) as H. rewrite forallb_Forall in *.
  eapply list.Forall_impl; [done|]. simpl. apply is_digit_graphic.
Qed.

Lemma NumRange_String_graphic r : range_wf r -> forallb graphic (NumRange_String r) = true.
Proof.
  intros [H1 H2]. unfold NumRange_String. case_if; [apply FormatUint_graphic; lia|].
  rewrite !forallb_app, FormatUint_graphic by lia. case_if; [done|].
  by rewrite FormatUint_graphic by lia.
Qed.

Lemma NumRange_String_ne r : NumRange_String r <> [].
Proof.
  unfold NumRange_String. case_if; [apply FormatUint_ne|].
  destruct (FormatUint (Start r)) eqn:E; [by apply FormatUint_ne in E|done].
Qed.

Lemma parseNumPart_String r :
  range_wf r ->
  parseNumPart (NumRange_String r) =
  if Start r =? 0 then Err (emsg "imap: sequence number must be non-zero") else Ok r.
Proof.
  intros Hwf. unfold parseNumPart.
  rewrite TrimSpace_id by by apply NumRange_String_graphic.
  rewrite bool_decide_eq_false_2 by apply NumRange_String_ne.
  destruct r as [a b], Hwf as [Ha Hb]. simpl in *. unfold NumRange_String. simpl.
  assert (Hcol : (":"%char) ∉ FormatUint a) by (apply FormatUint_no_byte; [lia|done]).
  destruct (Z.eqb_spec a b) as [->|Hab].
  - assert (IndexByte (FormatUint b) ":" = None) as -> by by apply IndexByte_None.
    rewrite parseSeqNum_FormatUint by done. by destruct (b =? 0).
  - change (bytes_of ":" ++ ?x) with (":"%char :: x).
    rewrite IndexByte_app by done. rewrite take_app_length.
    rewrite drop_app_ge by lia. replace (S _ - _)%nat with 1%nat by lia. cbn [drop]. rewrite ?drop_0.
    rewrite parseSeqNum_FormatUint by done. destruct (Z.eqb_spec a 0); [done|]. simpl.
    destruct (Z.eqb_spec b 0) as [->|]; [done|].
    rewrite parseSeqNum_FormatUint by done. by decide_tests.
Qed.

Lemma NumRange_String_no_comma r : range_wf r -> (","%char) ∉ NumRange_String r.
Proof.
  intros [H1 H2] Hin. unfold NumRange_String in Hin.
  assert (forall n, 0 <= n -> (","%char) ∉ FormatUint n) as Hd by (intros; by apply FormatUint_no_byte).
  destruct (Start r =? Stop r); [by eapply Hd; [|done]; lia|].
  apply elem_of_app in Hin as [Hin|Hin]; [by eapply Hd; [|done]; lia|].
  apply elem_of_app in Hin as [Hin|Hin]; [set_solver|].
  destruct (Stop r =? 0); [set_solver|]. by eapply Hd; [|done]; lia.
Qed.

Lemma parseNumSet_format rs :
  rs <> [] -> Forall range_wf rs ->
  parseNumSet (formatNumSet rs) = parseNumParts (NumRange_String <$> rs).
Proof.
  intros Hne Hwf. unfold parseNumSet, formatNumSet.
  destruct rs as [|r rs]; [done|]. rewrite bool_decide_eq_false_2.
  - change (bytes_of ",") with ([","%char]). rewrite Split_Join1; [done|done|].
    apply Forall_fmap. eapply list.Forall_impl; [done|]. apply NumRange_String_no_comma.
  - pose proof (NumRange_String_ne r). simpl.
    destruct (NumRange_String r) eqn:E; [done|]. destruct rs; done.
Qed.

(** Printing and parsing back a set whose ranges start with a number. *)
Lemma parse_format_numset rs :
  rs <> [] -> Forall range_wf rs -> Forall start_num rs -> parseNumSet (formatNumSet rs) = Ok rs.
Proof.
  intros Hne Hwf Hs. rewrite parseNumSet_format, parseNumParts_Forall2 by done.
  clear Hne. induction Hwf as [|r rs Hr _ IH]; [constructor|].
  apply list.Forall_cons in Hs as [Hs Hss]. constructor; [|by apply IH].
  rewrite parseNumPart_String by done. unfold start_num in Hs. by decide_tests.
Qed.

Lemma parse_format_inv rs :
  rs <> [] -> Forall range_wf rs -> parseNumSet (formatNumSet rs) = Ok rs -> Forall start_num rs.
Proof.
  intros Hne Hwf. rewrite parseNumSet_format, parseNumParts_Forall2 by done. clear Hne.
  induction Hwf as [|r rs Hr _ IH]; [constructor|]. simpl. inversion 1; subst.
  constructor; [|by apply IH]. intros Hz. rewrite parseNumPart_String in * by done.
  by rewrite Hz in *.
Qed.

(** [C40] A set obtained from the parser prints to a text that parses back to the
    same set exactly when none of its ranges starts with the asterisk. *)
Theorem seqset_print_parse s ss :
  ParseSeqSet s = Ok ss ->
  (ParseSeqSet (SeqSet_String ss) = Ok ss <-> Forall start_num (SeqSet_Ranges ss)).
Proof.
  unfold ParseSeqSet. rewrite res_bind_Ok. intros (rs & Hp & [= <-]). simpl.
  apply parseNumSet_wf in Hp as [Hwf Hne]. unfold SeqSet_String. simpl. split.
  - rewrite res_bind_Ok. intros (rs' & Hp & [= ->]). by apply parse_format_inv.
  - intros Hs. by rewrite parse_format_numset.
Qed.
Lemma seqset_print_parse_witness :
  ParseSeqSet "3:1,7:*" = Ok (mkSeqSet [mkRange 3 1; mkRange 7 0]) /\
  ParseSeqSet (SeqSet_String (mkSeqSet [mkRange 3 1; mkRange 7 0]))
  = Ok (mkSeqSet [mkRange 3 1; mkRange 7 0]).
Proof.
  split; [by vm_compute|].
  apply (seqset_print_parse "3:1,7:*"); [by vm_compute|]. by repeat constructor.
Defined.

(** What the text of one field denotes: the numbers between its bounds, in
    either order; an asterisk as the second bound leaves the range open. *)
Definition denotes (r : NumRange) (n : Z) : Prop :=
  if Stop r =? 0 then Start r <= n
  else Z.min (Start r) (Stop r) <= n <= Z.max (Start r) (Stop r).

(** Membership in a set is membership in the interval of one of its
    ranges, whichever way round the bounds are; adding numbers or a range adds
    exactly those. *)
Theorem seqset_contains_spec (ss : SeqSet) (n : Z) :
  (SeqSet_Contains ss n = true <-> exists r, r ∈ SeqSet_Ranges ss /\ denotes r n) /\
  (forall nums, Forall (fun m => m <> 0) nums ->
     SeqSet_Contains (SeqSet_AddNum ss nums) n = SeqSet_Contains ss n || bool_decide (n ∈ nums)) /\
  (forall a b, SeqSet_Contains (SeqSet_AddRange ss a b) n
     = SeqSet_Contains ss n || NumRange_Contains (mkRange a b) n).
Proof.
  unfold SeqSet_Contains, ranges_contain, SeqSet_AddNum, SeqSet_AddRange. cbn [SeqSet_Ranges].
  split_and!.
  - rewrite existsb_exists. setoid_rewrite <- list_elem_of_In.
    assert (forall r, NumRange_Contains r n = true <-> denotes r n) as Hr.
    { intros [a b]. unfold NumRange_Contains, denotes. cbn [Start Stop].
      destruct (Z.eqb_spec b 0); [by rewrite Z.leb_le|].
      destruct (Z.ltb_spec b a); rewrite andb_true_iff, !Z.leb_le; lia. }
    by setoid_rewrite Hr.
  - intros nums Hn. rewrite existsb_app. f_equal. induction Hn as [|m nums Hm _ IH]; [done|].
    cbn [fmap list_fmap existsb]. rewrite IH. unfold NumRange_Contains at 1. cbn [Start Stop].
    destruct (Z.eqb_spec m 0); [done|]. rewrite Z.ltb_irrefl.
    apply eq_true_iff_eq. rewrite orb_true_iff, andb_true_iff, !Z.leb_le, !bool_decide_eq_true.
    rewrite elem_of_cons. intuition lia.
  - intros a b. rewrite existsb_app. simpl. by rewrite orb_false_r.
Qed.
