(* ===== verification/GoTime.v ===== *)
(** * Go's time.Time, as the code uses it

    Instants with a zone offset, the calendar, [Format] and [Parse] for the
    layouts that occur in the source.  A layout is given in the form
    [nextStdChunk] cuts it into: literal prefixes and standard chunks.  What the
    local zone makes of an abbreviation is a parameter. *)

From S2P Require Import Prelude Utf8 GoStrings.

(** Nanoseconds since 1 January of year 1 UTC, and the zone's offset in
    seconds east of UTC. *)
Record Time := mkTime { t_ns : Z; t_off : Z }.
#[export] Instance Time_eq_dec : EqDecision Time.
Proof. solve_decision. Defined.

Definition second : Z := 10 ^ 9.
Definition day24 : Z := 86400 * second.

Definition time_zero : Time := mkTime 0 0.
Definition IsZero (t : Time) : bool := t_ns t =? 0.
Definition Before (t u : Time) : bool := t_ns t <? t_ns u.
Definition TimeEqual (t u : Time) : bool := t_ns t =? t_ns u.
(** [t.Truncate(24 * time.Hour)] *)
Definition Truncate24 (t : Time) : Time := mkTime (t_ns t - t_ns t mod day24) (t_off t).

(** ** The calendar *)
Definition is_leap (y : Z) : bool :=
  (y mod 4 =? 0) && (negb (y mod 100 =? 0) || (y mod 400 =? 0)).

Definition days_before_year (y : Z) : Z :=
  let y' := y - 1 in 365 * y' + y' / 4 - y' / 100 + y' / 400.

(** Days in the year before the first of the month, for a common year. *)
Definition days_before_month (m : Z) : Z :=
  match m with
  | 1 => 0 | 2 => 31 | 3 => 59 | 4 => 90 | 5 => 120 | 6 => 151
  | 7 => 181 | 8 => 212 | 9 => 243 | 10 => 273 | 11 => 304 | 12 => 334 | _ => 365
  end.
Definition before_month (y m : Z) : Z :=
  days_before_month m + (if is_leap y && (2 <? m) then 1 else 0).
Definition daysIn (m y : Z) : Z :=
  if (m =? 2) && is_leap y then 29 else days_before_month (m + 1) - days_before_month m.

(** Days from 1 January of year 1 to the date, and back. *)
Definition days_of_date (y m d : Z) : Z := days_before_year y + before_month y m + (d - 1).

Definition year_of_days (d0 : Z) : Z * Z :=
  let n400 := d0 / 146097 in
  let d := d0 mod 146097 in
  let n100 := d / 36524 in
  let n100 := n100 - n100 / 4 in
  let d := d - 36524 * n100 in
  let n4 := d / 1461 in
  let d := d - 1461 * n4 in
  let n1 := d / 365 in
  let n1 := n1 - n1 / 4 in
  (400 * n400 + 100 * n100 + 4 * n4 + n1 + 1, d - 365 * n1).

Fixpoint month_go (fuel : nat) (y m yday : Z) : Z :=
  match fuel with
  | O => m
  | S f => if yday <? before_month y (m + 1) then m else month_go f y (m + 1) yday
  end.

Definition date_of_days (d0 : Z) : Z * Z * Z :=
  let '(y, yday) := year_of_days d0 in
  let m := month_go 11 y 1 yday in
  (y, m, yday - before_month y m + 1).

(** ** Layouts *)
Inductive std :=
| stdWeekDay | stdMonth | stdZeroDay | stdDay | stdLongYear | stdYear
| stdHour | stdZeroMinute | stdZeroSecond | stdNumTZ | stdTZ.

Record layout := mkLayout { l_chunks : list (bytes * std); l_end : bytes }.

Definition InternalDateLayout : layout :=
  mkLayout [([], stdZeroDay); ("-" : bytes, stdMonth); ("-" : bytes, stdLongYear);
            (" " : bytes, stdHour); (":" : bytes, stdZeroMinute); (":" : bytes, stdZeroSecond);
            (" " : bytes, stdNumTZ)] [].
Definition InternalDateLayout1 : layout :=
  mkLayout [([], stdDay); ("-" : bytes, stdMonth); ("-" : bytes, stdLongYear);
            (" " : bytes, stdHour); (":" : bytes, stdZeroMinute); (":" : bytes, stdZeroSecond);
            (" " : bytes, stdNumTZ)] [].
Definition RFC822Z : layout :=
  mkLayout [([], stdZeroDay); (" " : bytes, stdMonth); (" " : bytes, stdYear);
            (" " : bytes, stdHour); (":" : bytes, stdZeroMinute); (" " : bytes, stdNumTZ)] [].
Definition RFC822 : layout :=
  mkLayout [([], stdZeroDay); (" " : bytes, stdMonth); (" " : bytes, stdYear);
            (" " : bytes, stdHour); (":" : bytes, stdZeroMinute); (" " : bytes, stdTZ)] [].
(** The layouts of a Date header, with the given form of day and zone. *)
Definition mail_date (prefix : list (bytes * std)) (sep : bytes) (day zone : std) : layout :=
  mkLayout (prefix ++ [(sep, day); (" " : bytes, stdMonth); (" " : bytes, stdLongYear);
            (" " : bytes, stdHour); (":" : bytes, stdZeroMinute); (":" : bytes, stdZeroSecond);
            (" " : bytes, zone)]) [].
Definition RFC1123Z : layout := mail_date [([], stdWeekDay)] ", " stdZeroDay stdNumTZ.
Definition RFC1123 : layout := mail_date [([], stdWeekDay)] ", " stdZeroDay stdTZ.
Definition RFC1123Z1 : layout := mail_date [([], stdWeekDay)] ", " stdDay stdNumTZ.
Definition MailDate1 : layout := mail_date [] [] stdDay stdNumTZ.
Definition DateLayout : layout :=
  mkLayout [([], stdZeroDay); ("-" : bytes, stdMonth); ("-" : bytes, stdLongYear)] [].
Definition SearchDateLayout : layout :=
  mkLayout [([], stdDay); ("-" : bytes, stdMonth); ("-" : bytes, stdLongYear)] [].

Definition std_text (c : std) : bytes :=
  match c with
  | stdWeekDay => "Mon" | stdMonth => "Jan" | stdZeroDay => "02" | stdDay => "2"
  | stdLongYear => "2006" | stdYear => "06" | stdHour => "15" | stdZeroMinute => "04"
  | stdZeroSecond => "05" | stdNumTZ => "-0700" | stdTZ => "MST"
  end.
Definition layout_text (l : layout) : bytes :=
  concat ((fun '(p, c) => p ++ std_text c) <$> l_chunks l) ++ l_end l.

Definition shortMonthNames : list bytes :=
  ["Jan" : bytes; "Feb" : bytes; "Mar" : bytes; "Apr" : bytes; "May" : bytes; "Jun" : bytes;
   "Jul" : bytes; "Aug" : bytes; "Sep" : bytes; "Oct" : bytes; "Nov" : bytes; "Dec" : bytes].
Definition shortDayNames : list bytes :=
  ["Sun" : bytes; "Mon" : bytes; "Tue" : bytes; "Wed" : bytes; "Thu" : bytes; "Fri" : bytes;
   "Sat" : bytes].

(** ** Format *)
Definition pad2 (n : Z) : bytes := [digit (n / 10 mod 10); digit (n mod 10)].
Definition pad4 (n : Z) : bytes := pad2 (n / 100) ++ pad2 (n mod 100).

Definition format_year (y : Z) : bytes :=
  if y <? 0 then "-"%char :: (if - y <? 10000 then pad4 (- y) else FormatUint (- y))
  else if y <? 10000 then pad4 y else FormatUint y.

Definition format_chunk (t : Time) (c : std) : bytes :=
  let local := t_ns t / second + t_off t in
  let days := local / 86400 in
  let secs := local mod 86400 in
  let '(y, m, d) := date_of_days days in
  match c with
  | stdWeekDay => nth (Z.to_nat ((days + 1) mod 7)) shortDayNames []
  | stdMonth => nth (Z.to_nat (m - 1)) shortMonthNames []
  | stdZeroDay => pad2 d
  | stdDay => FormatUint d
  | stdLongYear => format_year y
  | stdYear => pad2 (if y <? 0 then 0 else y mod 100)
  | stdHour => pad2 (secs / 3600)
  | stdZeroMinute => pad2 (secs mod 3600 / 60)
  | stdZeroSecond => pad2 (secs mod 60)
  | stdNumTZ =>
      let zone := Z.quot (t_off t) 60 in
      let sign := if zone <? 0 then "-"%char else "+"%char in
      sign :: pad2 (Z.abs zone / 60) ++ pad2 (Z.abs zone mod 60)
  | stdTZ => [] (* no layout the code formats with has one *)
  end.

Definition Format (t : Time) (l : layout) : bytes :=
  concat ((fun '(p, c) => p ++ format_chunk t c) <$> l_chunks l) ++ l_end l.

(** ** Parse *)

(** [time.skip]: match a literal prefix, runs of spaces matching runs of spaces. *)
Fixpoint cutspace (s : bytes) : bytes :=
  match s with " "%char :: t => cutspace t | _ => s end.
Fixpoint skip_go (sp : bool) (value prefix : bytes) : bool * bytes :=
  match prefix with
  | [] => (true, value)
  | d :: p' =>
    if d =c " " then
      if sp then skip_go true value p'
      else match value with
           | [] => skip_go true [] p'
           | c :: _ => if c =c " " then skip_go true (cutspace value) p' else (false, value)
           end
    else match value with
         | c :: v' => if c =c d then skip_go false v' p' else (false, value)
         | [] => (false, value)
         end
  end.
Definition skip : bytes -> bytes -> bool * bytes := skip_go false.

(** [time.getnum]: one or two digits, exactly two when [fixed]. *)
Definition getnum (s : bytes) (fixed : bool) : option (Z * bytes) :=
  match s with
  | c0 :: s1 =>
    if negb (is_digit c0) then None
    else match s1 with
         | c1 :: s2 =>
           if is_digit c1 then Some ((bval c0 - 48) * 10 + (bval c1 - 48), s2)
           else if fixed then None else Some (bval c0 - 48, s1)
         | [] => if fixed then None else Some (bval c0 - 48, s1)
         end
  | [] => None
  end.

(** [time.atoi] on a slice of two or four bytes. *)
Definition time_atoi (s : bytes) : option Z :=
  let '(neg, t) :=
    match s with
    | c :: t => if c =c "-" then (true, t) else if c =c "+" then (false, t) else (false, s)
    | [] => (false, s)
    end in
  if forallb is_digit t
  then let n := foldl (fun n c => n * 10 + (bval c - 48)) 0 t in Some (if neg then - n else n)
  else None.

(** [time.match]: ASCII letters compare without case. *)
Definition match_char (c1 c2 : ascii) : bool :=
  let x1 := Z.lor (bval c1) 32 in
  let x2 := Z.lor (bval c2) 32 in
  (c1 =c c2) || ((x1 =? x2) && in_range 97 122 x1).
Fixpoint lookup_name (i : Z) (tab : list bytes) (val : bytes) : option (Z * bytes) :=
  match tab with
  | [] => None
  | v :: tab' =>
    if (length v <=? length val)%nat
       && forallb (fun '(a, b) => match_char a b) (zip (take (length v) val) v)
    then Some (i, drop (length v) val)
    else lookup_name (i + 1) tab' val
  end.

(** The zone as read: an offset, UTC, or an abbreviation. *)
Inductive zone := ZOff (off : Z) | ZUTC | ZName (name : bytes).

Record tparse := mkParse {
  p_year : Z; p_month : Z; p_day : Z; p_hour : Z; p_min : Z; p_sec : Z; p_nsec : Z;
  p_zone : option zone
}.
Definition tparse0 : tparse := mkParse 0 (-1) (-1) 0 0 0 0 None.

(** What a chunk's parser reports: a bad field, or a value out of range. *)
Inductive perr := errBad | rangeErr (what : bytes).

(** [time.parseNanoseconds] on the digits after the point: the first nine count. *)
Definition nanos (ds : bytes) : Z :=
  let ds9 := take 9 ds in
  foldl (fun n c => n * 10 + (bval c - 48)) 0 ds9 * 10 ^ (9 - len ds9).

Definition checked (ok : bool) (what : bytes) (r : tparse * bytes) : perr + (tparse * bytes) :=
  if ok then inr r else inl (rangeErr what).

(** [time.parseSignedOffset]: the length of a sign and at most 23 hours, or 0. *)
Definition parseSignedOffset (value : bytes) : nat :=
  match value with
  | sign :: v =>
    let ds := take_while is_digit v in
    if negb ((sign =c "-") || (sign =c "+")) then 0%nat
    else if bool_decide (ds = []) then 0%nat
    else match parse_uint 63 ds with
         | inr x => if 23 <? x then 0%nat else S (length ds)
         | inl _ => 0%nat
         end
  | [] => 0%nat
  end.

(** [time.parseTimeZone]: the length of a zone abbreviation. *)
Definition is_upper (c : ascii) : bool := in_range 65 90 (bval c).
Definition parseTimeZone (value : bytes) : option nat :=
  if (length value <? 3)%nat then None
  else if (take 4 value =s "ChST") || (take 4 value =s "MeST") then Some 4%nat
  else if take 3 value =s "GMT" then Some (3 + parseSignedOffset (drop 3 value))%nat
  else if forallb (fun c => (c =c "+") || (c =c "-")) (take 1 value) then
    match parseSignedOffset value with O => None | n => Some n end
  else
    match Nat.min 6 (length (take_while is_upper value)) with
    | 5%nat => if nth 4 value NUL =c "T" then Some 5%nat else None
    | 4%nat => if (nth 3 value NUL =c "T") || (take 4 value =s "WITA") then Some 4%nat else None
    | 3%nat => Some 3%nat
    | _ => None
    end.

Definition parse_chunk (c : std) (st : tparse) (value : bytes) : perr + (tparse * bytes) :=
  let 'mkParse y mo d h mi se ns z := st in
  match c with
  | stdWeekDay =>
      match lookup_name 0 shortDayNames value with
      | Some (_, v) => inr (st, v) | None => inl errBad end
  | stdMonth =>
      match lookup_name 1 shortMonthNames value with
      | Some (m, v) => inr (mkParse y m d h mi se ns z, v) | None => inl errBad end
  | stdZeroDay | stdDay =>
      match getnum value (match c with stdZeroDay => true | _ => false end) with
      | Some (n, v) => inr (mkParse y mo n h mi se ns z, v) | None => inl errBad end
  | stdLongYear =>
      if (length value <? 4)%nat || negb (forallb is_digit (take 1 value)) then inl errBad
      else match time_atoi (take 4 value) with
           | Some n => inr (mkParse n mo d h mi se ns z, drop 4 value) | None => inl errBad end
  | stdYear =>
      if (length value <? 2)%nat then inl errBad
      else match time_atoi (take 2 value) with
           | Some n => inr (mkParse (if 69 <=? n then n + 1900 else n + 2000) mo d h mi se ns z,
                            drop 2 value)
           | None => inl errBad end
  | stdHour =>
      match getnum value false with
      | Some (n, v) => checked (n <? 24) "hour" (mkParse y mo d n mi se ns z, v)
      | None => inl errBad end
  | stdZeroMinute =>
      match getnum value true with
      | Some (n, v) => checked (n <? 60) "minute" (mkParse y mo d h n se ns z, v)
      | None => inl errBad end
  | stdZeroSecond =>
      match getnum value true with
      | Some (n, v) =>
        if 60 <=? n then inl (rangeErr "second")
        else
          (* a fraction the layout does not mention *)
          match v with
          | p :: v' =>
            let ds := take_while is_digit v' in
            if ((p =c ".") || (p =c ",")) && negb (bool_decide (ds = []))
            then inr (mkParse y mo d h mi n (nanos ds) z, drop_while is_digit v')
            else inr (mkParse y mo d h mi n ns z, v)
          | [] => inr (mkParse y mo d h mi n ns z, v)
          end
      | None => inl errBad end
  | stdNumTZ =>
      match value with
      | sign :: h1 :: h2 :: m1 :: m2 :: v =>
        match getnum [h1; h2] true, getnum [m1; m2] true with
        | Some (hr, _), Some (mm, _) =>
          if 24 <? hr then inl (rangeErr "time zone offset hour")
          else if 60 <? mm then inl (rangeErr "time zone offset minute")
          else let off := (hr * 60 + mm) * 60 in
               if sign =c "+" then inr (mkParse y mo d h mi se ns (Some (ZOff off)), v)
               else if sign =c "-" then inr (mkParse y mo d h mi se ns (Some (ZOff (- off))), v)
               else inl errBad
        | Some (hr, _), None =>
          if 24 <? hr then inl (rangeErr "time zone offset hour") else inl errBad
        | None, _ => inl errBad
        end
      | _ => inl errBad
      end
  | stdTZ =>
      if HasPrefix value "UTC" then inr (mkParse y mo d h mi se ns (Some ZUTC), drop 3 value)
      else match parseTimeZone value with
           | Some n => inr (mkParse y mo d h mi se ns (Some (ZName (take n value))), drop n value)
           | None => inl errBad
           end
  end.

(** [time.quote] and the message of a [*time.ParseError]. *)
Definition time_quote (s : bytes) : bytes :=
  [DQ] ++ concat ((fun c =>
    if (bval c <? 32) || (128 <=? bval c) then [BSL; "x"%char] ++ hex_digits 2 (bval c)
    else if (c =c DQ) || (c =c BSL) then [BSL; c] else [c]) <$> s) ++ [DQ].
Definition parse_error (l : layout) (value elem vrest : bytes) : error :=
  emsg ("parsing time " ++ time_quote value ++ " as " ++ time_quote (layout_text l)
        ++ ": cannot parse " ++ time_quote vrest ++ " as " ++ time_quote elem).
Definition parse_error_msg (value m : bytes) : error :=
  emsg ("parsing time " ++ time_quote value ++ m).

Fixpoint parse_chunks (l : layout) (whole : bytes) (cs : list (bytes * std))
    (st : tparse) (value : bytes) : error + tparse :=
  match cs with
  | [] =>
    let '(ok, v) := skip value (l_end l) in
    if negb ok then inl (parse_error l whole (l_end l) v)
    else if v =s [] then inr st
    else inl (parse_error_msg whole (": extra text: " ++ time_quote v))
  | (prefix, c) :: cs' =>
    let '(ok, v) := skip value prefix in
    if negb ok then inl (parse_error l whole prefix v)
    else match parse_chunk c st v with
         | inl errBad => inl (parse_error l whole (std_text c) v)
         | inl (rangeErr what) => inl (parse_error_msg whole (": " ++ what ++ " out of range"))
         | inr (st', v') => parse_chunks l whole cs' st' v'
         end
  end.

(** The offset of a zone.  The local zone may know an abbreviation at a time;
    otherwise only GMT with hours means something. *)
Definition zone_offset (lookupName : bytes -> Z -> option Z) (secs : Z) (z : option zone) : Z :=
  match z with
  | Some (ZOff o) => o
  | None | Some ZUTC => 0
  | Some (ZName n) =>
    match lookupName n secs with
    | Some o => o
    | None =>
      if (3 <? length n)%nat && HasPrefix n "GMT"
      then default 0 (time_atoi (drop 3 n)) * 3600 else 0
    end
  end.
(** Whether the offset is subtracted: the fake zone of an unknown abbreviation
    only labels the time. *)
Definition zone_known (lookupName : bytes -> Z -> option Z) (secs : Z) (z : option zone) : bool :=
  match z with
  | Some (ZName n) => match lookupName n secs with Some _ => true | None => false end
  | _ => true
  end.

Definition ParseIn (lookupName : bytes -> Z -> option Z) (l : layout) (value : bytes) : error + Time :=
  match parse_chunks l value (l_chunks l) tparse0 value with
  | inl e => inl e
  | inr (mkParse y mo d h mi se ns z) =>
    let mo := if mo <? 0 then 1 else mo in
    let d := if d <? 0 then 1 else d in
    if (d <? 1) || (daysIn mo y <? d) then inl (parse_error_msg value ": day out of range")
    else
      let secs := days_of_date y mo d * 86400 + h * 3600 + mi * 60 + se in
      let off := zone_offset lookupName secs z in
      let secs := if zone_known lookupName secs z then secs - off else secs in
      inr (mkTime (secs * second + ns) off)
  end.

(** For the layouts without an abbreviation. *)
Definition Parse (l : layout) (value : bytes) : error + Time := ParseIn (fun _ _ => None) l value.

(** ** Lemmas: the calendar *)
#[local] Ltac Zify.zify_post_hook ::= Z.to_euclidean_division_equations.

(** The twelve months, one by one. *)
Ltac month_cases m :=
  let H := fresh in
  assert (m = 1 \/ m = 2 \/ m = 3 \/ m = 4 \/ m = 5 \/ m = 6 \/ m = 7 \/ m = 8 \/ m = 9
          \/ m = 10 \/ m = 11 \/ m = 12) as H by lia;
  repeat destruct H as [->|H]; subst.

(** Dividing a period of four equal parts and one extra day into its parts. *)
Lemma cut_fifth k d :
  1 < k -> 0 <= d <= 4 * k ->
  let b := d / k - d / k / 4 in
  0 <= b <= 3 /\ 0 <= d - k * b < k + 1 /\ (b < 3 -> d - k * b < k).
Proof.
  intros Hk Hd. pose proof (Z.div_mod d k ltac:(lia)) as E.
  pose proof (Z.mod_pos_bound d k ltac:(lia)) as B.
  set (q := d / k) in *. clearbody q.
  assert (0 <= q <= 4) as Hq by nia. cbv zeta.
  assert (q = 0 \/ q = 1 \/ q = 2 \/ q = 3 \/ q = 4) as [->|[->|[->|[->| ->]]]] by lia;
    match goal with |- context [?n / 4] =>
      let v := eval vm_compute in (n / 4) in change (n / 4) with v end; lia.
Qed.

Lemma year_of_days_spec d0 y yday :
  year_of_days d0 = (y, yday) ->
  days_before_year y + yday = d0 /\ 0 <= yday < 365 + (if is_leap y then 1 else 0).
Proof.
  unfold year_of_days. intros H.
  pose proof (Z.div_mod d0 146097 ltac:(lia)) as E1.
  pose proof (Z.mod_pos_bound d0 146097 ltac:(lia)) as B1.
  set (a := d0 / 146097) in *. set (d1 := d0 mod 146097) in *.
  set (b := d1 / 36524 - d1 / 36524 / 4) in *.
  assert (0 <= b <= 3 /\ 0 <= d1 - 36524 * b < 36525 /\ (b < 3 -> d1 - 36524 * b < 36524)) as (Bb & Bd & Bd').
  { apply cut_fifth; lia. }
  clearbody b. set (d2 := d1 - 36524 * b) in *.
  assert (0 <= d2 / 1461 <= 24 /\ 1461 * (d2 / 1461) <= d2 < 1461 * (d2 / 1461) + 1461) as (Bc & Bd3) by lia.
  set (c := d2 / 1461) in *. clearbody c. set (d3 := d2 - 1461 * c) in *.
  set (e := d3 / 365 - d3 / 365 / 4) in *.
  assert (0 <= e <= 3 /\ 0 <= d3 - 365 * e < 366 /\ (e < 3 -> d3 - 365 * e < 365)) as (Be & Bd4 & Bd4').
  { apply cut_fifth; lia. }
  clearbody e. injection H as <- <-. clearbody a d1.
  set (y' := 400 * a + 100 * b + 4 * c + e).
  assert (y' / 4 = 100 * a + 25 * b + c /\ y' / 100 = 4 * a + b /\ y' / 400 = a) as (Q4 & Q100 & Q400) by lia.
  unfold days_before_year. replace (y' + 1 - 1) with y' by lia. rewrite Q4, Q100, Q400.
  split; [lia|]. split; [lia|].
  destruct (is_leap (y' + 1)) eqn:L; [lia|].
  assert (e < 3 \/ (e = 3 /\ c = 24 /\ b < 3)) as [He|(He & Hc & Hb)]; [|lia|lia].
  unfold is_leap in L. apply andb_false_iff in L as [L|L]; to_prop; lia.
Qed.

Lemma before_month_mono y m : 1 <= m <= 12 -> before_month y m + 28 <= before_month y (m + 1).
Proof.
  intros Hm. unfold before_month.
  destruct (is_leap y); month_cases m; vm_compute; intros; congruence.
Qed.

Lemma month_go_spec fuel y m yday :
  1 <= m -> m + Z.of_nat fuel <= 12 -> before_month y m <= yday ->
  (Z.of_nat fuel = 12 - m) -> yday < before_month y 13 ->
  let m' := month_go fuel y m yday in
  m <= m' <= 12 /\ before_month y m' <= yday < before_month y (m' + 1).
Proof.
  revert m. induction fuel as [|f IH]; intros m Hm Hf Hlo He Hhi; cbn [month_go]; cbv zeta.
  - assert (m = 12) as -> by lia. change (12 + 1) with 13. lia.
  - destruct (yday <? before_month y (m + 1)) eqn:E; to_prop; [lia|].
    destruct (IH (m + 1)) as [H1 H2]; lia.
Qed.

Lemma before_13 y : before_month y 13 = 365 + (if is_leap y then 1 else 0).
Proof. unfold before_month. simpl. by rewrite andb_true_r. Qed.

Lemma daysIn_before y m : 1 <= m <= 12 -> before_month y (m + 1) = before_month y m + daysIn m y.
Proof.
  intros Hm. unfold before_month, daysIn.
  destruct (is_leap y); month_cases m; reflexivity.
Qed.

(** The date of a day number is a valid date and numbers the same day. *)
Lemma date_of_days_spec n y m d :
  date_of_days n = (y, m, d) ->
  days_of_date y m d = n /\ 1 <= m <= 12 /\ 1 <= d <= daysIn m y.
Proof.
  unfold date_of_days, days_of_date. destruct (year_of_days n) as [y' yday] eqn:E.
  apply year_of_days_spec in E as [E1 E2]. intros H.
  destruct (month_go_spec 11 y' 1 yday) as [H1 H2]; try (rewrite ?before_13; simpl; lia).
  { unfold before_month. simpl. destruct (is_leap y'); simpl; lia. }
  cbv zeta in H1, H2. revert H H1 H2. generalize (month_go 11 y' 1 yday).
  intros m' [= <- <- <-] H1 H2. rewrite daysIn_before in H2 by lia. lia.
Qed.

(** ** Lemmas: printed fields *)
Lemma bval_digit d : 0 <= d < 10 -> bval (digit d) = 48 + d.
Proof. intros. unfold digit. rewrite bval_byte_of_small; lia. Qed.

Lemma is_digit_mod n : is_digit (digit (n mod 10)) = true.
Proof. apply is_digit_digit. apply Z.mod_pos_bound. lia. Qed.

Lemma getnum_pad2 n v fixed : 0 <= n < 100 -> getnum (pad2 n ++ v) fixed = Some (n, v).
Proof.
  intros Hn. unfold getnum, pad2. cbn [app]. rewrite !is_digit_mod. cbn [negb].
  rewrite !bval_digit by (apply Z.mod_pos_bound; lia). f_equal. f_equal. lia.
Qed.

Lemma time_atoi_digits c s :
  forallb is_digit (c :: s) = true ->
  time_atoi (c :: s) = Some (foldl (fun n c => n * 10 + (bval c - 48)) 0 (c :: s)).
Proof.
  intros H. unfold time_atoi. destruct (c =c "-") eqn:E1; to_prop; [by subst|].
  destruct (c =c "+") eqn:E2; to_prop; [by subst|]. by rewrite H.
Qed.

Lemma time_atoi_pad4 n : 0 <= n < 10000 -> time_atoi (pad4 n) = Some n.
Proof.
  intros Hn. unfold pad4, pad2. cbn [app]. rewrite time_atoi_digits.
  - cbn [foldl]. rewrite !bval_digit by (apply Z.mod_pos_bound; lia). f_equal. lia.
  - cbn [forallb]. by rewrite !is_digit_mod.
Qed.

Lemma lookup_month m v :
  1 <= m <= 12 ->
  lookup_name 1 shortMonthNames (nth (Z.to_nat (m - 1)) shortMonthNames [] ++ v) = Some (m, v).
Proof.
  intros Hm.
  month_cases m; reflexivity.
Qed.

Lemma skip_nil v : skip v [] = (true, v).
Proof. done. Qed.
Lemma skip_dash v : skip ("-"%char :: v) "-" = (true, v).
Proof. done. Qed.
Lemma skip_colon v : skip (":"%char :: v) ":" = (true, v).
Proof. done. Qed.
Lemma skip_space c v : c <> " "%char -> skip (" "%char :: c :: v) " " = (true, c :: v).
Proof. intros Hc. unfold skip. simpl. destruct c as [[] [] [] [] [] [] [] []]; done. Qed.

(** ** Printing and parsing a date-time *)
Lemma parse_step l w p c cs st value v st' v' :
  skip value p = (true, v) -> parse_chunk c st v = inr (st', v') ->
  parse_chunks l w ((p, c) :: cs) st value = parse_chunks l w cs st' v'.
Proof. intros H1 H2. cbn [parse_chunks]. rewrite H1. cbn [negb]. by rewrite H2. Qed.

Section Chunks.
Context (y mo d h mi se : Z) (z : option zone) (v : bytes).
Local Notation st := (mkParse y mo d h mi se 0 z).

Lemma parse_day n : 0 <= n < 100 ->
  parse_chunk stdZeroDay st (pad2 n ++ v) = inr (mkParse y mo n h mi se 0 z, v).
Proof. intros Hn. cbn [parse_chunk]. by rewrite getnum_pad2. Qed.
Lemma parse_month n : 1 <= n <= 12 ->
  parse_chunk stdMonth st (nth (Z.to_nat (n - 1)) shortMonthNames [] ++ v)
  = inr (mkParse y n d h mi se 0 z, v).
Proof. intros Hn. cbn [parse_chunk]. by rewrite lookup_month. Qed.
Lemma parse_year n : 0 <= n < 10000 ->
  parse_chunk stdLongYear st (pad4 n ++ v) = inr (mkParse n mo d h mi se 0 z, v).
Proof.
  intros Hn. cbn [parse_chunk]. rewrite orb_false_intro.
  - change (take 4 (pad4 n ++ v)) with (pad4 n). by rewrite time_atoi_pad4.
  - unfold pad4, pad2. reflexivity.
  - unfold pad4, pad2. cbn. by rewrite is_digit_mod.
Qed.
Lemma parse_hour n : 0 <= n < 24 ->
  parse_chunk stdHour st (pad2 n ++ v) = inr (mkParse y mo d n mi se 0 z, v).
Proof.
  intros Hn. cbn [parse_chunk]. rewrite getnum_pad2 by lia. unfold checked.
  by destruct (Z.ltb_spec n 24); [|lia].
Qed.
Lemma parse_minute n : 0 <= n < 60 ->
  parse_chunk stdZeroMinute st (pad2 n ++ v) = inr (mkParse y mo d h n se 0 z, v).
Proof.
  intros Hn. cbn [parse_chunk]. rewrite getnum_pad2 by lia. unfold checked.
  by destruct (Z.ltb_spec n 60); [|lia].
Qed.
Lemma parse_second n : 0 <= n < 60 ->
  parse_chunk stdZeroSecond st (pad2 n ++ " "%char :: v)
  = inr (mkParse y mo d h mi n 0 z, " "%char :: v).
Proof.
  intros Hn. cbn [parse_chunk]. rewrite getnum_pad2 by lia.
  by destruct (Z.leb_spec 60 n); [lia|].
Qed.
Lemma parse_zone n : Z.abs n < 1500 ->
  parse_chunk stdNumTZ st
    ((if n <? 0 then "-"%char else "+"%char) :: pad2 (Z.abs n / 60) ++ pad2 (Z.abs n mod 60))
  = inr (mkParse y mo d h mi se 0 (Some (ZOff (60 * n))), []).
Proof.
  intros Hn. cbn [parse_chunk app pad2].
  change [digit (?a / 10 mod 10); digit (?a mod 10)] with (pad2 a).
  rewrite <- (app_nil_r (pad2 (Z.abs n / 60))), <- (app_nil_r (pad2 (Z.abs n mod 60))).
  rewrite !getnum_pad2 by lia.
  destruct (Z.ltb_spec 24 (Z.abs n / 60)); [lia|].
  destruct (Z.ltb_spec 60 (Z.abs n mod 60)); [lia|].
  destruct (Z.ltb_spec n 0);
    [change ("-"%char =c "+") with false; change ("-"%char =c "-") with true
    |change ("+"%char =c "+") with true]; cbv iota;
  match goal with |- inr (mkParse _ _ _ _ _ _ _ (Some (ZOff ?a)), _) = _ =>
    replace a with (60 * n) by lia end; done.
Qed.
End Chunks.

(** The text of a date-time, field by field. *)
Lemma format_InternalDate t y m d :
  let lsecs := t_ns t / second + t_off t in
  let secs := lsecs mod 86400 in
  let zone := Z.quot (t_off t) 60 in
  date_of_days (lsecs / 86400) = (y, m, d) -> 0 <= y < 10000 ->
  Format t InternalDateLayout
  = pad2 d ++ "-"%char :: nth (Z.to_nat (m - 1)) shortMonthNames []
    ++ "-"%char :: pad4 y ++ " "%char :: pad2 (secs / 3600) ++ ":"%char :: pad2 (secs mod 3600 / 60)
    ++ ":"%char :: pad2 (secs mod 60)
    ++ " "%char :: (if zone <? 0 then "-"%char else "+"%char)
       :: pad2 (Z.abs zone / 60) ++ pad2 (Z.abs zone mod 60).
Proof.
  intros lsecs secs zone Hdate Hy.
  unfold Format. cbn [fmap list_fmap l_chunks InternalDateLayout concat l_end].
  unfold format_chunk. fold lsecs. rewrite Hdate. unfold format_year.
  destruct (Z.ltb_spec y 0); [lia|]. destruct (Z.ltb_spec y 10000); [|lia].
  fold secs. fold zone. rewrite !app_nil_r, <- !app_assoc. done.
Qed.

Lemma pad2_head n v : exists c v', pad2 n ++ v = c :: v' /\ c <> " "%char.
Proof.
  exists (digit (n / 10 mod 10)), (digit (n mod 10) :: v). split; [done|].
  intros H. pose proof (is_digit_mod (n / 10)) as Hd. by rewrite H in Hd.
Qed.

Lemma skip_space_pad2 n v : skip (" "%char :: pad2 n ++ v) " " = (true, pad2 n ++ v).
Proof. destruct (pad2_head n v) as (c & v' & -> & Hc). by apply skip_space. Qed.

Lemma daysIn_le m y : 1 <= m <= 12 -> daysIn m y <= 31.
Proof.
  intros Hm. unfold daysIn.
  destruct (is_leap y); month_cases m; vm_compute; congruence.
Qed.

(** A date-time in whole seconds, with a zone of whole minutes and a year of
    at most four digits, survives printing and parsing. *)
Lemma parse_format_InternalDate t y m d :
  date_of_days ((t_ns t / second + t_off t) / 86400) = (y, m, d) -> 0 <= y < 10000 ->
  t_ns t mod second = 0 -> Z.rem (t_off t) 60 = 0 -> Z.abs (t_off t) < 25 * 3600 ->
  Parse InternalDateLayout (Format t InternalDateLayout) = inr t.
Proof.
  intros Hdate Hy Hns Hoff1 Hoff2.
  pose proof (date_of_days_spec _ _ _ _ Hdate) as (Hdays & Hm & Hd).
  pose proof (daysIn_le m y Hm) as Hd31.
  rewrite (format_InternalDate t y m d Hdate Hy).
  set (lsecs := t_ns t / second + t_off t) in *. set (secs := lsecs mod 86400).
  assert (Hsecs : 0 <= secs < 86400) by (apply Z.mod_pos_bound; lia).
  set (zone := Z.quot (t_off t) 60).
  assert (Hz : t_off t = 60 * zone /\ Z.abs zone < 1500) by (unfold zone; lia).
  unfold Parse, ParseIn. cbn [l_chunks InternalDateLayout].
  erewrite parse_step; [|apply skip_nil|apply parse_day; lia].
  erewrite parse_step; [|apply skip_dash|apply parse_month; lia].
  erewrite parse_step; [|apply skip_dash|apply parse_year; lia].
  erewrite parse_step; [|apply skip_space_pad2|apply parse_hour; lia].
  erewrite parse_step; [|apply skip_colon|apply parse_minute; lia].
  erewrite parse_step; [|apply skip_colon|apply parse_second; lia].
  erewrite parse_step; [|by apply skip_space; destruct (zone <? 0)|apply parse_zone; lia].
  cbn [parse_chunks l_end]. rewrite skip_nil. cbn [negb]. rewrite bool_decide_eq_true_2 by done.
  destruct (Z.ltb_spec m 0); [lia|]. destruct (Z.ltb_spec d 0); [lia|].
  destruct (Z.ltb_spec d 1); [lia|]. destruct (Z.ltb_spec (daysIn m y) d); [lia|].
  cbn [orb zone_offset zone_known]. rewrite Hdays. destruct t as [ns o]. cbn [t_ns t_off] in *. f_equal. f_equal; [|lia].
  unfold secs, lsecs, second in *. lia.
Qed.
