(* ===== verification/Decoder.v ===== *)
(** * The wire decoder (wire/decoder.go)

    A decoder is the bytes still to be read: [bufio.Reader] over a stream that
    ends with [io.EOF].  Every method is a state-passing computation over those
    bytes which keeps what it consumed when it fails.  The buffer size of
    [bufio] is not modelled. *)

From S2P Require Import Prelude Utf8 GoStrings.

Abbreviation Dec := (St bytes).

(** ** Character classes *)
Definition isAtomChar (b : ascii) : bool :=
  if (bval b <? 0x20) || (0x7e <? bval b) then false
  else
    match b with
    | "("%char | ")"%char | "{"%char | " "%char | "%"%char | "*"%char
    | "034"%char | "\"%char | "]"%char => false
    | _ => true
    end.
Definition IsAtomSpecial (b : ascii) : bool := negb (isAtomChar b).
Definition IsQuotedSpecial (b : ascii) : bool := (b =c DQ) || (b =c "\").

Definition NeedsQuoting (s : bytes) : bool :=
  if s =s [] then true else existsb (fun c => negb (isAtomChar c)) s.

Definition NeedsLiteral (s : bytes) : bool :=
  existsb (fun b => (b =c CR) || (b =c LF) || (b =c NUL) || (0x7e <? bval b)) s.

(** ** Reading bytes *)
Definition ReadByte : Dec ascii := fun s =>
  match s with [] => (Err EOF, []) | c :: t => (Ok c, t) end.

Definition PeekByte : Dec ascii := fun s =>
  match s with [] => (Err EOF, []) | c :: t => (Ok c, s) end.

Definition ReadLine : Dec bytes := fun s =>
  match s with
  | [] => (Err EOF, [])
  | _ =>
    let line := take_while (fun c => negb (c =c LF)) s in
    match drop_while (fun c => negb (c =c LF)) s with
    | [] => (Ok line, [])
    | _ :: rest => (Ok (TrimSuffix line [CR]), rest)
    end
  end.

Definition ReadAtom : Dec bytes := fun s =>
  match take_while isAtomChar s, s with
  | [], [] => (Err EOF, [])
  | [], _ => (Err (emsg "imap: expected atom"), s)
  | a, _ => (Ok a, drop_while isAtomChar s)
  end.

Fixpoint quoted_loop (buf : bytes) (s : bytes) : res bytes * bytes :=
  match s with
  | [] => (Err EOF, [])
  | ch :: t =>
    if ch =c DQ then (Ok buf, t)
    else if ch =c "\" then
      match t with
      | [] => (Err EOF, [])
      | escaped :: t' => quoted_loop (buf ++ [escaped]) t'
      end
    else quoted_loop (buf ++ [ch]) t
  end.

Definition ReadQuotedString : Dec bytes :=
  b ← ReadByte;
  if b =c DQ then quoted_loop []
  else st_fail (Errorf [Txt "imap: expected '"; Txt [DQ]; Txt "', got "; QByte b]).

Record LiteralInfo := { Size : Z; NonSync : bool; Binary : bool }.

(** The digits and plus signs up to the closing brace. *)
Fixpoint literal_loop (numStr : bytes) (nonSync : bool) (s : bytes) : res (bytes * bool) * bytes :=
  match s with
  | [] => (Err EOF, [])
  | ch :: t =>
    if ch =c "+" then literal_loop numStr true t
    else if ch =c "}" then (Ok (numStr, nonSync), t)
    else if is_digit ch then literal_loop (numStr ++ [ch]) nonSync t
    else (Err (Errorf [Txt "imap: unexpected character in literal: "; QByte ch]), t)
  end.

Definition ReadCRLF : Dec unit :=
  b1 ← ReadByte;
  b2 ← ReadByte;
  if (b1 =c CR) && (b2 =c LF) then mret tt
  else st_fail (Errorf [Txt "imap: expected CRLF, got "; QByte b1; QByte b2]).

Definition lift_res {A} (r : res A) : Dec A := fun s => (r, s).

Definition literal_body (bin : bool) (b : ascii) : Dec LiteralInfo :=
  if negb (b =c "{") then st_fail (Errorf [Txt "imap: expected '{', got "; QByte b])
  else
    '(numStr, nonSync) ← literal_loop [] false;
    size ← on_err (lift_res (ParseInt numStr))
             (fun e => Errorf [Txt "imap: invalid literal size: "; Wrap e]);
    _ ← on_err ReadCRLF (fun e => Errorf [Txt "imap: expected CRLF after literal: "; Wrap e]);
    mret {| Size := size; NonSync := nonSync; Binary := bin |}.

Definition ReadLiteralInfo : Dec LiteralInfo :=
  b ← ReadByte;
  if b =c "~" then b' ← ReadByte; literal_body true b' else literal_body false b.

(** The largest slice the Go runtime allocates on a 64-bit platform; a larger
    [make] panics. *)
Definition maxAlloc : Z := 2 ^ 48.

(** [data := make([]byte, n); io.ReadFull(r, data)] *)
Definition ReadFull (n : Z) : Dec bytes := fun s =>
  if (n <? 0) || (maxAlloc <? n) then (Panic, s)
  else if len s <? n then (Err (if s =s [] then EOF else ErrUnexpectedEOF), [])
  else (Ok (take (Z.to_nat n) s), drop (Z.to_nat n) s).

Definition ReadString : Dec bytes :=
  b ← PeekByte;
  if b =c DQ then ReadQuotedString
  else if (b =c "{") || (b =c "~") then
    info ← ReadLiteralInfo; ReadFull (Size info)
  else ReadAtom.

Definition ReadAString : Dec bytes := ReadString.

Definition ReadNString {U : Unicode} : Dec (bytes * bool) := fun s =>
  let str := (v ← ReadString; mret (v, true)) in
  match take 3 s with
  | [] => (Err EOF, [])
  | b =>
    if (3 <=? length b)%nat && EqualFold b "NIL" then
      match take 4 s !! 3%nat with
      | None => (Ok ([], false), drop 3 s)
      | Some c => if negb (isAtomChar c) then (Ok ([], false), drop 3 s) else str s
      end
    else str s
  end.

Definition ReadNumberBits (bits : Z) : Dec Z :=
  atom ← ReadAtom;
  on_err (lift_res (ParseUint atom bits))
    (fun e => Errorf [Txt "imap: invalid number "; QStr atom; Txt ": "; Wrap e]).
Definition ReadNumber : Dec Z := ReadNumberBits 32.
Definition ReadNumber64 : Dec Z := ReadNumberBits 64.

Definition ReadSP : Dec unit :=
  b ← ReadByte;
  if b =c " " then mret tt else st_fail (Errorf [Txt "imap: expected SP, got "; QByte b]).

Definition ExpectByte (expected : ascii) : Dec unit :=
  b ← ReadByte;
  if b =c expected then mret tt
  else st_fail (Errorf [Txt "imap: expected "; QByte expected; Txt ", got "; QByte b]).

(** The loop of [ReadList]; the results of the element function are
    collected in order.  Every round but the first reads a space, so the
    length of the input plus two bounds the number of rounds. *)
Fixpoint list_loop {A} (fuel : nat) (first : bool) (fn : Dec A) (acc : list A) : Dec (list A) :=
  match fuel with
  | O => st_hang
  | S f =>
    b ← PeekByte;
    if b =c ")" then _ ← ReadByte; mret acc
    else
      _ ← (if first then mret tt else ReadSP);
      a ← fn;
      list_loop f false fn (acc ++ [a])
  end.

Definition ReadList {A} (fn : Dec A) : Dec (list A) :=
  _ ← ExpectByte "(";
  s ← st_get;
  list_loop (length s + 2) true fn [].

Definition ReadFlags : Dec (list bytes) := ReadList ReadAtom.

Definition DiscardLine : Dec unit := fun s =>
  match drop_while (fun c => negb (c =c LF)) s with
  | [] => (Err EOF, [])
  | _ :: rest => (Ok tt, rest)
  end.

(** [io.CopyN(io.Discard, r, n)] *)
Definition DiscardN (n : Z) : Dec unit := fun s =>
  if len s <? n then (Err EOF, []) else (Ok tt, drop (Z.to_nat n) s).

(** [io.LimitReader(d.r, size)] read to its end. *)
Definition ReadLiteral (size : Z) : Dec bytes := fun s =>
  (Ok (take (Z.to_nat size) s), drop (Z.to_nat size) s).

(** ** Consumption

    A decoder method only ever removes a prefix of the input. *)
Class Consumes {A} (m : Dec A) : Prop :=
  consumes : forall s r s', m s = (r, s') -> exists p, s = p ++ s'.

#[export] Instance consumes_ret {A} (a : A) : Consumes (mret a : Dec A).
Proof. intros s r s' [= <- <-]. by exists []. Qed.
#[export] Instance consumes_fail {A} e : Consumes (st_fail (A := A) e : Dec A).
Proof. intros s r s' [= <- <-]. by exists []. Qed.
#[export] Instance consumes_hang {A} : Consumes (st_hang : Dec A).
Proof. intros s r s' [= <- <-]. by exists []. Qed.
#[export] Instance consumes_lift {A} (x : res A) : Consumes (lift_res x).
Proof. intros s r s' [= <- <-]. by exists []. Qed.
#[export] Instance consumes_bind {A B} (m : Dec A) (k : A -> Dec B) :
  Consumes m -> (forall a, Consumes (k a)) -> Consumes (m ≫= k).
Proof.
  intros Hm Hk s r s'. unfold mbind, st_bind.
  destruct (m s) as [r1 s1] eqn:E. apply Hm in E as [p ->].
  destruct r1 as [a|e| |]; try (intros [= <- <-]; by exists p).
  intros H. apply Hk in H as [q ->]. exists (p ++ q). by rewrite <- app_assoc.
Qed.
#[export] Instance consumes_on_err {A} (m : Dec A) f : Consumes m -> Consumes (on_err m f).
Proof.
  intros Hm s r s'. unfold on_err. destruct (m s) as [r1 s1] eqn:E. apply Hm in E.
  destruct r1; by intros [= <- <-].
Qed.
#[export] Instance consumes_attempt {A} (m : Dec A) : Consumes m -> Consumes (attempt m).
Proof.
  intros Hm s r s'. unfold attempt. destruct (m s) as [r1 s1] eqn:E. apply Hm in E.
  destruct r1; by intros [= <- <-].
Qed.
#[export] Instance consumes_if {A} (b : bool) (m n : Dec A) :
  Consumes m -> Consumes n -> Consumes (if b then m else n).
Proof. by destruct b. Qed.

#[export] Instance consumes_ReadByte : Consumes ReadByte.
Proof. intros [|c s] r s' [= <- <-]; [by exists []|by exists [c]]. Qed.
#[export] Instance consumes_PeekByte : Consumes PeekByte.
Proof. intros [|c s] r s' [= <- <-]; by exists []. Qed.
#[export] Instance consumes_ReadAtom : Consumes ReadAtom.
Proof.
  intros s r s'. unfold ReadAtom. pose proof (take_drop_while isAtomChar s) as H.
  destruct (take_while isAtomChar s) eqn:E.
  - destruct s; intros [= <- <-]; by exists [].
  - intros [= <- <-]. eauto.
Qed.
#[export] Instance consumes_quoted buf : Consumes (quoted_loop buf).
Proof.
  intros s. revert buf. induction s as [s IH] using bytes_len_ind. intros buf r s'.
  destruct s as [|c s]; simpl; [intros [= <- <-]; by exists []|].
  case_if; [intros [= <- <-]; by exists [c]|]. case_if.
  - destruct s as [|d s]; [intros [= <- <-]; by exists [c]|].
    intros [p ->]%IH; [by exists (c :: d :: p)|simpl; lia].
  - intros [p ->]%IH; [by exists (c :: p)|simpl; lia].
Qed.
#[export] Instance consumes_literal_loop n b : Consumes (literal_loop n b).
Proof.
  intros s. revert n b. induction s as [|c s IH]; intros n b r s'; simpl.
  - intros [= <- <-]. by exists [].
  - repeat case_if; try (intros [p ->]%IH; by exists (c :: p)); intros [= <- <-]; by exists [c].
Qed.
#[export] Instance consumes_ReadFull n : Consumes (ReadFull n).
Proof.
  intros s r s'. unfold ReadFull. repeat case_if; intros [= <- <-].
  - by exists [].
  - exists s. by rewrite app_nil_r.
  - exists s. by rewrite app_nil_r.
  - exists (take (Z.to_nat n) s). by rewrite take_drop.
Qed.

#[export] Instance consumes_ReadQuotedString : Consumes ReadQuotedString.
Proof. unfold ReadQuotedString. apply _. Qed.
#[export] Instance consumes_ReadCRLF : Consumes ReadCRLF.
Proof. unfold ReadCRLF. apply _. Qed.
#[export] Instance consumes_literal_body bin b : Consumes (literal_body bin b).
Proof.
  unfold literal_body. apply consumes_if; [apply _|].
  apply consumes_bind; [apply _|intros [n ns]]. apply _.
Qed.
#[export] Instance consumes_ReadLiteralInfo : Consumes ReadLiteralInfo.
Proof. unfold ReadLiteralInfo. apply _. Qed.
#[export] Instance consumes_ReadString : Consumes ReadString.
Proof. unfold ReadString. apply _. Qed.
#[export] Instance consumes_ReadAString : Consumes ReadAString.
Proof. unfold ReadAString. apply _. Qed.
#[export] Instance consumes_ReadSP : Consumes ReadSP.
Proof. unfold ReadSP. apply _. Qed.
#[export] Instance consumes_ExpectByte c : Consumes (ExpectByte c).
Proof. unfold ExpectByte. apply _. Qed.
#[export] Instance consumes_ReadNumberBits n : Consumes (ReadNumberBits n).
Proof. unfold ReadNumberBits. apply _. Qed.
#[export] Instance consumes_ReadNumber : Consumes ReadNumber.
Proof. unfold ReadNumber. apply _. Qed.
#[export] Instance consumes_ReadNumber64 : Consumes ReadNumber64.
Proof. unfold ReadNumber64. apply _. Qed.
#[export] Instance consumes_list_loop {A} fuel first (fn : Dec A) acc :
  Consumes fn -> Consumes (list_loop fuel first fn acc).
Proof.
  intros Hfn. revert first acc. induction fuel as [|f IH]; intros first acc; simpl; apply _.
Qed.
#[export] Instance consumes_get_bind {A} (k : bytes -> Dec A) :
  (forall s, Consumes (k s)) -> Consumes (st_get ≫= k).
Proof. intros Hk s r s' H. exact (Hk s s r s' H). Qed.
#[export] Instance consumes_ReadList {A} (fn : Dec A) : Consumes fn -> Consumes (ReadList fn).
Proof. intros Hfn. unfold ReadList. apply _. Qed.
#[export] Instance consumes_ReadFlags : Consumes ReadFlags.
Proof. unfold ReadFlags. apply _. Qed.
#[export] Instance consumes_ReadNString {U : Unicode} : Consumes ReadNString.
Proof.
  assert (Consumes (v ← ReadString; mret (v, true))) as Hstr by apply _.
  intros s r s'. unfold ReadNString.
  assert (forall x, (Ok x, drop 3 s) = (r, s') -> exists p, s = p ++ s') as Hnil.
  { intros x [= <- <-]. exists (take 3 s). by rewrite take_drop. }
  destruct (take 3 s) eqn:E; [|destruct (_ && _)].
  - intros [= <- <-]. exists s. by rewrite app_nil_r.
  - destruct (_ !! _); [destruct (negb _)|]; eauto.
  - apply Hstr.
Qed.

Lemma TrimSuffix_length s p : (length (TrimSuffix s p) <= length s)%nat.
Proof. unfold TrimSuffix. case_if; [|done]. rewrite length_take. lia. Qed.

#[export] Instance consumes_ReadLine : Consumes ReadLine.
Proof.
  intros s r s'. unfold ReadLine. destruct s as [|c s]; [intros [= <- <-]; by exists []|].
  pose proof (take_drop_while (fun c => negb (c =c LF)) (c :: s)) as H.
  destruct (drop_while _ (c :: s)) as [|d rest] eqn:E; intros [= <- <-].
  - exists (c :: s). by rewrite app_nil_r.
  - exists (take_while (fun c => negb (c =c LF)) (c :: s) ++ [d]).
    by rewrite <- app_assoc.
Qed.

Lemma consumes_length {A} (m : Dec A) `{!Consumes m} s r s' :
  m s = (r, s') -> (length s' <= length s)%nat.
Proof. intros [p ->]%consumes. rewrite length_app. lia. Qed.

(** ** Termination

    No decoder method runs forever, provided the element function of a list
    does not. *)
Class Halts {A} (m : Dec A) : Prop := halts : forall s, (m s).1 <> Hang.

#[export] Instance halts_ret {A} (a : A) : Halts (mret a : Dec A).
Proof. by intros s. Qed.
#[export] Instance halts_fail {A} e : Halts (st_fail (A := A) e : Dec A).
Proof. by intros s. Qed.
#[export] Instance halts_bind {A B} (m : Dec A) (k : A -> Dec B) :
  Halts m -> (forall a, Halts (k a)) -> Halts (m ≫= k).
Proof.
  intros Hm Hk s. specialize (Hm s). unfold mbind, st_bind.
  destruct (m s) as [[a|e| |] s']; try done. apply Hk.
Qed.
#[export] Instance halts_on_err {A} (m : Dec A) f : Halts m -> Halts (on_err m f).
Proof. intros Hm s. specialize (Hm s). unfold on_err. by destruct (m s) as [[] ?]. Qed.
#[export] Instance halts_if {A} (b : bool) (m n : Dec A) :
  Halts m -> Halts n -> Halts (if b then m else n).
Proof. by destruct b. Qed.
#[export] Instance halts_ReadByte : Halts ReadByte.
Proof. by intros []. Qed.
#[export] Instance halts_PeekByte : Halts PeekByte.
Proof. by intros []. Qed.
#[export] Instance halts_ReadAtom : Halts ReadAtom.
Proof. intros s. unfold ReadAtom. by destruct (take_while _ s), s. Qed.
#[export] Instance halts_quoted buf : Halts (quoted_loop buf).
Proof.
  intros s. revert buf. induction s as [s IH] using bytes_len_ind. intros buf.
  destruct s as [|c s]; simpl; [done|]. case_if; [done|]. case_if.
  - destruct s as [|d s]; [done|]. apply IH. simpl. lia.
  - apply IH. simpl. lia.
Qed.
#[export] Instance halts_literal_loop n b : Halts (literal_loop n b).
Proof.
  intros s. revert n b. induction s as [|c s IH]; intros n b; simpl; [done|].
  repeat case_if; try done; apply IH.
Qed.
#[export] Instance halts_ReadFull n : Halts (ReadFull n).
Proof. intros s. unfold ReadFull. by repeat case_if. Qed.
#[export] Instance halts_ParseInt s : Halts (lift_res (ParseInt s)).
Proof. intros t. unfold lift_res, ParseInt. by destruct (parse_int s). Qed.
#[export] Instance halts_ParseUint s n : Halts (lift_res (ParseUint s n)).
Proof. intros t. unfold lift_res, ParseUint. by destruct (parse_uint n s). Qed.
#[export] Instance halts_ReadQuotedString : Halts ReadQuotedString.
Proof. unfold ReadQuotedString. apply _. Qed.
#[export] Instance halts_ReadCRLF : Halts ReadCRLF.
Proof. unfold ReadCRLF. apply _. Qed.
#[export] Instance halts_literal_body bin b : Halts (literal_body bin b).
Proof.
  unfold literal_body. apply halts_if; [apply _|].
  apply halts_bind; [apply _|intros [n ns]]. apply _.
Qed.
#[export] Instance halts_ReadLiteralInfo : Halts ReadLiteralInfo.
Proof. unfold ReadLiteralInfo. apply _. Qed.
#[export] Instance halts_ReadString : Halts ReadString.
Proof. unfold ReadString. apply _. Qed.
#[export] Instance halts_ReadAString : Halts ReadAString.
Proof. unfold ReadAString. apply _. Qed.
#[export] Instance halts_ReadSP : Halts ReadSP.
Proof. unfold ReadSP. apply _. Qed.
#[export] Instance halts_ExpectByte c : Halts (ExpectByte c).
Proof. unfold ExpectByte. apply _. Qed.
#[export] Instance halts_ReadNumberBits n : Halts (ReadNumberBits n).
Proof. unfold ReadNumberBits. apply _. Qed.

Lemma list_loop_halts {A} (fn : Dec A) `{!Consumes fn, !Halts fn} fuel (first : bool) acc s :
  (length s + (if first then 2 else 1) <= fuel)%nat -> (list_loop fuel first fn acc s).1 <> Hang.
Proof.
  revert first acc s. induction fuel as [|f IH]; intros first acc s Hf; [destruct first; lia|].
  simpl. unfold mbind at 1, st_bind at 1. destruct s as [|c s]; [done|].
  cbn [PeekByte]. destruct (c =c ")"); [done|].
  unfold mbind at 1, st_bind at 1.
  destruct ((if first then (mret tt : Dec unit) else ReadSP) (c :: s)) as [r1 s1] eqn:E1.
  assert (r1 <> Hang) as Hr1.
  { intros ->. apply (f_equal fst) in E1. revert E1.
    destruct first; [apply halts_ret|apply halts_ReadSP]. }
  assert (length s1 + (if first then 0 else 1) <= length (c :: s))%nat as Hs1.
  { destruct first.
    - injection E1 as <- <-. simpl. lia.
    - unfold ReadSP, mbind, st_bind in E1. simpl in E1.
      destruct (c =c " "); injection E1 as <- <-; simpl; lia. }
  destruct r1 as [[]|e| |]; try done.
  unfold mbind at 1, st_bind at 1. destruct (fn s1) as [r2 s2] eqn:E2.
  assert (r2 <> Hang) by (pose proof (halts (m := fn) s1) as H; by rewrite E2 in H).
  pose proof (consumes_length fn _ _ _ E2).
  destruct r2; try done. apply IH. destruct first; simpl in *; lia.
Qed.

#[export] Instance halts_ReadList {A} (fn : Dec A) : Consumes fn -> Halts fn -> Halts (ReadList fn).
Proof.
  intros Hc Hh. unfold ReadList. apply halts_bind; [apply _|intros _].
  intros s. unfold mbind, st_bind, st_get. by apply list_loop_halts.
Qed.
