(* ===== verification/Encoder.v ===== *)
(** * The wire encoder (wire/encoder.go, wire/literal.go)

    An encoder is the bytes written so far; every method appends to them and
    returns the encoder, so the source's fluent chains read the same here with
    [|>].  Write errors are ignored by the source and do not occur. *)

From S2P Require Import Prelude Utf8 GoStrings GoTime Decoder.

Notation "e |> f" := (f e) (at level 50, left associativity, only parsing) : imap_scope.

Module Enc.

Abbreviation Encoder := (list ascii).

Definition Raw (data : bytes) (e : Encoder) : Encoder := e ++ data.
Definition RawString (s : bytes) (e : Encoder) : Encoder := e ++ s.
Definition Atom (s : bytes) (e : Encoder) : Encoder := e ++ s.
Definition SP (e : Encoder) : Encoder := e ++ [" "%char].
Definition CRLF (e : Encoder) : Encoder := e ++ crlf.

Definition escape_quoted (s : bytes) : bytes :=
  concat ((fun c => if IsQuotedSpecial c then ["\"%char; c] else [c]) <$> s).
Definition QuotedString (s : bytes) (e : Encoder) : Encoder :=
  e ++ [DQ] ++ escape_quoted s ++ [DQ].

Definition Literal (data : bytes) (e : Encoder) : Encoder :=
  e ++ ["{"%char] ++ Itoa (len data) ++ ["}"%char] ++ crlf ++ data.
Definition LiteralNonSync (data : bytes) (e : Encoder) : Encoder :=
  e ++ ["{"%char] ++ Itoa (len data) ++ ["+"%char; "}"%char] ++ crlf ++ data.
Definition BinaryLiteral (data : bytes) (e : Encoder) : Encoder :=
  e ++ ["~"%char; "{"%char] ++ Itoa (len data) ++ ["}"%char] ++ crlf ++ data.
(** The header [LiteralWriter] writes before handing out the writer. *)
Definition LiteralHeader (size : Z) (nonSync : bool) (e : Encoder) : Encoder :=
  e ++ ["{"%char] ++ FormatInt size ++ (if nonSync then ["+"%char] else []) ++ ["}"%char] ++ crlf.

Definition EncString (s : bytes) (e : Encoder) : Encoder :=
  if NeedsLiteral s then e |> Literal s
  else if NeedsQuoting s then e |> QuotedString s
  else e |> Atom s.
Definition AString (s : bytes) (e : Encoder) : Encoder := e |> EncString s.

Definition Nil (e : Encoder) : Encoder := e ++ "NIL".
Definition NString (s : option bytes) (e : Encoder) : Encoder :=
  match s with None => e |> Nil | Some s => e |> EncString s end.

Definition Number (n : Z) (e : Encoder) : Encoder := e ++ FormatUint n.
Definition Number64 (n : Z) (e : Encoder) : Encoder := e ++ FormatUint n.

Definition BeginList (e : Encoder) : Encoder := e ++ ["("%char].
Definition EndList (e : Encoder) : Encoder := e ++ [")"%char].

Fixpoint items (first : bool) (l : list bytes) (e : Encoder) : Encoder :=
  match l with
  | [] => e
  | item :: l' => items false l' ((if first then e else e |> SP) |> EncString item)
  end.
Definition EncList (l : list bytes) (e : Encoder) : Encoder :=
  items true l (e ++ ["("%char]) ++ [")"%char].
Definition Flags (flags : list bytes) (e : Encoder) : Encoder := e |> EncList flags.

Definition Date (t : Time) (e : Encoder) : Encoder := e |> QuotedString (Format t DateLayout).
Definition DateTime (t : Time) (e : Encoder) : Encoder :=
  e |> QuotedString (Format t InternalDateLayout).

Definition Tag (tag : bytes) (e : Encoder) : Encoder := e ++ tag.
Definition Star (e : Encoder) : Encoder := e ++ "* ".
Definition Plus (e : Encoder) : Encoder := e ++ "+ ".

Definition StatusResponse (tag status code text : bytes) (e : Encoder) : Encoder :=
  let e := if (tag =s []) || (tag =s "*") then e |> Star else e |> Tag tag |> SP in
  let e := e |> Atom status in
  let e := if code =s [] then e else e ++ " [" ++ code ++ "]" in
  let e := if text =s [] then e else (e |> SP) ++ text in
  e |> CRLF.

Definition BeginResponse (name : bytes) (e : Encoder) : Encoder := e |> Star |> Atom name |> SP.
Definition NumResponse (num : Z) (name : bytes) (e : Encoder) : Encoder :=
  e |> Star |> Number num |> SP |> Atom name |> CRLF.
Definition ContinuationRequest (text : bytes) (e : Encoder) : Encoder :=
  e |> Plus |> RawString text |> CRLF.

Definition MailboxName {U : Unicode} (name : bytes) (e : Encoder) : Encoder :=
  if EqualFold name "INBOX" then e |> Atom "INBOX" else e |> AString name.

(** [ResponseCode] with its arguments already rendered by [fmt.Fprint]. *)
Definition ResponseCode (code : bytes) (args : list bytes) (e : Encoder) : Encoder :=
  e ++ "[" ++ code ++ concat ((fun a => " "%char :: a) <$> args) ++ "] ".

End Enc.

(** ** LiteralWriter (wire/literal.go) *)
Module LitW.

Record LiteralWriter := mkLW { lw_out : bytes; lw_size : Z; lw_written : Z }.

Definition NewLiteralWriter (size : Z) : LiteralWriter := mkLW [] size 0.

(** The number of bytes taken; a negative room makes the slice expression
    panic. *)
Definition Write (p : bytes) (lw : LiteralWriter) : res Z * LiteralWriter :=
  let remaining := lw_size lw - lw_written lw in
  if (remaining <? len p) && (remaining <? 0) then (Panic, lw)
  else
    let p := if remaining <? len p then take (Z.to_nat remaining) p else p in
    (Ok (len p), mkLW (lw_out lw ++ p) (lw_size lw) (lw_written lw + len p)).

Definition Remaining (lw : LiteralWriter) : Z := lw_size lw - lw_written lw.
Definition Done (lw : LiteralWriter) : bool := lw_size lw <=? lw_written lw.

Definition writes (ps : list bytes) (lw : LiteralWriter) : LiteralWriter :=
  foldl (fun lw p => (Write p lw).2) lw ps.

Definition inv (lw : LiteralWriter) : Prop :=
  lw_written lw = len (lw_out lw) /\ 0 <= lw_written lw <= lw_size lw.

Lemma Write_spec p lw :
  inv lw ->
  exists q, Write p lw = (Ok (len q), mkLW (lw_out lw ++ q) (lw_size lw) (lw_written lw + len q))
  /\ q = take (Z.to_nat (Remaining lw)) p /\ inv (Write p lw).2.
Proof.
  intros [H1 H2]. unfold Write, Remaining, inv.
  destruct (Z.ltb_spec (lw_size lw - lw_written lw) (len p)) as [Hlt|Hge].
  - destruct (Z.ltb_spec (lw_size lw - lw_written lw) 0); [lia|]. cbn [andb].
    eexists. split; [done|]. split; [done|]. cbn [snd lw_written lw_out lw_size].
    rewrite len_app. unfold len in *. rewrite length_take. lia.
  - cbn [andb]. exists p. split; [done|]. split.
    + rewrite take_ge; [done|]. unfold len in Hge. lia.
    + cbn [snd lw_written lw_out lw_size]. rewrite len_app. pose proof (len_nonneg p). lia.
Qed.

Lemma writes_spec ps lw :
  inv lw ->
  inv (writes ps lw) /\ lw_size (writes ps lw) = lw_size lw /\
  lw_out (writes ps lw) = lw_out lw ++ take (Z.to_nat (Remaining lw)) (concat ps).
Proof.
  revert lw. induction ps as [|p ps IH]; intros lw Hinv.
  - cbn. by rewrite take_nil, app_nil_r.
  - cbn [writes foldl concat]. fold (writes ps (Write p lw).2).
    destruct (Write_spec p lw Hinv) as (q & HW & Hq & Hinv').
    destruct (IH _ Hinv') as (H1 & H2 & H3). split; [done|].
    rewrite HW in *. cbn [snd lw_size lw_out] in *. split; [done|].
    rewrite H3, <- app_assoc. f_equal. rewrite take_app, <- Hq. f_equal. f_equal.
    unfold Remaining. cbn [lw_size lw_written]. subst q. unfold len. rewrite length_take.
    unfold Remaining. lia.
Qed.

End LitW.
