(* ===== verification/Wire.v ===== *)
(** * What is written can be read back (wire/encoder.go against wire/decoder.go)

    Round trips between the encoder's output and the decoder, each over an
    arbitrary rest of the stream, with the exact conditions under which they
    hold. *)

From S2P Require Import Prelude Utf8 GoStrings GoTime Decoder Encoder.

(** The encoder writes [s] as a bare atom. *)
Definition as_atom (s : bytes) : bool := negb (NeedsLiteral s) && negb (NeedsQuoting s).

(** A bare atom starting with a tilde is taken for a binary literal. *)
Definition tilde_atom (s : bytes) : bool := as_atom s && match s with c :: _ => c =c "~" | [] => false end.

(** Bytes of an atom, whatever follows it. *)
Lemma atom_char_ascii c : isAtomChar c = true -> is_ascii c = true /\ 0x20 <= bval c <= 0x7e.
Proof.
  unfold isAtomChar, is_ascii. case_if; [done|]. to_prop. intros _. split; [|lia].
  apply Z.ltb_lt. lia.
Qed.

Lemma digit_atom_char c : is_digit c = true -> isAtomChar c = true.
Proof.
  unfold is_digit. rewrite in_range_true. intros H.
  rewrite <- (byte_of_bval c). assert (exists k, (k < 10)%nat /\ bval c = 48 + Z.of_nat k) as (k & Hk & ->).
  { exists (Z.to_nat (bval c - 48)). lia. }
  do 10 (destruct k as [|k]; [done|]). lia.
Qed.

Lemma ReadAtom_app a rest :
  a <> [] -> forallb isAtomChar a = true -> stops isAtomChar rest ->
  ReadAtom (a ++ rest) = (Ok a, rest).
Proof.
  intros Hne Ha Hr. unfold ReadAtom. rewrite take_while_app, drop_while_app by done.
  by destruct a.
Qed.

Lemma as_atom_spec s :
  as_atom s = true <-> s <> [] /\ forallb isAtomChar s = true.
Proof.
  unfold as_atom, NeedsQuoting. rewrite andb_true_iff, !negb_true_iff. split.
  - intros [_ H]. destruct (s =s []) eqn:E0; [done|]. to_prop. split; [done|].
    rewrite forallb_Forall. apply list.Forall_forall. intros c Hc.
    destruct (isAtomChar c) eqn:E; [done|]. exfalso. apply not_true_iff_false in H. apply H.
    apply existsb_exists. exists c. rewrite E. split; [by apply list_elem_of_In|done].
  - intros [Hne H]. rewrite bool_decide_false by done.
    assert (forall p, (forall c, isAtomChar c = true -> p c = false) -> existsb p s = false) as Hall.
    { intros p Hp. apply not_true_iff_false. intros (c & Hc & Hpc)%existsb_exists.
      rewrite forallb_forall in H. by rewrite (Hp c (H c Hc)) in Hpc. }
    split; apply Hall; intros c Hc; [|by rewrite Hc].
    apply atom_char_ascii in Hc as [_ Hc].
    rewrite !orb_false_iff, !beqb_false, Z.ltb_ge.
    repeat split; try lia; intros ->; vm_compute in Hc; by destruct Hc as [[] _].
Qed.

(** ** Quoted strings *)
Lemma quoted_loop_escape s buf rest :
  quoted_loop buf (Enc.escape_quoted s ++ [DQ] ++ rest) = (Ok (buf ++ s), rest).
Proof.
  revert buf. induction s as [|c s IH]; intros buf; [by rewrite app_nil_r|].
  unfold Enc.escape_quoted. cbn [fmap list_fmap concat]. fold (Enc.escape_quoted s).
  assert (buf ++ c :: s = (buf ++ [c]) ++ s) as -> by by rewrite <- app_assoc.
  rewrite <- app_assoc. unfold IsQuotedSpecial. destruct (c =c DQ) eqn:E1.
  - to_prop. subst. exact (IH _).
  - destruct (c =c "\") eqn:E2; simpl.
    + to_prop. subst. exact (IH _).
    + rewrite E1, E2. exact (IH _).
Qed.

Lemma quoted_read s rest :
  ReadQuotedString (Enc.QuotedString s [] ++ rest) = (Ok s, rest).
Proof.
  unfold Enc.QuotedString. rewrite app_nil_l, <- !app_assoc.
  exact (quoted_loop_escape s [] rest).
Qed.

(** ** Literals *)
Lemma digit_not c d : is_digit c = true -> is_digit d = false -> (c =c d) = false.
Proof. intros Hc Hd. apply beqb_false. intros ->. congruence. Qed.

Lemma literal_loop_digits ds acc ns rest :
  forallb is_digit ds = true ->
  literal_loop acc ns (ds ++ rest) = literal_loop (acc ++ ds) ns rest.
Proof.
  revert acc. induction ds as [|c ds IH]; intros acc; simpl; [by rewrite app_nil_r|].
  intros [Hc Hds]%andb_true_iff. rewrite !(digit_not c) by done. rewrite Hc, IH by done.
  by rewrite <- app_assoc.
Qed.

Lemma literal_info_read (n : Z) (bin ns : bool) rest :
  0 <= n < 2 ^ 63 ->
  ReadLiteralInfo ((if bin then ["~"%char] else []) ++ ["{"%char] ++ Itoa n
     ++ (if ns then ["+"%char] else []) ++ ["}"%char] ++ crlf ++ rest)
  = (Ok {| Size := n; NonSync := ns; Binary := bin |}, rest).
Proof.
  intros Hn. unfold Itoa, FormatInt. destruct (Z.ltb_spec n 0); [lia|].
  set (t := (if ns then _ else _) ++ _).
  assert (literal_loop [] false (FormatUint n ++ t) = (Ok (FormatUint n, ns), crlf ++ rest)) as HL.
  { rewrite literal_loop_digits by (apply FormatUint_digits; lia). by destruct ns. }
  assert (ParseInt (FormatUint n) = Ok n) as HP by (unfold ParseInt; by rewrite parse_int_FormatInt).
  unfold ReadLiteralInfo, literal_body. clearbody t.
  destruct bin; cbn [app]; unfold mbind, st_bind, on_err, lift_res; cbn -[literal_loop ParseInt FormatUint];
    eval_beq; cbn -[literal_loop ParseInt FormatUint]; eval_beq; cbn -[literal_loop ParseInt FormatUint];
    rewrite HL; cbn -[literal_loop ParseInt FormatUint]; by rewrite HP.
Qed.

Lemma ReadFull_app s rest n :
  n = len s -> len s <= maxAlloc -> ReadFull n (s ++ rest) = (Ok s, rest).
Proof.
  intros -> Hs. unfold ReadFull. rewrite len_app.
  pose proof (len_nonneg s). pose proof (len_nonneg rest).
  destruct (Z.ltb_spec (len s) 0); [lia|]. destruct (Z.ltb_spec maxAlloc (len s)); [lia|].
  destruct (Z.ltb_spec (len s + len rest) (len s)); [lia|]. cbn [orb].
  unfold len. rewrite Nat2Z.id. by rewrite take_app_length, drop_app_length.
Qed.

Lemma literal_read s (bin ns : bool) rest :
  len s <= maxAlloc ->
  ReadString ((if bin then ["~"%char] else []) ++ ["{"%char] ++ Itoa (len s)
     ++ (if ns then ["+"%char] else []) ++ ["}"%char] ++ crlf ++ s ++ rest)
  = (Ok s, rest).
Proof.
  intros Hs. pose proof (len_nonneg s).
  assert (0 <= len s < 2 ^ 63) as Hr by (unfold maxAlloc in Hs; lia).
  pose proof (literal_info_read (len s) bin ns (s ++ rest) Hr) as HI.
  unfold ReadString. set (w := _ ++ _) in *.
  rewrite (st_bind_ok _ _ _ w (if bin then "~"%char else "{"%char)) by (by destruct bin).
  assert (((if bin then "~"%char else "{"%char) =c DQ) = false) as -> by by destruct bin.
  assert (((if bin then "~"%char else "{"%char) =c "{")
          || ((if bin then "~"%char else "{"%char) =c "~") = true) as -> by by destruct bin.
  rewrite (st_bind_ok _ _ _ _ _ HI). by apply ReadFull_app.
Qed.

(** ** Strings in whichever form the encoder chose *)
Lemma string_read s rest :
  tilde_atom s = false -> len s <= maxAlloc -> stops isAtomChar rest ->
  ReadString (Enc.EncString s [] ++ rest) = (Ok s, rest).
Proof.
  intros Ht Hs Hr. unfold Enc.EncString. destruct (NeedsLiteral s) eqn:EL.
  - unfold Enc.Literal. rewrite app_nil_l, <- !app_assoc.
    exact (literal_read s false false rest Hs).
  - destruct (NeedsQuoting s) eqn:EQ.
    + pose proof (quoted_read s rest) as HQ. exact HQ.
    + assert (as_atom s = true) as Ha by (unfold as_atom; by rewrite EL, EQ).
      unfold tilde_atom in Ht. rewrite Ha in Ht. apply as_atom_spec in Ha as [Hne Ha].
      unfold Enc.Atom. rewrite app_nil_l. pose proof (ReadAtom_app s rest Hne Ha Hr) as HA.
      destruct s as [|c s]; [done|]. cbn [andb] in Ht.
      simpl in Ha. apply andb_true_iff in Ha as [Hc _].
      unfold ReadString. cbn [app]. rewrite (st_bind_ok _ _ _ (c :: s ++ rest) c) by done.
      assert ((c =c DQ) = false) as -> by (apply beqb_false; by intros ->).
      assert ((c =c "{") = false) as -> by (apply beqb_false; by intros ->).
      rewrite Ht. cbn [orb].
      exact HA.
Qed.

(** Conversely a tilde atom is never read back. *)
Lemma tilde_not_read s rest :
  tilde_atom s = true -> ReadString (Enc.EncString s [] ++ rest) <> (Ok s, rest).
Proof.
  intros [Ha Ht]%andb_true_iff. assert (Enc.EncString s [] = s) as ->.
  { unfold Enc.EncString, as_atom in *. to_prop. by rewrite H, H0. }
  destruct s as [|c s]; [done|]. to_prop. subst c.
  apply as_atom_spec in Ha as [_ Ha]. simpl in Ha.
  set (m := (b ← ReadByte; literal_body true b) ≫= (fun info => ReadFull (Size info))).
  assert (ReadString (("~"%char :: s) ++ rest) = m (s ++ rest)) as ->.
  { unfold ReadString, ReadLiteralInfo. subst m. unfold mbind, st_bind. cbn. eval_beq. done. }
  subst m. destruct s as [|d s].
  - cbn [app]. destruct rest as [|d rest]; [done|]. intros H.
    unfold mbind at 1 2, st_bind at 1 2 in H. cbn [ReadByte] in H.
    change (_ = _) with ((literal_body true d ≫= (fun info => ReadFull (Size info))) rest
      = (Ok ["~"%char], d :: rest)) in H.
    apply (consumes_length (literal_body true d ≫= _)) in H. simpl in H. lia.
  - cbn in Ha. apply andb_true_iff in Ha as [Hd _].
    unfold mbind, st_bind. cbn [app ReadByte]. unfold literal_body.
    assert ((d =c "{") = false) as -> by (apply beqb_false; by intros ->). done.
Qed.

(** ** Lists *)
Lemma EncString_app s e : Enc.EncString s e = e ++ Enc.EncString s [].
Proof.
  unfold Enc.EncString, Enc.Literal, Enc.QuotedString, Enc.Atom.
  repeat case_if; by rewrite app_nil_l.
Qed.

Lemma items_false_app l e : Enc.items false l e = e ++ Enc.items false l [].
Proof.
  revert e. induction l as [|x l IH]; intros e; simpl; [by rewrite app_nil_r|].
  rewrite IH, (IH (Enc.EncString x _)).
  rewrite (EncString_app x (Enc.SP e)), (EncString_app x (Enc.SP [])).
  unfold Enc.SP. by rewrite <- !app_assoc.
Qed.

Definition readable (s : bytes) : Prop := tilde_atom s = false /\ len s <= maxAlloc.

(** The first byte of a written string never closes a list. *)
Lemma EncString_head s : exists c t, Enc.EncString s [] = c :: t /\ c <> ")"%char.
Proof.
  unfold Enc.EncString. destruct (NeedsLiteral s) eqn:E1; [by eexists _, _|].
  destruct (NeedsQuoting s) eqn:E2; [by eexists _, _|].
  assert (as_atom s = true) as [Hne Ha]%as_atom_spec by (unfold as_atom; by rewrite E1, E2).
  destruct s as [|c s]; [done|]. exists c, s. split; [done|]. simpl in Ha.
  apply andb_true_iff in Ha as [Hc _]. by intros ->.
Qed.

Lemma list_loop_items l acc fuel (first : bool) rest :
  Forall readable l -> (length l < fuel)%nat ->
  list_loop fuel first ReadString acc (Enc.items first l [] ++ ")"%char :: rest)
  = (Ok (acc ++ l), rest).
Proof.
  revert acc fuel first. induction l as [|s l IH]; intros acc [|f] first Hl Hf; try (simpl in Hf; lia).
  - cbn [list_loop Enc.items app]. unfold mbind, st_bind. cbn. eval_beq. by rewrite app_nil_r.
  - apply list.Forall_cons in Hl as [[H1 H2] Hl].
    set (tail := Enc.items false l [] ++ ")"%char :: rest).
    assert (stops isAtomChar tail) as Hstop.
    { subst tail. destruct l as [|x l]; [done|]. cbn [Enc.items]. rewrite items_false_app.
      by rewrite EncString_app, <- !app_assoc. }
    pose proof (string_read s tail H1 H2 Hstop) as HR.
    assert (Enc.items first (s :: l) [] ++ ")"%char :: rest
      = (if first then [] else [" "%char]) ++ Enc.EncString s [] ++ tail) as ->.
    { cbn [Enc.items]. rewrite items_false_app. subst tail.
      rewrite EncString_app, <- !app_assoc. by destruct first. }
    destruct (EncString_head s) as (c & t & HE & Hc). rewrite HE in *.
    specialize (IH (acc ++ [s]) f false Hl ltac:(simpl in Hf; lia)).
    fold tail in IH. rewrite <- app_assoc in IH.
    cbn [list_loop].
    rewrite (st_bind_ok _ _ _ ((if first then [] else [" "%char]) ++ (c :: t) ++ tail)
      (if first then c else " "%char)) by (by destruct first).
    assert (((if first then c else " "%char) =c ")") = false) as ->
      by (destruct first; [by apply beqb_false|done]).
    rewrite (st_bind_ok _ _ _ ((c :: t) ++ tail) tt)
      by (destruct first; [done|]; unfold ReadSP, mbind, st_bind; cbn; by eval_beq).
    rewrite (st_bind_ok _ _ _ _ _ HR). exact IH.
Qed.

Lemma items_length l (first : bool) :
  (length l <= length (Enc.items first l []) + (if first then 1 else 0))%nat.
Proof.
  revert first. induction l as [|s l IH]; intros first; [simpl; lia|].
  destruct (EncString_head s) as (c & t & HE & _). specialize (IH false). simpl in IH. cbn [Enc.items].
  rewrite items_false_app, length_app, EncString_app, length_app, HE.
  destruct first; cbn [Enc.SP length app]; lia.
Qed.

Lemma EncList_app l e : Enc.EncList l e = e ++ Enc.EncList l [].
Proof.
  unfold Enc.EncList. destruct l as [|s l]; [simpl; by rewrite <- app_assoc|].
  cbn [Enc.items]. rewrite items_false_app, (items_false_app l (Enc.EncString _ ([] ++ _))).
  rewrite (EncString_app _ (e ++ _)), (EncString_app _ ([] ++ _)). by rewrite <- !app_assoc.
Qed.

Lemma list_read l rest :
  Forall readable l ->
  ReadList ReadString (Enc.EncList l [] ++ rest) = (Ok l, rest).
Proof.
  intros Hl. unfold Enc.EncList.
  assert ((Enc.items true l ([] ++ ["("%char]) ++ [")"%char]) ++ rest
    = "("%char :: Enc.items true l [] ++ ")"%char :: rest) as ->.
  { destruct l as [|s l]; [done|]. cbn [Enc.items].
    rewrite items_false_app, EncString_app, (items_false_app l (Enc.EncString _ [])).
    by rewrite <- !app_assoc. }
  unfold ReadList. rewrite (st_bind_ok _ _ _ (Enc.items true l [] ++ ")"%char :: rest) tt)
    by (unfold ExpectByte, mbind, st_bind; cbn; by eval_beq).
  unfold mbind, st_bind, st_get. apply (list_loop_items l []); [done|].
  pose proof (items_length l true). rewrite length_app. simpl in *. lia.
Qed.

(** ** NIL or a string *)
Section NString.
Context {U : Unicode}.

(** A string written as the atom [NIL], in any letter case. *)
Definition nil_atom (s : bytes) : bool := as_atom s && EqualFold s "NIL".

Lemma fold_key_app_ascii s t :
  ascii_string s = true -> fold_key (s ++ t) = (foldKey <$> (bval <$> s)) ++ fold_key t.
Proof. intros Hs. unfold fold_key. by rewrite runes_ascii_app, fmap_app. Qed.

(** A byte that folds to a letter of [NIL] is a letter. *)
Lemma fold_nil_letter c :
  is_ascii c = true -> isAtomChar c = false -> foldKey (bval c) ∉ [110; 105; 108].
Proof.
  intros Hc. unfold is_ascii in Hc. to_prop. pose proof (bval_range c).
  rewrite foldKey_ascii by lia. intros Ha Hin.
  assert (bval c ∈ [110; 105; 108; 78; 73; 76]) as Hb.
  { unfold lower_ascii in Hin. destruct (in_range 65 90 (bval c)); set_unfold in Hin;
      set_unfold; naive_solver lia. }
  rewrite <- (byte_of_bval c) in Ha. set_unfold in Hb.
  by repeat destruct Hb as [Hb|Hb]; try rewrite Hb in Ha.
Qed.

(** An atom of fewer than three bytes is not mistaken for [NIL]. *)
Lemma short_atom_not_nil s c t :
  forallb isAtomChar s = true -> is_ascii c = true -> isAtomChar c = false ->
  EqualFold (s ++ c :: t) "NIL" = false.
Proof.
  intros Hs Hc Ha. apply not_true_iff_false. intros H. apply EqualFold_spec in H.
  assert (ascii_string s = true) as Hs'.
  { unfold ascii_string. rewrite forallb_Forall in *. eapply list.Forall_impl; [done|].
    intros d Hd. simpl in Hd. by apply atom_char_ascii in Hd as [? _]. }
  rewrite fold_key_app_ascii in H by done.
  change (fold_key "NIL") with (foldKey <$> [78; 73; 76]) in H. simpl in H.
  rewrite (foldKey_ascii 78), (foldKey_ascii 73), (foldKey_ascii 76) in H by lia.
  assert (foldKey (bval c) ∈ fold_key (c :: t)) as Hin.
  { unfold fold_key. rewrite runes_cons_ascii by done. left. }
  apply (fold_nil_letter c Hc Ha). change [110; 105; 108] with
    [lower_ascii 78; lower_ascii 73; lower_ascii 76]. rewrite <- H.
  apply elem_of_app. by right.
Qed.

Lemma nstring_other s rest v s' :
  ReadString s = (Ok v, s') -> rest = s' ->
  (EqualFold (take 3 s) "NIL" = false \/ (exists c, s !! 3%nat = Some c /\ isAtomChar c = true)
   \/ (length s < 3)%nat) ->
  ReadNString s = (Ok (v, true), rest).
Proof.
  intros HR -> Hcase. unfold ReadNString.
  assert ((v ← ReadString; mret (v, true)) s = (Ok (v, true), s')) as Hstr
    by by rewrite (st_bind_ok _ _ _ _ _ HR).
  destruct (take 3 s) as [|c b] eqn:E.
  { destruct s; [|done]. by vm_compute in HR. }
  rewrite <- E. destruct (EqualFold (take 3 s) "NIL") eqn:EF; [|by rewrite andb_false_r].
  destruct Hcase as [?|[(d & Hd & Ha)|Hlen]]; [congruence| |].
  - rewrite andb_true_r, lookup_take_lt, Hd by lia. rewrite Ha. by destruct (_ <=? _)%nat.
  - rewrite length_take. destruct (Nat.leb_spec 3 (3 `min` length s)); [lia|]. done.
Qed.

Lemma nstring_read s rest :
  readable s -> nil_atom s = false -> stops isAtomChar rest ->
  match rest with c :: _ => is_ascii c = true | [] => True end ->
  ReadNString (Enc.EncString s [] ++ rest) = (Ok (s, true), rest).
Proof.
  intros [H1 H2] Hnil Hr Hasc. pose proof (string_read s rest H1 H2 Hr) as HR.
  eapply nstring_other; [done|done|]. clear HR.
  unfold Enc.EncString. destruct (NeedsLiteral s) eqn:E1.
  { left. unfold Enc.Literal. rewrite app_nil_l, <- !app_assoc.
    cbn [app take]. by apply (short_atom_not_nil []). }
  destruct (NeedsQuoting s) eqn:E2.
  { left. unfold Enc.QuotedString. cbn [app take]. by apply (short_atom_not_nil []). }
  assert (as_atom s = true) as Ha by (unfold as_atom; by rewrite E1, E2).
  unfold nil_atom in Hnil. rewrite Ha in Hnil. apply as_atom_spec in Ha as [_ Ha].
  unfold Enc.Atom. rewrite app_nil_l.
  destruct (lt_eq_lt_dec (length s) 3) as [[Hlt|Heq]|Hgt].
  - destruct rest as [|c rest]; [right; right; by rewrite app_nil_r|].
    left. rewrite take_app_ge by lia.
    destruct (3 - length s)%nat as [|k] eqn:Ek; [lia|]. cbn [take].
    by apply short_atom_not_nil.
  - left. rewrite take_app_le, take_ge by lia. exact Hnil.
  - right; left. destruct (lookup_lt_is_Some_2 s 3 ltac:(lia)) as [c Hc].
    exists c. rewrite lookup_app_l by lia. split; [done|].
    rewrite forallb_Forall in Ha. by apply (Forall_lookup_1 _ _ _ _ Ha Hc).
Qed.

Lemma nstring_nil_read b rest :
  length b = 3%nat -> EqualFold b "NIL" = true -> stops isAtomChar rest ->
  ReadNString (b ++ rest) = (Ok ([], false), rest).
Proof.
  intros Hb HF Hr. unfold ReadNString. rewrite take_app_le, take_ge, drop_app_length' by lia.
  destruct b as [|c0 b]; [done|]. rewrite Hb, HF. cbn [andb Nat.leb].
  rewrite lookup_take_lt, lookup_app_r by lia. rewrite Hb. simpl.
  destruct rest as [|d rest]; [done|]. simpl. by rewrite Hr.
Qed.

End NString.

(** ** Numbers *)
Lemma number_read bits n rest :
  0 <= bits <= 64 -> 0 <= n < 2 ^ bits -> stops isAtomChar rest ->
  ReadNumberBits bits (FormatUint n ++ rest) = (Ok n, rest).
Proof.
  intros Hb Hn Hr. unfold ReadNumberBits. rewrite (st_bind_ok _ _ _ rest (FormatUint n)).
  - unfold on_err, lift_res. by rewrite ParseUint_FormatUint.
  - apply ReadAtom_app; [apply FormatUint_ne| |done].
    pose proof (FormatUint_digits n ltac:(lia)) as Hd. rewrite forallb_Forall in *.
    eapply list.Forall_impl; [done|]. intros c Hc. by apply digit_atom_char.
Qed.

(** ** The properties *)

(** [C16] A string written by the encoder, in whichever of the three forms it
    chose, is read back exactly and leaves the rest of the stream untouched if
    and only if it is not an atom that starts with a tilde. *)
Theorem wire_string_roundtrip (s rest : bytes) :
  len s <= maxAlloc -> stops isAtomChar rest ->
  (ReadAString (Enc.AString s [] ++ rest) = (Ok s, rest) <-> tilde_atom s = false).
Proof.
  intros Hs Hr. unfold ReadAString, Enc.AString. split.
  - intros H. apply not_true_iff_false. intros Ht. by apply (tilde_not_read s rest Ht).
  - intros Ht. by apply string_read.
Qed.
Lemma wire_string_roundtrip_witness :
  ReadAString (Enc.AString "two words" [] ++ crlf) = (Ok (bytes_of "two words"), crlf).
Proof.
  apply (wire_string_roundtrip "two words" crlf); [by vm_compute|by vm_compute|by vm_compute].
Defined.

(** Every literal form (synchronizing, non-synchronizing and binary) and
    the quoted form carry any byte string through the decoder's string reader. *)
Theorem wire_literal_forms (s rest : bytes) :
  len s <= maxAlloc ->
  ReadString (Enc.Literal s [] ++ rest) = (Ok s, rest) /\
  ReadString (Enc.LiteralNonSync s [] ++ rest) = (Ok s, rest) /\
  ReadString (Enc.BinaryLiteral s [] ++ rest) = (Ok s, rest) /\
  ReadString (Enc.QuotedString s [] ++ rest) = (Ok s, rest).
Proof.
  intros Hs. unfold Enc.Literal, Enc.LiteralNonSync, Enc.BinaryLiteral.
  rewrite !app_nil_l, <- !app_assoc. repeat split.
  - exact (literal_read s false false rest Hs).
  - exact (literal_read s false true rest Hs).
  - exact (literal_read s true false rest Hs).
  - exact (quoted_read s rest).
Qed.
Lemma wire_literal_forms_witness :
  ReadString (Enc.Literal [NUL; CR; LF; DQ] [] ++ crlf) = (Ok [NUL; CR; LF; DQ], crlf).
Proof. apply (wire_literal_forms [NUL; CR; LF; DQ] crlf). by vm_compute. Defined.

(** A parenthesised list of strings written by the encoder is read back
    element by element by the decoder's list reader. *)
Theorem wire_list_roundtrip (l : list bytes) (rest : bytes) :
  Forall readable l -> ReadList ReadString (Enc.EncList l [] ++ rest) = (Ok l, rest).
Proof. apply list_read. Qed.
Lemma wire_list_roundtrip_witness :
  ReadList ReadString (Enc.EncList ["a" : bytes; "b c" : bytes; [] : bytes; [CR]] [] ++ crlf)
  = (Ok ["a" : bytes; "b c" : bytes; [] : bytes; [CR]], crlf).
Proof.
  apply wire_list_roundtrip. repeat constructor; by vm_compute.
Defined.

(** NIL and strings keep apart on the wire except for the strings the
    encoder writes as the atom NIL, which come back as the nil string. *)
Theorem wire_nstring_roundtrip {U : Unicode} (o : option bytes) (rest : bytes) :
  match o with Some s => readable s | None => True end ->
  stops isAtomChar rest -> match rest with c :: _ => is_ascii c = true | [] => True end ->
  ReadNString (Enc.NString o [] ++ rest)
  = (Ok (match o with
         | None => ([], false)
         | Some s => if nil_atom s then ([], false) else (s, true)
         end), rest).
Proof.
  intros Ho Hr Hasc. destruct o as [s|]; cbn [Enc.NString].
  - destruct (nil_atom s) eqn:E; [|by apply nstring_read].
    unfold nil_atom in E. apply andb_true_iff in E as [Ha HF].
    assert (Enc.EncString s [] = s) as ->.
    { unfold Enc.EncString, as_atom in *. to_prop. by rewrite H, H0. }
    apply nstring_nil_read; [|done|done]. apply as_atom_spec in Ha as [_ Ha].
    apply EqualFold_spec in HF. apply (f_equal length) in HF.
    unfold fold_key in HF. rewrite !length_fmap, runes_ascii, length_fmap in HF; [done|].
    unfold ascii_string. rewrite forallb_Forall in *. eapply list.Forall_impl; [done|].
    intros c Hc. by apply atom_char_ascii in Hc as [? _].
  - apply (nstring_nil_read "NIL"); [done| |done]. apply EqualFold_refl.
Qed.
Lemma wire_nstring_roundtrip_witness :
  let U := basic_unicode in
  ReadNString (Enc.NString (Some ("nil" : bytes)) [] ++ crlf) = (Ok ([], false), crlf).
Proof.
  intros U. rewrite (wire_nstring_roundtrip (Some ("nil" : bytes)) crlf);
    [reflexivity|split; by vm_compute|by vm_compute|by vm_compute].
Defined.

(** Numbers survive: the decimal form of a 32-bit or 64-bit unsigned
    number is read back as that number. *)
Theorem wire_number_roundtrip (n : Z) (rest : bytes) :
  stops isAtomChar rest ->
  (0 <= n < 2 ^ 32 -> ReadNumber (Enc.Number n [] ++ rest) = (Ok n, rest)) /\
  (0 <= n < 2 ^ 64 -> ReadNumber64 (Enc.Number64 n [] ++ rest) = (Ok n, rest)).
Proof. intros Hr. split; intros Hn; by apply number_read. Qed.
Lemma wire_number_roundtrip_witness :
  ReadNumber (Enc.Number 4294967295 [] ++ crlf) = (Ok 4294967295, crlf).
Proof. apply (wire_number_roundtrip 4294967295 crlf); [by vm_compute|lia]. Defined.

(** A date-time in whole seconds, with a zone of whole minutes and a year
    of at most four digits, is read back from its wire form unchanged. *)
Theorem wire_datetime_roundtrip (t : Time) (y m d : Z) (rest : bytes) :
  date_of_days ((t_ns t / second + t_off t) / 86400) = (y, m, d) -> 0 <= y < 10000 ->
  t_ns t mod second = 0 -> Z.rem (t_off t) 60 = 0 -> Z.abs (t_off t) < 25 * 3600 ->
  exists s, ReadQuotedString (Enc.DateTime t [] ++ rest) = (Ok s, rest) /\
            Parse InternalDateLayout s = inr t.
Proof.
  intros. exists (Format t InternalDateLayout). split; [apply quoted_read|].
  by eapply parse_format_InternalDate.
Qed.
Lemma wire_datetime_roundtrip_witness :
  let t := mkTime (63843379200 * second) (-7 * 3600) in
  date_of_days ((t_ns t / second + t_off t) / 86400) = (2024, 2, 12) /\
  exists s, ReadQuotedString (Enc.DateTime t [] ++ crlf) = (Ok s, crlf) /\
            Parse InternalDateLayout s = inr t.
Proof.
  intros t. split; [by vm_compute|].
  apply (wire_datetime_roundtrip t 2024 2 12 crlf); by vm_compute.
Defined.
