(* ===== verification/Utf7.v ===== *)
(** * Modified UTF-7 mailbox names (wire/utf7/utf7.go)

    The part of [encoding/base64] and [unicode/utf16] the package uses, then
    its encoder and decoder, and the round trip between them. *)

From S2P Require Import Prelude Utf8 GoStrings.

#[local] Ltac Zify.zify_post_hook ::= Z.to_euclidean_division_equations.

(** ** base64 without padding *)
Section Base64.
Context (alphabet : bytes).

Definition b64_char (v : Z) : ascii := nth (Z.to_nat v) alphabet NUL.
Definition b64_val (c : ascii) : option Z := Z.of_nat <$> IndexByte alphabet c.

Fixpoint to_sextets (b : bytes) : list Z :=
  match b with
  | x :: y :: z :: rest =>
    [bval x / 4; bval x mod 4 * 16 + bval y / 16; bval y mod 16 * 4 + bval z / 64; bval z mod 64]
      ++ to_sextets rest
  | [x; y] => [bval x / 4; bval x mod 4 * 16 + bval y / 16; bval y mod 16 * 4]
  | [x] => [bval x / 4; bval x mod 4 * 16]
  | [] => []
  end.

Fixpoint of_sextets (v : list Z) : bytes :=
  match v with
  | a :: b :: c :: d :: rest =>
    [byte_of (a * 4 + b / 16); byte_of (b mod 16 * 16 + c / 4); byte_of (c mod 4 * 64 + d)]
      ++ of_sextets rest
  | [a; b; c] => [byte_of (a * 4 + b / 16); byte_of (b mod 16 * 16 + c / 4)]
  | [a; b] => [byte_of (a * 4 + b / 16)]
  | _ => []
  end.

Definition EncodeToString (b : bytes) : bytes := b64_char <$> to_sextets b.

(** The values of the characters of the alphabet; carriage returns and line
    feeds are skipped, anything else is corrupt input at its position. *)
Fixpoint b64_vals (i : Z) (s : bytes) : Z + list Z :=
  match s with
  | [] => inr []
  | c :: t =>
    match b64_val c with
    | Some v => match b64_vals (i + 1) t with inr vs => inr (v :: vs) | inl p => inl p end
    | None => if (c =c LF) || (c =c CR) then b64_vals (i + 1) t else inl i
    end
  end.

Definition CorruptInputError (i : Z) : error :=
  emsg ("illegal base64 data at input byte " ++ Itoa i).

Definition DecodeString (s : bytes) : error + bytes :=
  match b64_vals 0 s with
  | inl p => inl (CorruptInputError p)
  | inr vs => if len vs mod 4 =? 1 then inl (CorruptInputError (len s - 1)) else inr (of_sextets vs)
  end.

End Base64.

(** ** UTF-16 *)
Definition utf16_units (r : Z) : list Z :=
  if 0x10000 <=? r
  then [0xD800 + (r - 0x10000) / 1024 mod 1024; 0xDC00 + (r - 0x10000) mod 1024]
  else [r].
Definition unit_bytes (u : Z) : bytes := [byte_of (u / 256); byte_of u].

(** [utf16.DecodeRune] *)
Definition DecodeRune (r1 r2 : Z) : Z :=
  if in_range 0xD800 0xDBFF r1 && in_range 0xDC00 0xDFFF r2
  then (r1 - 0xD800) * 1024 + (r2 - 0xDC00) + 0x10000
  else RuneError.

(** ** The package *)
Definition modifiedBase64 : bytes :=
  "ABCDEFGHIJKLMNOPQRSTUVWXYZabcdefghijklmnopqrstuvwxyz0123456789+,".

Definition flush (b64buf : bytes) : bytes :=
  match b64buf with
  | [] => []
  | _ => ["&"%char] ++ EncodeToString modifiedBase64 b64buf ++ ["-"%char]
  end.

Definition printable (r : Z) : bool := in_range 0x20 0x7e r.

Fixpoint encode_loop (b64buf : bytes) (rs : list Z) : bytes :=
  match rs with
  | [] => flush b64buf
  | r :: rs' =>
    if printable r then
      flush b64buf ++ (if r =? 38 then "&-" else encode_rune r) ++ encode_loop [] rs'
    else encode_loop (b64buf ++ concat (unit_bytes <$> utf16_units r)) rs'
  end.

Definition Encode (s : bytes) : bytes := encode_loop [] (runes s).

(** The UTF-16BE bytes of a section, as UTF-8. *)
Fixpoint decode_units (b : bytes) : error + bytes :=
  match b with
  | hi :: lo :: rest =>
    let code := bval hi * 256 + bval lo in
    if surrogate code then
      match rest with
      | hi2 :: lo2 :: rest' =>
        let r := DecodeRune code (bval hi2 * 256 + bval lo2) in
        if r =? RuneError then inl (emsg "utf7: invalid surrogate pair")
        else match decode_units rest' with
             | inr t => inr (encode_rune r ++ t)
             | inl e => inl e
             end
      | _ => inl (emsg "utf7: incomplete surrogate pair")
      end
    else match decode_units rest with
         | inr t => inr (encode_rune code ++ t)
         | inl e => inl e
         end
  | _ => inr []
  end.

(** Every round consumes a byte: the length of the input plus one rounds are
    enough. *)
Fixpoint decode_loop (fuel : nat) (buf s : bytes) : res bytes :=
  match fuel with
  | O => Hang
  | S f =>
    match s with
    | [] => Ok buf
    | c :: s1 =>
      if negb (c =c "&") then decode_loop f (buf ++ [c]) s1
      else
        match s1 with
        | [] => Err (emsg "utf7: unexpected end after '&'")
        | c1 :: s2 =>
          if c1 =c "-" then decode_loop f (buf ++ ["&"%char]) s2
          else
            match IndexByte s1 "-" with
            | None => Err (emsg "utf7: missing closing '-' for base64 section")
            | Some e =>
              match DecodeString modifiedBase64 (take e s1) with
              | inl err => Err (Errorf [Txt "utf7: invalid base64: "; Wrap err])
              | inr decoded =>
                if negb (len decoded mod 2 =? 0)
                then Err (emsg "utf7: odd number of bytes in UTF-16 data")
                else
                  match decode_units decoded with
                  | inl err => Err err
                  | inr t => decode_loop f (buf ++ t) (drop (S e) s1)
                  end
              end
            end
        end
    end
  end.

Definition Decode (s : bytes) : res bytes := decode_loop (S (length s)) [] s.

(** ** base64 round trip *)
Lemma of_to_sextets b : of_sextets (to_sextets b) = b.
Proof.
  induction b as [b IH] using bytes_len_ind.
  destruct b as [|x [|y [|z rest]]]; cbn [to_sextets of_sextets app]; [done|..].
  - f_equal. apply byte_of_eq. pose proof (bval_range x). lia.
  - pose proof (bval_range x). pose proof (bval_range y).
    f_equal; [|f_equal]; apply byte_of_eq; lia.
  - pose proof (bval_range x). pose proof (bval_range y). pose proof (bval_range z).
    rewrite IH by (simpl; lia). f_equal; [|f_equal; [|f_equal]]; try apply byte_of_eq; lia.
Qed.

Lemma to_sextets_range b : Forall (fun v => 0 <= v < 64) (to_sextets b).
Proof.
  induction b as [b IH] using bytes_len_ind.
  destruct b as [|x [|y [|z rest]]]; cbn [to_sextets app]; [constructor|..];
    pose proof (bval_range x); try pose proof (bval_range y); try pose proof (bval_range z);
    repeat (constructor; [lia|]); try constructor. apply IH. simpl. lia.
Qed.

Lemma to_sextets_len b : len (to_sextets b) mod 4 <> 1.
Proof.
  induction b as [b IH] using bytes_len_ind.
  destruct b as [|x [|y [|z rest]]]; cbn [to_sextets app]; [done..|].
  rewrite !len_cons. specialize (IH rest ltac:(simpl; lia)). lia.
Qed.

Lemma b64_val_char v : 0 <= v < 64 -> b64_val modifiedBase64 (b64_char modifiedBase64 v) = Some v.
Proof.
  intros Hv. assert (forallb (fun i => bool_decide (b64_val modifiedBase64
    (b64_char modifiedBase64 (Z.of_nat i)) = Some (Z.of_nat i))) (seq 0 64) = true) as H by by vm_compute.
  rewrite forallb_forall in H. specialize (H (Z.to_nat v)).
  rewrite bool_decide_eq_true, Z2Nat.id in H by lia. apply H. apply in_seq. lia.
Qed.

Lemma b64_vals_chars vs i :
  Forall (fun v => 0 <= v < 64) vs ->
  b64_vals modifiedBase64 i (b64_char modifiedBase64 <$> vs) = inr vs.
Proof.
  intros H. revert i. induction H as [|v vs Hv _ IH]; intros i; [done|].
  cbn [fmap list_fmap b64_vals]. rewrite b64_val_char by done. by rewrite IH.
Qed.

Lemma base64_roundtrip b :
  DecodeString modifiedBase64 (EncodeToString modifiedBase64 b) = inr b.
Proof.
  unfold DecodeString, EncodeToString. rewrite b64_vals_chars by apply to_sextets_range.
  pose proof (to_sextets_len b). destruct (Z.eqb_spec (len (to_sextets b) mod 4) 1); [done|].
  by rewrite of_to_sextets.
Qed.

(** The characters of the alphabet are printable and neither shift nor
    terminator. *)
Definition b64_ok (c : ascii) : bool :=
  printable (bval c) && negb (c =c "-") && negb (c =c "&").

Lemma EncodeToString_ok b : Forall (fun c => b64_ok c = true) (EncodeToString modifiedBase64 b).
Proof.
  unfold EncodeToString. apply Forall_fmap. eapply list.Forall_impl; [apply to_sextets_range|].
  cbn beta. intros v Hv.
  assert (forallb b64_ok modifiedBase64 = true) as H by by vm_compute.
  rewrite forallb_forall in H. apply H. apply nth_In.
  assert (length modifiedBase64 = 64%nat) as -> by by vm_compute. lia.
Qed.

Lemma EncodeToString_no_dash b : ("-"%char) ∉ EncodeToString modifiedBase64 b.
Proof.
  intros Hin. pose proof (EncodeToString_ok b) as H. rewrite list.Forall_forall in H.
  specialize (H _ Hin). by vm_compute in H.
Qed.

Lemma EncodeToString_cons x b :
  exists c t, EncodeToString modifiedBase64 (x :: b) = c :: t /\ (c =c "-") = false.
Proof.
  pose proof (EncodeToString_ok (x :: b)) as H.
  destruct (EncodeToString modifiedBase64 (x :: b)) as [|c t] eqn:E.
  - unfold EncodeToString in E. by destruct b as [|y [|z b]].
  - exists c, t. split; [done|]. apply list.Forall_cons in H as [H _].
    unfold b64_ok in H. to_prop. by apply beqb_false.
Qed.

(** ** UTF-16 round trip *)
Definition utf16be (rs : list Z) : bytes :=
  concat ((fun r => concat (unit_bytes <$> utf16_units r)) <$> rs).

Lemma utf16be_cons r rs :
  utf16be (r :: rs) = concat (unit_bytes <$> utf16_units r) ++ utf16be rs.
Proof. done. Qed.

Lemma bval_unit u : 0 <= u < 0x10000 -> bval (byte_of (u / 256)) * 256 + bval (byte_of u) = u.
Proof. intros Hu. rewrite !bval_byte_of. lia. Qed.

Lemma decode_units_rune r rest :
  valid_rune r = true ->
  decode_units (concat (unit_bytes <$> utf16_units r) ++ rest)
  = match decode_units rest with inr t => inr (encode_rune r ++ t) | inl e => inl e end.
Proof.
  intros Hr. unfold valid_rune, surrogate in Hr. to_prop.
  destruct (proj1 (in_range_true _ _ _) H) as [Hr1 Hr2].
  unfold utf16_units. destruct (Z.leb_spec 0x10000 r) as [Hbig|Hsmall].
  - cbn [fmap list_fmap concat unit_bytes app decode_units].
    rewrite !bval_unit by lia.
    assert (surrogate (0xD800 + (r - 0x10000) / 1024 mod 1024) = true) as ->
      by (apply in_range_true; lia).
    unfold DecodeRune.
    assert (in_range 0xD800 0xDBFF (0xD800 + (r - 0x10000) / 1024 mod 1024) = true) as ->
      by (apply in_range_true; lia).
    assert (in_range 0xDC00 0xDFFF (0xDC00 + (r - 0x10000) mod 1024) = true) as ->
      by (apply in_range_true; lia).
    cbn [andb]. set (r' := _ + 0x10000). assert (r' = r) as -> by (unfold r'; lia).
    destruct (Z.eqb_spec r RuneError); [unfold RuneError in *; lia|]. done.
  - cbn [fmap list_fmap concat unit_bytes app decode_units].
    rewrite !bval_unit by lia. unfold surrogate. by rewrite H0.
Qed.

Lemma decode_units_utf16be rs :
  Forall (fun r => valid_rune r = true) rs -> decode_units (utf16be rs) = inr (encode_runes rs).
Proof.
  induction 1 as [|r rs Hr _ IH]; [done|].
  rewrite utf16be_cons, decode_units_rune by done. by rewrite IH.
Qed.

Lemma utf16be_even rs : len (utf16be rs) mod 2 = 0.
Proof.
  induction rs as [|r rs IH]; [done|]. rewrite utf16be_cons, len_app. unfold utf16_units. destruct (_ <=? _);
    cbn [fmap list_fmap concat unit_bytes app]; rewrite !len_cons, len_nil; lia.
Qed.

Lemma utf16be_snoc rs r :
  utf16be (rs ++ [r]) = utf16be rs ++ concat (unit_bytes <$> utf16_units r).
Proof. unfold utf16be. rewrite fmap_app, concat_app. simpl. by rewrite app_nil_r. Qed.

Lemma utf16be_nil rs : utf16be rs = [] -> rs = [].
Proof.
  destruct rs as [|r rs]; [done|]. rewrite utf16be_cons. unfold utf16_units. by case_if.
Qed.

(** ** The decoder on the encoder's output *)
Lemma decode_flush f buf rs t :
  Forall (fun r => valid_rune r = true) rs -> rs <> [] ->
  decode_loop (S f) buf (flush (utf16be rs) ++ t) = decode_loop f (buf ++ encode_runes rs) t.
Proof.
  intros Hrs Hne. destruct (utf16be rs) as [|x b] eqn:E; [by apply utf16be_nil in E|].
  unfold flush. destruct (EncodeToString_cons x b) as (c & s & HE & Hc).
  rewrite <- !app_assoc. cbn [app decode_loop]. eval_beq. cbn [negb].
  assert (forall u, EncodeToString modifiedBase64 (x :: b) ++ "-"%char :: u
    = c :: s ++ "-"%char :: u) as Hcons by (intros; by rewrite HE).
  rewrite Hcons, Hc, <- Hcons.
  rewrite IndexByte_app by apply EncodeToString_no_dash.
  rewrite take_app_length, base64_roundtrip, <- E, utf16be_even. cbn [Z.eqb negb].
  rewrite decode_units_utf16be by done.
  f_equal. rewrite drop_app_ge by lia. by replace (S _ - _)%nat with 1%nat by lia.
Qed.

Lemma decode_flush' f buf rs t :
  Forall (fun r => valid_rune r = true) rs ->
  (length (flush (utf16be rs) ++ t) < f)%nat ->
  exists f', decode_loop f buf (flush (utf16be rs) ++ t)
    = decode_loop f' (buf ++ encode_runes rs) t /\ (length t < f')%nat.
Proof.
  intros Hrs Hf. destruct rs as [|r rs].
  - exists f. cbn [utf16be fmap list_fmap concat flush app encode_runes] in *.
    by rewrite app_nil_r.
  - destruct f as [|f]; [lia|]. exists f. rewrite decode_flush by done. split; [done|].
    rewrite length_app in Hf. destruct (utf16be (r :: rs)) eqn:E; [by apply utf16be_nil in E|].
    simpl in Hf. lia.
Qed.

(** A printable rune other than the shift character stands for itself. *)
Lemma printable_rune r :
  printable r = true -> encode_rune r = [byte_of r] /\ ((byte_of r =c "&") = (r =? 38)).
Proof.
  intros Hp. apply in_range_true in Hp. rewrite encode_rune_ascii by lia. split; [done|].
  destruct (Z.eqb_spec r 38) as [->|Hne]; [done|]. apply beqb_false. intros Hb.
  apply (f_equal bval) in Hb. rewrite bval_byte_of_small in Hb by lia. by vm_compute in Hb.
Qed.

Lemma decode_printable f buf r t :
  printable r = true ->
  decode_loop (S f) buf ((if r =? 38 then "&-" else encode_rune r) ++ t)
  = decode_loop f (buf ++ encode_rune r) t.
Proof.
  intros Hp. destruct (printable_rune r Hp) as [HE Hamp].
  destruct (Z.eqb_spec r 38) as [->|Hne]; [reflexivity|].
  rewrite HE. cbn [app decode_loop]. by rewrite Hamp.
Qed.

Lemma encode_runes_app rs rs' : encode_runes (rs ++ rs') = encode_runes rs ++ encode_runes rs'.
Proof. unfold encode_runes. by rewrite fmap_app, concat_app. Qed.

Lemma decode_encode_loop f buf rs0 rs :
  Forall (fun r => valid_rune r = true) (rs0 ++ rs) ->
  (length (encode_loop (utf16be rs0) rs) < f)%nat ->
  decode_loop f buf (encode_loop (utf16be rs0) rs) = Ok (buf ++ encode_runes (rs0 ++ rs)).
Proof.
  revert f buf rs0. induction rs as [|r rs IH]; intros f buf rs0 Hv Hf.
  - cbn [encode_loop] in *. rewrite app_nil_r in *. rewrite <- (app_nil_r (flush _)) in *.
    destruct (decode_flush' f buf rs0 [] Hv Hf) as (f' & -> & Hf').
    destruct f'; [lia|done].
  - pose proof Hv as Hv'. apply Forall_app in Hv' as [Hv0 [Hr Hvs]%list.Forall_cons].
    cbn [encode_loop] in *. destruct (printable r) eqn:Ep.
    + destruct (decode_flush' f buf rs0 _ Hv0 Hf) as (f' & -> & Hf').
      destruct f' as [|f']; [lia|]. rewrite decode_printable by done.
      change ([] : bytes) with (utf16be []) in *. rewrite IH; [|done|].
      * rewrite (encode_runes_app rs0), (encode_runes_app [r] rs : encode_runes (r :: rs) = _).
        change (encode_runes [r]) with (encode_rune r ++ []). by rewrite app_nil_r, <- !app_assoc.
      * destruct (printable_rune r Ep) as [HE _]. rewrite HE, length_app in Hf'.
        destruct (r =? 38); simpl in Hf'; lia.
    + rewrite <- utf16be_snoc in *. rewrite IH; by rewrite <- ?app_assoc.
Qed.

(** ** The properties *)

(** [C39] Decoding an encoded mailbox name always succeeds and gives the name
    back, with each invalid byte of it replaced by U+FFFD; a valid UTF-8 name is
    given back unchanged. *)
Theorem utf7_roundtrip (s : bytes) :
  Decode (Encode s) = Ok (encode_runes (runes s)) /\
  (valid_utf8 s = true -> Decode (Encode s) = Ok s).
Proof.
  assert (Decode (Encode s) = Ok (encode_runes (runes s))) as H.
  { exact (decode_encode_loop _ [] [] (runes s) (runes_valid s) (Nat.lt_succ_diag_r _)). }
  split; [done|]. intros Hs. by rewrite H, encode_runes_runes.
Qed.
Lemma utf7_roundtrip_witness :
  let s := encode_runes [0x53F0; 0x5317; 0x26; 0x1F600; 0x41] in
  Encode s = "&U,BTFw-&-&2D3eAA-A" /\ Decode (Encode s) = Ok s.
Proof.
  intros s. split; [by vm_compute|]. apply (utf7_roundtrip s). by vm_compute.
Defined.

(** The encoder only emits printable ASCII, and every shift character it
    emits opens a section that is closed again, so that what it emits is always
    accepted by the decoder. *)
Theorem utf7_encode_printable (s : bytes) :
  Forall (fun c => printable (bval c) = true) (Encode s) /\ is_ok (Decode (Encode s)) = true.
Proof.
  split.
  - unfold Encode. generalize (@nil ascii) as b. generalize (runes s) as rs.
    assert (forall b, Forall (fun c => printable (bval c) = true) (flush b)) as Hflush.
    { intros [|x b]; [constructor|]. unfold flush. repeat constructor.
      apply Forall_app. split; [|by repeat constructor].
      eapply list.Forall_impl; [apply EncodeToString_ok|]. cbn beta. intros c Hc.
      unfold b64_ok in Hc. by to_prop. }
    induction rs as [|r rs IH]; intros b; cbn [encode_loop]; [apply Hflush|].
    destruct (printable r) eqn:Ep; [|apply IH].
    apply Forall_app. split; [apply Hflush|]. apply Forall_app. split; [|apply IH].
    destruct (r =? 38); [by repeat constructor|].
    rewrite (proj1 (printable_rune r Ep)). apply in_range_true in Ep as Ep'.
    constructor; [|constructor]. by rewrite bval_byte_of_small by lia.
  - pose proof (decode_encode_loop _ [] [] (runes s) (runes_valid s) (Nat.lt_succ_diag_r _)) as H.
    change (Decode (Encode s) = Ok (encode_runes (runes s))) in H. by rewrite H.
Qed.

(** The decoder terminates on every input. *)
Theorem utf7_decode_terminates (s : bytes) : Decode s <> Hang.
Proof.
  unfold Decode. generalize (@nil ascii) as buf.
  assert (forall f s buf, (length s < f)%nat -> decode_loop f buf s <> Hang) as H;
    [|intros buf; apply H; lia].
  clear s. induction f as [|f IH]; intros s buf Hf; [lia|].
  destruct s as [|c s1]; [done|]. simpl in Hf. cbn [decode_loop].
  destruct (negb _); [apply IH; lia|]. destruct s1 as [|c1 s2]; [done|]. simpl in Hf.
  destruct (c1 =c "-"); [apply IH; lia|].
  destruct (IndexByte _ _) as [e|]; [|done]. destruct (DecodeString _ _); [done|].
  destruct (negb _); [done|]. destruct (decode_units _); [done|]. apply IH.
  rewrite length_drop. simpl. lia.
Qed.
