(* ===== verification/Base64.v ===== *)
(** * Padded base64 ([encoding/base64], [StdEncoding])

    As the client uses it for SASL challenges and responses. *)

From S2P Require Import Prelude Utf8 GoStrings Utf7.

Definition stdBase64 : bytes := "ABCDEFGHIJKLMNOPQRSTUVWXYZabcdefghijklmnopqrstuvwxyz0123456789+/".
Definition PAD : ascii := "=".

Definition padding (n : nat) : bytes := replicate ((3 - n mod 3) mod 3) PAD.
Definition std_EncodeToString (b : bytes) : bytes :=
  EncodeToString stdBase64 b ++ padding (length b).

Definition is_newline (c : ascii) : bool := (c =c LF) || (c =c CR).

(** After the padding only newlines may follow; [i] is the position of [s]. *)
Definition std_end (vals : list Z) (i : Z) (s : bytes) : error + list Z :=
  match drop_while is_newline s with
  | [] => inr vals
  | rest => inl (CorruptInputError (i + len s - len rest))
  end.
(** [vals] are the values so far; [j] of them belong to the open quantum. *)
Fixpoint std_vals (vals : list Z) (j : Z) (i : Z) (s : bytes) : error + list Z :=
  match s with
  | [] => if j =? 0 then inr vals else inl (CorruptInputError (i - j))
  | c :: t =>
    match b64_val stdBase64 c with
    | Some v => std_vals (vals ++ [v]) ((j + 1) mod 4) (i + 1) t
    | None =>
      if is_newline c then std_vals vals j (i + 1) t
      else if negb (c =c PAD) then inl (CorruptInputError i)
      else if j <? 2 then inl (CorruptInputError i)
      else if j =? 2 then
        let rest := drop_while is_newline t in
        let k := i + 1 + len t - len rest in
        match rest with
        | [] => inl (CorruptInputError k)
        | d :: t' => if d =c PAD then std_end vals (k + 1) t' else inl (CorruptInputError (k - 1))
        end
      else std_end vals (i + 1) t
    end
  end.
Definition std_DecodeString (s : bytes) : error + bytes :=
  match std_vals [] 0 0 s with
  | inl e => inl e
  | inr vals => inr (of_sextets vals)
  end.

(** ** The round trip *)
Lemma std_val_char v : 0 <= v < 64 -> b64_val stdBase64 (b64_char stdBase64 v) = Some v.
Proof.
  intros Hv. assert (forallb (fun i => bool_decide (b64_val stdBase64
    (b64_char stdBase64 (Z.of_nat i)) = Some (Z.of_nat i))) (seq 0 64) = true) as H by by vm_compute.
  rewrite forallb_forall in H. specialize (H (Z.to_nat v)).
  rewrite bool_decide_eq_true, Z2Nat.id in H by lia. apply H. apply in_seq. lia.
Qed.

Lemma std_vals_chars vs vals j i rest :
  Forall (fun v => 0 <= v < 64) vs -> 0 <= j < 4 ->
  std_vals vals j i ((b64_char stdBase64 <$> vs) ++ rest) =
  std_vals (vals ++ vs) ((j + len vs) mod 4) (i + len vs) rest.
Proof.
  intros H. revert vals j i. induction H as [|v vs Hv _ IH]; intros vals j i Hj.
  - rewrite fmap_nil, len_nil, !Z.add_0_r, app_nil_r, Z.mod_small by done. done.
  - rewrite fmap_cons. cbn [app std_vals]. rewrite std_val_char by done.
    rewrite IH by (apply Z.mod_pos_bound; lia). rewrite len_cons, <- app_assoc. f_equal; [|lia].
    rewrite Zplus_mod_idemp_l. f_equal. lia.
Qed.

Lemma sextets_count b :
  len (to_sextets b) mod 4 = match (length b mod 3)%nat with O => 0 | 1%nat => 2 | _ => 3 end.
Proof.
  induction b as [b IH] using bytes_len_ind.
  destruct b as [|x [|y [|z rest]]]; cbn [to_sextets app]; [done..|].
  rewrite !len_cons. specialize (IH rest ltac:(simpl; lia)).
  replace (length (x :: y :: z :: rest)) with (length rest + 1 * 3)%nat by (simpl; lia).
  rewrite Nat.Div0.mod_add, <- IH.
  replace (1 + (1 + (1 + (1 + len (to_sextets rest))))) with (len (to_sextets rest) + 1 * 4) by lia.
  by rewrite Z.mod_add.
Qed.

Lemma std_roundtrip b : std_DecodeString (std_EncodeToString b) = inr b.
Proof.
  unfold std_DecodeString, std_EncodeToString, EncodeToString.
  rewrite std_vals_chars by (apply to_sextets_range || lia). rewrite !Z.add_0_l, sextets_count.
  unfold padding. pose proof (Nat.mod_upper_bound (length b) 3 ltac:(lia)).
  assert (b64_val stdBase64 PAD = None) as HP by done.
  assert (is_newline PAD = false) as HN by done. assert ((PAD =c PAD) = true) as HE by done.
  destruct (length b mod 3)%nat as [|[|[|]]]; [..|lia];
    repeat first [rewrite HP | rewrite HN | rewrite HE | progress cbn -[of_sextets to_sextets]];
    by rewrite of_to_sextets.
Qed.
