(* ===== verification/ConnState.v ===== *)
(** * Connection states (imap.go, state/machine.go, state/transitions.go)

    The state machine of a connection with its transition table and hooks, and
    the states each command is allowed in. *)

From S2P Require Import Prelude Utf8 GoStrings.

(** ** Data *)
Inductive ConnState :=
| ConnStateNotAuthenticated
| ConnStateAuthenticated
| ConnStateSelected
| ConnStateLogout.
#[export] Instance ConnState_eq_dec : EqDecision ConnState.
Proof. solve_decision. Defined.
#[export] Instance ConnState_countable : Countable ConnState.
Proof.
  refine (inj_countable'
    (fun s => match s with
              | ConnStateNotAuthenticated => 0%nat | ConnStateAuthenticated => 1%nat
              | ConnStateSelected => 2%nat | ConnStateLogout => 3%nat end)
    (fun n => match n with
              | 0%nat => ConnStateNotAuthenticated | 1%nat => ConnStateAuthenticated
              | 2%nat => ConnStateSelected | _ => ConnStateLogout end) _).
  by intros [].
Defined.

Definition ConnState_String (s : ConnState) : bytes :=
  match s with
  | ConnStateNotAuthenticated => "not authenticated"
  | ConnStateAuthenticated => "authenticated"
  | ConnStateSelected => "selected"
  | ConnStateLogout => "logout"
  end.

(** A hook accepts a transition or returns an error. *)
Definition TransitionHook := ConnState -> ConnState -> option error.

(** [transitions] is a Go map: [None] is the nil map. *)
Record Machine := mkMachine {
  m_state : ConnState;
  transitions : option (gmap ConnState (list ConnState));
  beforeHooks : list TransitionHook;
  afterHooks : list TransitionHook;
}.

(** ** Operations *)
Definition DefaultTransitions : gmap ConnState (list ConnState) :=
  <[ConnStateNotAuthenticated := [ConnStateAuthenticated; ConnStateLogout]]>
  (<[ConnStateAuthenticated :=
      [ConnStateSelected; ConnStateLogout; ConnStateNotAuthenticated]]>
  (<[ConnStateSelected := [ConnStateAuthenticated; ConnStateSelected; ConnStateLogout]]> ∅)).

Definition New (initial : ConnState) : Machine :=
  mkMachine initial (Some DefaultTransitions) [] [].

Definition State (m : Machine) : ConnState := m_state m.

Definition canTransition (m : Machine) (from to : ConnState) : bool :=
  match transitions m ≫= fun t => t !! from with
  | None => false
  | Some allowed => existsb (fun s => bool_decide (s = to)) allowed
  end.
Definition CanTransition (m : Machine) (target : ConnState) : bool :=
  canTransition m (m_state m) target.

(** The first error of a list of hooks. *)
Fixpoint run_hooks (hooks : list TransitionHook) (from to : ConnState) : option error :=
  match hooks with
  | [] => None
  | hook :: rest =>
    match hook from to with Some e => Some e | None => run_hooks rest from to end
  end.

Definition set_state (m : Machine) (s : ConnState) : Machine :=
  mkMachine s (transitions m) (beforeHooks m) (afterHooks m).

Definition Transition (target : ConnState) : St Machine unit := fun m =>
  let from := m_state m in
  if negb (canTransition m from target) then
    (Err (emsg ("imap: invalid state transition from " ++ ConnState_String from
                ++ " to " ++ ConnState_String target)), m)
  else
    match run_hooks (beforeHooks m) from target with
    | Some e => (Err (Errorf [Txt "imap: before hook failed: "; Wrap e]), m)
    | None =>
      let m' := set_state m target in
      match run_hooks (afterHooks m') from target with
      | Some e => (Err (Errorf [Txt "imap: after hook failed: "; Wrap e]), m')
      | None => (Ok tt, m')
      end
    end.

Definition RequireState (m : Machine) (allowed : list ConnState) : option error :=
  if existsb (fun s => bool_decide (m_state m = s)) allowed then None
  else Some (emsg ("imap: command not allowed in " ++ ConnState_String (m_state m) ++ " state")).

Definition OnBefore (hook : TransitionHook) (m : Machine) : Machine :=
  mkMachine (m_state m) (transitions m) (beforeHooks m ++ [hook]) (afterHooks m).
Definition OnAfter (hook : TransitionHook) (m : Machine) : Machine :=
  mkMachine (m_state m) (transitions m) (beforeHooks m) (afterHooks m ++ [hook]).
Definition SetTransitions (t : option (gmap ConnState (list ConnState))) (m : Machine) : Machine :=
  mkMachine (m_state m) t (beforeHooks m) (afterHooks m).
(** Writing to the nil map panics. *)
Definition AddTransition (from to : ConnState) (m : Machine) : res Machine :=
  match transitions m with
  | None => Panic
  | Some t => Ok (SetTransitions (Some (<[from := default [] (t !! from) ++ [to]]> t)) m)
  end.

(** The states in which a command is allowed; [None] for a command that is not
    in the table. *)
Definition any_state : list ConnState :=
  [ConnStateNotAuthenticated; ConnStateAuthenticated; ConnStateSelected].
Definition auth_states : list ConnState := [ConnStateAuthenticated; ConnStateSelected].

Definition CommandAllowedStates (cmd : bytes) : option (list ConnState) :=
  let one_of (names : list bytes) := bool_decide (cmd ∈ names) in
  if one_of ["CAPABILITY" : bytes; "NOOP" : bytes; "LOGOUT" : bytes] then Some any_state
  else if one_of ["STARTTLS" : bytes; "AUTHENTICATE" : bytes; "LOGIN" : bytes]
  then Some [ConnStateNotAuthenticated]
  else if one_of ["ENABLE" : bytes; "SELECT" : bytes; "EXAMINE" : bytes; "CREATE" : bytes;
              "DELETE" : bytes; "RENAME" : bytes; "SUBSCRIBE" : bytes; "UNSUBSCRIBE" : bytes;
              "LIST" : bytes; "LSUB" : bytes; "NAMESPACE" : bytes; "STATUS" : bytes;
              "APPEND" : bytes; "IDLE" : bytes]
  then Some auth_states
  else if one_of ["CLOSE" : bytes; "UNSELECT" : bytes; "EXPUNGE" : bytes; "SEARCH" : bytes;
              "FETCH" : bytes; "STORE" : bytes; "COPY" : bytes; "MOVE" : bytes;
              "SORT" : bytes; "THREAD" : bytes; "UID" : bytes]
  then Some [ConnStateSelected]
  else None.

(** ** Reasoning about transitions *)
Definition allows (m : Machine) (from to : ConnState) : Prop :=
  exists t l, transitions m = Some t /\ t !! from = Some l /\ to ∈ l.

Lemma canTransition_spec m from to : canTransition m from to = true <-> allows m from to.
Proof.
  unfold canTransition, allows. destruct (transitions m) as [t|]; simpl;
    [|split; [done|by intros (? & ? & ? & _)]].
  destruct (t !! from) as [l|] eqn:E; [|split; [done|intros (? & ? & [= <-] & ? & _); congruence]].
  rewrite existsb_exists. setoid_rewrite <- list_elem_of_In.
  setoid_rewrite bool_decide_eq_true. split.
  - intros (s & Hs & ->). eauto.
  - intros (? & ? & [= <-] & [= <-]%(eq_trans (eq_sym E)) & Hin). eauto.
Qed.

Lemma run_hooks_None hooks from to :
  run_hooks hooks from to = None <-> Forall (fun h => h from to = None) hooks.
Proof.
  induction hooks as [|h hooks IH]; simpl; [by split|].
  rewrite list.Forall_cons. destruct (h from to); [naive_solver|]. rewrite IH. naive_solver.
Qed.

(** A machine whose table is the default one. *)
Definition default_rules (m : Machine) : Prop := transitions m = Some DefaultTransitions.

Lemma Transition_cases target m :
  let m' := (Transition target m).2 in
  (m' = m \/ (allows m (m_state m) target /\ m' = set_state m target)) /\
  ((Transition target m).1 = Ok tt -> m' = set_state m target /\ allows m (m_state m) target).
Proof.
  unfold Transition. destruct (canTransition m (m_state m) target) eqn:E; simpl.
  - apply canTransition_spec in E. destruct (run_hooks (beforeHooks m) _ _); simpl; [by split; [left|]|].
    destruct (run_hooks (afterHooks m) _ _); simpl; by split; [right|].
  - by split; [left|].
Qed.

(** What a default machine allows, state by state. *)
Definition default_next (from to : ConnState) : bool :=
  match from, to with
  | ConnStateNotAuthenticated, (ConnStateAuthenticated | ConnStateLogout) => true
  | ConnStateAuthenticated, (ConnStateSelected | ConnStateLogout | ConnStateNotAuthenticated) => true
  | ConnStateSelected, (ConnStateAuthenticated | ConnStateSelected | ConnStateLogout) => true
  | _, _ => false
  end.

Lemma default_allowed m from to :
  default_rules m -> canTransition m from to = default_next from to.
Proof. unfold default_rules, canTransition. intros ->. by destruct from, to. Qed.

(** A sequence of attempted transitions. *)
Definition attempts (targets : list ConnState) (m : Machine) : Machine :=
  foldl (fun m t => (Transition t m).2) m targets.

Lemma Transition_rules target m : transitions (Transition target m).2 = transitions m.
Proof. by destruct (Transition_cases target m) as [[->|[_ ->]] _]. Qed.

(** ** The properties *)

(** A transition succeeds exactly when the table allows it and every hook
    accepts it; the state changes exactly when the table allows it and every
    before-hook accepts it, and then it is the target; the rest of the machine
    never changes. *)
Theorem transition_spec (target : ConnState) (m : Machine) :
  let from := m_state m in
  let ok hooks := Forall (fun h : TransitionHook => h from target = None) hooks in
  ((Transition target m).1 = Ok tt <->
     allows m from target /\ ok (beforeHooks m) /\ ok (afterHooks m)) /\
  ((allows m from target /\ ok (beforeHooks m)) -> (Transition target m).2 = set_state m target) /\
  (~ (allows m from target /\ ok (beforeHooks m)) -> (Transition target m).2 = m).
Proof.
  intros from ok. unfold ok, from. rewrite <- canTransition_spec. setoid_rewrite <- run_hooks_None.
  unfold Transition. destruct (canTransition _ _ _); simpl; [|naive_solver].
  destruct (run_hooks (beforeHooks m) _ _); simpl; [naive_solver|].
  destruct (run_hooks (afterHooks m) _ _); simpl; naive_solver.
Qed.
Lemma transition_spec_witness :
  (Transition ConnStateAuthenticated (New ConnStateNotAuthenticated)).2 = New ConnStateAuthenticated.
Proof.
  apply (transition_spec ConnStateAuthenticated (New ConnStateNotAuthenticated)).
  split; [|constructor]. apply canTransition_spec. by vm_compute.
Defined.

(** With the default rules, whatever transitions are attempted and
    whatever hooks are installed, the logout state is never left, and a
    connection that is not authenticated only becomes selected through the
    authenticated state. *)
Theorem default_machine_safe (m : Machine) (targets : list ConnState) :
  default_rules m ->
  (m_state m = ConnStateLogout -> m_state (attempts targets m) = ConnStateLogout) /\
  (m_state m = ConnStateNotAuthenticated -> m_state (attempts targets m) = ConnStateSelected ->
     exists pre post, targets = pre ++ post /\ m_state (attempts pre m) = ConnStateAuthenticated).
Proof.
  intros Hm. assert (forall t m, default_rules m -> default_rules (Transition t m).2) as Hd.
  { intros t m' H. unfold default_rules. by rewrite Transition_rules. }
  assert (forall t m, default_rules m -> m_state (Transition t m).2 = m_state m
    \/ (m_state (Transition t m).2 = t /\ default_next (m_state m) t = true)) as Hstep.
  { intros t m' H. destruct (Transition_cases t m') as [[->|[Ha ->]] _]; [by left|right].
    split; [done|]. apply canTransition_spec in Ha. by rewrite default_allowed in Ha. }
  revert m Hm. induction targets as [|t targets IH]; intros m Hm; cbn [attempts foldl].
  - split; [done|]. intros H1 H2. congruence.
  - fold (attempts targets (Transition t m).2). destruct (IH _ (Hd t m Hm)) as [IH1 IH2].
    destruct (Hstep t m Hm) as [Heq|[Heq Hn]]; split; intros H1.
    + apply IH1. congruence.
    + intros H2. destruct IH2 as (pre & post & -> & Hpre); [congruence|done|].
      exists (t :: pre), post. done.
    + by rewrite H1 in Hn.
    + intros H2. rewrite H1 in Hn. destruct t; try done.
      * exists [ConnStateAuthenticated], targets. done.
      * rewrite IH1 in H2 by done. done.
Qed.
Lemma default_machine_safe_witness :
  m_state (attempts [ConnStateAuthenticated] (New ConnStateLogout)) = ConnStateLogout.
Proof.
  apply (default_machine_safe (New ConnStateLogout) [ConnStateAuthenticated]); reflexivity.
Defined.
