(* ===== verification/Registry.v ===== *)
(** * The extension registry (extension/registry.go, extension/extension.go)

    Registration and the topological sort of extensions by their dependencies.
    A Go [range] over a map visits the keys in an unspecified order: every such
    loop takes the order from an oracle [ord], indexed by the loop's occurrence,
    of which only [ord n l ≡ₚ l] is known. *)

From S2P Require Import Prelude Utf8 GoStrings.

(** ** Data and operations *)
Record Extension := mkExt {
  ExtName : bytes;
  ExtCapabilities : list bytes;
  ExtDependencies : list bytes;
}.

Record Registry := mkRegistry {
  extensions : gmap bytes Extension;
  order : list bytes;
}.

Definition NewRegistry : Registry := mkRegistry ∅ [].

Definition Register (ext : Extension) (r : Registry) : option error * Registry :=
  let name := ExtName ext in
  match extensions r !! name with
  | Some _ => (Some (Errorf [Txt "extension "; QStr name; Txt " already registered"]), r)
  | None => (None, mkRegistry (<[name := ext]> (extensions r)) (order r ++ [name]))
  end.

Definition Get (name : bytes) (r : Registry) : option Extension := extensions r !! name.

(** A name of the order without an extension would give the nil interface. *)
Definition All (r : Registry) : list (option Extension) :=
  (fun name => extensions r !! name) <$> order r.
Definition Names (r : Registry) : list bytes := order r.
Definition Len (r : Registry) : Z := Z.of_nat (size (extensions r)).

(** The first occurrence of [name] is cut out. *)
Fixpoint remove_first (name : bytes) (l : list bytes) : list bytes :=
  match l with
  | [] => []
  | n :: l' => if n =s name then l' else n :: remove_first name l'
  end.
Definition Remove (name : bytes) (r : Registry) : Registry :=
  mkRegistry (delete name (extensions r)) (remove_first name (order r)).

(** ** Resolve *)
Abbreviation degrees := (gmap bytes Z).

Section Resolve.
Context (ord : nat -> list bytes -> list bytes).

Definition keys {A} (m : gmap bytes A) : list bytes := (map_to_list m).*1.
Definition deps (r : Registry) (name : bytes) : list bytes :=
  match extensions r !! name with Some e => ExtDependencies e | None => [] end.
Definition name_of (r : Registry) (name : bytes) : bytes :=
  match extensions r !! name with Some e => ExtName e | None => [] end.

(** The first missing dependency in the visiting order. *)
Fixpoint missing_dep (r : Registry) (ds : list bytes) : option bytes :=
  match ds with
  | [] => None
  | d :: ds' =>
    match extensions r !! d with None => Some d | Some _ => missing_dep r ds' end
  end.
Fixpoint check_deps (r : Registry) (names : list bytes) : option error :=
  match names with
  | [] => None
  | n :: names' =>
    match missing_dep r (deps r n) with
    | Some dep => Some (Errorf [Txt "extension "; QStr (name_of r n); Txt " depends on ";
                                QStr dep; Txt " which is not registered"])
    | None => check_deps r names'
    end
  end.

Definition deg (inDegree : degrees) (n : bytes) : Z := default 0 (inDegree !! n).

(** The three passes that build the in-degrees; the last one overwrites what
    the first two computed. *)
Definition degrees_zero (names : list bytes) : degrees :=
  foldl (fun m n => <[n := 0]> m) ∅ names.
Definition degrees_count (r : Registry) (names : list bytes) (m : degrees) : degrees :=
  foldl (fun m n => foldl (fun m _ => <[name_of r n := deg m (name_of r n) + 1]> m) m (deps r n)) m names.
Definition degrees_final (r : Registry) (names : list bytes) (m : degrees) : degrees :=
  foldl (fun m n => <[n := len (deps r n)]> m) m names.

(** For each extension that depends on [name], decrease its in-degree. *)
Definition decrease (otherName : bytes) (st : degrees * list bytes) : degrees * list bytes :=
  let '(m, queue) := st in
  let m' := <[otherName := deg m otherName - 1]> m in
  if deg m' otherName =? 0 then (m', queue ++ [otherName]) else (m', queue).
Definition visit_deps (name otherName : bytes) (ds : list bytes) (st : degrees * list bytes) :=
  foldl (fun st dep => if dep =s name then decrease otherName st else st) st ds.
Definition visit (r : Registry) (name : bytes) (others : list bytes) (st : degrees * list bytes) :=
  foldl (fun st other => visit_deps name other (deps r other) st) st others.

(** The main loop: every round moves a name from the queue to the result, and
    no name is queued twice, so the number of extensions bounds the rounds. *)
Fixpoint kahn (fuel : nat) (r : Registry) (n : nat) (m : degrees) (queue sorted : list bytes)
    : option (list bytes) :=
  match queue with
  | [] => Some sorted
  | name :: queue' =>
    match fuel with
    | O => None
    | S f =>
      let '(m', queue'') := visit r name (ord n (keys (extensions r))) (m, queue') in
      kahn f r (S n) m' queue'' (sorted ++ [name])
    end
  end.

Definition Resolve (r : Registry) : res (list Extension) :=
  let names := keys (extensions r) in
  match check_deps r (ord 0 names) with
  | Some e => Err e
  | None =>
    let m := degrees_final r (ord 3 names)
               (degrees_count r (ord 2 names) (degrees_zero (ord 1 names))) in
    let queue := filter (fun n => deg m n = 0) (ord 4 (keys m)) in
    match kahn (length names) r 5 m queue [] with
    | None => Hang
    | Some sorted =>
      if negb (length sorted =? length names)%nat
      then Err (emsg "circular dependency detected among extensions")
      else Ok (omap (fun n => extensions r !! n) sorted)
    end
  end.

End Resolve.

(** ** The registry invariant *)
Definition registry_wf (r : Registry) : Prop :=
  NoDup (order r) /\
  (forall n, n ∈ order r <-> is_Some (extensions r !! n)) /\
  (forall n e, extensions r !! n = Some e -> ExtName e = n).

Lemma remove_first_filter name l :
  NoDup l -> remove_first name l = filter (fun n => n <> name) l.
Proof.
  induction 1 as [|n l Hn Hl IH]; [done|]. cbn [remove_first]. case_if; to_prop.
  - subst. rewrite filter_cons_False by (intros H; by apply H). symmetry.
    clear IH Hl. induction l as [|x l IH]; [done|].
    rewrite filter_cons_True by set_solver. f_equal. set_solver.
  - by rewrite filter_cons_True, IH.
Qed.

Lemma registry_wf_register ext r : registry_wf r -> registry_wf (Register ext r).2.
Proof.
  intros (Hnd & Hdom & Hname). unfold Register.
  destruct (extensions r !! ExtName ext) eqn:E; [done|]. simpl. split_and!; simpl.
  - apply list.NoDup_app. split; [done|]. split; [|apply list.NoDup_singleton].
    intros n Hn%Hdom ->%list_elem_of_singleton. rewrite E in Hn. by destruct Hn.
  - intros n. rewrite elem_of_app, Hdom, list_elem_of_singleton.
    destruct (decide (n = ExtName ext)) as [->|Hne].
    + rewrite lookup_insert_eq. naive_solver.
    + rewrite lookup_insert_ne by done. naive_solver.
  - intros n e. destruct (decide (ExtName ext = n)) as [<-|Hne].
    + rewrite lookup_insert_eq. by intros [= <-].
    + rewrite lookup_insert_ne by done. apply Hname.
Qed.

Lemma registry_wf_remove name r : registry_wf r -> registry_wf (Remove name r).
Proof.
  intros (Hnd & Hdom & Hname). unfold Remove. rewrite remove_first_filter by done.
  split_and!; simpl.
  - by apply list.NoDup_filter.
  - intros n. rewrite list_elem_of_filter, Hdom.
    destruct (decide (name = n)) as [->|Hne].
    + rewrite lookup_delete_eq. naive_solver.
    + rewrite lookup_delete_ne by done. naive_solver.
  - intros n e. rewrite lookup_delete_Some. naive_solver.
Qed.

(** ** Keys and in-degrees *)
Lemma elem_of_keys {A} (m : gmap bytes A) n : n ∈ keys m <-> is_Some (m !! n).
Proof.
  unfold keys. rewrite list_elem_of_fmap. split.
  - intros ([k a] & -> & H%elem_of_map_to_list). simpl. by exists a.
  - intros [a Ha]. exists (n, a). split; [done|]. by apply elem_of_map_to_list.
Qed.
Lemma NoDup_keys {A} (m : gmap bytes A) : NoDup (keys m).
Proof. apply NoDup_fst_map_to_list. Qed.
Lemma length_keys {A} (m : gmap bytes A) : length (keys m) = size m.
Proof. unfold keys. by rewrite length_fmap, length_map_to_list. Qed.

(** The keys a loop that only inserts leaves behind. *)
Lemma dom_foldl_insert {A B} (k : B -> bytes) (v : gmap bytes A -> B -> A) l m :
  dom (foldl (fun m n => <[k n := v m n]> m) m l) = dom m ∪ list_to_set (k <$> l).
Proof.
  revert m. induction l as [|n l IH]; intros m; simpl; [set_solver|].
  rewrite IH, dom_insert_L. set_solver.
Qed.

Lemma dom_degrees_count r l m :
  dom (degrees_count r l m) ⊆ dom m ∪ list_to_set (name_of r <$> l).
Proof.
  revert m. induction l as [|n l IH]; intros m; simpl; [set_solver|].
  etransitivity; [apply IH|]. rewrite (dom_foldl_insert (fun _ => name_of r n)).
  induction (deps r n); set_solver.
Qed.

Lemma keys_dom {A B : Type} (m : gmap bytes A) (m' : gmap bytes B) :
  dom (D := gset bytes) m = dom m' -> keys m ≡ₚ keys m'.
Proof.
  intros H. apply NoDup_Permutation; [apply NoDup_keys..|]. intros x.
  by rewrite !elem_of_keys, <- !elem_of_dom, H.
Qed.

Lemma degrees_keys r n1 n2 n3 :
  registry_wf r -> n1 ≡ₚ keys (extensions r) -> n2 ≡ₚ keys (extensions r) ->
  n3 ≡ₚ keys (extensions r) ->
  keys (degrees_final r n3 (degrees_count r n2 (degrees_zero n1))) ≡ₚ keys (extensions r).
Proof.
  intros (_ & _ & Hname) P1 P2 P3. apply keys_dom.
  assert (forall l, l ≡ₚ keys (extensions r) -> list_to_set l = dom (extensions r)) as Hl.
  { intros l Hp. apply set_eq. intros x.
    by rewrite elem_of_list_to_set, Hp, elem_of_keys, elem_of_dom. }
  assert (name_of r <$> n2 = n2) as Hn2.
  { rewrite <- (list_fmap_id n2) at 2. apply list_fmap_ext. intros i n Hi.
    apply list_elem_of_lookup_2 in Hi. rewrite P2 in Hi. apply elem_of_keys in Hi as [e He].
    unfold name_of. rewrite He. by apply Hname. }
  unfold degrees_final. rewrite (dom_foldl_insert id), list_fmap_id, (Hl n3) by done.
  pose proof (dom_degrees_count r n2 (degrees_zero n1)) as H2.
  unfold degrees_zero in *. rewrite (dom_foldl_insert id), list_fmap_id, Hn2, !Hl in H2 by done.
  set_solver.
Qed.

Lemma deg_insert m k v n : deg (<[k := v]> m) n = if decide (n = k) then v else deg m n.
Proof.
  unfold deg. case_decide as E; [subst; by rewrite lookup_insert_eq|by rewrite lookup_insert_ne].
Qed.

Lemma degrees_final_deg r names m n :
  deg (degrees_final r names m) n = if decide (n ∈ names) then len (deps r n) else deg m n.
Proof.
  unfold degrees_final. revert m. induction names as [|k names IH]; intros m; cbn [foldl].
  - by rewrite decide_False by set_solver.
  - rewrite IH, deg_insert. repeat case_decide; set_solver.
Qed.

(** ** One round of the sort *)
Definition count (name : bytes) (l : list bytes) : Z := len (filter (fun d => d = name) l).
(** How many dependencies of [v] are not sorted yet. *)
Definition pending (r : Registry) (sorted : list bytes) (v : bytes) : Z :=
  len (filter (fun d => d ∉ sorted) (deps r v)).

Lemma count_nonneg name l : 0 <= count name l.
Proof. apply len_nonneg. Qed.

Lemma visit_deps_spec name other ds m q :
  count name ds <= deg m other ->
  exists m', visit_deps name other ds (m, q)
    = (m', q ++ (if bool_decide (0 < count name ds /\ deg m other = count name ds)
                 then [other] else [])) /\
    forall x, deg m' x = if decide (x = other) then deg m x - count name ds else deg m x.
Proof.
  revert m q. induction ds as [|d ds IH]; intros m q Hc; cbn [visit_deps foldl].
  - exists m. change (count name []) with 0. rewrite bool_decide_eq_false_2 by lia.
    rewrite app_nil_r. split; [done|]. intros x. case_decide; [|done]. lia.
  - change (foldl _ ?st ds) with (visit_deps name other ds st).
    pose proof (count_nonneg name ds). destruct (d =s name) eqn:E; to_prop.
    + assert (count name (d :: ds) = 1 + count name ds) as HC.
      { unfold count. by rewrite filter_cons_True, len_cons. }
      rewrite HC in *. unfold decrease. rewrite deg_insert, decide_True by done.
      destruct (Z.eqb_spec (deg m other - 1) 0) as [Hz|Hz].
      * destruct (IH (<[other := deg m other - 1]> m) (q ++ [other])) as (m' & -> & Hm').
        { rewrite deg_insert, decide_True by done. lia. }
        exists m'. rewrite deg_insert, decide_True by done.
        rewrite bool_decide_eq_false_2 by lia. rewrite bool_decide_eq_true_2 by lia.
        rewrite app_nil_r. split; [done|]. intros x. rewrite Hm', deg_insert.
        repeat case_decide; subst; lia || done.
      * destruct (IH (<[other := deg m other - 1]> m) q) as (m' & -> & Hm').
        { rewrite deg_insert, decide_True by done. lia. }
        exists m'. rewrite deg_insert, decide_True by done. split.
        { do 2 f_equal. erewrite bool_decide_ext; [done|]. lia. }
        intros x. rewrite Hm', deg_insert. repeat case_decide; subst; lia || done.
    + assert (count name (d :: ds) = count name ds) as HC
        by (unfold count; by rewrite filter_cons_False).
      rewrite HC in *. by apply IH.
Qed.

Lemma visit_spec r name others m q :
  NoDup others -> (forall o, o ∈ others -> count name (deps r o) <= deg m o) ->
  exists m', visit r name others (m, q)
    = (m', q ++ filter (fun o => 0 < count name (deps r o) /\ deg m o = count name (deps r o)) others) /\
    forall x, deg m' x = if decide (x ∈ others) then deg m x - count name (deps r x) else deg m x.
Proof.
  intros Hnd. revert m q. induction Hnd as [|o others Ho Hnd IH]; intros m q Hc; cbn [visit foldl].
  - exists m. rewrite app_nil_r. split; [done|]. intros x. by rewrite decide_False by set_solver.
  - change (foldl _ ?st others) with (visit r name others st).
    destruct (visit_deps_spec name o (deps r o) m q) as (m1 & -> & Hm1); [apply Hc; left|].
    destruct (IH m1 (q ++ (if bool_decide (0 < count name (deps r o) /\ deg m o = count name (deps r o))
                 then [o] else []))) as (m' & -> & Hm').
    { intros x Hx. rewrite Hm1, decide_False by (intros ->; done). apply Hc. by right. }
    exists m'. split.
    + rewrite <- app_assoc. do 2 f_equal.
      rewrite (list_filter_ext _ (fun x => 0 < count name (deps r x) /\ deg m x = count name (deps r x)))
        by (intros x Hx; by rewrite Hm1, decide_False by (intros ->; done)).
      case_bool_decide; [by rewrite filter_cons_True|by rewrite filter_cons_False].
    + intros x. rewrite Hm', Hm1. repeat case_decide; set_solver.
Qed.

Lemma pending_snoc r sorted name v :
  name ∉ sorted -> pending r (sorted ++ [name]) v = pending r sorted v - count name (deps r v).
Proof.
  intros Hn. unfold pending, count. induction (deps r v) as [|d ds IH]; [done|].
  destruct (decide (d = name)) as [->|Hd].
  - rewrite filter_cons_False, filter_cons_True, filter_cons_True by set_solver.
    rewrite !len_cons. lia.
  - rewrite (filter_cons_False (fun d => d = name)) by done.
    destruct (decide (d ∈ sorted)).
    + rewrite !filter_cons_False by set_solver. done.
    + rewrite !filter_cons_True by set_solver. rewrite !len_cons. lia.
Qed.

Lemma pending_zero r sorted v :
  pending r sorted v = 0 <-> forall d, d ∈ deps r v -> d ∈ sorted.
Proof.
  unfold pending. induction (deps r v) as [|d ds IH]; [set_solver|].
  destruct (decide (d ∈ sorted)).
  - rewrite filter_cons_False, IH by (intros H; by apply H). set_solver.
  - rewrite filter_cons_True, len_cons by done.
    pose proof (len_nonneg (filter (fun d => d ∉ sorted) ds)). split; [lia|set_solver].
Qed.

(** ** The sort *)
Section Kahn.
Context (ord : nat -> list bytes -> list bytes) (Hord : forall n l, ord n l ≡ₚ l).
Context (r : Registry).
Let names := keys (extensions r).

Record kahn_inv (m : degrees) (queue sorted : list bytes) : Prop := {
  ki_nodup : NoDup (sorted ++ queue);
  ki_names : forall v, v ∈ sorted ++ queue -> v ∈ names;
  ki_deg : forall v, v ∈ names -> deg m v = pending r sorted v;
  ki_zero : forall v, v ∈ names -> (v ∈ sorted ++ queue <-> pending r sorted v = 0);
  ki_topo : forall pre v post, sorted = pre ++ v :: post -> forall d, d ∈ deps r v -> d ∈ pre;
}.

Lemma pending_nonneg sorted v : 0 <= pending r sorted v.
Proof. apply len_nonneg. Qed.

Lemma topo_snoc sorted name :
  (forall pre v post, sorted = pre ++ v :: post -> forall d, d ∈ deps r v -> d ∈ pre) ->
  (forall d, d ∈ deps r name -> d ∈ sorted) ->
  forall pre v post, sorted ++ [name] = pre ++ v :: post -> forall d, d ∈ deps r v -> d ∈ pre.
Proof.
  intros Ht Hn pre v post Heq d Hd. destruct post as [|w post] using rev_ind.
  - apply app_inj_tail in Heq as [-> ->]. by apply Hn.
  - rewrite app_comm_cons, app_assoc in Heq. apply app_inj_tail in Heq as [-> _]. by eapply Ht.
Qed.

Lemma kahn_step m name queue sorted n :
  kahn_inv m (name :: queue) sorted ->
  exists m' new, visit r name (ord n names) (m, queue) = (m', queue ++ new) /\
    kahn_inv m' (queue ++ new) (sorted ++ [name]).
Proof.
  intros [Hnd Hnames Hdeg Hzero Htopo].
  assert (name ∉ sorted) as Hnew by (apply list.NoDup_app in Hnd as (_ & H & _); set_solver).
  assert (forall v, v ∈ ord n names <-> v ∈ names) as Hin by (intros; by rewrite Hord).
  assert (forall v, pending r (sorted ++ [name]) v = pending r sorted v - count name (deps r v))
    as Hpend by (intros; by apply pending_snoc).
  destruct (visit_spec r name (ord n names) m queue) as (m' & HV & Hm').
  { rewrite Hord. apply NoDup_keys. }
  { intros o Ho%Hin. rewrite Hdeg by done. pose proof (pending_nonneg (sorted ++ [name]) o).
    rewrite Hpend in *. lia. }
  eexists m', _. split; [exact HV|]. set (new := filter _ _).
  assert (forall v, v ∈ new <-> v ∈ names /\ 0 < count name (deps r v)
    /\ pending r (sorted ++ [name]) v = 0) as Hnew'.
  { intros v. unfold new. rewrite list_elem_of_filter, Hin, Hpend. split.
    - intros [[H1 H2] H3]. rewrite Hdeg in H2 by done. split_and!; [done|lia..].
    - intros (H1 & H2 & H3). rewrite Hdeg by done. split_and!; [lia..|done]. }
  assert (Permutation ((sorted ++ [name]) ++ queue ++ new) ((sorted ++ name :: queue) ++ new)) as HP
    by (by rewrite <- !app_assoc).
  assert (forall v, v ∈ new -> v ∉ sorted ++ name :: queue) as Hdisj.
  { intros v (H1 & H2 & H3)%Hnew' Hv. apply Hzero in Hv; [|done]. rewrite Hpend in H3. lia. }
  split.
  - rewrite HP. apply list.NoDup_app. split_and!; [done|intros v ? ?; by eapply Hdisj|].
    unfold new. apply list.NoDup_filter. rewrite Hord. apply NoDup_keys.
  - intros v. rewrite HP, elem_of_app. intros [?|?%Hnew']; [by apply Hnames|naive_solver].
  - intros v Hv. rewrite Hm', decide_True, Hpend, Hdeg by (by rewrite ?Hin). done.
  - intros v Hv. rewrite HP, elem_of_app, Hzero, Hnew', Hpend by done.
    pose proof (count_nonneg name (deps r v)). pose proof (pending_nonneg (sorted ++ [name]) v) as Hp.
    rewrite Hpend in Hp. split; [intros [?|(_ & ? & ?)]; lia|intros ?].
    destruct (decide (count name (deps r v) = 0)); [left; lia|right; split_and!; [done|lia..]].
  - apply topo_snoc; [done|]. apply pending_zero, Hzero; [apply Hnames|]; set_solver.
Qed.

Lemma inv_sorted_short m name queue sorted :
  kahn_inv m (name :: queue) sorted -> (length sorted < length names)%nat.
Proof.
  intros [Hnd Hnames _ _ _]. assert (length (sorted ++ name :: queue) <= length names)%nat.
  { apply submseteq_length, NoDup_submseteq; [done|]. set_solver. }
  rewrite length_app in *. simpl in *. lia.
Qed.

Lemma kahn_inv_end fuel n m queue sorted :
  kahn_inv m queue sorted -> (length names <= fuel + length sorted)%nat ->
  exists m' sorted', kahn ord fuel r n m queue sorted = Some sorted' /\ kahn_inv m' [] sorted'.
Proof.
  revert n m queue sorted. induction fuel as [|f IH]; intros n m queue sorted Hinv Hf;
    (destruct queue as [|name queue]; cbn [kahn]; [by eauto|]);
    pose proof (inv_sorted_short _ _ _ _ Hinv); [lia|].
  destruct (kahn_step m name queue sorted n Hinv) as (m' & new & HV & Hinv').
  unfold names in *. rewrite HV. apply (IH _ m'); [done|]. rewrite length_app. simpl. lia.
Qed.

Lemma kahn_inv_start m queue :
  registry_wf r ->
  (forall v, v ∈ names -> deg m v = len (deps r v)) -> keys m ≡ₚ names ->
  queue = filter (fun n => deg m n = 0) (ord 4 (keys m)) ->
  kahn_inv m queue [].
Proof.
  intros Hwf Hdeg Hkeys ->. assert (forall v, pending r [] v = len (deps r v)) as Hp.
  { intros v. unfold pending. induction (deps r v) as [|d ds IH]; [done|].
    rewrite filter_cons_True, !len_cons, IH by set_solver. done. }
  split; cbn [app].
  - apply list.NoDup_filter. rewrite Hord. apply NoDup_keys.
  - intros v [_ Hv]%list_elem_of_filter. by rewrite Hord, Hkeys in Hv.
  - intros v Hv. by rewrite Hdeg, Hp.
  - intros v Hv. rewrite list_elem_of_filter, Hord, Hkeys, Hdeg, Hp by done. naive_solver.
  - intros [|? ?]; done.
Qed.

End Kahn.

(** ** What the dependencies ask for *)
Definition depends (r : Registry) (n d : bytes) : Prop := d ∈ deps r n.
Definition closed (r : Registry) : Prop :=
  forall n d, depends r n d -> is_Some (extensions r !! d).
Definition acyclic (r : Registry) : Prop := forall n, ~ tc (depends r) n n.

Lemma depends_registered r n d : depends r n d -> n ∈ keys (extensions r).
Proof.
  unfold depends, deps. rewrite elem_of_keys. destruct (extensions r !! n); [eauto|set_solver].
Qed.

Lemma missing_dep_None r ds :
  missing_dep r ds = None <-> forall d, d ∈ ds -> is_Some (extensions r !! d).
Proof.
  induction ds as [|d ds IH]; simpl; [set_solver|]. destruct (extensions r !! d) eqn:E.
  - rewrite IH. split; [|set_solver]. intros H x [->|Hx]%elem_of_cons; [by rewrite E|by apply H].
  - split; [done|]. intros H. destruct (H d); [left|congruence].
Qed.

Lemma check_deps_None r names :
  check_deps r names = None <->
  forall n, n ∈ names -> forall d, d ∈ deps r n -> is_Some (extensions r !! d).
Proof.
  induction names as [|n names IH]; simpl; [set_solver|].
  destruct (missing_dep r (deps r n)) eqn:E.
  - split; [done|]. intros H. assert (missing_dep r (deps r n) = None); [|congruence].
    apply missing_dep_None, H. left.
  - rewrite IH. pose proof (proj1 (missing_dep_None r (deps r n)) E) as E'. split; [|set_solver].
    intros H x [->|Hx]%elem_of_cons; [done|by apply H].
Qed.

(** Dependencies point strictly backwards in a sorted list. *)
Lemma topo_acyclic r (sorted : list bytes) :
  (forall pre v post, sorted = pre ++ v :: post -> forall d, d ∈ deps r v -> d ∈ pre) ->
  NoDup sorted -> (forall v, v ∈ keys (extensions r) -> v ∈ sorted) -> acyclic r.
Proof.
  intros Ht Hnd Hall.
  assert (forall x y, tc (depends r) x y -> forall i, sorted !! i = Some x ->
    exists j, sorted !! j = Some y /\ (j < i)%nat) as Hback.
  { assert (forall x y i, depends r x y -> sorted !! i = Some x ->
      exists j, sorted !! j = Some y /\ (j < i)%nat) as H1.
    { intros x y i Hd Hi. apply list_elem_of_split_length in Hi as (pre & post & Hs & ->).
      apply (Ht _ _ _ Hs) in Hd as Hpre.
      apply list_elem_of_lookup in Hpre as [j Hj]. exists j.
      rewrite Hs, lookup_app_l by (by eapply lookup_lt_Some). split; [done|].
      by eapply lookup_lt_Some. }
    induction 1 as [x y Hxy|x y z Hxy _ IH]; intros i Hi; [by eapply H1|].
    destruct (H1 _ _ _ Hxy Hi) as (j & Hj & ?). destruct (IH j Hj) as (k & Hk & ?).
    exists k. split; [done|lia]. }
  intros n Hn. assert (n ∈ keys (extensions r)) as Hreg.
  { clear Hback. inversion Hn; subst; by eapply depends_registered. }
  apply Hall, list_elem_of_lookup in Hreg as [i Hi].
  destruct (Hback _ _ Hn i Hi) as (j & Hj & Hlt).
  assert (i = j) by (eapply NoDup_lookup; done). lia.
Qed.

(** In an acyclic graph a set of names that each depend on another one of the
    set is empty. *)
Lemma acyclic_no_trap r (P : bytes -> Prop) :
  acyclic r -> (forall v, P v -> exists d, depends r v d /\ P d /\ d ∈ keys (extensions r)) ->
  forall v, ~ P v.
Proof.
  intros Hac Hstep v Hv. set (R := fun x y => depends r x y /\ y ∈ keys (extensions r)).
  assert (forall x y, tc R x y -> tc (depends r) x y) as Hsub.
  { induction 1 as [x y [? _]|x y z [? _] _ IH]; [by apply tc_once|by eapply tc_l]. }
  assert (sn R v) as Hsn.
  { apply tc_finite_sn.
    - intros n Hn. by apply (Hac n), Hsub.
    - exists (keys (extensions r)). intros y Hy. clear -Hy. induction Hy as [x y [_ ?]|]; done. }
  revert Hv. induction Hsn as [v _ IH]. intros Hv.
  destruct (Hstep v Hv) as (d & H1 & H2 & H3). by apply (IH d).
Qed.

Section ResolveSpec.
Context (ord : nat -> list bytes -> list bytes) (Hord : forall n l, ord n l ≡ₚ l).
Context (r : Registry) (Hwf : registry_wf r).

Lemma Resolve_cases :
  (~ closed r /\ exists e, Resolve ord r = Err e) \/
  (closed r /\ exists m sorted, kahn_inv r m [] sorted /\
    Resolve ord r = if negb (length sorted =? length (keys (extensions r)))%nat
      then Err (emsg "circular dependency detected among extensions")
      else Ok (omap (fun n => extensions r !! n) sorted)).
Proof.
  unfold Resolve. destruct (check_deps r (ord 0 (keys (extensions r)))) as [e|] eqn:E.
  - left. split; [|by exists e]. intros Hc.
    assert (check_deps r (ord 0 (keys (extensions r))) = None); [|congruence].
    apply check_deps_None. intros n _ d Hd. by apply (Hc n).
  - right. rewrite check_deps_None in E. split.
    { intros n d Hd. apply (E n); [|done]. rewrite Hord. by eapply depends_registered. }
    edestruct (kahn_inv_end ord Hord r (length (keys (extensions r))) 5) as (m' & sorted & -> & Hinv).
    + eapply (kahn_inv_start ord Hord); [done| | |reflexivity].
      * intros v Hv. rewrite degrees_final_deg, decide_True by (by rewrite Hord). done.
      * by apply degrees_keys.
    + simpl. lia.
    + exists m', sorted. split; [done|]. done.
Qed.

Lemma inv_complete m sorted :
  kahn_inv r m [] sorted ->
  length sorted = length (keys (extensions r)) <-> sorted ≡ₚ keys (extensions r).
Proof.
  intros [Hnd Hn _ _ _]. rewrite app_nil_r in *. split; [|by intros ->].
  intros Hlen. apply submseteq_length_Permutation; [|lia].
  apply NoDup_submseteq; [done|]. set_solver.
Qed.

Lemma sorted_exts sorted :
  sorted ≡ₚ keys (extensions r) -> ExtName <$> omap (fun n => extensions r !! n) sorted = sorted.
Proof.
  intros HP. assert (forall n, n ∈ sorted -> is_Some (extensions r !! n)) as Hin
    by (intros n; rewrite HP; apply elem_of_keys).
  clear HP. induction sorted as [|n l IH]; [done|]. cbn [omap list_omap].
  destruct (Hin n) as [e He]; [left|]. rewrite He. cbn [fmap list_fmap]. f_equal.
  - by apply Hwf.
  - apply IH. intros; apply Hin. by right.
Qed.

End ResolveSpec.

(** ** The properties *)

(** A registry as registration and removal leave it. *)
Inductive registry_op := OpRegister (ext : Extension) | OpRemove (name : bytes).
Definition apply_op (r : Registry) (op : registry_op) : Registry :=
  match op with
  | OpRegister ext => (Register ext r).2
  | OpRemove name => Remove name r
  end.

Lemma registry_wf_reachable ops : registry_wf (foldl apply_op NewRegistry ops).
Proof.
  assert (registry_wf NewRegistry) as H0.
  { split_and!; simpl; [apply NoDup_nil_2| |]; intros n.
    - rewrite lookup_empty. split; [set_solver|by intros []].
    - intros e. by rewrite lookup_empty. }
  revert H0. generalize NewRegistry. induction ops as [|op ops IH]; intros r Hr; [done|].
  apply IH. destruct op; [by apply registry_wf_register|by apply registry_wf_remove].
Qed.

(** [C37] Whatever was registered and removed before, for every order in which
    the map loops may run, a successful resolution returns every registered
    extension exactly once, each one after all of its dependencies. *)
Theorem resolve_sound (ops : list registry_op) (ord : nat -> list bytes -> list bytes)
    (sorted : list Extension) :
  let r := foldl apply_op NewRegistry ops in
  (forall n l, ord n l ≡ₚ l) ->
  Resolve ord r = Ok sorted ->
  (ExtName <$> sorted) ≡ₚ Names r /\
  (forall e, e ∈ sorted <-> Get (ExtName e) r = Some e) /\
  forall pre e post, sorted = pre ++ e :: post ->
    forall d, d ∈ ExtDependencies e -> exists e', e' ∈ pre /\ ExtName e' = d.
Proof.
  intros r Hord Hres. pose proof (registry_wf_reachable ops : registry_wf r) as Hwf.
  destruct (Resolve_cases ord Hord r Hwf) as [(_ & e & H)|(_ & m & names & Hinv & H)]; [congruence|].
  rewrite H in Hres. destruct (Nat.eqb_spec (length names) (length (keys (extensions r)))) as [Hl|];
    [|done]. injection Hres as <-.
  pose proof (proj1 (inv_complete r m names Hinv) Hl) as HP.
  pose proof (sorted_exts r Hwf names HP) as Hnames. destruct Hwf as (Hnd & Hdom & Hkey).
  split_and!.
  - rewrite Hnames, HP. apply NoDup_Permutation; [apply NoDup_keys|done|].
    intros x. by rewrite elem_of_keys, Hdom.
  - intros e. unfold Get. rewrite list_elem_of_omap. split.
    + intros (n & _ & He). by rewrite (Hkey n e He).
    + intros He. exists (ExtName e). split; [|done]. rewrite HP. apply elem_of_keys. eauto.
  - intros pre e post Hs d Hd. assert (Get (ExtName e) r = Some e) as He.
    { assert (e ∈ omap (fun n => extensions r !! n) names) as (n & _ & Hn)%list_elem_of_omap
        by (rewrite Hs; set_solver). unfold Get. by rewrite (Hkey n e Hn). }
    rewrite Hs, fmap_app in Hnames. cbn [fmap list_fmap] in Hnames.
    pose proof (ki_topo _ _ _ _ Hinv _ _ _ (eq_sym Hnames) d) as Ht.
    unfold deps in Ht. unfold Get in He. rewrite He in Ht.
    apply list_elem_of_fmap in Ht as (e' & -> & He'); [eauto|done].
Qed.
Lemma resolve_sound_witness :
  let a := mkExt "CONDSTORE" [] [] in
  let b := mkExt "QRESYNC" [] ["CONDSTORE" : bytes] in
  let r := foldl apply_op NewRegistry [OpRegister b; OpRegister a] in
  Resolve (fun _ l => l) r = Ok [a; b] /\ (ExtName <$> [a; b]) ≡ₚ Names r.
Proof.
  intros a b r. assert (Resolve (fun _ l => l) r = Ok [a; b]) as H by by vm_compute.
  split; [done|].
  exact (proj1 (resolve_sound [OpRegister b; OpRegister a] (fun _ l => l) [a; b]
    (fun _ _ => Permutation_refl _) H)).
Defined.

Lemma Resolve_iff (ops : list registry_op) (ord : nat -> list bytes -> list bytes) :
  let r := foldl apply_op NewRegistry ops in
  (forall n l, ord n l ≡ₚ l) ->
  ((exists sorted, Resolve ord r = Ok sorted) <-> closed r /\ acyclic r) /\
  (is_ok (Resolve ord r) || is_err (Resolve ord r) = true).
Proof.
  intros r Hord. pose proof (registry_wf_reachable ops : registry_wf r) as Hwf.
  destruct (Resolve_cases ord Hord r Hwf) as [(Hnc & e & ->)|(Hc & m & sorted & Hinv & ->)].
  - split; [|done]. split; [by intros [? [=]]|by intros [? _]].
  - destruct (Nat.eqb_spec (length sorted) (length (keys (extensions r)))) as [Hl|Hl]; cbn [negb].
    + split; [|done]. split; [intros _|eauto]. split; [done|].
      pose proof (proj1 (inv_complete r m sorted Hinv) Hl) as HP. destruct Hinv.
      apply (topo_acyclic r sorted); [done| |intros v; by rewrite HP].
      by rewrite app_nil_r in *.
    + split; [|done]. split; [by intros [? [=]]|]. intros [_ Hac]. exfalso. apply Hl.
      apply (inv_complete r m sorted Hinv), NoDup_Permutation; [| apply NoDup_keys|].
      { destruct Hinv. by rewrite app_nil_r in *. }
      destruct Hinv as [_ Hn _ Hz _]. rewrite app_nil_r in *. intros v. split; [apply Hn|].
      intros Hv. destruct (decide (v ∈ sorted)) as [|Hns]; [done|]. exfalso.
      apply (acyclic_no_trap r (fun v => v ∈ keys (extensions r) /\ v ∉ sorted) Hac) with v; [|done].
      intros x [Hx Hxs]. assert (~ forall d, d ∈ deps r x -> d ∈ sorted) as Hsome.
      { intros Hall. apply Hxs, Hz; [done|]. by apply pending_zero. }
      assert (exists d, d ∈ deps r x /\ d ∉ sorted) as (d & Hd & Hds).
      { destruct (decide (Forall (fun d => d ∈ sorted) (deps r x))) as [HF|HF];
          [by rewrite list.Forall_forall in HF|].
        apply not_Forall_Exists in HF; [|apply _].
        apply list.Exists_exists in HF as (d & ? & ?). by exists d. }
      exists d. assert (d ∈ keys (extensions r)) by (apply elem_of_keys; by eapply Hc).
      done.
Qed.

(** [C38] Resolution always returns, and it succeeds exactly when every
    dependency is registered and no extension depends on itself through a
    chain of dependencies. *)
Theorem resolve_complete (ops : list registry_op) (ord : nat -> list bytes -> list bytes) :
  let r := foldl apply_op NewRegistry ops in
  (forall n l, ord n l ≡ₚ l) ->
  ((exists sorted, Resolve ord r = Ok sorted) <-> closed r /\ acyclic r) /\
  (is_ok (Resolve ord r) || is_err (Resolve ord r) = true).
Proof. apply Resolve_iff. Qed.
Lemma resolve_complete_witness :
  let a := mkExt "A" [] ["B" : bytes] in
  let b := mkExt "B" [] ["A" : bytes] in
  let r := foldl apply_op NewRegistry [OpRegister a; OpRegister b] in
  Resolve (fun _ l => l) r = Err (emsg "circular dependency detected among extensions") /\
  ~ (closed r /\ acyclic r).
Proof.
  intros a b r. split; [by vm_compute|]. intros H.
  destruct (proj1 (resolve_complete [OpRegister a; OpRegister b] (fun _ l => l)
    (fun _ _ => Permutation_refl _))) as [_ Hok].
  destruct (Hok H) as [s Hs]. by vm_compute in Hs.
Defined.

(** However extensions are registered and removed, the registration order
    lists exactly the registered names without repetition, every entry is filed
    under its own name, and a name that is taken is refused without effect. *)
Theorem registry_invariant (ops : list registry_op) :
  let r := foldl apply_op NewRegistry ops in
  NoDup (Names r) /\ Len r = len (Names r) /\
  (forall n, n ∈ Names r <-> is_Some (Get n r)) /\
  All r = Some <$> omap (fun n => Get n r) (Names r) /\
  (forall n e, Get n r = Some e -> ExtName e = n) /\
  (forall e e', Get (ExtName e) r = Some e' ->
     (Register e r).2 = r /\ (Register e r).1 <> None).
Proof.
  intros r. pose proof (registry_wf_reachable ops : registry_wf r) as (Hnd & Hdom & Hkey).
  split_and!; [done| |done| |done|].
  - unfold Len, Names, len. f_equal. rewrite <- length_keys. apply Permutation_length.
    apply NoDup_Permutation; [apply NoDup_keys|done|]. intros n. by rewrite elem_of_keys, Hdom.
  - unfold All, Get, Names. assert (forall n, n ∈ order r -> is_Some (extensions r !! n)) as Hin
      by (intros; by apply Hdom).
    clear Hnd Hdom Hkey. induction (order r) as [|n l IH]; [done|]. cbn [fmap list_fmap omap list_omap].
    destruct (Hin n) as [e He]; [left|]. rewrite He. cbn [fmap list_fmap]. f_equal.
    apply IH. intros; apply Hin. by right.
  - intros e e' He. unfold Register, Get in *. by rewrite He.
Qed.
