(* ===== verification/Imap.v ===== *)
(** * The data exchanged between server, commands and backend

    The option and result structures of the root package (imap.go, fetch.go,
    search.go, store.go, status.go, list.go, append.go, copy.go, select.go).
    A pointer that may be nil is an [option]; a Go map is the list of its
    entries.  Fields carry a prefix for their structure. *)

From S2P Require Import Prelude Utf8 GoStrings GoTime NumSet.

(** ** Flags and attributes (imap.go) *)
Definition FlagSeen : bytes := "\Seen".
Definition FlagAnswered : bytes := "\Answered".
Definition FlagFlagged : bytes := "\Flagged".
Definition FlagDeleted : bytes := "\Deleted".
Definition FlagDraft : bytes := "\Draft".
Definition FlagRecent : bytes := "\Recent".
Definition FlagWildcard : bytes := "\*".

Definition MailboxAttrHasChildren : bytes := "\HasChildren".
Definition MailboxAttrHasNoChildren : bytes := "\HasNoChildren".
Definition MailboxAttrSubscribed : bytes := "\Subscribed".

(** ** Envelopes (imap.go) *)
Record Address := mkAddress { Name : bytes; Mailbox_ : bytes; Host : bytes }.

Record Envelope := mkEnvelope {
  env_Date : Time;
  env_Subject : bytes;
  env_From : list Address;
  env_Sender : list Address;
  env_ReplyTo : list Address;
  env_To : list Address;
  env_Cc : list Address;
  env_Bcc : list Address;
  env_InReplyTo : bytes;
  env_MessageID : bytes;
}.
Definition envelope0 : Envelope := mkEnvelope time_zero [] [] [] [] [] [] [] [] [].

(** ** FETCH (fetch.go) *)
Record SectionPartial := mkPartial { Offset : Z; Count : Z }.

Record FetchItemBodySection := mkSection {
  Specifier : bytes;
  Part : list Z;
  Fields : list bytes;
  NotFields : bool;
  Peek : bool;
  Partial : option SectionPartial;
}.
Definition section0 : FetchItemBodySection := mkSection [] [] [] false false None.

Record FetchItemBinarySection := mkBinary {
  bin_Part : list Z;
  bin_Peek : bool;
  bin_Partial : option SectionPartial;
}.

(** The items that belong to extensions, kept in a structure of their own. *)
Record FetchExt := mkFetchExt {
  fe_ModSeq : bool;
  fe_Preview : bool;
  fe_SaveDate : bool;
  fe_EmailID : bool;
  fe_ThreadID : bool;
  fe_BinarySection : list FetchItemBinarySection;
  fe_BinarySizeSection : list (list Z);
  fe_PreviewLazy : bool;
  fe_ChangedSince : Z;
  fe_Vanished : bool;
}.
Definition fetch_ext0 : FetchExt := mkFetchExt false false false false false [] [] false 0 false.

Record FetchOptions := mkFetchOptions {
  fo_BodySection : list FetchItemBodySection;
  fo_BodyStructure : bool;
  fo_Envelope : bool;
  fo_Flags : bool;
  fo_InternalDate : bool;
  fo_RFC822Size : bool;
  fo_UID : bool;
  fo_Ext : FetchExt;
}.
Definition fetch_options0 : FetchOptions :=
  mkFetchOptions [] false false false false false false fetch_ext0.

(** The extension items of a message; the binary sections are in the order the
    map is ranged over, each with what its reader yields. *)
Record FetchDataExt := mkFetchDataExt {
  fx_ModSeq : Z;
  fx_Preview : bytes;
  fx_PreviewNIL : bool;
  fx_SaveDate : option Time;
  fx_SaveDateNIL : bool;
  fx_EmailID : bytes;
  fx_ThreadID : bytes;
  fx_BinarySection : list (FetchItemBinarySection * bytes);
  fx_BinarySizeSection : list (list Z * Z);
}.
Definition fetch_data_ext0 : FetchDataExt := mkFetchDataExt 0 [] false None false [] [] [] [].

(** [fd_Flags] tells the nil slice from the empty one.  The body structure,
    which nothing in the base server fills in or writes, is left out. *)
Record FetchMessageData := mkFetchData {
  fd_SeqNum : Z;
  fd_Envelope : option Envelope;
  fd_Flags : option (list bytes);
  fd_InternalDate : Time;
  fd_RFC822Size : Z;
  fd_UID : Z;
  fd_BodySection : list (FetchItemBodySection * bytes);
  fd_Ext : FetchDataExt;
}.

(** ** SEARCH (search.go) *)
Record SearchCriteriaHeaderField := mkHeaderField { Key : bytes; Value : bytes }.

Record SearchCriteriaModSeq := mkSearchModSeq {
  ModSeq : Z;
  MetadataName : bytes;
  MetadataType : bytes;
}.
(** The criteria of extensions. *)
Record SearchExt := mkSearchExt {
  se_SavedBefore : Time;
  se_SavedSince : Time;
  se_SavedOn : Time;
  se_ModSeq : option SearchCriteriaModSeq;
  se_Younger : Z;
  se_Older : Z;
  se_SaveResult : bool;
  se_Fuzzy : bool;
}.
Definition search_ext0 : SearchExt := mkSearchExt time_zero time_zero time_zero None 0 0 false false.

Definition set_modseq (m : SearchCriteriaModSeq) (x : SearchExt) : SearchExt :=
  let 'mkSearchExt b s o _ y ol sr fz := x in mkSearchExt b s o (Some m) y ol sr fz.
Definition set_saved_before (t : Time) (x : SearchExt) : SearchExt :=
  let 'mkSearchExt _ s o m y ol sr fz := x in mkSearchExt t s o m y ol sr fz.
Definition set_saved_since (t : Time) (x : SearchExt) : SearchExt :=
  let 'mkSearchExt b _ o m y ol sr fz := x in mkSearchExt b t o m y ol sr fz.
Definition set_saved_on (t : Time) (x : SearchExt) : SearchExt :=
  let 'mkSearchExt b s _ m y ol sr fz := x in mkSearchExt b s t m y ol sr fz.
Definition set_fuzzy (b' : bool) (x : SearchExt) : SearchExt :=
  let 'mkSearchExt b s o m y ol sr _ := x in mkSearchExt b s o m y ol sr b'.

(** The criteria the base server reads and writes. *)
Inductive SearchCriteria := mkCriteria {
  sc_SeqNum : option SeqSet;
  sc_UID : option UIDSet;
  sc_Since : Time;
  sc_Before : Time;
  sc_SentSince : Time;
  sc_SentBefore : Time;
  sc_SentOn : Time;
  sc_On : Time;
  sc_Header : list SearchCriteriaHeaderField;
  sc_Body : list bytes;
  sc_Text : list bytes;
  sc_Larger : Z;
  sc_Smaller : Z;
  sc_Flag : list bytes;
  sc_NotFlag : list bytes;
  sc_Or : list (SearchCriteria * SearchCriteria);
  sc_Not : list SearchCriteria;
  sc_Ext : SearchExt;
}.
Definition criteria0 : SearchCriteria :=
  mkCriteria None None time_zero time_zero time_zero time_zero time_zero time_zero
    [] [] [] 0 0 [] [] [] [] search_ext0.

(** One field set, or one more element in a list. *)
Definition with_seqnum (v : SeqSet) (c : SearchCriteria) : SearchCriteria :=
  let 'mkCriteria n u a b ss sb so o h bo t l s f nf ors nots x := c in
  mkCriteria (Some v) u a b ss sb so o h bo t l s f nf ors nots x.
Definition with_uid (v : UIDSet) (c : SearchCriteria) : SearchCriteria :=
  let 'mkCriteria n u a b ss sb so o h bo t l s f nf ors nots x := c in
  mkCriteria n (Some v) a b ss sb so o h bo t l s f nf ors nots x.
Definition with_flag (v : bytes) (c : SearchCriteria) : SearchCriteria :=
  let 'mkCriteria n u a b ss sb so o h bo t l s f nf ors nots x := c in
  mkCriteria n u a b ss sb so o h bo t l s (f ++ [v]) nf ors nots x.
Definition with_notflag (v : bytes) (c : SearchCriteria) : SearchCriteria :=
  let 'mkCriteria n u a b ss sb so o h bo t l s f nf ors nots x := c in
  mkCriteria n u a b ss sb so o h bo t l s f (nf ++ [v]) ors nots x.
Definition with_larger (v : Z) (c : SearchCriteria) : SearchCriteria :=
  let 'mkCriteria n u a b ss sb so o h bo t l s f nf ors nots x := c in
  mkCriteria n u a b ss sb so o h bo t v s f nf ors nots x.
Definition with_smaller (v : Z) (c : SearchCriteria) : SearchCriteria :=
  let 'mkCriteria n u a b ss sb so o h bo t l s f nf ors nots x := c in
  mkCriteria n u a b ss sb so o h bo t l v f nf ors nots x.
Definition with_body (v : bytes) (c : SearchCriteria) : SearchCriteria :=
  let 'mkCriteria n u a b ss sb so o h bo t l s f nf ors nots x := c in
  mkCriteria n u a b ss sb so o h (bo ++ [v]) t l s f nf ors nots x.
Definition with_text (v : bytes) (c : SearchCriteria) : SearchCriteria :=
  let 'mkCriteria n u a b ss sb so o h bo t l s f nf ors nots x := c in
  mkCriteria n u a b ss sb so o h bo (t ++ [v]) l s f nf ors nots x.
Definition with_header (v : SearchCriteriaHeaderField) (c : SearchCriteria) : SearchCriteria :=
  let 'mkCriteria n u a b ss sb so o h bo t l s f nf ors nots x := c in
  mkCriteria n u a b ss sb so o (h ++ [v]) bo t l s f nf ors nots x.
Definition with_not (v : SearchCriteria) (c : SearchCriteria) : SearchCriteria :=
  let 'mkCriteria n u a b ss sb so o h bo t l s f nf ors nots x := c in
  mkCriteria n u a b ss sb so o h bo t l s f nf ors (nots ++ [v]) x.
Definition with_ext (v : SearchExt) (c : SearchCriteria) : SearchCriteria :=
  let 'mkCriteria n u a b ss sb so o h bo t l s f nf ors nots x := c in
  mkCriteria n u a b ss sb so o h bo t l s f nf ors nots v.

Record SearchReturnPartial := mkReturnPartial { rp_Offset : Z; rp_Count : Z }.
Record SearchOptions := mkSearchOptions {
  so_ReturnMin : bool;
  so_ReturnMax : bool;
  so_ReturnAll : bool;
  so_ReturnCount : bool;
  so_ReturnSave : bool;
  so_ReturnContext : bool;
  so_ReturnUpdate : bool;
  so_ReturnPartial : option SearchReturnPartial;
}.
Definition search_options0 : SearchOptions :=
  mkSearchOptions false false false false false false false None.

(** The results of extensions. *)
Record SearchPartialData := mkPartialData { sp_Offset : Z; sp_Total : Z; sp_UIDs : list Z }.
Record SearchContextUpdate := mkContextUpdate { cu_Position : Z; cu_SeqSet : option SeqSet }.
Record SearchDataExt := mkSearchDataExt {
  sx_UID : bool;
  sx_Partial : option SearchPartialData;
  sx_AddTo : list SearchContextUpdate;
  sx_RemoveFrom : list SearchContextUpdate;
}.
Definition search_data_ext0 : SearchDataExt := mkSearchDataExt false None [] [].

Record SearchData := mkSearchData {
  sd_AllSeqNums : list Z;
  sd_AllUIDs : list Z;
  sd_Min : Z;
  sd_Max : Z;
  sd_All : option SeqSet;
  sd_Count : Z;
  sd_ModSeq : Z;
  sd_Ext : SearchDataExt;
}.

(** ** STORE (store.go) *)
Inductive StoreAction := StoreFlagsSet | StoreFlagsAdd | StoreFlagsDel.
Record StoreFlags := mkStoreFlags { sf_Action : StoreAction; sf_Silent : bool; sf_Flags : list bytes }.
Record StoreOptions := mkStoreOptions { UnchangedSince : Z }.

(** ** STATUS (status.go) *)
Record StatusOptions := mkStatusOptions {
  st_NumMessages : bool;
  st_UIDNext : bool;
  st_UIDValidity : bool;
  st_NumUnseen : bool;
  st_NumRecent : bool;
  st_Size : bool;
  st_AppendLimit : bool;
  st_NumDeleted : bool;
  st_HighestModSeq : bool;
  st_MailboxID : bool;
}.
Definition status_options0 : StatusOptions :=
  mkStatusOptions false false false false false false false false false false.

Record StatusData := mkStatusData {
  sa_Mailbox : bytes;
  sa_NumMessages : option Z;
  sa_UIDNext : option Z;
  sa_UIDValidity : option Z;
  sa_NumUnseen : option Z;
  sa_NumRecent : option Z;
  sa_Size : option Z;
  sa_AppendLimit : option Z;
  sa_NumDeleted : option Z;
  sa_HighestModSeq : option Z;
  sa_MailboxID : bytes;
}.

(** ** LIST (list.go) *)
Record ListReturnMetadata := mkReturnMetadata { rm_Options : list bytes; rm_MaxSize : Z; rm_Depth : bytes }.
Record ListOptions := mkListOptions {
  lo_SelectSubscribed : bool;
  lo_SelectRemote : bool;
  lo_SelectRecursiveMatch : bool;
  lo_SelectSpecialUse : bool;
  lo_ReturnSubscribed : bool;
  lo_ReturnChildren : bool;
  lo_ReturnSpecialUse : bool;
  lo_ReturnStatus : option StatusOptions;
  lo_ReturnMyRights : bool;
  lo_ReturnMetadata : option ListReturnMetadata;
}.
Definition list_options0 : ListOptions :=
  mkListOptions false false false false false false false None false None.

Record ListData := mkListData {
  ld_Attrs : list bytes;
  ld_Delim : Z;
  ld_Mailbox : bytes;
  ld_OldName : bytes;
  ld_ChildInfo : list bytes;
  ld_Status : option StatusData;
  ld_MyRights : bytes;
  ld_Metadata : option (list (bytes * bytes));
}.
Definition list_data (attrs : list bytes) (delim : Z) (mailbox : bytes) : ListData :=
  mkListData attrs delim mailbox [] [] None [] None.

(** ** APPEND, COPY, SELECT (append.go, copy.go, select.go) *)
Record AppendOptions := mkAppendOptions {
  ao_Flags : list bytes;
  ao_InternalDate : Time;
  ao_Binary : bool;
  ao_UTF8 : bool;
}.
Record AppendData := mkAppendData { ad_UIDValidity : Z; ad_UID : Z }.

Record CopyData := mkCopyData { cd_UIDValidity : Z; cd_SourceUIDs : UIDSet; cd_DestUIDs : UIDSet }.

Record QResyncSeqMatch := mkSeqMatch { sm_SeqNums : option SeqSet; sm_UIDs : option UIDSet }.
Record SelectQResync := mkQResync {
  qr_UIDValidity : Z;
  qr_ModSeq : Z;
  qr_KnownUIDs : option UIDSet;
  qr_SeqMatch : option QResyncSeqMatch;
}.
Record SelectOptions := mkSelectOptions {
  sl_ReadOnly : bool;
  sl_CondStore : bool;
  sl_QResync : option SelectQResync;
}.
Definition select_options (readOnly : bool) : SelectOptions := mkSelectOptions readOnly false None.
(** [imap.CreateOptions] *)
Record CreateOptions := mkCreateOptions { SpecialUse : bytes }.
Record SelectData := mkSelectData {
  sel_Flags : list bytes;
  sel_PermanentFlags : list bytes;
  sel_NumMessages : Z;
  sel_NumRecent : Z;
  sel_UIDNext : Z;
  sel_UIDValidity : Z;
  sel_FirstUnseen : Z;
  sel_HighestModSeq : Z;
  sel_ReadOnly : bool;
  sel_MailboxID : bytes;
  sel_Vanished : option UIDSet;
}.
