(* ===== verification/Writers.v ===== *)
(** * Response writers (server/writers.go)

    Each writer method as what it appends to the connection's output.  The
    mutex around the encoder makes one [Encode] call one step. *)

From S2P Require Import Prelude Utf8 GoStrings GoTime NumSet Imap Decoder Encoder.

Import Enc.

Section Writers.
Context {U : Unicode}.

(** The closure [sp]: a space before every item but the first. *)
Fixpoint spaced (first : bool) (items : list (Encoder -> Encoder)) (e : Encoder) : Encoder :=
  match items with
  | [] => e
  | item :: rest => spaced false rest ((if first then e else e |> SP) |> item)
  end.
(** An item written under a condition. *)
Definition when (b : bool) (item : Encoder -> Encoder) : list (Encoder -> Encoder) :=
  if b then [item] else [].
Definition when_some {A} (o : option A) (item : A -> Encoder -> Encoder) : list (Encoder -> Encoder) :=
  match o with Some a => [item a] | None => [] end.

Definition nonempty (s : bytes) : bool := negb (s =s []).

(** [formatPart] *)
Definition formatPart (part : list Z) : bytes := Join (Itoa <$> part) ".".

Definition string_or_nil (s : bytes) (e : Encoder) : Encoder :=
  if s =s [] then e |> Nil else e |> EncString s.

Definition write_address (addr : Address) (e : Encoder) : Encoder :=
  e |> BeginList |> string_or_nil (Name addr) |> SP |> Nil |> SP
    |> string_or_nil (Mailbox_ addr) |> SP |> string_or_nil (Host addr) |> EndList.
Definition writeAddressList (addrs : list Address) (e : Encoder) : Encoder :=
  match addrs with
  | [] => e |> Nil
  | _ => e |> BeginList |> spaced true (write_address <$> addrs) |> EndList
  end.

Definition writeEnvelope (env : Envelope) (e : Encoder) : Encoder :=
  let e := e |> BeginList in
  let e := if IsZero (env_Date env) then e |> Nil
           else e |> QuotedString (Format (env_Date env) RFC822Z) in
  e |> SP |> string_or_nil (env_Subject env)
    |> SP |> writeAddressList (env_From env)
    |> SP |> writeAddressList (env_Sender env)
    |> SP |> writeAddressList (env_ReplyTo env)
    |> SP |> writeAddressList (env_To env)
    |> SP |> writeAddressList (env_Cc env)
    |> SP |> writeAddressList (env_Bcc env)
    |> SP |> string_or_nil (env_InReplyTo env)
    |> SP |> string_or_nil (env_MessageID env)
    |> EndList.

(** ** FetchWriter *)
Definition keyword (uidOnly : bool) : bytes := if uidOnly then "UIDFETCH" else "FETCH".

Definition WriteFlags (uidOnly : bool) (seqNum : Z) (flags : list bytes) (e : Encoder) : Encoder :=
  e |> Star |> Number seqNum |> SP |> Atom (keyword uidOnly) |> SP
    |> BeginList |> Atom "FLAGS" |> SP |> Flags flags |> EndList |> CRLF.

Definition fetch_items (data : FetchMessageData) : list (Encoder -> Encoder) :=
  let x := fd_Ext data in
  when_some (fd_Flags data) (fun flags e => e |> Atom "FLAGS" |> SP |> Flags flags)
  ++ when (negb (fd_UID data =? 0)) (fun e => e |> Atom "UID" |> SP |> Number (fd_UID data))
  ++ when (negb (fd_RFC822Size data =? 0))
       (fun e => e |> Atom "RFC822.SIZE" |> SP |> Number64 (u64 (fd_RFC822Size data)))
  ++ when (negb (IsZero (fd_InternalDate data)))
       (fun e => e |> Atom "INTERNALDATE" |> SP |> DateTime (fd_InternalDate data))
  ++ when_some (fd_Envelope data) (fun env e => e |> Atom "ENVELOPE" |> SP |> writeEnvelope env)
  ++ when (negb (fx_ModSeq x =? 0))
       (fun e => e |> Atom "MODSEQ" |> SP |> BeginList |> Number64 (fx_ModSeq x) |> EndList)
  ++ when (nonempty (fx_EmailID x))
       (fun e => e |> Atom "EMAILID" |> SP |> BeginList |> AString (fx_EmailID x) |> EndList)
  ++ when (nonempty (fx_ThreadID x))
       (fun e => e |> Atom "THREADID" |> SP |> BeginList |> AString (fx_ThreadID x) |> EndList)
  ++ match fx_SaveDate x with
     | Some t => [fun e => e |> Atom "SAVEDATE" |> SP |> DateTime t]
     | None => when (fx_SaveDateNIL x) (fun e => e |> Atom "SAVEDATE" |> SP |> Nil)
     end
  ++ (if nonempty (fx_Preview x) then [fun e => e |> Atom "PREVIEW" |> SP |> EncString (fx_Preview x)]
      else when (fx_PreviewNIL x) (fun e => e |> Atom "PREVIEW" |> SP |> Nil))
  ++ ((fun '(section, data) e =>
         e |> Atom ("BINARY[" ++ formatPart (bin_Part section) ++ "]") |> SP |> BinaryLiteral data)
      <$> fx_BinarySection x)
  ++ ((fun '(part, size) e =>
         e |> Atom ("BINARY.SIZE[" ++ formatPart part ++ "]") |> SP |> Number size)
      <$> fx_BinarySizeSection x).

Definition WriteFetchData (uidOnly : bool) (data : FetchMessageData) (e : Encoder) : Encoder :=
  let num := if uidOnly then fd_UID data else fd_SeqNum data in
  e |> Star |> Number num |> SP |> Atom (keyword uidOnly) |> SP |> BeginList
    |> spaced true (fetch_items data) |> EndList |> CRLF.

(** ** ListWriter *)
Definition hasExtendedData (data : ListData) : bool :=
  bool_decide (ld_ChildInfo data <> []) || nonempty (ld_OldName data) || nonempty (ld_MyRights data)
  || match ld_Metadata data with Some _ => true | None => false end.

Definition extended_items (data : ListData) : list (Encoder -> Encoder) :=
  when (bool_decide (ld_ChildInfo data <> []))
    (fun e => e |> QuotedString "CHILDINFO" |> SP |> BeginList
                |> spaced true (QuotedString <$> ld_ChildInfo data) |> EndList)
  ++ when (nonempty (ld_OldName data))
       (fun e => e |> QuotedString "OLDNAME" |> SP |> BeginList
                   |> MailboxName (ld_OldName data) |> EndList)
  ++ when (nonempty (ld_MyRights data))
       (fun e => e |> QuotedString "MYRIGHTS" |> SP |> QuotedString (ld_MyRights data))
  ++ when_some (ld_Metadata data)
       (fun md e => e |> QuotedString "METADATA" |> SP |> BeginList
          |> spaced true ((fun '(k, v) e => e |> QuotedString k |> SP |> QuotedString v) <$> md)
          |> EndList).

Definition write_status (data : ListData) (st : StatusData) (e : Encoder) : Encoder :=
  let num name := fun n e => e |> Atom name |> SP |> Number n in
  let num64 name := fun n e => e |> Atom name |> SP |> Number64 n in
  e |> Star |> Atom "STATUS" |> SP |> MailboxName (ld_Mailbox data) |> SP |> BeginList
    |> spaced true
         (when_some (sa_NumMessages st) (num "MESSAGES")
          ++ when_some (sa_UIDNext st) (num "UIDNEXT")
          ++ when_some (sa_UIDValidity st) (num "UIDVALIDITY")
          ++ when_some (sa_NumUnseen st) (num "UNSEEN")
          ++ when_some (sa_NumRecent st) (num "RECENT")
          ++ when_some (sa_Size st) (fun n => num64 "SIZE" (u64 n))
          ++ when_some (sa_HighestModSeq st) (num64 "HIGHESTMODSEQ"))
    |> EndList |> CRLF.

Definition write_list (data : ListData) (e : Encoder) : Encoder :=
  let e := e |> Star |> Atom "LIST" |> SP
             |> BeginList |> spaced true (Atom <$> ld_Attrs data) |> EndList |> SP in
  let e := if ld_Delim data =? 0 then e |> Nil
           else e |> QuotedString (encode_runes [ld_Delim data]) in
  let e := e |> SP |> MailboxName (ld_Mailbox data) in
  let e := if hasExtendedData data
           then e |> SP |> BeginList |> spaced true (extended_items data) |> EndList else e in
  e |> CRLF.
(** One write, and a second one for the status. *)
Definition WriteList (data : ListData) : list (Encoder -> Encoder) :=
  write_list data :: when_some (ld_Status data) (write_status data).

(** ** UpdateWriter, ExpungeWriter *)
Definition WriteExists (num : Z) (e : Encoder) : Encoder := e |> NumResponse num "EXISTS".
Definition WriteRecent (num : Z) (e : Encoder) : Encoder := e |> NumResponse num "RECENT".
Definition WriteMailboxFlags (flags : list bytes) (e : Encoder) : Encoder :=
  e |> Star |> Atom "FLAGS" |> SP |> Flags flags |> CRLF.
Definition WriteMessageFlags (seqNum : Z) (flags : list bytes) (e : Encoder) : Encoder :=
  e |> Star |> Number seqNum |> SP |> Atom "FETCH" |> SP
    |> BeginList |> Atom "FLAGS" |> SP |> Flags flags |> EndList |> CRLF.
Definition WriteExpunge (uidOnly : bool) (seqNum : Z) (e : Encoder) : Encoder :=
  if uidOnly then e |> Star |> Atom "VANISHED" |> SP |> Atom (FormatUint seqNum) |> CRLF
  else e |> NumResponse seqNum "EXPUNGE".

End Writers.
