(* ===== verification/Message.v ===== *)
(** * Messages of the in-memory backend (server/memserver/message.go)

    A stored message, its flags, its header and body, and the envelope built
    from the header.  [net/textproto]'s header reader is modelled for what the
    code uses of it; the local time zone's abbreviations are a parameter. *)

From S2P Require Import Prelude Utf8 GoStrings GoTime Decoder Imap.

(** ** textproto.Reader.ReadMIMEHeader *)
Module Textproto.

(** The header as the list of its fields in order, under canonical keys. *)
Abbreviation MIMEHeader := (list (bytes * bytes)).

Definition is_blank (c : ascii) : bool := (c =c " ") || (c =c TAB).
Definition trim (s : bytes) : bytes :=
  reverse (drop_while is_blank (reverse (drop_while is_blank s))).

Definition validHeaderFieldByte (c : ascii) : bool :=
  is_digit c || in_range 65 90 (bval c) || in_range 97 122 (bval c)
  || existsb (beqb c) "!#$%&'*+-.^_`|~".
Definition validHeaderValueByte (c : ascii) : bool :=
  (c =c TAB) || ((0x20 <=? bval c) && negb (bval c =? 0x7F)).

Fixpoint canonical (upper : bool) (s : bytes) : bytes :=
  match s with
  | [] => []
  | c :: t =>
    let c' := if upper && in_range 97 122 (bval c) then byte_of (bval c - 32)
              else if negb upper && in_range 65 90 (bval c) then byte_of (bval c + 32)
              else c in
    c' :: canonical (c' =c "-") t
  end.
(** The canonical key of a field name read from a message, if it is one; a name
    with a space is kept as it is. *)
Definition canonicalMIMEHeaderKey (k : bytes) : option bytes :=
  if k =s [] then None
  else if forallb validHeaderFieldByte k then Some (canonical true k)
  else if forallb (fun c => validHeaderFieldByte c || (c =c " ")) k then Some k
  else None.
Definition CanonicalMIMEHeaderKey (k : bytes) : bytes :=
  if forallb validHeaderFieldByte k then canonical true k else k.

(** The continuation lines after a first line, joined by single spaces. *)
Fixpoint continuation (fuel : nat) (buf s : bytes) : bytes * bytes :=
  match fuel with
  | O => (buf, s)
  | S f =>
    match take_while is_blank s with
    | [] => (buf, s)
    | _ =>
      match ReadLine (drop_while is_blank s) with
      | (Ok line, rest) => continuation f (buf ++ [" "%char] ++ trim line) rest
      | (_, rest) => (buf ++ [" "%char], rest)
      end
    end
  end.

(** The fields up to a blank line, the end of input or a malformed line; the
    caller keeps what was read in every case.  A round consumes a line. *)
Fixpoint fields (fuel : nat) (s : bytes) : MIMEHeader :=
  match fuel with
  | O => []
  | S f =>
    match ReadLine s with
    | (Ok line, rest) =>
      match IndexByte line ":" with
      | None => []
      | Some _ =>
        let '(kv, rest') := continuation (length rest) (trim line) rest in
        match IndexByte kv ":" with
        | None => []
        | Some i =>
          match canonicalMIMEHeaderKey (take i kv) with
          | None => []
          | Some key =>
            let v := drop (S i) kv in
            if forallb validHeaderValueByte v
            then (key, drop_while is_blank v) :: fields f rest'
            else []
          end
        end
      end
    | _ => []
    end
  end.

Definition ReadMIMEHeader (s : bytes) : MIMEHeader :=
  match s with
  | c :: _ => if is_blank c then [] else fields (S (length s)) s
  | [] => []
  end.

Definition Get (h : MIMEHeader) (key : bytes) : bytes :=
  match List.find (fun '(k, _) => k =s CanonicalMIMEHeaderKey key) h with
  | Some (_, v) => v
  | None => []
  end.

End Textproto.

(** ** The message *)
Record Message := mkMessage {
  UID : Z;
  Flags : list bytes;
  InternalDate : Time;
  Size : Z;
  Body : bytes;
}.

Definition set_flags (flags : list bytes) (m : Message) : Message :=
  mkMessage (UID m) flags (InternalDate m) (Size m) (Body m).

Section Message.
Context {U : Unicode}.

Definition has_flag (flags : list bytes) (flag : bytes) : bool :=
  existsb (fun f => EqualFold f flag) flags.
Definition HasFlag (m : Message) (flag : bytes) : bool := has_flag (Flags m) flag.

Definition SetFlag (flag : bytes) (m : Message) : Message :=
  if HasFlag m flag then m else set_flags (Flags m ++ [flag]) m.

(** The first flag equal up to case is cut out. *)
Fixpoint cut_flag (flag : bytes) (flags : list bytes) : list bytes :=
  match flags with
  | [] => []
  | f :: rest => if EqualFold f flag then rest else f :: cut_flag flag rest
  end.
Definition RemoveFlag (flag : bytes) (m : Message) : Message :=
  set_flags (cut_flag flag (Flags m)) m.

Definition CopyFlags (m : Message) : list bytes := Flags m.

End Message.

(** ** Header and text *)
Definition CRLF2 : bytes := crlf ++ crlf.
Definition LF2 : bytes := [LF; LF].

Definition HeaderBytes (m : Message) : bytes :=
  match Index (Body m) CRLF2 with
  | Some idx => take (idx + 2) (Body m)
  | None =>
    match Index (Body m) LF2 with
    | Some idx => take (idx + 2) (Body m)
    | None => Body m
    end
  end.

Definition TextBytes (m : Message) : bytes :=
  match Index (Body m) CRLF2 with
  | Some idx => drop (idx + 4) (Body m)
  | None =>
    match Index (Body m) LF2 with
    | Some idx => drop (idx + 2) (Body m)
    | None => []
    end
  end.

Definition parseHeaders (m : Message) : Textproto.MIMEHeader := Textproto.ReadMIMEHeader (Body m).

(** ** Addresses *)

(** A closing bracket before the opening one makes the slice expression panic. *)
Definition parseAddress (s : bytes) : res (option Address) :=
  let s := TrimSpace s in
  if s =s [] then Ok None
  else
    '(name, s) ← (match Index s "<" with
                  | None => Ok ([], s)
                  | Some idx =>
                    let name := Trim1 (TrimSpace (take idx s)) DQ in
                    let stop := match Index s ">" with Some e => e | None => length s end in
                    if (stop <? idx + 1)%nat then Panic
                    else Ok (name, take (stop - (idx + 1)) (drop (idx + 1) s))
                  end);
    let parts := SplitN s "@" 2 in
    Ok (Some (mkAddress name (TrimSpace (nth 0 parts [])) (TrimSpace (nth 1 parts [])))).

Fixpoint parse_parts (parts : list bytes) : res (list Address) :=
  match parts with
  | [] => Ok []
  | part :: rest =>
    let part := TrimSpace part in
    if part =s [] then parse_parts rest
    else
      addr ← parseAddress part;
      addrs ← parse_parts rest;
      Ok (option_list addr ++ addrs)
  end.

Definition parseAddressList (s : bytes) : res (list Address) :=
  let s := TrimSpace s in
  if s =s [] then Ok [] else parse_parts (Split s ",").

(** ** The envelope *)
Section Envelope.
Context (lookupName : bytes -> Z -> option Z).

Definition date_layouts : list layout := [RFC1123Z; RFC1123; RFC822Z; RFC822; RFC1123Z1; MailDate1].

Fixpoint parse_date (layouts : list layout) (dateStr : bytes) : Time :=
  match layouts with
  | [] => time_zero
  | l :: rest =>
    match ParseIn lookupName l dateStr with inr t => t | inl _ => parse_date rest dateStr end
  end.

Definition ParseEnvelope (m : Message) : res Envelope :=
  let hdr := parseHeaders m in
  let dateStr := Textproto.Get hdr "Date" in
  let date := if dateStr =s [] then time_zero else parse_date date_layouts dateStr in
  let subject := Textproto.Get hdr "Subject" in
  from ← parseAddressList (Textproto.Get hdr "From");
  sender ← parseAddressList (Textproto.Get hdr "Sender");
  replyTo ← parseAddressList (Textproto.Get hdr "Reply-To");
  to ← parseAddressList (Textproto.Get hdr "To");
  cc ← parseAddressList (Textproto.Get hdr "Cc");
  bcc ← parseAddressList (Textproto.Get hdr "Bcc");
  let inReplyTo := Textproto.Get hdr "In-Reply-To" in
  let messageID := Textproto.Get hdr "Message-ID" in
  let sender := match sender with [] => from | _ => sender end in
  let replyTo := match replyTo with [] => from | _ => replyTo end in
  Ok (mkEnvelope date subject from sender replyTo to cc bcc inReplyTo messageID).

End Envelope.
