(* ===== verification/Mailbox.v ===== *)
(** * Mailboxes of the in-memory backend (server/memserver/mailbox.go)

    A mailbox, its operations and the queries on it.  [time.Now] is an argument
    of the operation that calls it. *)

From S2P Require Import Prelude Utf8 GoStrings GoTime NumSet Imap Message.

(** ** Data *)
Record Mailbox := mkMailbox {
  mb_Name : bytes;
  mb_Messages : list Message;
  mb_Flags : list bytes;
  mb_PermanentFlags : list bytes;
  mb_UIDNext : Z;
  mb_UIDValidity : Z;
  mb_Subscribed : bool;
}.

Definition NewMailbox (name : bytes) : Mailbox :=
  mkMailbox name []
    [FlagSeen; FlagAnswered; FlagFlagged; FlagDeleted; FlagDraft]
    [FlagSeen; FlagAnswered; FlagFlagged; FlagDeleted; FlagDraft; FlagWildcard]
    1 1 false.

Definition set_messages (msgs : list Message) (mb : Mailbox) : Mailbox :=
  mkMailbox (mb_Name mb) msgs (mb_Flags mb) (mb_PermanentFlags mb) (mb_UIDNext mb)
    (mb_UIDValidity mb) (mb_Subscribed mb).
Definition set_subscribed (b : bool) (mb : Mailbox) : Mailbox :=
  mkMailbox (mb_Name mb) (mb_Messages mb) (mb_Flags mb) (mb_PermanentFlags mb) (mb_UIDNext mb)
    (mb_UIDValidity mb) b.
Definition set_name (n : bytes) (mb : Mailbox) : Mailbox :=
  mkMailbox n (mb_Messages mb) (mb_Flags mb) (mb_PermanentFlags mb) (mb_UIDNext mb)
    (mb_UIDValidity mb) (mb_Subscribed mb).

(** ** Adding a message *)
Definition Append (now : Time) (body : bytes) (flags : list bytes) (date : Time) (mb : Mailbox)
    : Message * Mailbox :=
  let date := if IsZero date then now else date in
  let uid := mb_UIDNext mb in
  let msg := mkMessage uid flags date (len body) body in
  (msg, mkMailbox (mb_Name mb) (mb_Messages mb ++ [msg]) (mb_Flags mb) (mb_PermanentFlags mb)
          (u32 (uid + 1)) (mb_UIDValidity mb) (mb_Subscribed mb)).

(** ** Counting and looking up *)
Definition NumMessages (mb : Mailbox) : Z := u32 (len (mb_Messages mb)).

Definition MessageBySeqNum (mb : Mailbox) (seqNum : Z) : option Message :=
  let idx := seqNum - 1 in
  if (idx <? 0) || (len (mb_Messages mb) <=? idx) then None
  else mb_Messages mb !! Z.to_nat idx.

Fixpoint find_uid (i : Z) (uid : Z) (msgs : list Message) : option Message * Z :=
  match msgs with
  | [] => (None, 0)
  | m :: rest => if UID m =? uid then (Some m, u32 (i + 1)) else find_uid (i + 1) uid rest
  end.
Definition MessageByUID (mb : Mailbox) (uid : Z) : option Message * Z :=
  find_uid 0 uid (mb_Messages mb).

Definition TotalSize (mb : Mailbox) : Z :=
  foldl (fun total m => i64 (total + Size m)) 0 (mb_Messages mb).

Section Mailbox.
Context {U : Unicode}.

Definition count_msgs (p : Message -> bool) (mb : Mailbox) : Z :=
  foldl (fun n m => if p m then u32 (n + 1) else n) 0 (mb_Messages mb).
Definition NumUnseen (mb : Mailbox) : Z := count_msgs (fun m => negb (HasFlag m FlagSeen)) mb.
Definition NumRecent (mb : Mailbox) : Z := count_msgs (fun m => HasFlag m FlagRecent) mb.
Definition NumDeleted (mb : Mailbox) : Z := count_msgs (fun m => HasFlag m FlagDeleted) mb.

Fixpoint first_unseen (i : Z) (msgs : list Message) : Z :=
  match msgs with
  | [] => 0
  | m :: rest => if negb (HasFlag m FlagSeen) then u32 (i + 1) else first_unseen (i + 1) rest
  end.
Definition FirstUnseen (mb : Mailbox) : Z := first_unseen 0 (mb_Messages mb).

Definition mailbox_SelectData (readOnly : bool) (mb : Mailbox) : SelectData :=
  mkSelectData (mb_Flags mb) (mb_PermanentFlags mb) (NumMessages mb) (NumRecent mb)
    (mb_UIDNext mb) (mb_UIDValidity mb) (FirstUnseen mb) 0 readOnly [] None.

Definition mailbox_StatusData (name : bytes) (o : StatusOptions) (mb : Mailbox) : StatusData :=
  let on (b : bool) (v : Z) := if b then Some v else None in
  mkStatusData name
    (on (st_NumMessages o) (NumMessages mb))
    (on (st_UIDNext o) (mb_UIDNext mb))
    (on (st_UIDValidity o) (mb_UIDValidity mb))
    (on (st_NumUnseen o) (NumUnseen mb))
    (on (st_NumRecent o) (NumRecent mb))
    (on (st_Size o) (TotalSize mb))
    None
    (on (st_NumDeleted o) (NumDeleted mb))
    None [].

(** ** Expunge *)

(** The loop: the sequence numbers that go and the messages that stay. *)
Fixpoint expunge_loop (i : Z) (uidSet : option UIDSet) (msgs : list Message)
    : list Z * list Message :=
  match msgs with
  | [] => ([], [])
  | msg :: rest =>
    let '(expunged, remaining) := expunge_loop (i + 1) uidSet rest in
    let seqNum := u32 (i + 1) in
    if HasFlag msg FlagDeleted then
      match uidSet with
      | Some set =>
        if negb (UIDSet_Contains set (UID msg)) then (expunged, msg :: remaining)
        else (seqNum :: expunged, remaining)
      | None => (seqNum :: expunged, remaining)
      end
    else (expunged, msg :: remaining)
  end.

(** The numbers as they are once the earlier ones are gone. *)
Fixpoint adjust (i : Z) (expunged : list Z) : list Z :=
  match expunged with
  | [] => []
  | seq :: rest => u32 (seq - u32 i) :: adjust (i + 1) rest
  end.

Definition Expunge (uidSet : option UIDSet) (mb : Mailbox) : list Z * Mailbox :=
  let '(expunged, remaining) := expunge_loop 0 uidSet (mb_Messages mb) in
  (adjust 0 expunged, set_messages remaining mb).

(** ** Number sets *)
Definition numSetContains (numSet : NumSet) (num maxNum : Z) : bool :=
  existsb (fun r =>
    let start := if Start r =? 0 then maxNum else Start r in
    let stop := if Stop r =? 0 then maxNum else Stop r in
    let '(start, stop) := if stop <? start then (stop, start) else (start, stop) in
    (start <=? num) && (num <=? stop)) (Ranges numSet).

Fixpoint matches_loop (i : Z) (total : Z) (numSet : NumSet) (kind : NumKind) (msgs : list Message)
    : list (Z * Message) :=
  match msgs with
  | [] => []
  | msg :: rest =>
    let seqNum := u32 (i + 1) in
    let num := match kind with NumKindSeq => seqNum | NumKindUID => UID msg end in
    let tail := matches_loop (i + 1) total numSet kind rest in
    if numSetContains numSet num total then (seqNum, msg) :: tail else tail
  end.
Definition MatchesMessages (numSet : NumSet) (kind : NumKind) (mb : Mailbox) : list (Z * Message) :=
  matches_loop 0 (u32 (len (mb_Messages mb))) numSet kind (mb_Messages mb).

(** ** Search *)
Context (lookupName : bytes -> Z -> option Z).

(** A test that fails ends the match. *)
Definition requires (b : bool) (k : res bool) : res bool := if b then k else Ok false.
Notation "'require' b ; k" := (requires b k) (at level 100, b at level 99, right associativity).

Definition has_date (t : Time) : bool := negb (IsZero t).
Definition contains_fold (s sub : bytes) : bool := Contains (ToLower s) (ToLower sub).

Definition header_matches (msg : Message) (hdr : SearchCriteriaHeaderField) : bool :=
  let val := Textproto.Get (parseHeaders msg) (Key hdr) in
  if Value hdr =s [] then negb (val =s []) else contains_fold val (Value hdr).

Definition sent_matches (msg : Message) (c : SearchCriteria) : res bool :=
  if has_date (sc_SentSince c) || has_date (sc_SentBefore c) || has_date (sc_SentOn c) then
    env ← ParseEnvelope lookupName msg;
    require negb (has_date (sc_SentSince c) && Before (env_Date env) (sc_SentSince c));
    require negb (has_date (sc_SentBefore c) && negb (Before (env_Date env) (sc_SentBefore c)));
    require negb (has_date (sc_SentOn c)
                  && negb (TimeEqual (Truncate24 (env_Date env)) (Truncate24 (sc_SentOn c))));
    Ok true
  else Ok true.

Definition opt_test {A} (o : option A) (p : A -> bool) : bool :=
  match o with Some a => p a | None => true end.

(** The tests up to the nested criteria. *)
Definition matches_keys (msg : Message) (seqNum : Z) (c : SearchCriteria) : res bool :=
  require opt_test (sc_SeqNum c) (fun s => SeqSet_Contains s seqNum);
  require opt_test (sc_UID c) (fun s => UIDSet_Contains s (UID msg));
  require forallb (fun flag => HasFlag msg flag) (sc_Flag c);
  require forallb (fun flag => negb (HasFlag msg flag)) (sc_NotFlag c);
  require negb (has_date (sc_Since c) && Before (InternalDate msg) (sc_Since c));
  require negb (has_date (sc_Before c) && negb (Before (InternalDate msg) (sc_Before c)));
  require negb (has_date (sc_On c)
                && negb (TimeEqual (Truncate24 (InternalDate msg)) (Truncate24 (sc_On c))));
  sent ← sent_matches msg c;
  require sent;
  require negb ((0 <? sc_Larger c) && (Size msg <=? sc_Larger c));
  require negb ((0 <? sc_Smaller c) && (sc_Smaller c <=? Size msg));
  require forallb (header_matches msg) (sc_Header c);
  require forallb (fun text => contains_fold (TextBytes msg) text) (sc_Body c);
  require forallb (fun text => contains_fold (Body msg) text) (sc_Text c);
  Ok true.

(** The loops over the nested criteria, given how one of them is matched. *)
Definition match_nots {A} (f : A -> res bool) : list A -> res bool :=
  fix nots l :=
    match l with
    | [] => Ok true
    | n :: l' => b ← f n; require negb b; nots l'
    end.
Definition match_ors {A} (f : A -> res bool) : list (A * A) -> res bool :=
  fix ors l :=
    match l with
    | [] => Ok true
    | (p, q) :: l' =>
      b ← f p;
      b' ← (if (b : bool) then Ok true else f q);
      require b'; ors l'
    end.

Fixpoint matchesCriteria (msg : Message) (seqNum : Z) (c : SearchCriteria) {struct c} : res bool :=
  keys ← matches_keys msg seqNum c;
  require keys;
  nots ← match_nots (matchesCriteria msg seqNum) (sc_Not c);
  require nots;
  match_ors (matchesCriteria msg seqNum) (sc_Or c).

Fixpoint search_loop (i : Z) (kind : NumKind) (criteria : option SearchCriteria)
    (msgs : list Message) : res (list Z) :=
  match msgs with
  | [] => Ok []
  | msg :: rest =>
    let seqNum := u32 (i + 1) in
    b ← (match criteria with None => Ok true | Some c => matchesCriteria msg seqNum c end);
    results ← search_loop (i + 1) kind criteria rest;
    Ok (if (b : bool) then
          match kind with NumKindSeq => seqNum | NumKindUID => UID msg end :: results
        else results)
  end.
Definition SearchMessages (kind : NumKind) (criteria : option SearchCriteria) (mb : Mailbox)
    : res (list Z) :=
  search_loop 0 kind criteria (mb_Messages mb).

(** ** Copying a message *)
Definition CopyMessageTo (now : Time) (msg : Message) (dest : Mailbox) : Z * Mailbox :=
  let flags := cut_flag FlagRecent (CopyFlags msg) in
  let '(newMsg, dest) := Append now (Body msg) flags (InternalDate msg) dest in
  (UID newMsg, dest).

End Mailbox.

(** ** Mailbox name patterns

    The delimiter is a one-byte rune; the only one in use is the slash. *)
Fixpoint suffixes (name : bytes) : list bytes :=
  name :: match name with [] => [] | _ :: t => suffixes t end.
(** The suffixes reached without passing a delimiter. *)
Fixpoint suffixes_in (delim : ascii) (name : bytes) : list bytes :=
  name :: match name with [] => [] | c :: t => if c =c delim then [] else suffixes_in delim t end.

Fixpoint matchPattern (name pattern : bytes) (delim : ascii) {struct pattern} : bool :=
  match pattern with
  | [] => name =s []
  | c :: pattern' =>
    if c =c "*" then
      match pattern' with
      | [] => true
      | _ => existsb (fun suffix => matchPattern suffix pattern' delim) (suffixes name)
      end
    else if c =c "%" then
      match pattern' with
      | [] => negb (existsb (beqb delim) name)
      | _ => existsb (fun suffix => matchPattern suffix pattern' delim) (suffixes_in delim name)
      end
    else
      match name with
      | [] => false
      | n :: name' => if negb (c =c n) then false else matchPattern name' pattern' delim
      end
  end.

Definition HasChildren (name : bytes) (allNames : list bytes) (delim : ascii) : bool :=
  existsb (fun other => HasPrefix other (name ++ [delim])) allNames.

Definition ErrNoSuchMailbox : error := emsg "no such mailbox".
Definition ErrMailboxAlreadyExists : error := emsg "mailbox already exists".
