(* ===== verification/MailboxFacts.v ===== *)
(** * Properties of mailboxes

    The mailbox invariant, expunge as a sequence of removals, number sets and
    search results, and the pattern matcher against its declarative meaning. *)

From S2P Require Import Prelude Utf8 GoStrings GoTime NumSet Imap Message Mailbox.

(** ** Patterns *)
Section Glob.
Context (delim : ascii).

(** What a LIST pattern means: a star stands for any text, a percent sign for
    any text without the delimiter, anything else for itself. *)
Inductive glob : bytes -> bytes -> Prop :=
| glob_nil : glob [] []
| glob_star p s t : glob p t -> glob ("*"%char :: p) (s ++ t)
| glob_percent p s t : delim ∉ s -> glob p t -> glob ("%"%char :: p) (s ++ t)
| glob_char c p t : c <> "*"%char -> c <> "%"%char -> glob p t -> glob (c :: p) (c :: t).

Lemma elem_of_suffixes s t : t ∈ suffixes s <-> exists p, s = p ++ t.
Proof.
  induction s as [|c s IH]; cbn [suffixes].
  - rewrite list_elem_of_singleton. split.
    + intros ->. by exists [].
    + intros [p Hp]. symmetry in Hp. by apply app_nil in Hp as [_ ->].
  - rewrite elem_of_cons, IH. split.
    + intros [->|[p ->]]; [by exists []|by exists (c :: p)].
    + intros [[|d p] Hp]; simplify_eq/=; [by left|right; eauto].
Qed.

Lemma elem_of_suffixes_in s t :
  t ∈ suffixes_in delim s <-> exists p, s = p ++ t /\ delim ∉ p.
Proof.
  induction s as [|c s IH]; cbn [suffixes_in].
  - rewrite list_elem_of_singleton. split.
    + intros ->. exists []. set_solver.
    + intros [p [Hp _]]. symmetry in Hp. by apply app_nil in Hp as [_ ->].
  - rewrite elem_of_cons. destruct (c =c delim) eqn:E; to_prop.
    + subst. split.
      * intros [->|?]; [exists []; set_solver|set_solver].
      * intros [[|d p] [Hp Hd]]; simplify_eq/=; [by left|set_solver].
    + rewrite IH. split.
      * intros [->|[p [-> ?]]]; [exists []; set_solver|exists (c :: p); set_solver].
      * intros [[|d p] [Hp Hd]]; simplify_eq/=; [by left|right; exists p; set_solver].
Qed.

Lemma existsb_elem {A} (p : A -> bool) l : existsb p l = true <-> exists x, x ∈ l /\ p x = true.
Proof. rewrite existsb_exists. by setoid_rewrite <- list_elem_of_In. Qed.

Lemma glob_star_inv p n : glob ("*"%char :: p) n <-> exists s t, n = s ++ t /\ glob p t.
Proof.
  split; [|intros (s & t & -> & ?); by constructor].
  inversion 1; subst; [eauto|congruence].
Qed.
Lemma glob_percent_inv p n :
  glob ("%"%char :: p) n <-> exists s t, n = s ++ t /\ delim ∉ s /\ glob p t.
Proof.
  split; [|intros (s & t & -> & ? & ?); by constructor].
  inversion 1; subst; [eauto|congruence].
Qed.
Lemma glob_char_inv c p n :
  c <> "*"%char -> c <> "%"%char ->
  glob (c :: p) n <-> exists t, n = c :: t /\ glob p t.
Proof.
  intros H1 H2. split; [|intros (t & -> & ?); by constructor].
  inversion 1; subst; try congruence. eauto.
Qed.
Lemma glob_nil_inv n : glob [] n <-> n = [].
Proof. split; [by inversion 1|intros ->; constructor]. Qed.

Lemma matchPattern_glob name pattern : matchPattern name pattern delim = true <-> glob pattern name.
Proof.
  revert name. induction pattern as [|c p IH]; intros name; cbn [matchPattern].
  { rewrite bool_decide_eq_true, glob_nil_inv. done. }
  destruct (c =c "*") eqn:E1; to_prop; [subst|].
  { rewrite glob_star_inv.
    assert (existsb (fun suffix => matchPattern suffix p delim) (suffixes name) = true
      <-> exists s t, name = s ++ t /\ glob p t) as Hex.
    { rewrite existsb_elem. setoid_rewrite elem_of_suffixes. setoid_rewrite IH. naive_solver. }
    destruct p as [|d p]; [|done]. split; [intros _|done].
    exists name, []. rewrite app_nil_r. split; [done|constructor]. }
  destruct (c =c "%") eqn:E2; to_prop; [subst|].
  { rewrite glob_percent_inv.
    assert (existsb (fun suffix => matchPattern suffix p delim) (suffixes_in delim name) = true
      <-> exists s t, name = s ++ t /\ delim ∉ s /\ glob p t) as Hex.
    { rewrite existsb_elem. setoid_rewrite elem_of_suffixes_in. setoid_rewrite IH. naive_solver. }
    destruct p as [|d p]; [|done]. rewrite negb_true_iff, <- not_true_iff_false, existsb_elem. split.
    - intros Hn. exists name, []. rewrite app_nil_r. split_and!; [done| |constructor].
      intros Hd. apply Hn. exists delim. split; [done|]. apply beqb_refl.
    - intros (s & t & -> & Hs & ->%glob_nil_inv) (x & Hx & <-%beqb_true).
      by rewrite app_nil_r in Hx. }
  rewrite glob_char_inv by done. destruct name as [|n name].
  - split; [done|]. by intros (t & [=] & _).
  - destruct (c =c n) eqn:E3; cbn [negb]; to_prop.
    + subst. rewrite IH. naive_solver.
    + split; [done|]. intros (t & [= <- <-] & _). done.
Qed.

End Glob.

(** ** The mailbox invariant *)
Fixpoint ascending (l : list Z) : Prop :=
  match l with
  | [] => True
  | x :: l' => Forall (fun y => x < y) l' /\ ascending l'
  end.

(** UIDs ascend strictly and stay below the next one; sizes are lengths. *)
Record mailbox_wf (mb : Mailbox) : Prop := {
  wf_next : 1 <= mb_UIDNext mb < 2 ^ 32;
  wf_asc : ascending (UID <$> mb_Messages mb);
  wf_uid : Forall (fun m => 1 <= UID m < mb_UIDNext mb) (mb_Messages mb);
  wf_size : Forall (fun m => Size m = len (Body m)) (mb_Messages mb);
}.

Lemma ascending_snoc l x : ascending l -> Forall (fun y => y < x) l -> ascending (l ++ [x]).
Proof.
  induction l as [|y l IH]; simpl; [by repeat constructor|].
  intros [Hy Hl] [Hx Hlx]%list.Forall_cons. split; [|by apply IH].
  apply Forall_app. split; [done|by repeat constructor].
Qed.

Lemma ascending_sublist l k : l `sublist_of` k -> ascending k -> ascending l.
Proof.
  induction 1 as [|x l k Hl IH|x l k Hl IH]; simpl; [done| |naive_solver].
  intros [Hx Hk]. split; [|by apply IH]. by eapply Forall_sublist.
Qed.

Lemma ascending_NoDup l : ascending l -> NoDup l.
Proof.
  induction l as [|x l IH]; simpl; [intros _; apply NoDup_nil_2|].
  intros [Hx Hl]. apply NoDup_cons_2; [|by apply IH].
  rewrite list.Forall_forall in Hx. intros Hin. specialize (Hx x Hin). lia.
Qed.

(** The invariant survives dropping messages and changing flags. *)
Lemma mailbox_wf_sublist msgs mb :
  msgs `sublist_of` mb_Messages mb -> mailbox_wf mb -> mailbox_wf (set_messages msgs mb).
Proof.
  intros Hsub []. split; simpl; [done| | |]; [|by eapply Forall_sublist..].
  eapply ascending_sublist; [|done]. by apply fmap_sublist.
Qed.

Lemma mailbox_wf_new name : mailbox_wf (NewMailbox name).
Proof. split; simpl; [lia|done|constructor..]. Qed.

Lemma mailbox_wf_append now body flags date mb :
  mb_UIDNext mb + 1 < 2 ^ 32 -> mailbox_wf mb -> mailbox_wf (Append now body flags date mb).2.
Proof.
  intros Hn [Hnext Hasc Huid Hsize]. unfold Append. cbn [snd]. rewrite u32_small by lia.
  split; cbn [mb_UIDNext mb_Messages]; [lia| | |].
  - rewrite fmap_app. apply ascending_snoc; [done|]. apply Forall_fmap.
    eapply list.Forall_impl; [exact Huid|]. simpl. lia.
  - apply Forall_app. split; [|repeat constructor; simpl; lia].
    eapply list.Forall_impl; [exact Huid|]. simpl. lia.
  - apply Forall_app. split; [done|by repeat constructor].
Qed.

(** ** Expunge *)
Section Expunge.
Context {U : Unicode}.

(** What goes: deleted messages, within the UID set if there is one. *)
Definition goes (uidSet : option UIDSet) (m : Message) : bool :=
  HasFlag m FlagDeleted && opt_test uidSet (fun set => UIDSet_Contains set (UID m)).
Definition stays (uidSet : option UIDSet) (m : Message) : Prop := goes uidSet m = false.
#[export] Instance stays_dec uidSet m : Decision (stays uidSet m).
Proof. unfold stays. apply _. Defined.

(** A client applying EXPUNGE responses one after the other to its view. *)
Fixpoint replay {A} (seqs : list Z) (l : list A) : option (list A) :=
  match seqs with
  | [] => Some l
  | n :: seqs' =>
    if (1 <=? n) && (n <=? len l) then replay seqs' (delete (Z.to_nat (n - 1)) l) else None
  end.

Lemma expunge_loop_cons i uidSet m msgs :
  expunge_loop i uidSet (m :: msgs) =
  let '(expunged, remaining) := expunge_loop (i + 1) uidSet msgs in
  if goes uidSet m then (u32 (i + 1) :: expunged, remaining) else (expunged, m :: remaining).
Proof.
  cbn [expunge_loop]. destruct (expunge_loop (i + 1) uidSet msgs) as [e r]. unfold goes.
  destruct (HasFlag m FlagDeleted); [|done]. cbn [andb]. destruct uidSet as [set|]; [|done].
  cbn [opt_test]. by destruct (UIDSet_Contains set (UID m)).
Qed.

Lemma expunge_remaining i uidSet msgs :
  (expunge_loop i uidSet msgs).2 = filter (stays uidSet) msgs.
Proof.
  revert i. induction msgs as [|m msgs IH]; intros i; [done|]. rewrite expunge_loop_cons.
  specialize (IH (i + 1)). destruct (expunge_loop (i + 1) uidSet msgs) as [e r]. simpl in IH. subst r.
  destruct (goes uidSet m) eqn:E.
  - rewrite filter_cons_False; [done|]. unfold stays. by rewrite E.
  - by rewrite filter_cons_True.
Qed.

Lemma delete_middle {A} (l k : list A) x : delete (length l) (l ++ x :: k) = l ++ k.
Proof. induction l as [|y l IH]; simpl; [done|]. by f_equal. Qed.

Lemma expunge_replay_from uidSet kept msgs j :
  0 <= j -> len kept + j + len msgs < 2 ^ 32 ->
  replay (adjust j (expunge_loop (len kept + j) uidSet msgs).1) (kept ++ msgs)
  = Some (kept ++ filter (stays uidSet) msgs).
Proof.
  revert kept j. induction msgs as [|m msgs IH]; intros kept j Hj Hlen; [done|].
  rewrite expunge_loop_cons. rewrite len_cons in Hlen. pose proof (len_nonneg msgs).
  pose proof (len_nonneg kept). destruct (goes uidSet m) eqn:E.
  - specialize (IH kept (j + 1)).
    destruct (expunge_loop (len kept + j + 1) uidSet msgs) as [e r] eqn:EL.
    rewrite <- Z.add_assoc in EL. rewrite EL in IH.
    cbn [fst adjust replay]. rewrite !u32_small by (rewrite ?u32_small; lia).
    rewrite len_app, len_cons.
    destruct (Z.leb_spec 1 (len kept + j + 1 - j)); [|lia].
    destruct (Z.leb_spec (len kept + j + 1 - j) (len kept + (1 + len msgs))); [|lia]. cbn [andb].
    replace (Z.to_nat (len kept + j + 1 - j - 1)) with (length kept) by (unfold len; lia).
    rewrite delete_middle, filter_cons_False by (unfold stays; by rewrite E).
    apply IH; lia.
  - specialize (IH (kept ++ [m]) j). rewrite <- !app_assoc in IH. cbn [app] in IH.
    assert (len (kept ++ [m]) = len kept + 1) as HK by (rewrite len_app, len_cons, len_nil; lia).
    rewrite HK in IH. replace (len kept + 1 + j) with (len kept + j + 1) in IH by lia.
    destruct (expunge_loop (len kept + j + 1) uidSet msgs) as [e r].
    rewrite filter_cons_True by done. apply IH; lia.
Qed.

Lemma Expunge_messages uidSet mb :
  mb_Messages (Expunge uidSet mb).2 = filter (stays uidSet) (mb_Messages mb).
Proof.
  unfold Expunge. rewrite <- (expunge_remaining 0).
  by destruct (expunge_loop 0 uidSet (mb_Messages mb)).
Qed.

Lemma Expunge_wf uidSet mb : mailbox_wf mb -> mailbox_wf (Expunge uidSet mb).2.
Proof.
  intros Hwf. pose proof (Expunge_messages uidSet mb) as HM. unfold Expunge in *.
  destruct (expunge_loop 0 uidSet (mb_Messages mb)) as [e r]. simpl in *. subst r.
  apply mailbox_wf_sublist; [|done]. apply sublist_filter.
Qed.

(** [C25] Expunging keeps exactly the messages that are not marked deleted (or
    are outside the given UID set), in their order, and the sequence numbers it
    reports, applied one after the other by a client to the old mailbox, remove
    exactly the others. *)
Theorem expunge_replay (uidSet : option UIDSet) (mb : Mailbox) :
  len (mb_Messages mb) < 2 ^ 32 ->
  replay (Expunge uidSet mb).1 (mb_Messages mb) = Some (mb_Messages (Expunge uidSet mb).2) /\
  (forall m, m ∈ mb_Messages (Expunge uidSet mb).2 <->
     m ∈ mb_Messages mb /\ goes uidSet m = false) /\
  mb_Messages (Expunge uidSet mb).2 `sublist_of` mb_Messages mb.
Proof.
  intros Hlen. rewrite Expunge_messages. split_and!.
  - pose proof (expunge_replay_from uidSet [] (mb_Messages mb) 0 ltac:(lia) Hlen) as H.
    change (len [] + 0) with 0 in H. unfold Expunge.
    destruct (expunge_loop 0 uidSet (mb_Messages mb)). exact H.
  - intros m. rewrite list_elem_of_filter. unfold stays. naive_solver.
  - apply sublist_filter.
Qed.

End Expunge.

Lemma expunge_replay_witness :
  let U := basic_unicode in
  let msg u f := mkMessage u f time_zero 0 [] in
  let mb := set_messages [msg 1 [FlagDeleted]; msg 2 []; msg 3 ["\deleted" : bytes]; msg 4 [FlagSeen]]
              (NewMailbox "INBOX") in
  (Expunge None mb).1 = [1; 2] /\
  replay (Expunge None mb).1 (mb_Messages mb) = Some (mb_Messages (Expunge None mb).2).
Proof.
  intros U msg mb. split; [by vm_compute|].
  exact (proj1 (expunge_replay None mb ltac:(by vm_compute))).
Defined.

(** ** Number sets over a mailbox *)
Section Numbers.
Context {U : Unicode}.

(** The interval a range stands for in a mailbox of [max] messages. *)
Definition in_resolved (max : Z) (r : NumRange) (n : Z) : Prop :=
  let a := if Start r =? 0 then max else Start r in
  let b := if Stop r =? 0 then max else Stop r in
  Z.min a b <= n <= Z.max a b.

Lemma numSetContains_spec set n max :
  numSetContains set n max = true <-> exists r, r ∈ Ranges set /\ in_resolved max r n.
Proof.
  unfold numSetContains. rewrite existsb_elem.
  assert (forall r, (let start := if Start r =? 0 then max else Start r in
    let stop := if Stop r =? 0 then max else Stop r in
    let '(start, stop) := if stop <? start then (stop, start) else (start, stop) in
    (start <=? n) && (n <=? stop)) = true <-> in_resolved max r n) as Hr; [|by setoid_rewrite Hr].
  intros r. unfold in_resolved. cbn zeta.
  set (a := if Start r =? 0 then max else Start r). set (b := if Stop r =? 0 then max else Stop r).
  destruct (Z.ltb_spec b a); rewrite andb_true_iff, !Z.leb_le; lia.
Qed.

Definition num_of (kind : NumKind) (seq : Z) (m : Message) : Z :=
  match kind with NumKindSeq => seq | NumKindUID => UID m end.

Lemma elem_of_matches_loop i total set kind msgs n m :
  0 <= i -> i + len msgs < 2 ^ 32 ->
  (n, m) ∈ matches_loop i total set kind msgs <->
  exists k, msgs !! k = Some m /\ n = i + Z.of_nat k + 1 /\
            numSetContains set (num_of kind n m) total = true.
Proof.
  revert i. induction msgs as [|m0 msgs IH]; intros i Hi Hlen; cbn [matches_loop].
  { split; [set_solver|]. by intros (k & Hk & _). }
  rewrite len_cons in Hlen. pose proof (len_nonneg msgs). rewrite u32_small by lia.
  assert ((n, m) ∈ matches_loop (i + 1) total set kind msgs <->
    exists k, (m0 :: msgs) !! S k = Some m /\ n = i + Z.of_nat (S k) + 1 /\
      numSetContains set (num_of kind n m) total = true) as HT.
  { rewrite IH by lia. split; intros (k & ? & -> & ?); exists k; (split_and!; [done|lia|done]). }
  assert (match kind with NumKindSeq => i + 1 | NumKindUID => UID m0 end = num_of kind (i + 1) m0)
    as -> by by destruct kind.
  destruct (numSetContains set (num_of kind (i + 1) m0) total) eqn:E.
  - rewrite elem_of_cons, HT. split.
    + intros [[= -> ->]|(k & Hk)]; [|by exists (S k)]. exists 0%nat. split_and!; [done|lia|done].
    + intros ([|k] & Hk & -> & Hc); [left|right; by exists k].
      injection Hk as ->. f_equal. lia.
  - rewrite HT. split; [by intros (k & Hk); exists (S k)|].
    intros ([|k] & Hk & -> & Hc); [|by exists k]. injection Hk as ->.
    replace (i + Z.of_nat 0 + 1) with (i + 1) in Hc by lia. congruence.
Qed.

Lemma MessageBySeqNum_lookup mb n m :
  MessageBySeqNum mb n = Some m <->
  exists k, mb_Messages mb !! k = Some m /\ n = Z.of_nat k + 1.
Proof.
  unfold MessageBySeqNum. destruct (Z.ltb_spec (n - 1) 0).
  { split; [done|]. intros (k & _ & ->). lia. }
  destruct (Z.leb_spec (len (mb_Messages mb)) (n - 1)) as [Hle|Hlt]; simpl.
  - split; [done|]. intros (k & Hk & ->). apply lookup_lt_Some in Hk. unfold len in Hle. lia.
  - split.
    + intros Hk. exists (Z.to_nat (n - 1)). split; [done|lia].
    + intros (k & Hk & ->). by replace (Z.to_nat (Z.of_nat k + 1 - 1)) with k by lia.
Qed.

Lemma MatchesMessages_spec set kind mb n m :
  len (mb_Messages mb) < 2 ^ 32 ->
  (n, m) ∈ MatchesMessages set kind mb <->
  MessageBySeqNum mb n = Some m /\
  exists r, r ∈ Ranges set /\ in_resolved (len (mb_Messages mb)) r (num_of kind n m).
Proof.
  intros Hlen. unfold MatchesMessages. pose proof (len_nonneg (mb_Messages mb)).
  rewrite elem_of_matches_loop, MessageBySeqNum_lookup, u32_small by lia.
  rewrite <- numSetContains_spec. split.
  - intros (k & Hk & -> & Hc). split; [exists k; split; [done|lia]|done].
  - intros [(k & Hk & ->) Hc]. exists k. split_and!; [done|lia|done].
Qed.

(** A sequence set selects exactly the messages whose sequence number
    lies in one of its ranges, with the asterisk standing for the last message;
    each selected message is paired with its own number. *)
Theorem matches_seq_spec (ss : SeqSet) (mb : Mailbox) (n : Z) (m : Message) :
  len (mb_Messages mb) < 2 ^ 32 ->
  (n, m) ∈ MatchesMessages (NumSeq ss) NumKindSeq mb <->
  MessageBySeqNum mb n = Some m /\
  exists r, r ∈ SeqSet_Ranges ss /\ in_resolved (len (mb_Messages mb)) r n.
Proof. intros Hlen. by rewrite MatchesMessages_spec. Qed.

(** In a UID set the asterisk is resolved to the number of messages, not
    to the highest UID: "UID FETCH *" selects the message whose UID happens to
    equal the message count. *)
Theorem matches_uid_star (mb : Mailbox) (n : Z) (m : Message) :
  len (mb_Messages mb) < 2 ^ 32 ->
  (n, m) ∈ MatchesMessages (NumUID (mkUIDSet [mkRange 0 0])) NumKindUID mb <->
  MessageBySeqNum mb n = Some m /\ UID m = len (mb_Messages mb).
Proof.
  intros Hlen. rewrite MatchesMessages_spec by done. cbn [Ranges UIDSet_Ranges num_of].
  setoid_rewrite list_elem_of_singleton. unfold in_resolved. split.
  - intros [? (r & -> & H)]. cbn in H. split; [done|lia].
  - intros [? H]. split; [done|]. eexists. split; [done|]. cbn. lia.
Qed.

End Numbers.

Lemma matches_seq_spec_witness :
  let mb := set_messages [mkMessage 5 [] time_zero 0 []; mkMessage 9 [] time_zero 0 []]
              (NewMailbox "INBOX") in
  (2, mkMessage 9 [] time_zero 0 [])
    ∈ MatchesMessages (NumSeq (mkSeqSet [mkRange 0 0])) NumKindSeq mb.
Proof.
  intros mb. apply matches_seq_spec; [by vm_compute|]. split; [by vm_compute|].
  exists (mkRange 0 0). split; [left|]. by vm_compute.
Defined.
Lemma matches_uid_star_witness :
  let m := mkMessage 9 [] time_zero 0 [] in
  let mb := set_messages [mkMessage 5 [] time_zero 0 []; m] (NewMailbox "INBOX") in
  (2, m) ∉ MatchesMessages (NumUID (mkUIDSet [mkRange 0 0])) NumKindUID mb.
Proof.
  intros m mb H. apply matches_uid_star in H as [_ H]; [|by vm_compute]. by vm_compute in H.
Defined.

(** ** Search *)
Section Search.
Context {U : Unicode} (lookupName : bytes -> Z -> option Z).

Definition matches_opt (m : Message) (seq : Z) (c : option SearchCriteria) : res bool :=
  match c with None => Ok true | Some c => matchesCriteria lookupName m seq c end.

Lemma search_loop_spec i kind c msgs results :
  0 <= i -> i + len msgs < 2 ^ 32 ->
  search_loop lookupName i kind c msgs = Ok results ->
  results `sublist_of` imap (fun k m => num_of kind (i + Z.of_nat k + 1) m) msgs /\
  forall x, x ∈ results <-> exists k m, msgs !! k = Some m /\
    x = num_of kind (i + Z.of_nat k + 1) m /\ matches_opt m (i + Z.of_nat k + 1) c = Ok true.
Proof.
  revert i results. induction msgs as [|m0 msgs IH]; intros i results Hi Hlen; cbn [search_loop].
  { intros [= <-]. split; [constructor|]. intros x. split; [set_solver|]. by intros (k & m & Hk & _). }
  rewrite len_cons in Hlen. pose proof (len_nonneg msgs). rewrite u32_small by lia.
  fold (matches_opt m0 (i + 1) c). rewrite res_bind_Ok. intros (b & Hb & H').
  apply res_bind_Ok in H' as (rs & Hrs & [= <-]).
  apply IH in Hrs as [Hsub Hin]; [|lia..]. rewrite imap_cons.
  assert (forall k : nat, i + 1 + Z.of_nat k + 1 = i + Z.of_nat (S k) + 1) as Hk by lia.
  replace (i + Z.of_nat 0 + 1) with (i + 1) by lia.
  assert (imap (fun k m => num_of kind (i + 1 + Z.of_nat k + 1) m) msgs
    = imap ((fun k m => num_of kind (i + Z.of_nat k + 1) m) ∘ S) msgs) as HE
    by (apply imap_ext; intros; simpl; f_equal; lia).
  rewrite HE in Hsub.
  assert (match kind with NumKindSeq => i + 1 | NumKindUID => UID m0 end = num_of kind (i + 1) m0)
    as -> by by destruct kind.
  split.
  - destruct b; by constructor.
  - intros x. transitivity ((b = true /\ x = num_of kind (i + 1) m0) \/ x ∈ rs).
    { destruct b; [rewrite elem_of_cons|]; naive_solver. }
    rewrite Hin. split.
    + intros [[-> ->]|(k & m & Hm & -> & Hc)].
      * exists 0%nat, m0. by replace (i + Z.of_nat 0 + 1) with (i + 1) by lia.
      * exists (S k), m. rewrite <- Hk. done.
    + intros ([|k] & m & Hm & -> & Hc).
      * left. injection Hm as ->. replace (i + Z.of_nat 0 + 1) with (i + 1) in * by lia.
        split; [congruence|done].
      * right. exists k, m. rewrite Hk. done.
Qed.

Lemma ascending_seqs {A} i (msgs : list A) : ascending (imap (fun k _ => i + Z.of_nat k + 1) msgs).
Proof.
  revert i. induction msgs as [|m msgs IH]; intros i; [done|]. rewrite imap_cons.
  assert (imap ((fun k _ => i + Z.of_nat k + 1) ∘ S) msgs
    = imap (fun k _ => (i + 1) + Z.of_nat k + 1) msgs) as -> by (apply imap_ext; intros; simpl; lia).
  split; [|apply IH]. apply list.Forall_forall. intros x Hx.
  apply elem_of_lookup_imap in Hx as (k & ? & -> & _). lia.
Qed.

Lemma imap_fmap_const {A B} (f : A -> B) l : imap (fun _ => f) l = f <$> l.
Proof. induction l as [|x l IH]; [done|]. rewrite imap_cons. cbn [fmap list_fmap]. f_equal. exact IH. Qed.

(** A search returns, in ascending order and without repetition, exactly
    the sequence numbers (or the UIDs) of the messages that match the
    criteria. *)
Theorem search_spec (kind : NumKind) (c : option SearchCriteria) (mb : Mailbox) (results : list Z) :
  mailbox_wf mb -> len (mb_Messages mb) < 2 ^ 32 ->
  SearchMessages lookupName kind c mb = Ok results ->
  ascending results /\
  forall x, x ∈ results <->
    exists n m, MessageBySeqNum mb n = Some m /\ x = num_of kind n m /\
                matches_opt m n c = Ok true.
Proof.
  intros Hwf Hlen Hs. apply search_loop_spec in Hs as [Hsub Hin]; [|lia..]. split.
  - eapply ascending_sublist; [exact Hsub|]. destruct kind; cbn [num_of].
    + apply ascending_seqs.
    + rewrite imap_fmap_const. apply Hwf.
  - intros x. rewrite Hin. setoid_rewrite MessageBySeqNum_lookup. split.
    + intros (k & m & Hk & -> & Hc). exists (Z.of_nat k + 1), m. split; [by exists k|].
      by replace (0 + Z.of_nat k + 1) with (Z.of_nat k + 1) in * by lia.
    + intros (n & m & (k & Hk & ->) & -> & Hc). exists k, m.
      by replace (0 + Z.of_nat k + 1) with (Z.of_nat k + 1) by lia.
Qed.

Lemma match_nots_app {A} (f : A -> res bool) l l' b :
  match_nots f l = Ok b ->
  match_nots f (l ++ l') = if b then match_nots f l' else Ok false.
Proof.
  revert b. induction l as [|x l IH]; intros b; cbn [match_nots app]; [by intros [= <-]|].
  rewrite res_bind_Ok. intros (bx & -> & H). cbn [mbind res_bind].
  destruct bx; cbn in *; [by injection H as <-|by apply IH].
Qed.
Lemma match_ors_app {A} (f : A -> res bool) l l' b :
  match_ors f l = Ok b ->
  match_ors f (l ++ l') = if b then match_ors f l' else Ok false.
Proof.
  revert b. induction l as [|[p q] l IH]; intros b; cbn [match_ors app]; [by intros [= <-]|].
  rewrite res_bind_Ok. intros (bp & -> & H). cbn [mbind res_bind].
  apply res_bind_Ok in H as (bq & -> & H). cbn [mbind res_bind].
  destruct bq; cbn in *; [by apply IH|by injection H as <-].
Qed.

(** Criteria with one more pair of alternatives. *)
Definition with_or (d e c : SearchCriteria) : SearchCriteria :=
  mkCriteria (sc_SeqNum c) (sc_UID c) (sc_Since c) (sc_Before c) (sc_SentSince c) (sc_SentBefore c)
    (sc_SentOn c) (sc_On c) (sc_Header c) (sc_Body c) (sc_Text c) (sc_Larger c) (sc_Smaller c)
    (sc_Flag c) (sc_NotFlag c) (sc_Or c ++ [(d, e)]) (sc_Not c) (sc_Ext c).

(** NOT and OR mean what they say: adding NOT d to criteria
    that do not panic keeps the messages that do not match d, adding OR d e
    keeps those that match d or e, for every message and every d and e that do
    not panic on it. *)
Theorem search_boolean (m : Message) (n : Z) (c d e : SearchCriteria) (bc bd be : bool) :
  matchesCriteria lookupName m n c = Ok bc ->
  matchesCriteria lookupName m n d = Ok bd ->
  matchesCriteria lookupName m n e = Ok be ->
  matchesCriteria lookupName m n (with_not d c) = Ok (bc && negb bd) /\
  matchesCriteria lookupName m n (with_or d e c) = Ok (bc && (bd || be)).
Proof.
  intros Hc Hd He.
  assert (forall c : SearchCriteria, matchesCriteria lookupName m n c =
    keys ← matches_keys lookupName m n c;
    requires keys (nots ← match_nots (matchesCriteria lookupName m n) (sc_Not c);
    requires nots (match_ors (matchesCriteria lookupName m n) (sc_Or c)))) as Heq by (by intros []).
  rewrite Heq in Hc. rewrite !Heq.
  assert (matches_keys lookupName m n (with_not d c) = matches_keys lookupName m n c /\
    sc_Not (with_not d c) = sc_Not c ++ [d] /\ sc_Or (with_not d c) = sc_Or c) as (-> & -> & ->)
    by (by destruct c).
  change (matches_keys lookupName m n (with_or d e c)) with (matches_keys lookupName m n c).
  cbn [with_or sc_Not sc_Or]. apply res_bind_Ok in Hc as (k & -> & Hc).
  cbn [mbind res_bind]. destruct k; cbn [requires] in *; [|by injection Hc as <-].
  apply res_bind_Ok in Hc as (nb & Hn & Hc).
  rewrite (match_nots_app _ _ _ _ Hn), Hn. cbn [match_nots]. rewrite Hd.
  destruct nb; cbn in Hc |- *; [|by injection Hc as <-].
  rewrite (match_ors_app _ _ _ _ Hc). cbn [match_ors]. rewrite Hd, He.
  destruct bd, bc; cbn; rewrite ?Hc; try done; by destruct be.
Qed.

End Search.

Definition demo_msgs := [mkMessage 3 [FlagSeen] time_zero 0 []; mkMessage 7 [] time_zero 0 [];
             mkMessage 8 ["\SEEN" : bytes] time_zero 0 []].
Definition demo_mb := mkMailbox "INBOX" demo_msgs [] [] 9 1 true.
Definition seen := mkCriteria None None time_zero time_zero time_zero time_zero time_zero time_zero
    [] [] [] 0 0 [FlagSeen] [] [] [] search_ext0.

Lemma search_spec_witness :
  let U := basic_unicode in
  SearchMessages (fun _ _ => None) NumKindUID (Some seen) demo_mb = Ok [3; 8] /\ ascending [3; 8].
Proof.
  intros U. assert (SearchMessages (fun _ _ => None) NumKindUID (Some seen) demo_mb = Ok [3; 8]) as H
    by by vm_compute.
  split; [exact H|]. apply (search_spec (fun _ _ => None) NumKindUID (Some seen) demo_mb [3; 8]);
    [|by vm_compute|exact H].
  split; [by vm_compute|..]; repeat constructor; by vm_compute.
Defined.

Lemma search_boolean_witness :
  let U := basic_unicode in
  let m := mkMessage 7 [] time_zero 0 [] in
  matchesCriteria (fun _ _ => None) m 2 (with_not seen criteria0) = Ok true.
Proof.
  intros U m.
  exact (proj1 (search_boolean (fun _ _ => None) m 2 criteria0 seen seen true false false
    eq_refl eq_refl eq_refl)).
Defined.

(** ** Names *)

(** [C36] The pattern matcher of LIST decides the declarative meaning of
    patterns: a star matches any text, a percent sign any text without the
    delimiter, every other byte itself. *)
Theorem match_pattern_spec (name pattern : bytes) (delim : ascii) :
  matchPattern name pattern delim = true <-> glob delim pattern name.
Proof. apply matchPattern_glob. Qed.

(** ** Appending *)

(** Appending to a well-formed mailbox puts the message last, gives it
    the next UID, which no message has, stores body and flags as given and the
    date as given unless it is the zero time, and keeps the mailbox well
    formed, as long as UIDs are left. *)
Theorem append_spec (now date : Time) (body : bytes) (flags : list bytes) (mb : Mailbox) :
  mailbox_wf mb -> mb_UIDNext mb + 1 < 2 ^ 32 ->
  let (msg, mb') := Append now body flags date mb in
  mailbox_wf mb' /\ mb_Messages mb' = mb_Messages mb ++ [msg] /\
  UID msg = mb_UIDNext mb /\ mb_UIDNext mb' = mb_UIDNext mb + 1 /\
  UID msg ∉ UID <$> mb_Messages mb /\
  Body msg = body /\ Flags msg = flags /\
  InternalDate msg = (if IsZero date then now else date).
Proof.
  intros Hwf Hn. pose proof (mailbox_wf_append now body flags date mb Hn Hwf) as Hwf'.
  unfold Append in *. cbn [snd] in Hwf'. destruct Hwf as [Hnext _ Huid _].
  split_and!; try done.
  - simpl. by rewrite u32_small by lia.
  - simpl. intros (m & Hm & Hin)%list_elem_of_fmap. rewrite list.Forall_forall in Huid.
    specialize (Huid m Hin). lia.
Qed.
Lemma append_spec_witness :
  let (msg, mb') := Append time_zero "hello" [FlagSeen] time_zero (NewMailbox "INBOX") in
  mailbox_wf mb' /\ UID msg = 1.
Proof.
  pose proof (append_spec time_zero time_zero "hello" [FlagSeen] (NewMailbox "INBOX")
    (mailbox_wf_new "INBOX") ltac:(by vm_compute)) as H.
  destruct (Append time_zero "hello" [FlagSeen] time_zero (NewMailbox "INBOX")) as [msg mb'].
  destruct H as (H1 & _ & H2 & _). split; [exact H1|exact H2].
Defined.
