(* ===== verification/MemStore.v ===== *)
(** * The store of the in-memory backend (server/memserver/user.go, server.go)

    Mailboxes and users' mailbox tables are Go objects that sessions share by
    pointer, so the store is a heap: renaming keeps the object, two names can
    lead to one object, and a session keeps the object it selected.  The clock
    and the order of map iteration are oracles read in sequence. *)

From S2P Require Import Prelude Utf8 GoStrings GoTime NumSet Imap Message Mailbox.

(** ** Data *)
Abbreviation loc := nat.

(** A user's table: mailbox name to mailbox object. *)
Abbreviation UserData := (gmap bytes loc).

Record Store := mkStore {
  boxes : gmap loc Mailbox;              (* mailbox objects *)
  tables : gmap loc UserData;            (* UserData objects *)
  fresh : loc;                           (* the next unused location *)
  users : gmap bytes bytes;              (* MemServer.users *)
  userData : gmap bytes loc;             (* MemServer.userData *)
  ticks : nat;                           (* oracle readings so far *)
}.

Definition upd_box (l : loc) (mb : Mailbox) (st : Store) : Store :=
  mkStore (<[l := mb]> (boxes st)) (tables st) (fresh st) (users st) (userData st) (ticks st).
Definition upd_table (l : loc) (u : UserData) (st : Store) : Store :=
  mkStore (boxes st) (<[l := u]> (tables st)) (fresh st) (users st) (userData st) (ticks st).
Definition tick (st : Store) : Store :=
  mkStore (boxes st) (tables st) (fresh st) (users st) (userData st) (S (ticks st)).

(** New objects. *)
Definition alloc_box (mb : Mailbox) (st : Store) : loc * Store :=
  (fresh st, mkStore (<[fresh st := mb]> (boxes st)) (tables st) (S (fresh st))
               (users st) (userData st) (ticks st)).
Definition alloc_table (u : UserData) (st : Store) : loc * Store :=
  (fresh st, mkStore (boxes st) (<[fresh st := u]> (tables st)) (S (fresh st))
               (users st) (userData st) (ticks st)).

(** ** UserData *)
Definition INBOX : bytes := "INBOX".

Definition normalizeINBOX (name : bytes) : bytes :=
  if (length name =? 5)%nat then
    let upper := encode_runes ((fun c => if in_range 97 122 c then c - 32 else c) <$> runes name) in
    if upper =s INBOX then INBOX else name
  else name.

Definition NewUserData (st : Store) : loc * Store :=
  let '(inbox, st) := alloc_box (set_subscribed true (NewMailbox INBOX)) st in
  alloc_table {[ INBOX := inbox ]} st.

Definition getMailboxLocked (u : UserData) (name : bytes) : option loc :=
  match u !! name with
  | Some l => Some l
  | None => if normalizeINBOX name =s INBOX then u !! INBOX else None
  end.
Definition GetMailbox : UserData -> bytes -> option loc := getMailboxLocked.

Definition table (ul : loc) (st : Store) : UserData := default ∅ (tables st !! ul).

Definition CreateMailbox (ul : loc) (name : bytes) (st : Store) : option error * Store :=
  match getMailboxLocked (table ul st) name with
  | Some _ => (Some ErrMailboxAlreadyExists, st)
  | None =>
    let '(l, st) := alloc_box (NewMailbox name) st in
    (None, upd_table ul (<[name := l]> (table ul st)) st)
  end.

Definition DeleteMailbox (ul : loc) (name : bytes) (st : Store) : option error * Store :=
  if normalizeINBOX name =s INBOX then (Some (MemError "cannot delete INBOX"), st)
  else
    match getMailboxLocked (table ul st) name with
    | None => (Some ErrNoSuchMailbox, st)
    | Some _ => (None, upd_table ul (delete name (table ul st)) st)
    end.

Definition RenameMailbox (ul : loc) (oldName newName : bytes) (st : Store) : option error * Store :=
  match getMailboxLocked (table ul st) oldName with
  | None => (Some ErrNoSuchMailbox, st)
  | Some l =>
    match getMailboxLocked (table ul st) newName with
    | Some _ => (Some ErrMailboxAlreadyExists, st)
    | None =>
      let u := delete oldName (table ul st) in
      let st := match boxes st !! l with Some mb => upd_box l (set_name newName mb) st | None => st end in
      (None, upd_table ul (<[newName := l]> u) st)
    end
  end.

(** Map iteration: an order that only has to be a permutation. *)
Section Order.
Context (ord : nat -> list bytes -> list bytes).
Definition MailboxNames (ul : loc) (st : Store) : list bytes * Store :=
  (ord (ticks st) (map_to_list (table ul st)).*1, tick st).
End Order.

(** ** MemServer *)
Definition New : Store := mkStore ∅ ∅ 0 ∅ ∅ 0.

Definition AddUser (username password : bytes) (st : Store) : Store :=
  let st := mkStore (boxes st) (tables st) (fresh st) (<[username := password]> (users st))
              (userData st) (ticks st) in
  match userData st !! username with
  | Some _ => st
  | None =>
    let '(ul, st) := NewUserData st in
    mkStore (boxes st) (tables st) (fresh st) (users st) (<[username := ul]> (userData st)) (ticks st)
  end.

Definition RemoveUser (username : bytes) (st : Store) : Store :=
  mkStore (boxes st) (tables st) (fresh st) (delete username (users st))
    (delete username (userData st)) (ticks st).

Definition GetUserData (username : bytes) (st : Store) : option loc := userData st !! username.
