(* ===== verification/MemSession.v ===== *)
(** * Sessions of the in-memory backend (server/memserver/session.go)

    One session's operations over the shared store.  An operation returns its
    outcome, the new store and session, and the calls it made on the response
    writer it was given. *)

From S2P Require Import Prelude Utf8 GoStrings GoTime NumSet Imap Message Mailbox MemStore.

Record Session := mkSession {
  s_userData : option loc;
  selectedMailbox : option loc;
  selectedReadOnly : bool;
}.

Definition session0 : Session := mkSession None None false.

(** The store and the session an operation runs on. *)
Record Mem := mkMem { m_store : Store; m_sess : Session }.

Definition Delimiter : ascii := "/".

(** Operations without and with writer calls. *)
Abbreviation Op := (St Mem).
Definition Emit (W A : Type) := Mem -> (res A * Mem) * list W.

Section Ops.
Context {U : Unicode} (lookupName : bytes -> Z -> option Z).
Context (clock : nat -> Time) (ord : nat -> list bytes -> list bytes).

Definition not_authenticated : error := MemError "not authenticated".
Definition no_mailbox : error := MemError "no mailbox selected".

Definition set_sess (s : Session) (m : Mem) : Mem := mkMem (m_store m) s.
Definition set_store (st : Store) (m : Mem) : Mem := mkMem st (m_sess m).

(** [if s.userData == nil { return ... }] *)
Definition with_user {A} (k : loc -> Op A) : Op A := fun m =>
  match s_userData (m_sess m) with
  | None => (Err not_authenticated, m)
  | Some ul => k ul m
  end.
(** [s.userData.GetMailbox(mailbox)] with its nil check. *)
Definition with_mailbox {A} (mailbox : bytes) (k : loc -> Mailbox -> Op A) : Op A :=
  with_user (fun ul m =>
    match GetMailbox (table ul (m_store m)) mailbox with
    | None => (Err ErrNoSuchMailbox, m)
    | Some l =>
      match boxes (m_store m) !! l with
      | Some mb => k l mb m
      | None => (Panic, m)
      end
    end).
(** [if s.selectedMailbox == nil { return ... }] *)
Definition with_selected {A} (k : loc -> Mailbox -> Op A) : Op A := fun m =>
  match selectedMailbox (m_sess m) with
  | None => (Err no_mailbox, m)
  | Some l =>
    match boxes (m_store m) !! l with
    | Some mb => k l mb m
    | None => (Panic, m)
    end
  end.
Definition put_box (l : loc) (mb : Mailbox) : Op unit := fun m =>
  (Ok tt, set_store (upd_box l mb (m_store m)) m).
Definition lift_store (f : Store -> option error * Store) : Op unit := fun m =>
  let '(e, st) := f (m_store m) in
  (match e with Some e => Err e | None => Ok tt end, set_store st m).
Definition now : Op Time := fun m =>
  (Ok (clock (ticks (m_store m))), set_store (tick (m_store m)) m).

(** ** The session *)
Definition Close : Op unit := fun m =>
  (Ok tt, set_sess (mkSession None None (selectedReadOnly (m_sess m))) m).

Definition Login (username password : bytes) : Op unit := fun m =>
  match users (m_store m) !! username with
  | Some expected =>
    if expected =s password then
      (Ok tt, set_sess (mkSession (userData (m_store m) !! username)
                 (selectedMailbox (m_sess m)) (selectedReadOnly (m_sess m))) m)
    else (Err (MemError "invalid credentials"), m)
  | None => (Err (MemError "invalid credentials"), m)
  end.

Definition Select (mailbox : bytes) (options : option SelectOptions) : Op SelectData :=
  with_mailbox mailbox (fun l mb m =>
    let readOnly := match options with Some o => sl_ReadOnly o | None => false end in
    (Ok (mailbox_SelectData readOnly mb),
     set_sess (mkSession (s_userData (m_sess m)) (Some l) readOnly) m)).

Definition Create (mailbox : bytes) : Op unit :=
  with_user (fun ul => lift_store (CreateMailbox ul mailbox)).

Definition Delete (mailbox : bytes) : Op unit :=
  with_user (fun ul m =>
    let s := m_sess m in
    let m :=
      match selectedMailbox s ≫= fun l => boxes (m_store m) !! l with
      | Some mb => if mb_Name mb =s mailbox
                   then set_sess (mkSession (s_userData s) None false) m else m
      | None => m
      end in
    lift_store (DeleteMailbox ul mailbox) m).

Definition Rename (mailbox newName : bytes) : Op unit :=
  with_user (fun ul => lift_store (RenameMailbox ul mailbox newName)).

Definition Subscribe (mailbox : bytes) : Op unit :=
  with_mailbox mailbox (fun l mb => put_box l (set_subscribed true mb)).
Definition Unsubscribe (mailbox : bytes) : Op unit :=
  with_mailbox mailbox (fun l mb => put_box l (set_subscribed false mb)).

(** ** LIST *)
Definition list_entry (options : option ListOptions) (ref : bytes) (patterns allNames : list bytes)
    (name : bytes) (mb : Mailbox) : option ListData :=
  let opt (f : ListOptions -> bool) := match options with Some o => f o | None => false end in
  if negb (existsb (fun pattern => matchPattern name (ref ++ pattern) Delimiter) patterns) then None
  else if opt lo_SelectSubscribed && negb (mb_Subscribed mb) then None
  else
    let attrs :=
      (if opt lo_ReturnSubscribed && mb_Subscribed mb then [MailboxAttrSubscribed] else [])
      ++ (if opt lo_ReturnChildren
          then [if HasChildren name allNames Delimiter
                then MailboxAttrHasChildren else MailboxAttrHasNoChildren]
          else []) in
    Some (list_data attrs (bval Delimiter) name).

Definition List_ (ref : bytes) (patterns : list bytes) (options : option ListOptions)
    : Emit ListData unit := fun m =>
  match s_userData (m_sess m) with
  | None => ((Err not_authenticated, m), [])
  | Some ul =>
    if (length patterns =? 1)%nat && forallb (fun p => p =s []) patterns then
      ((Ok tt, m), [list_data [] (bval Delimiter) []])
    else
      let '(allNames, st) := MailboxNames ord ul (m_store m) in
      let '(names, st) := MailboxNames ord ul st in
      ((Ok tt, set_store st m),
       omap (fun name => l ← table ul st !! name; mb ← boxes st !! l;
               list_entry options ref patterns allNames name mb) names)
  end.

Definition Status (mailbox : bytes) (options : StatusOptions) : Op StatusData :=
  with_mailbox mailbox (fun l mb => mret (mailbox_StatusData mailbox options mb)).

(** [body] is what reading the literal to its end gives; the boolean tells
    whether the operation got as far as reading it. *)
Definition Append_ (mailbox : bytes) (body : bytes) (options : option AppendOptions) (m : Mem)
    : (res AppendData * Mem) * bool :=
  let found := match s_userData (m_sess m) with
               | Some ul => bool_decide (is_Some (GetMailbox (table ul (m_store m)) mailbox))
               | None => false
               end in
  (with_mailbox mailbox (fun l mb =>
     let flags := match options with Some o => ao_Flags o | None => [] end in
     let date := match options with Some o => ao_InternalDate o | None => time_zero end in
     t ← (if IsZero date then now else mret time_zero);
     let '(msg, mb) := Append t body flags date mb in
     _ ← put_box l mb;
     mret (mkAppendData (mb_UIDValidity mb) (UID msg))) m, found).

Definition Poll : Op unit := mret tt.

Definition Unselect : Op unit := fun m =>
  (Ok tt, set_sess (mkSession (s_userData (m_sess m)) None false) m).

Definition Expunge_ (uids : option UIDSet) : Emit Z unit := fun m =>
  match selectedMailbox (m_sess m) with
  | None => ((Err no_mailbox, m), [])
  | Some l =>
    match boxes (m_store m) !! l with
    | None => ((Panic, m), [])
    | Some mb =>
      let '(expunged, mb) := Expunge uids mb in
      ((Ok tt, set_store (upd_box l mb (m_store m)) m), expunged)
    end
  end.

(** ** SEARCH *)
Definition search_data (kind : NumKind) (options : option SearchOptions) (results : list Z) : SearchData :=
  let uids := match kind with NumKindUID => results | NumKindSeq => [] end in
  let seqs := match kind with NumKindUID => [] | NumKindSeq => results end in
  let on (f : SearchOptions -> bool) := match options with Some o => f o | None => false end in
  match results with
  | [] => mkSearchData seqs uids 0 0 None 0 0 search_data_ext0
  | r :: rest =>
    mkSearchData seqs uids
      (if on so_ReturnMin then foldl (fun acc x => if x <? acc then x else acc) r rest else 0)
      (if on so_ReturnMax then foldl (fun acc x => if acc <? x then x else acc) r rest else 0)
      (if on so_ReturnAll then Some (SeqSet_AddNum (mkSeqSet []) results) else None)
      (if on so_ReturnCount then u32 (len results) else 0) 0 search_data_ext0
  end.
Definition Search (kind : NumKind) (criteria : option SearchCriteria) (options : option SearchOptions)
    : Op SearchData :=
  with_selected (fun l mb m =>
    (search_data kind options <$> SearchMessages lookupName kind criteria mb, m)).

(** ** FETCH *)
Definition filter_line (fieldSet : list bytes) (not_ : bool) (line : bytes) (include : bool) : bool :=
  match IndexByte line ":" with
  | None => include
  | Some colonIdx =>
    let fieldName := ToLower (TrimSpace (take colonIdx line)) in
    let inSet := bool_decide (fieldName ∈ fieldSet) in
    if not_ then negb inSet else inSet
  end.
Fixpoint filter_lines (fieldSet : list bytes) (not_ include : bool) (lines : list bytes) : bytes :=
  match lines with
  | [] => []
  | [] :: _ => []
  | (c :: _) as line :: rest =>
    if (c =c " ") || (c =c TAB) then
      (if include then line ++ crlf else []) ++ filter_lines fieldSet not_ include rest
    else
      match IndexByte line ":" with
      | None => filter_lines fieldSet not_ include rest
      | Some _ =>
        let include := filter_line fieldSet not_ line include in
        (if include then line ++ crlf else []) ++ filter_lines fieldSet not_ include rest
      end
  end.
Definition filterHeaders (headerBytes : bytes) (fields : list bytes) (not_ : bool) : bytes :=
  filter_lines (ToLower <$> fields) not_ false (Split headerBytes crlf) ++ crlf.

(** A slice expression out of bounds panics; the end of the range is computed
    in 64 bits. *)
Definition fetch_partial (p : SectionPartial) (data : bytes) : res bytes :=
  let offset := Offset p in
  if len data <=? offset then Ok []
  else
    let stop := i64 (offset + Count p) in
    let stop := if len data <? stop then len data else stop in
    if (offset <? 0) || (stop <? offset) then Panic
    else Ok (take (Z.to_nat (stop - offset)) (drop (Z.to_nat offset) data)).
Definition section_data (msg : Message) (section : FetchItemBodySection) : bytes :=
  let spec := ToUpper (Specifier section) in
  if spec =s "HEADER" then HeaderBytes msg
  else if spec =s "HEADER.FIELDS" then filterHeaders (HeaderBytes msg) (Fields section) false
  else if spec =s "HEADER.FIELDS.NOT" then filterHeaders (HeaderBytes msg) (Fields section) true
  else if spec =s "TEXT" then TextBytes msg
  else Body msg.
Definition fetchSection (msg : Message) (section : FetchItemBodySection) : res bytes :=
  let data := section_data msg section in
  match Partial section with
  | Some p => fetch_partial p data
  | None => Ok data
  end.

(** The sections of one message; fetching one marks the message as seen. *)
Fixpoint fetch_sections (readOnly : bool) (msg : Message) (sections : list FetchItemBodySection)
    : res (list (FetchItemBodySection * bytes)) * Message :=
  match sections with
  | [] => (Ok [], msg)
  | section :: rest =>
    match fetchSection msg section with
    | Ok data =>
      let msg := if negb (Peek section) && negb readOnly then SetFlag FlagSeen msg else msg in
      let '(r, msg) := fetch_sections readOnly msg rest in
      ((fun l => (section, data) :: l) <$> r, msg)
    | Err e => (Err e, msg)
    | Panic => (Panic, msg)
    | Hang => (Hang, msg)
    end
  end.

Definition fetch_one (o : FetchOptions) (readOnly : bool) (seqNum : Z) (msg : Message)
    : res FetchMessageData * Message :=
  match (if fo_Envelope o then Some <$> ParseEnvelope lookupName msg else Ok None) with
  | Ok env =>
    let '(r, msg') := fetch_sections readOnly msg (fo_BodySection o) in
    ((fun secs => mkFetchData seqNum env
        (if fo_Flags o then Some (CopyFlags msg) else None)
        (if fo_InternalDate o then InternalDate msg else time_zero)
        (if fo_RFC822Size o then Size msg else 0)
        (if fo_UID o then UID msg else 0) secs fetch_data_ext0) <$> r, msg')
  | Err e => (Err e, msg)
  | Panic => (Panic, msg)
  | Hang => (Hang, msg)
  end.

(** The message with sequence number [n] is replaced. *)
Definition put_msg (n : Z) (msg : Message) (msgs : list Message) : list Message :=
  <[Z.to_nat (n - 1) := msg]> msgs.

Fixpoint fetch_loop (o : FetchOptions) (readOnly : bool) (matches : list (Z * Message))
    (msgs : list Message) : (res unit * list Message) * list FetchMessageData :=
  match matches with
  | [] => ((Ok tt, msgs), [])
  | (n, msg) :: rest =>
    let '(r, msg') := fetch_one o readOnly n msg in
    let msgs := put_msg n msg' msgs in
    match r with
    | Ok data =>
      let '(out, calls) := fetch_loop o readOnly rest msgs in (out, data :: calls)
    | Err e => ((Err e, msgs), [])
    | Panic => ((Panic, msgs), [])
    | Hang => ((Hang, msgs), [])
    end
  end.

Definition kind_of (numSet : NumSet) : NumKind :=
  match numSet with NumUID _ => NumKindUID | NumSeq _ => NumKindSeq end.

Definition Fetch (numSet : NumSet) (options : FetchOptions) : Emit FetchMessageData unit := fun m =>
  match selectedMailbox (m_sess m) with
  | None => ((Err no_mailbox, m), [])
  | Some l =>
    match boxes (m_store m) !! l with
    | None => ((Panic, m), [])
    | Some mb =>
      let matches := MatchesMessages numSet (kind_of numSet) mb in
      let '((r, msgs), calls) :=
        fetch_loop options (selectedReadOnly (m_sess m)) matches (mb_Messages mb) in
      ((r, set_store (upd_box l (set_messages msgs mb) (m_store m)) m), calls)
    end
  end.

(** ** STORE *)
Definition store_one (flags : StoreFlags) (msg : Message) : Message :=
  match sf_Action flags with
  | StoreFlagsSet => set_flags (sf_Flags flags) msg
  | StoreFlagsAdd => foldl (fun m f => SetFlag f m) msg (sf_Flags flags)
  | StoreFlagsDel => foldl (fun m f => RemoveFlag f m) msg (sf_Flags flags)
  end.
Definition store_loop (flags : StoreFlags) (matches : list (Z * Message)) (msgs : list Message)
    : list Message :=
  foldl (fun msgs '(n, msg) => put_msg n (store_one flags msg) msgs) msgs matches.

(** The writer is called with a sequence number and the new flags. *)
Definition Store_ (numSet : NumSet) (flags : StoreFlags) : Emit (Z * list bytes) unit := fun m =>
  match selectedMailbox (m_sess m) with
  | None => ((Err no_mailbox, m), [])
  | Some l =>
    if selectedReadOnly (m_sess m) then ((Err (MemError "mailbox is read-only"), m), [])
    else
      match boxes (m_store m) !! l with
      | None => ((Panic, m), [])
      | Some mb =>
        let matches := MatchesMessages numSet (kind_of numSet) mb in
        ((Ok tt, set_store (upd_box l (set_messages (store_loop flags matches (mb_Messages mb)) mb)
                   (m_store m)) m),
         if sf_Silent flags then []
         else (fun '(n, msg) => (n, CopyFlags (store_one flags msg))) <$> matches)
      end
  end.

(** ** COPY *)
Fixpoint copy_loop (dest : loc) (matches : list (Z * Message)) (src dst : list Z)
    : Op (list Z * list Z) :=
  match matches with
  | [] => mret (src, dst)
  | (_, msg) :: rest =>
    t ← (if IsZero (InternalDate msg) then now else mret time_zero);
    m ← st_get;
    match boxes (m_store m) !! dest with
    | None => st_panic
    | Some mb =>
      let '(newUID, mb) := CopyMessageTo t msg mb in
      _ ← put_box dest mb;
      copy_loop dest rest (src ++ [UID msg]) (dst ++ [newUID])
    end
  end.

(** A session without user data would dereference a nil pointer. *)
Definition Copy (numSet : NumSet) (dest : bytes) : Op CopyData :=
  with_selected (fun l mb m =>
    match s_userData (m_sess m) with
    | None => (Panic, m)
    | Some ul =>
      match GetMailbox (table ul (m_store m)) dest with
      | None => (Err ErrNoSuchMailbox, m)
      | Some dl =>
        match boxes (m_store m) !! dl with
        | None => (Panic, m)
        | Some dmb =>
          let matches := MatchesMessages numSet (kind_of numSet) mb in
          (uids ← copy_loop dl matches [] [];
           mret (mkCopyData (mb_UIDValidity dmb)
                   (UIDSet_AddNum (mkUIDSet []) uids.1)
                   (UIDSet_AddNum (mkUIDSet []) uids.2))) m
        end
      end
    end).

(** ** Any operation

    What a client can make a session do, and its effect. *)
Inductive sess_op :=
| OpClose
| OpLogin (username password : bytes)
| OpSelect (mailbox : bytes) (options : option SelectOptions)
| OpCreate (mailbox : bytes)
| OpDelete (mailbox : bytes)
| OpRename (mailbox newName : bytes)
| OpSubscribe (mailbox : bytes)
| OpUnsubscribe (mailbox : bytes)
| OpList (ref : bytes) (patterns : list bytes) (options : option ListOptions)
| OpStatus (mailbox : bytes) (options : StatusOptions)
| OpAppend (mailbox body : bytes) (options : option AppendOptions)
| OpPoll
| OpUnselect
| OpExpunge (uids : option UIDSet)
| OpSearch (kind : NumKind) (criteria : option SearchCriteria) (options : option SearchOptions)
| OpFetch (numSet : NumSet) (options : FetchOptions)
| OpStore (numSet : NumSet) (flags : StoreFlags)
| OpCopy (numSet : NumSet) (dest : bytes).

Definition discard {A} (r : res A * Mem) : res unit * Mem := ((fun _ => tt) <$> r.1, r.2).

Definition run_op (op : sess_op) (m : Mem) : res unit * Mem :=
  match op with
  | OpClose => Close m
  | OpLogin u p => Login u p m
  | OpSelect mb o => discard (Select mb o m)
  | OpCreate mb => Create mb m
  | OpDelete mb => Delete mb m
  | OpRename mb n => Rename mb n m
  | OpSubscribe mb => Subscribe mb m
  | OpUnsubscribe mb => Unsubscribe mb m
  | OpList r ps o => (List_ r ps o m).1
  | OpStatus mb o => discard (Status mb o m)
  | OpAppend mb b o => discard (Append_ mb b o m).1
  | OpPoll => Poll m
  | OpUnselect => Unselect m
  | OpExpunge u => (Expunge_ u m).1
  | OpSearch k c o => discard (Search k c o m)
  | OpFetch ns o => (Fetch ns o m).1
  | OpStore ns f => (Store_ ns f m).1
  | OpCopy ns d => discard (Copy ns d m)
  end.

End Ops.
