(* ===== verification/MemFacts.v ===== *)
(** * Properties of the in-memory backend

    The effects an operation can have on the shared store, the invariant of
    store and sessions over every interleaving of sessions, and what one user's
    session can do to another user's mail. *)

From S2P Require Import Prelude Utf8 GoStrings GoTime NumSet Imap Message Mailbox MailboxFacts.
From S2P Require Import MemStore MemSession.

(** ** Effects *)

(** Messages that only differ in their flags. *)
Definition same_but_flags (m m' : Message) : Prop :=
  UID m = UID m' /\ InternalDate m = InternalDate m' /\ Size m = Size m' /\ Body m = Body m'.

Section Effects.
Context {U : Unicode}.

(** How one operation may change one mailbox. *)
Inductive box_step : Mailbox -> Mailbox -> Prop :=
| bs_subscribe mb b : box_step mb (set_subscribed b mb)
| bs_append mb now body flags date :
    mb_UIDNext mb + 1 < 2 ^ 32 -> box_step mb (Append now body flags date mb).2
| bs_expunge mb uids : box_step mb (Expunge uids mb).2
| bs_flags mb msgs :
    Forall2 same_but_flags (mb_Messages mb) msgs -> box_step mb (set_messages msgs mb)
| bs_name mb n : box_step mb (set_name n mb).

Lemma box_step_wf mb mb' : mailbox_wf mb -> box_step mb mb' -> mailbox_wf mb'.
Proof.
  intros Hwf Hs. destruct Hs as [mb b|mb t body flags date Hn|mb uids|mb msgs HF|mb n].
  - by destruct Hwf.
  - by apply mailbox_wf_append.
  - by apply Expunge_wf.
  - destruct Hwf as [H1 H2 H3 H4]. split; simpl; [done|..].
    + replace (UID <$> msgs) with (UID <$> mb_Messages mb); [done|].
      clear -HF. induction HF as [|m m' l l' (? & _) _ IH]; [done|].
      cbn [fmap list_fmap]. f_equal; [done|exact IH].
    + clear -HF H3. induction HF as [|m m' l l' (Hu & _) _ IH]; [constructor|].
      apply list.Forall_cons in H3 as [? ?]. constructor; [by rewrite <- Hu|by apply IH].
    + clear -HF H4. induction HF as [|m m' l l' (_ & _ & Hs & Hb) _ IH]; [constructor|].
      apply list.Forall_cons in H4 as [? ?]. constructor; [by rewrite <- Hs, <- Hb|by apply IH].
  - by destruct Hwf.
Qed.

(** Mailboxes a session of the user with table [ul] can reach: the selected one
    and those of the table. *)
Definition reachable_box (ul : loc) (sel : option loc) (st : Store) (l : loc) : Prop :=
  sel = Some l \/ exists n, table ul st !! n = Some l.

Inductive eff (ul : loc) (sel : option loc) : Store -> Store -> Prop :=
| eff_tick st : eff ul sel st (tick st)
| eff_box st l mb mb' :
    reachable_box ul sel st l -> boxes st !! l = Some mb -> box_step mb mb' ->
    eff ul sel st (upd_box l mb' st)
| eff_new st name :
    is_Some (tables st !! ul) ->
    eff ul sel st (upd_table ul (<[name := fresh st]> (table ul st)) (alloc_box (NewMailbox name) st).2)
| eff_table st u :
    is_Some (tables st !! ul) ->
    (forall n l, u !! n = Some l -> exists n', table ul st !! n' = Some l) ->
    eff ul sel st (upd_table ul u st).

(** ** The invariant *)
Record store_wf (st : Store) : Prop := {
  sw_boxes l mb : boxes st !! l = Some mb -> mailbox_wf mb;
  sw_fresh_box l : is_Some (boxes st !! l) -> (l < fresh st)%nat;
  sw_fresh_table l : is_Some (tables st !! l) -> (l < fresh st)%nat;
  sw_tables ul u n l : tables st !! ul = Some u -> u !! n = Some l -> is_Some (boxes st !! l);
  sw_disjoint ul ul' u u' n n' l :
    tables st !! ul = Some u -> tables st !! ul' = Some u' ->
    u !! n = Some l -> u' !! n' = Some l -> ul = ul';
  sw_data n ul : userData st !! n = Some ul -> is_Some (tables st !! ul);
  sw_users n : is_Some (users st !! n) -> is_Some (userData st !! n);
}.

Record sess_wf (st : Store) (s : Session) : Prop := {
  ss_user ul : s_userData s = Some ul -> is_Some (tables st !! ul);
  ss_sel l : selectedMailbox s = Some l -> is_Some (boxes st !! l);
  ss_auth : is_Some (selectedMailbox s) -> is_Some (s_userData s);
  ss_own l ul ul' u n :
    selectedMailbox s = Some l -> s_userData s = Some ul ->
    tables st !! ul' = Some u -> u !! n = Some l -> ul' = ul;
}.

Lemma table_Some ul st n l : table ul st !! n = Some l -> exists u, tables st !! ul = Some u /\ u !! n = Some l.
Proof. unfold table. destruct (tables st !! ul) as [u|]; simpl; [eauto|by rewrite lookup_empty]. Qed.
Lemma table_eq ul st u : tables st !! ul = Some u -> table ul st = u.
Proof. unfold table. by intros ->. Qed.

(** A reachable mailbox is in no other user's table. *)
Lemma reachable_private st ul s l ul' u n :
  store_wf st -> sess_wf st s -> s_userData s = Some ul ->
  reachable_box ul (selectedMailbox s) st l ->
  tables st !! ul' = Some u -> u !! n = Some l -> ul' = ul.
Proof.
  intros Hst Hs Hul [Hsel|[n' Hn']] Hu Hl.
  - by eapply (ss_own _ _ Hs).
  - apply table_Some in Hn' as (u' & Hu' & Hl'). by eapply (sw_disjoint _ Hst).
Qed.

(** What the invariant needs of an effect, stated once for store and sessions. *)
Record preserved (ul : loc) (st st' : Store) : Prop := {
  pr_wf : store_wf st';
  pr_sess s : sess_wf st s -> sess_wf st' s;
  pr_tables ul' : ul' <> ul -> tables st' !! ul' = tables st !! ul';
  pr_boxes ul' u n l : ul' <> ul -> tables st !! ul' = Some u -> u !! n = Some l ->
    boxes st' !! l = boxes st !! l;
  pr_users : users st' = users st /\ userData st' = userData st;
}.

Lemma preserved_refl ul st : store_wf st -> preserved ul st st.
Proof. by split. Qed.

Lemma preserved_trans ul st1 st2 st3 :
  preserved ul st1 st2 -> preserved ul st2 st3 -> preserved ul st1 st3.
Proof.
  intros [? ? HT HB [? ?]] [? ? HT' HB' [? ?]]. split; [done|naive_solver| | |].
  - intros ul' ?. by rewrite HT', HT.
  - intros ul' u n l Hne Hu Hl. rewrite (HB' ul' u n l), (HB ul' u n l); [done..| |done].
    by rewrite HT.
  - split; congruence.
Qed.

Lemma is_Some_insert {A} (m : gmap loc A) k a l :
  is_Some (<[k := a]> m !! l) <-> l = k \/ is_Some (m !! l).
Proof.
  destruct (decide (k = l)) as [->|]; [rewrite lookup_insert_eq|rewrite lookup_insert_ne by done];
    naive_solver.
Qed.

Lemma preserved_box ul st l mb mb' :
  store_wf st -> boxes st !! l = Some mb -> box_step mb mb' ->
  (forall ul' u n, tables st !! ul' = Some u -> u !! n = Some l -> ul' = ul) ->
  preserved ul st (upd_box l mb' st).
Proof.
  intros Hst Hl Hstep Hpriv. assert (forall l', is_Some (boxes st !! l') <->
    is_Some (<[l := mb']> (boxes st) !! l')) as Hdom.
  { intros l'. rewrite is_Some_insert. naive_solver. }
  split.
  - destruct Hst as [H1 H2 H3 H4 H5 H6 H7]. split; simpl; try done.
    + intros l' mb0. rewrite lookup_insert_Some. intros [[<- <-]|[_ ?]]; [|by eapply H1].
      eapply box_step_wf; [|done]. by eapply H1.
    + intros l' ?%Hdom. by apply H2.
    + intros. apply Hdom. by eapply H4.
  - intros s [Ha Hb Hc Hd]. split; simpl; try done. intros l' ?. apply Hdom. by apply Hb.
  - done.
  - intros ul' u n l' Hne Hu Hl'. simpl. rewrite lookup_insert_ne; [done|]. intros <-.
    by eapply Hne, Hpriv.
  - done.
Qed.

Lemma preserved_table ul st u :
  store_wf st -> is_Some (tables st !! ul) ->
  (forall n l, u !! n = Some l -> exists n', table ul st !! n' = Some l) ->
  preserved ul st (upd_table ul u st).
Proof.
  intros Hst Hul Hu. assert (forall ul' u' n l, <[ul := u]> (tables st) !! ul' = Some u' ->
    u' !! n = Some l -> exists u0 n0, tables st !! ul' = Some u0 /\ u0 !! n0 = Some l) as Hback.
  { intros ul' u' n l. rewrite lookup_insert_Some. intros [[<- <-]|[_ ?]] Hl; [|by eauto].
    destruct (Hu n l Hl) as [n' (u0 & ? & ?)%table_Some]. eauto. }
  assert (forall l, is_Some (<[ul := u]> (tables st) !! l) <-> is_Some (tables st !! l)) as Hdom.
  { intros l. rewrite is_Some_insert. naive_solver. }
  split.
  - destruct Hst as [H1 H2 H3 H4 H5 H6 H7]. split; simpl; try done.
    + intros l ?%Hdom. by apply H3.
    + intros ul' u' n l Hu' Hl. destruct (Hback _ _ _ _ Hu' Hl) as (u0 & n0 & ? & ?). by eapply H4.
    + intros ul1 ul2 u1 u2 n1 n2 l Ha Hb Hl1 Hl2.
      destruct (Hback _ _ _ _ Ha Hl1) as (? & ? & ? & ?).
      destruct (Hback _ _ _ _ Hb Hl2) as (? & ? & ? & ?). by eapply H5.
    + intros n l ?%H6. by apply Hdom.
  - intros s [Ha Hb Hc Hd]. split; simpl; try done.
    + intros l ?%Ha. by apply Hdom.
    + intros l ul1 ul' u' n Hsel Hud Hu' Hl. destruct (Hback _ _ _ _ Hu' Hl) as (? & ? & ? & ?).
      by eapply Hd.
  - intros ul' Hne. simpl. by rewrite lookup_insert_ne.
  - done.
  - done.
Qed.

(** A new mailbox is filed in one table. *)
Lemma preserved_new ul st name :
  store_wf st -> is_Some (tables st !! ul) ->
  preserved ul st
    (upd_table ul (<[name := fresh st]> (table ul st)) (alloc_box (NewMailbox name) st).2).
Proof.
  intros Hst Hul. set (l := fresh st).
  assert (forall k, is_Some (boxes st !! k) -> k <> l) as Hold.
  { intros k Hk. pose proof (sw_fresh_box _ Hst k Hk). unfold l. lia. }
  assert (forall ul' u n k, tables st !! ul' = Some u -> u !! n = Some k -> k <> l) as Hfresh
    by (intros; by eapply Hold, (sw_tables _ Hst)).
  assert (forall ul' u' n k, <[ul := <[name := l]> (table ul st)]> (tables st) !! ul' = Some u' ->
    u' !! n = Some k -> (ul' = ul /\ k = l) \/
    (k <> l /\ exists u0 n0, tables st !! ul' = Some u0 /\ u0 !! n0 = Some k)) as Hback.
  { intros ul' u' n k. rewrite lookup_insert_Some. intros [[<- <-]|[_ ?]] Hk.
    - apply lookup_insert_Some in Hk as [[<- <-]|[_ Hk]]; [by left|right].
      apply table_Some in Hk as (u0 & ? & ?). split; [by eapply Hfresh|eauto].
    - right. split; [by eapply Hfresh|eauto]. }
  assert (forall k, is_Some (<[ul := <[name := l]> (table ul st)]> (tables st) !! k) <->
    is_Some (tables st !! k)) as Hdom by (intros k; rewrite is_Some_insert; naive_solver).
  split.
  - destruct Hst as [H1 H2 H3 H4 H5 H6 H7]. split; simpl; try done.
    + intros k mb. rewrite lookup_insert_Some. intros [[<- <-]|[_ ?]]; [apply mailbox_wf_new|by eapply H1].
    + intros k [->|?%H2]%is_Some_insert; lia.
    + intros k ?%Hdom%H3. lia.
    + intros ul' u' n k Hu' Hk. apply is_Some_insert.
      destruct (Hback _ _ _ _ Hu' Hk) as [[_ ?]|(_ & ? & ? & ? & ?)]; [by left|right; by eapply H4].
    + intros ul1 ul2 u1 u2 n1 n2 k Ha Hb Hk1 Hk2.
      destruct (Hback _ _ _ _ Ha Hk1) as [[-> ?]|(? & ? & ? & ? & ?)];
        destruct (Hback _ _ _ _ Hb Hk2) as [[-> ?]|(? & ? & ? & ? & ?)]; try done. by eapply H5.
    + intros n k ?%H6. by apply Hdom.
  - intros s [Ha Hb Hc Hd]. split; simpl; try done.
    + intros k ?%Ha. by apply Hdom.
    + intros k ?%Hb. apply is_Some_insert. by right.
    + intros k ul1 ul' u' n Hk Hud Hu' Hn.
      destruct (Hback _ _ _ _ Hu' Hn) as [[-> ?]|(_ & ? & ? & ? & ?)]; [|by eapply Hd].
      by apply Hb, Hold in Hk.
  - intros ul' Hne. simpl. by rewrite lookup_insert_ne.
  - intros ul' u n k _ Hu Hk. simpl. rewrite lookup_insert_ne; [done|]. intros <-. by eapply Hfresh.
  - done.
Qed.

(** Every effect of a session's operation keeps the invariant and leaves other
    users alone. *)
Lemma eff_preserved ul s st0 st st' :
  sess_wf st0 s -> s_userData s = Some ul ->
  preserved ul st0 st -> eff ul (selectedMailbox s) st st' -> preserved ul st0 st'.
Proof.
  intros Hs Hul Hp Heff. eapply preserved_trans; [exact Hp|].
  pose proof (pr_wf _ _ _ Hp) as Hst. pose proof (pr_sess _ _ _ Hp s Hs) as Hs'.
  destruct Heff as [st|st l mb mb' Hr Hl Hstep|st name Ht|st u Ht Hu].
  - destruct Hst. split; simpl; try done. by intros s' [].
  - eapply preserved_box; [done..|]. intros. by eapply reachable_private.
  - by apply preserved_new.
  - by apply preserved_table.
Qed.

Lemma effs_preserved ul s st st' :
  store_wf st -> sess_wf st s -> s_userData s = Some ul ->
  rtc (eff ul (selectedMailbox s)) st st' -> preserved ul st st'.
Proof.
  intros Hst Hs Hul Heffs. revert st' Heffs.
  apply (rtc_ind_r (fun st' => preserved ul st st')); [by apply preserved_refl|].
  intros st1 st2 _ Heff Hp. by eapply eff_preserved.
Qed.

(** ** Operations as sequences of effects *)
Lemma same_refl m : same_but_flags m m.
Proof. done. Qed.
Lemma same_trans m1 m2 m3 : same_but_flags m1 m2 -> same_but_flags m2 m3 -> same_but_flags m1 m3.
Proof. unfold same_but_flags. intuition congruence. Qed.
Lemma same_set_flags f m : same_but_flags m (set_flags f m).
Proof. done. Qed.
Lemma same_SetFlag f m : same_but_flags m (SetFlag f m).
Proof. unfold SetFlag. by case_if. Qed.

Lemma Forall2_same_refl l : Forall2 same_but_flags l l.
Proof. by induction l; constructor. Qed.

(** Replacing a message by one that differs in its flags only. *)
Lemma Forall2_put_msg msgs0 msgs n msg msg' :
  Forall2 same_but_flags msgs0 msgs -> msgs0 !! Z.to_nat (n - 1) = Some msg ->
  same_but_flags msg msg' -> Forall2 same_but_flags msgs0 (put_msg n msg' msgs).
Proof.
  intros HF Hn Hs. unfold put_msg. rewrite <- (list_insert_id msgs0 _ _ Hn).
  by apply Forall2_insert.
Qed.

Lemma store_one_same flags msg : same_but_flags msg (store_one flags msg).
Proof.
  unfold store_one. destruct (sf_Action flags); [done|..].
  - assert (forall l m0, same_but_flags msg m0 -> same_but_flags msg (foldl (fun m f => SetFlag f m) m0 l))
      as H; [|apply H, same_refl].
    induction l as [|f l IH]; intros m0 Hm; [done|]. apply IH. eapply same_trans; [exact Hm|].
    apply same_SetFlag.
  - assert (forall l m0, same_but_flags msg m0 -> same_but_flags msg (foldl (fun m f => RemoveFlag f m) m0 l))
      as H; [|apply H, same_refl].
    induction l as [|f l IH]; intros m0 Hm; [done|]. apply IH. eapply same_trans; [exact Hm|].
    apply same_set_flags.
Qed.

Lemma fetch_sections_same ro msg secs : same_but_flags msg (fetch_sections ro msg secs).2.
Proof.
  revert msg. induction secs as [|sec secs IH]; intros msg; [done|]. cbn [fetch_sections].
  destruct (fetchSection msg sec); try done.
  assert (same_but_flags msg (if negb (Peek sec) && negb ro then SetFlag FlagSeen msg else msg)) as H1
    by (case_if; [apply same_SetFlag|done]).
  revert H1. generalize (if negb (Peek sec) && negb ro then SetFlag FlagSeen msg else msg) as msg1.
  intros msg1 H1. specialize (IH msg1). destruct (fetch_sections ro msg1 secs) as [r msg2].
  by eapply same_trans.
Qed.

Lemma fetch_one_same lookupName o ro n msg :
  same_but_flags msg (fetch_one lookupName o ro n msg).2.
Proof.
  unfold fetch_one. case_match; try done.
  pose proof (fetch_sections_same ro msg (fo_BodySection o)) as Hsame.
  by destruct (fetch_sections ro msg (fo_BodySection o)).
Qed.

(** The numbers of a list of matches point at the matched messages. *)
Definition aligned (msgs : list Message) (matches : list (Z * Message)) : Prop :=
  Forall (fun '(n, msg) => msgs !! Z.to_nat (n - 1) = Some msg) matches.

Lemma fetch_loop_same lookupName o ro msgs0 matches msgs :
  aligned msgs0 matches -> Forall2 same_but_flags msgs0 msgs ->
  Forall2 same_but_flags msgs0 (fetch_loop lookupName o ro matches msgs).1.2.
Proof.
  intros Hal. revert msgs. induction Hal as [|[n msg] matches Hn _ IH]; intros msgs HF; [done|].
  cbn [fetch_loop]. pose proof (fetch_one_same lookupName o ro n msg) as Hs.
  destruct (fetch_one lookupName o ro n msg) as [r msg']. simpl in Hs.
  pose proof (Forall2_put_msg _ _ _ _ _ HF Hn Hs) as HF'. specialize (IH _ HF').
  destruct r; try done. by destruct (fetch_loop lookupName o ro matches (put_msg n msg' msgs)).
Qed.

Lemma store_loop_same flags msgs0 matches msgs :
  aligned msgs0 matches -> Forall2 same_but_flags msgs0 msgs ->
  Forall2 same_but_flags msgs0 (store_loop flags matches msgs).
Proof.
  intros Hal. revert msgs. induction Hal as [|[n msg] matches Hn _ IH]; intros msgs HF; [done|].
  apply IH. eapply Forall2_put_msg; [done..|]. apply store_one_same.
Qed.

(** Ascending UIDs below 2^32 bound the number of messages. *)
Lemma ascending_len l lo hi :
  ascending l -> Forall (fun x => lo <= x < hi) l -> lo <= hi -> len l <= hi - lo.
Proof.
  revert lo. induction l as [|x l IH]; intros lo Ha Hr Hle; [rewrite len_nil; lia|].
  destruct Ha as [Hx Ha]. apply list.Forall_cons in Hr as [Hlo Hr]. rewrite len_cons.
  cbn beta in *. assert (len l <= hi - (x + 1)); [|lia]. apply IH; [done| |lia].
  rewrite list.Forall_forall in *. intros y Hy. specialize (Hx y Hy). specialize (Hr y Hy). lia.
Qed.
Lemma wf_len mb : mailbox_wf mb -> len (mb_Messages mb) < 2 ^ 32.
Proof.
  intros [Hn Ha Hu _]. pose proof (ascending_len (UID <$> mb_Messages mb) 1 (mb_UIDNext mb) Ha) as H.
  unfold len in *. rewrite length_fmap in H. assert (Z.of_nat (length (mb_Messages mb)) <= mb_UIDNext mb - 1);
    [|lia]. apply H; [|lia]. by apply Forall_fmap.
Qed.

Lemma matches_aligned ns kind mb :
  mailbox_wf mb -> aligned (mb_Messages mb) (MatchesMessages ns kind mb).
Proof.
  intros Hwf. apply list.Forall_forall. intros [n msg] Hin.
  apply MatchesMessages_spec in Hin as [Hm _]; [|by apply wf_len].
  apply MessageBySeqNum_lookup in Hm as (k & Hk & ->).
  by replace (Z.to_nat (Z.of_nat k + 1 - 1)) with k by lia.
Qed.

(** How many messages an operation adds to a mailbox, at most. *)
Definition appends (op : sess_op) (m : Mem) : nat :=
  match op with
  | OpAppend _ _ _ => 1
  | OpCopy ns _ =>
    match selectedMailbox (m_sess m) ≫= fun l => boxes (m_store m) !! l with
    | Some mb => length (MatchesMessages ns (kind_of ns) mb)
    | None => 0
    end
  | _ => 0
  end.
(** Every mailbox has UIDs left for what the operation adds. *)
Definition room (op : sess_op) (m : Mem) : Prop :=
  forall l mb, boxes (m_store m) !! l = Some mb ->
    mb_UIDNext mb + Z.of_nat (appends op m) < 2 ^ 32.

Lemma getMailboxLocked_Some u name l : getMailboxLocked u name = Some l -> exists n, u !! n = Some l.
Proof.
  unfold getMailboxLocked. destruct (u !! name) eqn:E; [intros [= <-]; eauto|].
  case_if; [eauto|done].
Qed.

Section OpEffects.
Context (lookupName : bytes -> Z -> option Z) (clock : nat -> Time)
  (ord : nat -> list bytes -> list bytes).
Context (ul : loc).

(** The store an operation leaves is reached by effects. *)
Definition Effects {A} (f : Op A) (m : Mem) : Prop :=
  forall sel, sel = selectedMailbox (m_sess m) ->
  rtc (eff ul sel) (m_store m) (m_store (f m).2).

Lemma effects_mailbox {A} mailbox (k : loc -> Mailbox -> Op A) m :
  s_userData (m_sess m) = Some ul ->
  (forall l mb, reachable_box ul (selectedMailbox (m_sess m)) (m_store m) l ->
     boxes (m_store m) !! l = Some mb -> Effects (k l mb) m) ->
  Effects (with_mailbox mailbox k) m.
Proof.
  intros Hul Hk sel ->. unfold with_mailbox, with_user. rewrite Hul.
  destruct (GetMailbox _ mailbox) as [l|] eqn:E; [|apply rtc_refl].
  destruct (boxes (m_store m) !! l) as [mb|] eqn:Eb; [|apply rtc_refl].
  apply Hk; [|done..]. right. by eapply getMailboxLocked_Some.
Qed.

Lemma effects_selected {A} (k : loc -> Mailbox -> Op A) m :
  (forall l mb, reachable_box ul (selectedMailbox (m_sess m)) (m_store m) l ->
     boxes (m_store m) !! l = Some mb -> Effects (k l mb) m) ->
  Effects (with_selected k) m.
Proof.
  intros Hk sel ->. unfold with_selected.
  destruct (selectedMailbox (m_sess m)) as [l|] eqn:E; [|apply rtc_refl].
  destruct (boxes (m_store m) !! l) as [mb|] eqn:Eb; [|apply rtc_refl].
  apply Hk; [by left|done..].
Qed.

Lemma reachable_tables sel st st' l :
  tables st' = tables st -> reachable_box ul sel st l -> reachable_box ul sel st' l.
Proof. unfold reachable_box, table. by intros ->. Qed.

Lemma copy_loop_effects sel dest matches src dst m :
  reachable_box ul sel (m_store m) dest ->
  (forall mb, boxes (m_store m) !! dest = Some mb -> mb_UIDNext mb + Z.of_nat (length matches) < 2 ^ 32) ->
  (forall mb, boxes (m_store m) !! dest = Some mb -> 0 <= mb_UIDNext mb) ->
  rtc (eff ul sel) (m_store m) (m_store (copy_loop clock dest matches src dst m).2).
Proof.
  revert src dst m. induction matches as [|[n msg] matches IH]; intros src dst m Hr Hroom Hnn;
    [apply rtc_refl|]. cbn [copy_loop length] in *.
  set (t := if IsZero (InternalDate msg) then now clock else mret time_zero).
  assert (exists tm m1, t m = (Ok tm, m1) /\ rtc (eff ul sel) (m_store m) (m_store m1) /\
    boxes (m_store m1) = boxes (m_store m) /\ tables (m_store m1) = tables (m_store m)) as
    (tm & m1 & Ht & Heff & Hbox & Htab).
  { unfold t. destruct (IsZero (InternalDate msg)).
    - eexists _, _. split; [reflexivity|]. split; [|done]. apply rtc_once. constructor.
    - exists time_zero, m. split; [done|]. split; [apply rtc_refl|done]. }
  rewrite (st_bind_ok _ _ _ _ _ Ht). etransitivity; [exact Heff|].
  unfold mbind at 1, st_bind at 1. cbn [st_get]. rewrite <- Hbox in Hroom, Hnn.
  destruct (boxes (m_store m1) !! dest) as [mb|] eqn:Eb; [|apply rtc_refl].
  pose proof (Hroom mb eq_refl) as Hroom'. pose proof (Hnn mb eq_refl) as Hnn'.
  unfold CopyMessageTo. set (A := Append _ _ _ _ mb).
  assert (box_step mb A.2) as Hstep by (apply bs_append; lia).
  assert (mb_UIDNext A.2 = mb_UIDNext mb + 1) as Hnext by (unfold A; simpl; apply u32_small; lia).
  destruct A as [newMsg mb'] eqn:EA. cbn [snd] in *.
  rewrite (st_bind_ok (put_box dest mb') _ m1 (set_store (upd_box dest mb' (m_store m1)) m1) tt eq_refl).
  eapply rtc_l.
  { eapply (eff_box _ _ _ dest mb mb'); [by eapply reachable_tables|done..]. }
  apply (IH _ _ (set_store (upd_box dest mb' (m_store m1)) m1)).
  - by eapply reachable_tables.
  - intros mb0. simpl. rewrite lookup_insert_eq. intros [= <-]. lia.
  - intros mb0. simpl. rewrite lookup_insert_eq. intros [= <-]. lia.
Qed.

Lemma CreateMailbox_effects sel name st :
  is_Some (tables st !! ul) -> rtc (eff ul sel) st (CreateMailbox ul name st).2.
Proof.
  intros Hul. unfold CreateMailbox. destruct (getMailboxLocked _ _); [apply rtc_refl|].
  apply rtc_once. by apply (eff_new ul sel st name).
Qed.

Lemma DeleteMailbox_effects sel name st :
  is_Some (tables st !! ul) -> rtc (eff ul sel) st (DeleteMailbox ul name st).2.
Proof.
  intros Hul. unfold DeleteMailbox. case_if; [apply rtc_refl|].
  destruct (getMailboxLocked _ _); [|apply rtc_refl]. apply rtc_once, eff_table; [done|].
  intros k j. rewrite lookup_delete_Some. intros [_ ?]. eauto.
Qed.

Lemma RenameMailbox_effects sel old new st :
  is_Some (tables st !! ul) -> rtc (eff ul sel) st (RenameMailbox ul old new st).2.
Proof.
  intros Hul. unfold RenameMailbox. destruct (getMailboxLocked _ old) as [l|] eqn:E; [|apply rtc_refl].
  destruct (getMailboxLocked _ new); [apply rtc_refl|]. cbn [snd].
  destruct (getMailboxLocked_Some _ _ _ E) as [n0 Hn0].
  assert (forall n k, <[new := l]> (delete old (table ul st)) !! n = Some k ->
    exists n', table ul st !! n' = Some k) as Hu.
  { intros n k. rewrite lookup_insert_Some, lookup_delete_Some. naive_solver. }
  destruct (boxes st !! l) as [mb|] eqn:Eb.
  - eapply rtc_l; [eapply (eff_box _ _ _ l mb (set_name new mb)); [right; by exists n0|done|constructor]|].
    apply rtc_once. by apply eff_table.
  - apply rtc_once. by apply eff_table.
Qed.

Lemma eff_put sel (m : Mem) l mb mb' :
  reachable_box ul sel (m_store m) l -> boxes (m_store m) !! l = Some mb -> box_step mb mb' ->
  rtc (eff ul sel) (m_store m) (upd_box l mb' (m_store m)).
Proof. intros. apply rtc_once. by eapply eff_box. Qed.

Lemma Append_effects mailbox body o m :
  s_userData (m_sess m) = Some ul ->
  (forall l mb, boxes (m_store m) !! l = Some mb -> mb_UIDNext mb + 1 < 2 ^ 32) ->
  rtc (eff ul (selectedMailbox (m_sess m))) (m_store m) (m_store (Append_ clock mailbox body o m).1.2).
Proof.
  intros Hul Hroom. unfold Append_. cbn [fst].
  apply effects_mailbox; [done| |done]. intros l mb Hr Hl sel ->.
  set (flags := match o with Some o => ao_Flags o | None => [] end).
  set (date := match o with Some o => ao_InternalDate o | None => time_zero end).
  destruct (IsZero date).
  - unfold mbind, st_bind, now, put_box, mret, st_ret. cbn [snd m_store set_store].
    destruct (Append _ body flags date mb) as [msg mb'] eqn:EA. cbn [snd m_store set_store].
    eapply rtc_l; [constructor|]. apply rtc_once.
    apply (eff_box _ _ (tick (m_store m)) l mb); [by eapply reachable_tables|done|].
    change mb' with (msg, mb').2. rewrite <- EA. constructor. by eapply Hroom.
  - unfold mbind, st_bind, put_box, mret, st_ret. cbn [snd m_store set_store].
    destruct (Append _ body flags date mb) as [msg mb'] eqn:EA. cbn [snd m_store set_store].
    eapply eff_put; [done..|]. change mb' with (msg, mb').2. rewrite <- EA. constructor.
    by eapply Hroom.
Qed.

Lemma Expunge_effects uids m :
  rtc (eff ul (selectedMailbox (m_sess m))) (m_store m) (m_store (Expunge_ uids m).1.2).
Proof.
  unfold Expunge_. destruct (selectedMailbox (m_sess m)) as [l|]; [|apply rtc_refl].
  destruct (boxes (m_store m) !! l) as [mb|] eqn:Eb; [|apply rtc_refl].
  destruct (Expunge uids mb) as [e mb'] eqn:EE. cbn [fst snd m_store set_store].
  eapply eff_put; [by left|done|]. change mb' with (e, mb').2. rewrite <- EE. constructor.
Qed.

Lemma Fetch_effects ns o m :
  store_wf (m_store m) ->
  rtc (eff ul (selectedMailbox (m_sess m))) (m_store m) (m_store (Fetch lookupName ns o m).1.2).
Proof.
  intros Hst. unfold Fetch. destruct (selectedMailbox (m_sess m)) as [l|]; [|apply rtc_refl].
  destruct (boxes (m_store m) !! l) as [mb|] eqn:Eb; [|apply rtc_refl].
  pose proof (fetch_loop_same lookupName o (selectedReadOnly (m_sess m)) (mb_Messages mb)
    (MatchesMessages ns (kind_of ns) mb) (mb_Messages mb)
    (matches_aligned _ _ _ (sw_boxes _ Hst _ _ Eb)) (Forall2_same_refl _)) as HF.
  destruct (fetch_loop _ _ _ _ _) as [[r msgs] calls]. cbn [fst snd m_store set_store] in *.
  eapply eff_put; [by left|done|by constructor].
Qed.

Lemma Store_effects ns flags m :
  store_wf (m_store m) ->
  rtc (eff ul (selectedMailbox (m_sess m))) (m_store m) (m_store (Store_ ns flags m).1.2).
Proof.
  intros Hst. unfold Store_. destruct (selectedMailbox (m_sess m)) as [l|]; [|apply rtc_refl].
  case_if; [apply rtc_refl|]. destruct (boxes (m_store m) !! l) as [mb|] eqn:Eb; [|apply rtc_refl].
  cbn [fst snd m_store set_store]. eapply eff_put; [by left|done|]. constructor.
  apply store_loop_same; [by eapply matches_aligned, (sw_boxes _ Hst)|apply Forall2_same_refl].
Qed.

Lemma Copy_effects ns dest m :
  store_wf (m_store m) -> s_userData (m_sess m) = Some ul -> room (OpCopy ns dest) m ->
  rtc (eff ul (selectedMailbox (m_sess m))) (m_store m) (m_store (Copy clock ns dest m).2).
Proof.
  intros Hst Hul Hroom. unfold Copy, with_selected, room, appends in *.
  destruct (selectedMailbox (m_sess m)) as [l|] eqn:Es; [|apply rtc_refl].
  cbn [mbind option_bind] in Hroom.
  destruct (boxes (m_store m) !! l) as [mb|] eqn:Eb; [|apply rtc_refl]. rewrite Hul.
  destruct (GetMailbox _ dest) as [dl|] eqn:Ed; [|apply rtc_refl].
  destruct (boxes (m_store m) !! dl) as [dmb|] eqn:Edb; [|apply rtc_refl].
  assert (rtc (eff ul (Some l)) (m_store m) (m_store (copy_loop clock dl
    (MatchesMessages ns (kind_of ns) mb) [] [] m).2)) as HC.
  { apply copy_loop_effects.
    - right. by eapply getMailboxLocked_Some.
    - intros mb0 Hmb0. by eapply Hroom.
    - intros mb0 Hmb0. pose proof (wf_next _ (sw_boxes _ Hst _ _ Hmb0)). lia. }
  unfold mbind, st_bind. by destruct (copy_loop clock dl _ _ _ m) as [[] ?].
Qed.

Lemma lift_effects f m :
  rtc (eff ul (selectedMailbox (m_sess m))) (m_store m) (f (m_store m)).2 ->
  rtc (eff ul (selectedMailbox (m_sess m))) (m_store m) (m_store (lift_store f m).2).
Proof. unfold lift_store. by destruct (f (m_store m)). Qed.

Lemma run_op_effects op m :
  store_wf (m_store m) -> sess_wf (m_store m) (m_sess m) -> s_userData (m_sess m) = Some ul ->
  room op m ->
  rtc (eff ul (selectedMailbox (m_sess m))) (m_store m) (m_store (run_op lookupName clock ord op m).2).
Proof.
  intros Hst Hs Hul Hroom. pose proof (ss_user _ _ Hs ul Hul) as Htab.
  destruct op; cbn [run_op discard snd]; try apply rtc_refl;
    try (apply effects_mailbox; [done| |done]; intros l mb Hr Hl sel ->;
         solve [apply rtc_refl | eapply eff_put; [done..|constructor]]).
  - unfold Login. destruct (users _ !! _); [case_if|]; apply rtc_refl.
  - unfold Create, with_user. rewrite Hul. by apply lift_effects, CreateMailbox_effects.
  - unfold Delete, with_user. rewrite Hul.
    destruct (selectedMailbox (m_sess m) ≫= _) as [mb|]; [case_if|];
      [|by apply lift_effects, DeleteMailbox_effects..].
    unfold lift_store. cbn [m_store set_sess].
    pose proof (DeleteMailbox_effects (selectedMailbox (m_sess m)) mailbox (m_store m) Htab) as H'.
    by destruct (DeleteMailbox ul mailbox (m_store m)).
  - unfold Rename, with_user. rewrite Hul. by apply lift_effects, RenameMailbox_effects.
  - unfold List_. rewrite Hul. case_if; [apply rtc_refl|]. cbn [MailboxNames fst snd m_store set_store].
    eapply rtc_l; [constructor|]. eapply rtc_l; [constructor|]. apply rtc_refl.
  - apply Append_effects; [done|]. exact Hroom.
  - apply Expunge_effects.
  - apply effects_selected; [|done]. intros l mb _ _ sel ->. apply rtc_refl.
  - by apply Fetch_effects.
  - by apply Store_effects.
  - by apply Copy_effects.
Qed.

End OpEffects.

(** ** What an operation does to its session *)
Inductive sess_step (st : Store) (s : Session) : Session -> Prop :=
| st_same : sess_step st s s
| st_unselect ro : sess_step st s (mkSession (s_userData s) None ro)
| st_close ro : sess_step st s (mkSession None None ro)
| st_select ul l n ro :
    s_userData s = Some ul -> table ul st !! n = Some l ->
    sess_step st s (mkSession (Some ul) (Some l) ro)
| st_login name ul ro :
    selectedMailbox s = None -> userData st !! name = Some ul ->
    sess_step st s (mkSession (Some ul) None ro).

Lemma sess_step_wf st s s' : store_wf st -> sess_wf st s -> sess_step st s s' -> sess_wf st s'.
Proof.
  intros Hst Hs Hstep. pose proof Hs as [Ha Hb Hc Hd].
  destruct Hstep as [|ro|ro|ul l n ro Hul Hl|name ul ro Hsel Hul].
  - done.
  - split; simpl; try done; by intros [].
  - split; simpl; try done; by intros [].
  - apply table_Some in Hl as (u & Hu & Hl). split; simpl.
    + intros ? [= <-]. by apply Ha.
    + intros ? [= <-]. by eapply (sw_tables _ Hst).
    + by eexists.
    + intros ? ? ul' u' n' [= <-] [= <-] Hu' Hl'. by eapply (sw_disjoint _ Hst).
  - split; simpl; try done. intros ? [= <-]. by eapply (sw_data _ Hst).
Qed.

(** LOGIN is only reached with nothing selected. *)
Definition op_ok (op : sess_op) (s : Session) : Prop :=
  match op with OpLogin _ _ => selectedMailbox s = None | _ => True end.

Section Run.
Context (lookupName : bytes -> Z -> option Z) (clock : nat -> Time)
  (ord : nat -> list bytes -> list bytes).
Abbreviation run := (run_op lookupName clock ord).

Lemma with_mailbox_sess {A} mailbox (k : loc -> Mailbox -> Op A) m :
  (forall l mb m', m_sess m' = m_sess m -> m_sess (k l mb m').2 = m_sess m) ->
  m_sess (with_mailbox mailbox k m).2 = m_sess m.
Proof.
  intros Hk. unfold with_mailbox, with_user. destruct (s_userData (m_sess m)); [|done].
  destruct (GetMailbox _ _); [|done]. destruct (boxes _ !! _); [|done]. by apply Hk.
Qed.

Lemma copy_loop_sess dest matches src dst m :
  m_sess (copy_loop clock dest matches src dst m).2 = m_sess m.
Proof.
  revert src dst m. induction matches as [|[n msg] matches IH]; intros src dst m; [done|].
  cbn [copy_loop].
  assert (exists tm m1, (if IsZero (InternalDate msg) then now clock else mret time_zero) m = (Ok tm, m1)
    /\ m_sess m1 = m_sess m) as (tm & m1 & Ht & <-)
    by (destruct (IsZero (InternalDate msg)); eexists _, _; (split; [reflexivity|done])).
  rewrite (st_bind_ok _ _ _ _ _ Ht). unfold mbind at 1, st_bind at 1. cbn [st_get].
  destruct (boxes (m_store m1) !! dest) as [mb0|]; [|done].
  destruct (CopyMessageTo tm msg mb0) as [newUID mb].
  rewrite (st_bind_ok (put_box dest mb) _ m1 _ tt eq_refl). by rewrite IH.
Qed.

Lemma lift_sess f m : m_sess (lift_store f m).2 = m_sess m.
Proof. unfold lift_store. by destruct (f (m_store m)). Qed.

Lemma Append_sess mailbox body o m : m_sess (Append_ clock mailbox body o m).1.2 = m_sess m.
Proof.
  unfold Append_. cbn [fst]. apply with_mailbox_sess. intros l mb m' <-.
  set (date := match o with Some o => ao_InternalDate o | None => time_zero end).
  unfold mbind, st_bind. destruct (IsZero date); cbn [now mret st_ret];
    by destruct (Append _ body _ date mb).
Qed.

Lemma Copy_sess ns dest m : m_sess (Copy clock ns dest m).2 = m_sess m.
Proof.
  unfold Copy, with_selected. destruct (selectedMailbox (m_sess m)); [|done].
  destruct (boxes _ !! _); [|done]. destruct (s_userData (m_sess m)); [|done].
  destruct (GetMailbox _ dest) as [dl|]; [|done]. destruct (boxes _ !! dl); [|done].
  unfold mbind, st_bind. pose proof (copy_loop_sess dl (MatchesMessages ns (kind_of ns) m0) [] [] m) as HC.
  by destruct (copy_loop clock dl _ _ _ m) as [[] ?].
Qed.

(** The operations that change their session. *)
Definition moves_session (op : sess_op) : bool :=
  match op with OpClose | OpLogin _ _ | OpSelect _ _ | OpDelete _ | OpUnselect => true | _ => false end.

Lemma run_op_stays op m : moves_session op = false -> m_sess (run op m).2 = m_sess m.
Proof.
  destruct op; try done; intros _; cbn [run_op discard snd]; try by apply with_mailbox_sess.
  - unfold Create, with_user. destruct (s_userData (m_sess m)); [apply lift_sess|done].
  - unfold Rename, with_user. destruct (s_userData (m_sess m)); [apply lift_sess|done].
  - unfold List_. destruct (s_userData (m_sess m)); [case_if|]; done.
  - apply Append_sess.
  - unfold Expunge_. destruct (selectedMailbox (m_sess m)); [|done].
    destruct (boxes _ !! _) as [mb|]; [|done]. by destruct (Expunge uids mb).
  - unfold Search, with_selected. destruct (selectedMailbox (m_sess m)); [|done].
    by destruct (boxes _ !! _).
  - unfold Fetch. destruct (selectedMailbox (m_sess m)); [|done].
    destruct (boxes _ !! _) as [mb|]; [|done]. by destruct (fetch_loop _ _ _ _ _) as [[? ?] ?].
  - unfold Store_. destruct (selectedMailbox (m_sess m)); [|done]. case_if; [done|].
    by destruct (boxes _ !! _).
  - apply Copy_sess.
Qed.

Lemma run_op_session op m :
  store_wf (m_store m) -> op_ok op (m_sess m) -> sess_step (m_store m) (m_sess m) (m_sess (run op m).2).
Proof.
  intros Hst Hok. assert (forall s', s' = m_sess m -> sess_step (m_store m) (m_sess m) s') as Hsame
    by (intros ? ->; constructor).
  destruct (moves_session op) eqn:Em; [|by apply Hsame, run_op_stays].
  destruct op; try done; cbn [run_op discard snd].
  - apply st_close.
  - unfold Login. destruct (users (m_store m) !! username) eqn:Eu; [case_if|]; try apply st_same.
    assert (is_Some (userData (m_store m) !! username)) as [ul Hul]
      by (apply (sw_users _ Hst); by rewrite Eu).
    cbn [m_sess set_sess snd]. rewrite Hul, Hok. by eapply st_login.
  - unfold Select, with_mailbox, with_user. destruct (s_userData (m_sess m)) as [ul|] eqn:Eul; [|by apply Hsame].
    destruct (GetMailbox _ _) as [l|] eqn:El; [|by apply Hsame].
    destruct (boxes _ !! _); [|by apply Hsame]. cbn [m_sess set_sess snd]. rewrite ?Eul.
    apply getMailboxLocked_Some in El as [n Hn]. by eapply st_select.
  - unfold Delete, with_user. destruct (s_userData (m_sess m)) eqn:Eul; [|by apply Hsame].
    rewrite lift_sess. destruct (selectedMailbox (m_sess m) ≫= _); [case_if|]; try by apply Hsame.
    cbn [m_sess set_sess]. rewrite <- Eul. apply st_unselect.
  - apply st_unselect.
Qed.

(** Without a user nothing in the store changes. *)
Lemma run_op_unauth op m :
  s_userData (m_sess m) = None -> selectedMailbox (m_sess m) = None ->
  m_store (run op m).2 = m_store m.
Proof.
  intros Hu Hs. destruct op; cbn [run_op discard snd]; try done;
    unfold Select, Create, Delete, Rename, Subscribe, Unsubscribe, List_, Status, Append_, Expunge_,
      Search, Fetch, Store_, Copy, with_mailbox, with_user, with_selected; rewrite ?Hu, ?Hs; try done.
  unfold Login. destruct (users _ !! _); [case_if|]; done.
Qed.

Lemma run_op_preserved op m :
  store_wf (m_store m) -> sess_wf (m_store m) (m_sess m) -> room op m ->
  match s_userData (m_sess m) with
  | Some ul => preserved ul (m_store m) (m_store (run op m).2)
  | None => m_store (run op m).2 = m_store m
  end.
Proof.
  intros Hst Hs Hroom. destruct (s_userData (m_sess m)) as [ul|] eqn:E.
  - eapply effs_preserved; [done..|]. by apply run_op_effects.
  - apply run_op_unauth; [done|].
    destruct (selectedMailbox (m_sess m)) eqn:E2; [|done]. exfalso.
    destruct (ss_auth _ _ Hs); [by rewrite E2|congruence].
Qed.

End Run.
End Effects.
