(* ===== verification/MemWorld.v ===== *)
(** * The in-memory server with any number of sessions

    Sessions of several connections interleave over one store, while users are
    added and removed.  The invariant holds in every reachable world; from it
    follow the isolation of users and the absence of panics. *)

From S2P Require Import Prelude Utf8 GoStrings GoTime NumSet Imap Message Mailbox MailboxFacts.
From S2P Require Import MemStore MemSession MemFacts.

Record World := mkWorld { w_store : Store; w_sess : gmap nat Session }.
Definition world0 : World := mkWorld New ∅.

Section World.
Context {U : Unicode} (lookupName : bytes -> Z -> option Z).
Context (clock : nat -> Time) (ord : nat -> list bytes -> list bytes).
Abbreviation run := (run_op lookupName clock ord).

(** What can happen: a connection is accepted, a session runs an operation (as
    long as UIDs are left for it), a user is added or removed. *)
Inductive world_step : World -> World -> Prop :=
| ws_connect w sid :
    w_sess w !! sid = None ->
    world_step w (mkWorld (w_store w) (<[sid := session0]> (w_sess w)))
| ws_op w sid s op :
    w_sess w !! sid = Some s -> op_ok op s -> room op (mkMem (w_store w) s) ->
    let m := (run op (mkMem (w_store w) s)).2 in
    world_step w (mkWorld (m_store m) (<[sid := m_sess m]> (w_sess w)))
| ws_add w username password :
    world_step w (mkWorld (AddUser username password (w_store w)) (w_sess w))
| ws_remove w username :
    world_step w (mkWorld (RemoveUser username (w_store w)) (w_sess w)).

Definition world_inv (w : World) : Prop :=
  store_wf (w_store w) /\ forall sid s, w_sess w !! sid = Some s -> sess_wf (w_store w) s.

(** ** The invariant *)
Lemma store_wf_new : store_wf New.
Proof.
  split; simpl; intros *; rewrite ?lookup_empty; try done; by intros [].
Qed.

Lemma is_Some_insert_l {A} (m : gmap loc A) k a l : is_Some (m !! l) -> is_Some (<[k := a]> m !! l).
Proof. intros H. apply is_Some_insert. by right. Qed.

(** A user's table with its INBOX, both new. *)
Lemma NewUserData_wf st ul st' :
  store_wf st -> NewUserData st = (ul, st') ->
  store_wf st' /\ (forall s, sess_wf st s -> sess_wf st' s) /\ is_Some (tables st' !! ul) /\
  users st' = users st /\ userData st' = userData st.
Proof.
  intros Hst. unfold NewUserData, alloc_box, alloc_table. cbn. intros [= <- <-].
  set (l := fresh st).
  assert (forall k, is_Some (boxes st !! k) -> k <> l) as Hold.
  { intros k Hk. pose proof (sw_fresh_box _ Hst k Hk). unfold l. lia. }
  assert (forall ul' u n k, <[S l := {[INBOX := l]}]> (tables st) !! ul' = Some u -> u !! n = Some k ->
    (ul' = S l /\ k = l) \/ (ul' <> S l /\ k <> l /\ tables st !! ul' = Some u)) as Hback.
  { intros ul' u n k. rewrite lookup_insert_Some. intros [[<- <-]|[? Hu]] Hk.
    - apply lookup_singleton_Some in Hk as [_ <-]. by left.
    - right. split_and!; [done| |done]. by eapply Hold, (sw_tables _ Hst). }
  split_and!; try done.
  - destruct Hst as [H1 H2 H3 H4 H5 H6 H7]. split; simpl; try done.
    + intros k mb. rewrite lookup_insert_Some. intros [[<- <-]|[_ ?]]; [|by eapply H1].
      split; simpl; [lia|done|constructor..].
    + intros k [->|?%H2]%is_Some_insert; lia.
    + intros k [->|?%H3]%is_Some_insert; lia.
    + intros ul' u n k Hu Hk. apply is_Some_insert.
      destruct (Hback _ _ _ _ Hu Hk) as [[_ ?]|(_ & _ & ?)]; [by left|right; by eapply H4].
    + intros ul1 ul2 u1 u2 n1 n2 k Ha Hb Hk1 Hk2.
      destruct (Hback _ _ _ _ Ha Hk1) as [[? ?]|(? & ? & ?)], (Hback _ _ _ _ Hb Hk2) as [[? ?]|(? & ? & ?)];
        [congruence|done|done|by eapply H5].
    + intros n k ?%H6. by apply is_Some_insert_l.
  - intros s [Ha Hb Hc Hd]. split; simpl; [| |done|].
    + intros k ?%Ha. by apply is_Some_insert_l.
    + intros k ?%Hb. by apply is_Some_insert_l.
    + intros k ul1 ul' u' n Hk Hud Hu' Hn.
      destruct (Hback _ _ _ _ Hu' Hn) as [[? ?]|(? & ? & ?)]; [by apply Hb, Hold in Hk|by eapply Hd].
  - apply is_Some_insert. by left.
Qed.

Lemma AddUser_wf username password st :
  store_wf st ->
  store_wf (AddUser username password st) /\
  forall s, sess_wf st s -> sess_wf (AddUser username password st) s.
Proof.
  intros Hst. unfold AddUser. cbn [userData].
  set (st0 := mkStore (boxes st) (tables st) (fresh st) (<[username := password]> (users st))
    (userData st) (ticks st)).
  assert (forall n p (m : gmap bytes bytes), is_Some (<[username := p]> m !! n) ->
    n = username \/ is_Some (m !! n)) as Hins.
  { intros n p m. destruct (decide (username = n)) as [->|]; [by left|].
    rewrite lookup_insert_ne by done. by right. }
  destruct (userData st !! username) as [ul|] eqn:E.
  - split; [|by intros s []]. destruct Hst. split; simpl; try done.
    intros n [->|?]%Hins; [by rewrite E|by auto].
  - destruct (NewUserData st) as [ul st1] eqn:E1.
    destruct (NewUserData_wf st ul st1 Hst E1) as (Hwf & Hsess & Hul & Hu & Hd).
    assert (NewUserData st0 = (ul, mkStore (boxes st1) (tables st1) (fresh st1)
      (<[username := password]> (users st1)) (userData st1) (ticks st1))) as ->.
    { unfold NewUserData, alloc_box, alloc_table in *. cbn in *. by injection E1 as <- <-. }
    cbn. split.
    + destruct Hwf as [? ? ? ? ? Hdata Husers]. split; simpl; try done.
      * intros n k. rewrite lookup_insert_Some. intros [[<- <-]|[_ ?]]; [done|by eauto].
      * intros n [->|?%Husers]%Hins; [rewrite lookup_insert_eq; by eexists|].
        destruct (decide (username = n)) as [->|]; [rewrite lookup_insert_eq; by eexists|].
        by rewrite lookup_insert_ne.
    + intros s Hs. apply Hsess in Hs as []. by split.
Qed.

Lemma RemoveUser_wf username st :
  store_wf st ->
  store_wf (RemoveUser username st) /\ forall s, sess_wf st s -> sess_wf (RemoveUser username st) s.
Proof.
  intros [? ? ? ? ? Hdata Husers]. split; [|by intros s []]. split; simpl; try done.
  - intros n k. rewrite lookup_delete_Some. intros [_ ?]. by eapply Hdata.
  - intros n. destruct (decide (username = n)) as [->|].
    + rewrite lookup_delete_eq. by intros [].
    + rewrite !lookup_delete_ne by done. apply Husers.
Qed.

Lemma op_inv w sid s op :
  world_inv w -> w_sess w !! sid = Some s -> op_ok op s -> room op (mkMem (w_store w) s) ->
  let m := (run op (mkMem (w_store w) s)).2 in
  world_inv (mkWorld (m_store m) (<[sid := m_sess m]> (w_sess w))).
Proof.
  intros [Hst Hss] Hs Hok Hroom m. pose proof (Hss sid s Hs) as Hsw.
  assert (store_wf (m_store m) /\ forall s', sess_wf (w_store w) s' -> sess_wf (m_store m) s') as [Hst' Hmono].
  { pose proof (run_op_preserved lookupName clock ord op (mkMem (w_store w) s) Hst Hsw Hroom) as Hp.
    cbn [m_sess m_store] in Hp. fold m in Hp. destruct (s_userData s) as [ul|].
    - split; [apply Hp|apply (pr_sess _ _ _ Hp)].
    - by rewrite Hp. }
  split; [done|]. cbn [w_sess w_store]. intros sid' s'. rewrite lookup_insert_Some.
  intros [[<- <-]|[_ Hs']]; [|by eapply Hmono, Hss]. apply Hmono.
  eapply sess_step_wf; [done|exact Hsw|]. by apply (run_op_session lookupName clock ord op (mkMem (w_store w) s)).
Qed.

Lemma step_inv w w' : world_inv w -> world_step w w' -> world_inv w'.
Proof.
  intros Hinv Hstep. destruct Hstep as [w sid Hn|w sid s op Hs Hok Hroom m|w u p|w u].
  - destruct Hinv as [Hst Hss]. split; [done|]. intros sid' s'. cbn [w_sess w_store].
    rewrite lookup_insert_Some. intros [[<- <-]|[_ ?]]; [|by eapply Hss].
    split; simpl; try done; by intros [].
  - by apply op_inv.
  - destruct Hinv as [Hst Hss], (AddUser_wf u p (w_store w) Hst) as [H1 H2]. split; [done|].
    intros sid s ?. by eapply H2, Hss.
  - destruct Hinv as [Hst Hss], (RemoveUser_wf u (w_store w) Hst) as [H1 H2]. split; [done|].
    intros sid s ?. by eapply H2, Hss.
Qed.

Definition reachable (w : World) : Prop := rtc world_step world0 w.

Lemma reachable_inv w : reachable w -> world_inv w.
Proof.
  intros H. revert w H. apply (rtc_ind_r world_inv).
  - split; [apply store_wf_new|]. intros sid s. simpl. by rewrite lookup_empty.
  - intros w1 w2 _ Hstep Hw. by eapply step_inv.
Qed.

(** ** How a mailbox evolves

    The UIDVALIDITY stays, UIDNEXT grows, and a message found later with an old
    UID is the message that had it. *)
Record box_evolves (mb mb' : Mailbox) : Prop := {
  be_validity : mb_UIDValidity mb' = mb_UIDValidity mb;
  be_next : mb_UIDNext mb <= mb_UIDNext mb';
  be_msgs msg' : msg' ∈ mb_Messages mb' ->
    (exists msg, msg ∈ mb_Messages mb /\ same_but_flags msg msg') \/ mb_UIDNext mb <= UID msg';
}.

Definition boxes_evolve (st st' : Store) : Prop :=
  forall l mb, boxes st !! l = Some mb -> exists mb', boxes st' !! l = Some mb' /\ box_evolves mb mb'.

Lemma box_evolves_refl mb : box_evolves mb mb.
Proof. split; [done|lia|]. intros msg' H. left. exists msg'. split; [done|apply same_refl]. Qed.

Lemma box_evolves_trans mb1 mb2 mb3 :
  box_evolves mb1 mb2 -> box_evolves mb2 mb3 -> box_evolves mb1 mb3.
Proof.
  intros [H1 H2 H3] [H1' H2' H3']. split; [congruence|lia|]. intros m3 Hm3.
  destruct (H3' m3 Hm3) as [(m2 & Hm2 & Hs2)|?]; [|right; lia].
  destruct (H3 m2 Hm2) as [(m1 & Hm1 & Hs1)|Hlt].
  - left. exists m1. split; [done|by eapply same_trans].
  - right. destruct Hs2 as [<- _]. done.
Qed.

Lemma box_step_evolves mb mb' : mailbox_wf mb -> box_step mb mb' -> box_evolves mb mb'.
Proof.
  intros Hwf Hs. destruct Hs as [mb b|mb t body flags date Hn|mb uids|mb msgs HF|mb n].
  - by destruct (box_evolves_refl mb).
  - pose proof (wf_next _ Hwf). split; simpl; [done|rewrite u32_small; lia|].
    intros m' [Hm'|Hm'%list_elem_of_singleton]%elem_of_app; [|right; subst m'; simpl; lia].
    left. exists m'. split; [done|apply same_refl].
  - assert (forall i l, (expunge_loop i uids l).2 `sublist_of` l) as Hsub.
    { intros i l. revert i. induction l as [|m l IH]; intros i; cbn [expunge_loop]; [constructor|].
      specialize (IH (i + 1)). destruct (expunge_loop (i + 1) uids l) as [e r]. simpl in *.
      repeat case_match; simpl; by constructor. }
    specialize (Hsub 0 (mb_Messages mb)). unfold Expunge.
    destruct (expunge_loop 0 uids (mb_Messages mb)) as [e r]. simpl in *.
    split; simpl; [done|lia|]. intros m' Hm'. left. exists m'. split; [|apply same_refl].
    by eapply sublist_subseteq.
  - split; simpl; [done|lia|]. intros m' Hm'. left.
    apply list_elem_of_lookup in Hm' as [i Hi].
    destruct (Forall2_lookup_r _ _ _ _ _ HF Hi) as (m & Hm & ?). exists m. split; [|done].
    by eapply list_elem_of_lookup_2.
  - by destruct (box_evolves_refl mb).
Qed.

Lemma boxes_evolve_refl st : boxes_evolve st st.
Proof. intros l mb ?. exists mb. split; [done|apply box_evolves_refl]. Qed.
Lemma boxes_evolve_trans st1 st2 st3 :
  boxes_evolve st1 st2 -> boxes_evolve st2 st3 -> boxes_evolve st1 st3.
Proof.
  intros H H' l mb Hl. destruct (H l mb Hl) as (mb2 & H2 & ?), (H' l mb2 H2) as (mb3 & ? & ?).
  exists mb3. split; [done|by eapply box_evolves_trans].
Qed.
Lemma boxes_evolve_alloc st mb0 :
  store_wf st -> boxes_evolve st (alloc_box mb0 st).2.
Proof.
  intros Hst l mb Hl. exists mb. split; [|apply box_evolves_refl]. simpl.
  rewrite lookup_insert_ne; [done|]. intros <-.
  pose proof (sw_fresh_box _ Hst (fresh st) ltac:(eauto)). lia.
Qed.

Lemma eff_evolves ul sel st st' : store_wf st -> eff ul sel st st' -> boxes_evolve st st'.
Proof.
  intros Hst Heff. destruct Heff as [st|st l mb mb' Hr Hl Hstep|st name Ht|st u Ht Hu];
    [exact (boxes_evolve_refl st)| |exact (boxes_evolve_alloc st _ Hst)|exact (boxes_evolve_refl st)].
  intros l' mb0 Hl'. simpl. destruct (decide (l = l')) as [<-|].
  - rewrite lookup_insert_eq. exists mb'. split; [done|]. simplify_eq.
    apply box_step_evolves; [by eapply (sw_boxes _ Hst)|done].
  - rewrite lookup_insert_ne by done. exists mb0. split; [done|apply box_evolves_refl].
Qed.

Lemma op_evolves w sid s op :
  world_inv w -> w_sess w !! sid = Some s -> op_ok op s -> room op (mkMem (w_store w) s) ->
  boxes_evolve (w_store w) (m_store (run op (mkMem (w_store w) s)).2).
Proof.
  intros [Hst Hss] Hs Hok Hroom. pose proof (Hss sid s Hs) as Hsw.
  destruct (s_userData s) as [ul|] eqn:Eu.
  - pose proof (run_op_effects lookupName clock ord ul op (mkMem (w_store w) s) Hst Hsw Eu Hroom) as He.
    cbn [m_store m_sess] in He. revert He. generalize (m_store (run op (mkMem (w_store w) s)).2).
    intros st' He.
    enough (preserved ul (w_store w) st' /\ boxes_evolve (w_store w) st') by tauto. revert st' He.
    apply (rtc_ind_r (fun st' => preserved ul (w_store w) st' /\ boxes_evolve (w_store w) st')).
    + split; [by apply preserved_refl|apply boxes_evolve_refl].
    + intros st1 st2 _ Heff [Hp He]. split; [by eapply eff_preserved|].
      eapply boxes_evolve_trans; [done|]. by eapply eff_evolves; [apply Hp|].
  - pose proof (run_op_preserved lookupName clock ord op (mkMem (w_store w) s) Hst Hsw Hroom) as Hp.
    cbn [m_store m_sess] in Hp. rewrite Eu in Hp. rewrite Hp. apply boxes_evolve_refl.
Qed.

Lemma AddUser_evolves u p st : store_wf st -> boxes_evolve st (AddUser u p st).
Proof.
  intros Hst. unfold AddUser. cbn [userData].
  destruct (userData st !! u); [exact (boxes_evolve_refl st)|].
  exact (boxes_evolve_alloc st (set_subscribed true (NewMailbox INBOX)) Hst).
Qed.

Lemma step_evolves w w' : world_inv w -> world_step w w' -> boxes_evolve (w_store w) (w_store w').
Proof.
  intros Hinv Hstep. destruct Hstep as [w sid Hn|w sid s op Hs Hok Hroom m|w u p|w u].
  - apply boxes_evolve_refl.
  - by eapply op_evolves.
  - apply AddUser_evolves, Hinv.
  - exact (boxes_evolve_refl (w_store w)).
Qed.

Lemma steps_evolve w w' :
  world_inv w -> rtc world_step w w' -> boxes_evolve (w_store w) (w_store w').
Proof.
  intros Hinv Hsteps. revert Hinv. induction Hsteps as [w|w1 w2 w3 Hstep _ IH]; intros Hinv.
  - apply boxes_evolve_refl.
  - eapply boxes_evolve_trans; [by apply step_evolves|]. by apply IH, (step_inv w1).
Qed.

(** ** No panics

    An operation panics on an unparsable address, when an envelope is built, or
    on a partial range that wraps around; nothing else makes it panic or hang. *)
Definition fine {A} (r : res A) : Prop := match r with Ok _ | Err _ => True | _ => False end.

Fixpoint uses_sent (c : SearchCriteria) : bool :=
  has_date (sc_SentSince c) || has_date (sc_SentBefore c) || has_date (sc_SentOn c)
  || existsb uses_sent (sc_Not c)
  || existsb (fun pq => uses_sent pq.1 || uses_sent pq.2) (sc_Or c).

Definition safe_op (op : sess_op) : bool :=
  match op with
  | OpSearch _ (Some c) _ => negb (uses_sent c)
  | OpFetch _ o =>
    negb (fo_Envelope o) && forallb (fun sec => bool_decide (Partial sec = None)) (fo_BodySection o)
  | _ => true
  end.

Lemma fine_bind {A B} (r : res A) (k : A -> res B) :
  fine r -> (forall a, fine (k a)) -> fine (a ← r; k a).
Proof. destruct r; cbn; auto. Qed.
Lemma fine_requires b k : fine k -> fine (requires b k).
Proof. by destruct b. Qed.
Lemma fine_fmap {A B} (f : A -> B) (r : res A) : fine r -> fine (f <$> r).
Proof. by destruct r. Qed.

Lemma matches_keys_fine msg n c :
  has_date (sc_SentSince c) || has_date (sc_SentBefore c) || has_date (sc_SentOn c) = false ->
  fine (matches_keys lookupName msg n c).
Proof.
  intros H. unfold matches_keys, sent_matches. rewrite H.
  by repeat apply fine_requires.
Qed.

Lemma match_nots_fine {A} (f : A -> res bool) l :
  Forall (fun a => fine (f a)) l -> fine (match_nots f l).
Proof.
  induction 1 as [|a l Ha _ IH]; [done|]. apply fine_bind; [done|]. intros. by apply fine_requires.
Qed.
Lemma match_ors_fine {A} (f : A -> res bool) l :
  Forall (fun pq => fine (f pq.1) /\ fine (f pq.2)) l -> fine (match_ors f l).
Proof.
  induction 1 as [|[p q] l [Hp Hq] _ IH]; [done|]. apply fine_bind; [done|]. intros b.
  apply fine_bind; [by destruct b|]. intros. by apply fine_requires.
Qed.

Lemma matchesCriteria_fine msg n : forall c,
  uses_sent c = false -> fine (matchesCriteria lookupName msg n c).
Proof.
  fix IH 1. intros c. destruct c as [a1 a2 a3 a4 a5 a6 a7 a8 a9 a10 a11 a12 a13 a14 a15 ors nots ext].
  cbn [uses_sent sc_Not sc_Or]. rewrite !orb_false_iff. intros [[Hd Hn] Ho].
  cbn [matchesCriteria sc_Not sc_Or].
  apply fine_bind; [apply matches_keys_fine; by rewrite !orb_false_iff|]. intros b. apply fine_requires.
  apply fine_bind; [|intros b'; apply fine_requires].
  - apply match_nots_fine. clear -IH Hn. revert Hn. induction nots as [|d l IHl]; cbn [existsb].
    + constructor.
    + rewrite orb_false_iff. intros [Hd Hl]. constructor; [exact (IH d Hd)|exact (IHl Hl)].
  - apply match_ors_fine. clear -IH Ho. revert Ho. induction ors as [|[d e] l IHl]; cbn [existsb].
    + constructor.
    + cbn [fst snd]. rewrite !orb_false_iff. intros [[Hd He] Hl].
      constructor; [exact (conj (IH d Hd) (IH e He))|exact (IHl Hl)].
Qed.

Lemma SearchMessages_fine kind c mb :
  match c with Some c => uses_sent c = false | None => True end ->
  fine (SearchMessages lookupName kind c mb).
Proof.
  intros Hc. unfold SearchMessages. generalize 0. induction (mb_Messages mb) as [|m l IH]; intros i; [done|].
  cbn [search_loop]. apply fine_bind.
  - destruct c; [by apply matchesCriteria_fine|done].
  - intros b. by apply fine_bind.
Qed.

Lemma fetch_loop_fine o ro matches msgs :
  fo_Envelope o = false -> forallb (fun sec => bool_decide (Partial sec = None)) (fo_BodySection o) = true ->
  fine (fetch_loop lookupName o ro matches msgs).1.1.
Proof.
  intros He Hs. revert msgs. induction matches as [|[n msg] l IH]; intros msgs; [done|].
  cbn [fetch_loop]. unfold fetch_one. rewrite He.
  assert (forall m, exists d m', fetch_sections ro m (fo_BodySection o) = (Ok d, m')) as Hf.
  { clear -Hs. induction (fo_BodySection o) as [|sec l IH]; intros m; cbn [fetch_sections]; [by eauto|].
    cbn [forallb] in Hs. apply andb_true_iff in Hs as [Hp%bool_decide_eq_true Hs]. unfold fetchSection.
    rewrite Hp. match goal with |- context [fetch_sections ro ?m2 l] =>
      destruct (IH Hs m2) as (d & m' & ->) end. simpl. eauto. }
  destruct (Hf msg) as (d & m' & ->). simpl.
  specialize (IH (put_msg n m' msgs)). by destruct (fetch_loop _ _ _ _ _) as [[]].
Qed.

Lemma with_mailbox_fine {A} mailbox (k : loc -> Mailbox -> Op A) m :
  store_wf (m_store m) -> (forall l mb, fine (k l mb m).1) -> fine (with_mailbox mailbox k m).1.
Proof.
  intros Hst Hk. unfold with_mailbox, with_user. destruct (s_userData (m_sess m)) as [ul|]; [|done].
  destruct (GetMailbox _ mailbox) as [l|] eqn:E; [|done].
  apply getMailboxLocked_Some in E as [n (u & Hu & Hn)%table_Some].
  destruct (sw_tables _ Hst _ _ _ _ Hu Hn) as [mb ->]. apply Hk.
Qed.
Lemma lift_store_fine f m : fine (lift_store f m).1.
Proof. unfold lift_store. by destruct (f (m_store m)) as [[]]. Qed.
Lemma with_user_lift_fine (f : loc -> Store -> option error * Store) m :
  fine (with_user (fun ul => lift_store (f ul)) m).1.
Proof. unfold with_user. destruct (s_userData (m_sess m)); [apply lift_store_fine|done]. Qed.

Lemma copy_loop_fine dest matches src dst m :
  is_Some (boxes (m_store m) !! dest) -> fine (copy_loop clock dest matches src dst m).1.
Proof.
  revert src dst m. induction matches as [|[n msg] l IH]; intros src dst m [mb Hmb]; [done|].
  cbn [copy_loop]. unfold mbind, st_bind, st_get, put_box.
  destruct (IsZero (InternalDate msg)); unfold now, mret, st_ret, set_store; cbn [m_store boxes tick];
    rewrite Hmb; match goal with |- context [CopyMessageTo ?t msg mb] =>
      destruct (CopyMessageTo t msg mb) as [u mb'] end;
    apply IH; cbn [m_store boxes upd_box]; rewrite lookup_insert_eq; eauto.
Qed.

Lemma Copy_fine ns dest m :
  store_wf (m_store m) -> sess_wf (m_store m) (m_sess m) -> fine (Copy clock ns dest m).1.
Proof.
  intros Hst Hs. unfold Copy, with_selected. destruct (selectedMailbox (m_sess m)) as [l|] eqn:E; [|done].
  destruct (ss_sel _ _ Hs l E) as [mb ->].
  destruct (ss_auth _ _ Hs) as [ul ->]; [by rewrite E|].
  destruct (GetMailbox _ dest) as [dl|] eqn:Ed; [|done].
  apply getMailboxLocked_Some in Ed as [n (u & Hu & Hn)%table_Some].
  destruct (sw_tables _ Hst _ _ _ _ Hu Hn) as [dmb Hd]. rewrite Hd. unfold mbind, st_bind.
  pose proof (copy_loop_fine dl (MatchesMessages ns (kind_of ns) mb) [] [] m ltac:(eauto)) as Hc.
  by destruct (copy_loop clock dl _ [] [] m) as [[] ?].
Qed.

Lemma discard_fine {A} (r : res A * Mem) : fine r.1 -> fine (discard r).1.
Proof. apply fine_fmap. Qed.

Lemma run_op_fine op m :
  store_wf (m_store m) -> sess_wf (m_store m) (m_sess m) -> safe_op op = true -> fine (run op m).1.
Proof.
  intros Hst Hs Hsafe. destruct op; cbn [run_op]; try apply discard_fine; try done;
    try (by apply with_mailbox_fine); try apply with_user_lift_fine.
  - unfold Login. repeat case_match; done.
  - unfold Delete, with_user. destruct (s_userData (m_sess m)); [apply lift_store_fine|done].
  - unfold List_. repeat case_match; done.
  - apply with_mailbox_fine; [done|]. intros l mb. unfold mbind, st_bind, put_box, now.
    repeat case_match; simplify_eq; done.
  - unfold Expunge_. destruct (selectedMailbox (m_sess m)) as [l|] eqn:E; [|done].
    destruct (ss_sel _ _ Hs l E) as [mb ->]. by destruct (Expunge uids mb).
  - unfold Search, with_selected. destruct (selectedMailbox (m_sess m)) as [l|] eqn:E; [|done].
    destruct (ss_sel _ _ Hs l E) as [mb ->]. apply fine_fmap, SearchMessages_fine.
    destruct criteria; [|done]. by apply negb_true_iff.
  - unfold Fetch. destruct (selectedMailbox (m_sess m)) as [l|] eqn:E; [|done].
    destruct (ss_sel _ _ Hs l E) as [mb ->]. apply andb_true_iff in Hsafe as [He%negb_true_iff Hp].
    pose proof (fetch_loop_fine options (selectedReadOnly (m_sess m))
      (MatchesMessages numSet (kind_of numSet) mb) (mb_Messages mb) He Hp) as Hf.
    by destruct (fetch_loop _ _ _ _ _) as [[r msgs] calls].
  - unfold Store_. destruct (selectedMailbox (m_sess m)) as [l|] eqn:E; [|done].
    case_if; [done|]. by destruct (ss_sel _ _ Hs l E) as [mb ->].
  - by apply Copy_fine.
Qed.

(** ** The theorems *)

Lemma same_uid_same mb m m' :
  mailbox_wf mb -> m ∈ mb_Messages mb -> m' ∈ mb_Messages mb -> UID m = UID m' -> m = m'.
Proof.
  intros Hwf Hm Hm' Hu. apply list_elem_of_lookup in Hm as [i Hi], Hm' as [j Hj].
  pose proof (ascending_NoDup _ (wf_asc _ Hwf)) as Hnd.
  assert (i = j) as ->; [|congruence].
  eapply (NoDup_lookup _ _ _ (UID m) Hnd); rewrite list_lookup_fmap; [by rewrite Hi|by rewrite Hj, Hu].
Qed.

(** [C7] In every world that sessions, logins and user administration can reach
    in any interleaving, the store is well formed: UIDs ascend strictly below
    UIDNEXT in every mailbox, sizes are those of the bodies, no mailbox is in
    the tables of two users, every user that can log in has a table; and what a
    session has selected exists and belongs to no other user. *)
Theorem mem_invariant (w : World) : reachable w -> world_inv w.
Proof. apply reachable_inv. Qed.


(** [C9] Users are isolated: an operation of a session logged in as one user
    leaves the tables, the mailboxes and the credentials of every other user
    as they were; an operation of a session that is not logged in changes
    nothing at all in the store. *)
Theorem user_isolation (w : World) (sid : nat) (s : Session) (op : sess_op) :
  reachable w -> w_sess w !! sid = Some s -> op_ok op s -> room op (mkMem (w_store w) s) ->
  let st := w_store w in
  let st' := m_store (run op (mkMem st s)).2 in
  match s_userData s with
  | None => st' = st
  | Some ul =>
    users st' = users st /\ userData st' = userData st /\
    forall ul' u n l, ul' <> ul -> tables st !! ul' = Some u ->
      tables st' !! ul' = Some u /\ (u !! n = Some l -> boxes st' !! l = boxes st !! l)
  end.
Proof.
  intros [Hst Hss]%reachable_inv Hs Hok Hroom st st'. pose proof (Hss sid s Hs) as Hsw.
  pose proof (run_op_preserved lookupName clock ord op (mkMem st s) Hst Hsw Hroom) as Hp.
  cbn [m_store m_sess] in Hp. fold st' in Hp. destruct (s_userData s) as [ul|]; [|done].
  destruct Hp as [_ _ HT HB [Hu Hd]]. split_and!; [done..|]. intros ul' u n l Hne Hl. split.
  - by rewrite HT.
  - intros Hn. by eapply HB.
Qed.


End World.

(** ** A concrete world

    Two users, one session logged in with a mailbox selected. *)
Definition demo_clock (n : nat) : Time := time_zero.
Definition demo_names : bytes -> Z -> option Z := fun _ _ => None.
Definition demo_ord (n : nat) (l : list bytes) : list bytes := l.
Abbreviation demo_step := (world_step (U := basic_unicode) demo_names demo_clock demo_ord).
Abbreviation demo_run := (run_op (U := basic_unicode) demo_names demo_clock demo_ord).

Definition demo1 : World :=
  mkWorld (AddUser "bob" "b" (AddUser "alice" "a" New)) {[ 0%nat := session0 ]}.
Definition demo_op (op : sess_op) (w : World) : World :=
  match w_sess w !! 0%nat with
  | Some s => let m := (demo_run op (mkMem (w_store w) s)).2 in
              mkWorld (m_store m) (<[0%nat := m_sess m]> (w_sess w))
  | None => w
  end.
Definition demo2 : World := demo_op (OpLogin "alice" "a") demo1.
Definition demo3 : World := demo_op (OpSelect "inbox" None) demo2.
Definition demo4 : World := demo_op (OpAppend "INBOX" "From: a@b" None) demo3.

Lemma room_small op m :
  bool_decide (map_Forall (fun _ mb => mb_UIDNext mb + Z.of_nat (appends op m) < 2 ^ 32)
    (boxes (m_store m))) = true ->
  room op m.
Proof. by intros H%bool_decide_eq_true. Qed.

Lemma demo_op_step op w s :
  w_sess w !! 0%nat = Some s -> op_ok op s ->
  bool_decide (map_Forall (fun _ mb => mb_UIDNext mb + Z.of_nat (appends op (mkMem (w_store w) s)) < 2 ^ 32)
    (boxes (w_store w))) = true ->
  demo_step w (demo_op op w).
Proof.
  intros Hs Hok Hroom. unfold demo_op. rewrite Hs.
  apply (ws_op _ _ _ w 0%nat s op Hs Hok). by apply room_small.
Qed.

Lemma demo1_reachable : rtc demo_step world0 demo1.
Proof.
  eapply rtc_l; [apply (ws_add _ _ _ world0 "alice" "a")|].
  eapply rtc_l; [apply (ws_add _ _ _ _ "bob" "b")|].
  eapply rtc_l; [apply (ws_connect _ _ _ _ 0%nat); reflexivity|]. apply rtc_refl.
Qed.
Lemma demo3_reachable : rtc demo_step world0 demo3.
Proof.
  etrans; [apply demo1_reachable|].
  eapply rtc_l; [eapply (demo_op_step (OpLogin "alice" "a") demo1); by vm_compute|].
  eapply rtc_l; [eapply (demo_op_step (OpSelect "inbox" None) demo2); by vm_compute|]. apply rtc_refl.
Qed.
Lemma demo34 : rtc demo_step demo3 demo4.
Proof.
  eapply rtc_l; [eapply (demo_op_step (OpAppend "INBOX" "From: a@b" None) demo3); by vm_compute|].
  apply rtc_refl.
Qed.
Lemma demo4_reachable : rtc demo_step world0 demo4.
Proof. etrans; [apply demo3_reachable|apply demo34]. Qed.

Lemma mem_invariant_witness : world_inv demo4.
Proof. exact (mem_invariant (U := basic_unicode) _ _ _ demo4 demo4_reachable). Defined.
Lemma user_isolation_witness :
  exists s, w_sess demo3 !! 0%nat = Some s /\ s_userData s = Some 1%nat /\
  let st' := m_store (demo_run (OpRename "INBOX" "old") (mkMem (w_store demo3) s)).2 in
  tables st' !! 3%nat = tables (w_store demo3) !! 3%nat /\
  boxes st' !! 2%nat = boxes (w_store demo3) !! 2%nat.
Proof.
  destruct (w_sess demo3 !! 0%nat) as [s|] eqn:E; [|by vm_compute in E].
  exists s. split; [reflexivity|].
  assert (s_userData s = Some 1%nat) as Hu by (vm_compute in E; by injection E as <-).
  split; [exact Hu|].
  assert (tables (w_store demo3) !! 3%nat = Some {[ INBOX := 2%nat ]}) as Ht
    by (apply (bool_decide_unpack _); by vm_compute).
  pose proof (user_isolation (U := basic_unicode) demo_names demo_clock demo_ord demo3 0%nat s
    (OpRename "INBOX" "old") demo3_reachable E I) as H.
  cbn zeta in H. rewrite Hu in H. destruct H as (_ & _ & H).
  { apply room_small. clear. by vm_compute. }
  destruct (H 3%nat {[ INBOX := 2%nat ]} INBOX 2%nat ltac:(lia) Ht) as [HT HB]. cbn zeta.
  split; [by rewrite Ht|apply HB]. by rewrite lookup_singleton_eq.
Defined.
