(* ===== verification/MemProps.v ===== *)
(** * What the session operations do

    STORE, FETCH, COPY, LIST and RENAME of the in-memory backend, each as a
    statement about the whole effect of a successful call. *)

From S2P Require Import Prelude Utf8 GoStrings GoTime NumSet Imap Message Mailbox MailboxFacts.
From S2P Require Import MemStore MemSession MemFacts MemWorld.

Section Props.
Context {U : Unicode} (lookupName : bytes -> Z -> option Z).
Context (clock : nat -> Time).

(** The message at index [k] is named by the set. *)
Definition named (ns : NumSet) (mb : Mailbox) (k : nat) (msg : Message) : bool :=
  numSetContains ns
    match kind_of ns with NumKindSeq => Z.of_nat k + 1 | NumKindUID => UID msg end
    (len (mb_Messages mb)).

(** The messages with [g] applied to those the set names. *)
Definition on_named (ns : NumSet) (mb : Mailbox) (g : Message -> Message) : list Message :=
  imap (fun k msg => if named ns mb k msg then g msg else msg) (mb_Messages mb).

Definition put_all (g : Message -> Message) (matches : list (Z * Message)) (msgs : list Message) :=
  foldl (fun msgs '(n, msg) => put_msg n (g msg) msgs) msgs matches.

Lemma put_all_loop g ns kind total pre msgs :
  len (pre ++ msgs) < 2 ^ 32 ->
  put_all g (matches_loop (len pre) total ns kind msgs) (pre ++ msgs) =
  pre ++ imap (fun k msg =>
    if numSetContains ns match kind with NumKindSeq => len pre + Z.of_nat k + 1 | NumKindUID => UID msg end total
    then g msg else msg) msgs.
Proof.
  revert pre. induction msgs as [|msg msgs IH]; intros pre Hlen; [done|].
  cbn [matches_loop imap]. rewrite len_app, len_cons in Hlen. pose proof (len_nonneg pre).
  pose proof (len_nonneg msgs). rewrite (u32_small (len pre + 1)) by lia.
  replace (len pre + Z.of_nat 0 + 1) with (len pre + 1) by lia.
  assert (forall msg0, put_all g (matches_loop (len pre + 1) total ns kind msgs) (pre ++ msg0 :: msgs) =
    pre ++ msg0 :: imap (fun k msg => if numSetContains ns
      match kind with NumKindSeq => len pre + Z.of_nat (S k) + 1 | NumKindUID => UID msg end total
      then g msg else msg) msgs) as Hrest.
  { intros msg0. specialize (IH (pre ++ [msg0])). 
    replace (len (pre ++ [msg0])) with (len pre + 1) in IH by by rewrite len_app.
    rewrite <- !(assoc_L (++)) in IH. simpl in IH.
    rewrite IH by (rewrite len_app, len_cons; lia). do 2 f_equal. apply imap_ext. intros k m _.
    destruct kind; [|done]. by replace (len pre + 1 + Z.of_nat k + 1) with (len pre + Z.of_nat (S k) + 1) by lia. }
  case_if; [|by apply Hrest].
  cbn [put_all foldl]. fold (put_all g). unfold put_msg at 2.
  replace (Z.to_nat (len pre + 1 - 1)) with (length pre + 0)%nat by (unfold len; lia).
  rewrite insert_app_r. apply Hrest.
Qed.

Lemma put_all_named g ns mb :
  mailbox_wf mb ->
  put_all g (MatchesMessages ns (kind_of ns) mb) (mb_Messages mb) = on_named ns mb g.
Proof.
  intros Hwf. pose proof (wf_len _ Hwf) as Hlen. unfold MatchesMessages, on_named, named.
  rewrite u32_small by (pose proof (len_nonneg (mb_Messages mb)); lia).
  pose proof (put_all_loop g ns (kind_of ns) (len (mb_Messages mb)) [] (mb_Messages mb) Hlen) as H.
  exact H.
Qed.

(** ** STORE *)

(** How many of the flags are [g], up to case. *)
Definition fold_count (g : bytes) (flags : list bytes) : nat :=
  length (filter (fun f => EqualFold f g = true) flags).

Lemma fold_count_cons g f flags :
  fold_count g (f :: flags) = ((if EqualFold f g then 1 else 0) + fold_count g flags)%nat.
Proof. unfold fold_count. rewrite filter_cons. by destruct (EqualFold f g). Qed.

Lemma cut_flag_count f g flags :
  fold_count g (cut_flag f flags) = (fold_count g flags - (if EqualFold f g then 1 else 0))%nat.
Proof.
  induction flags as [|h flags IH]; cbn [cut_flag]; [by case_if|]. rewrite fold_count_cons.
  destruct (EqualFold h f) eqn:E.
  - rewrite (EqualFold_cong h f g E). destruct (EqualFold f g); lia.
  - rewrite fold_count_cons, IH. destruct (EqualFold h g) eqn:Eg, (EqualFold f g) eqn:Ef; try lia.
    exfalso. rewrite EqualFold_sym in Ef. pose proof (EqualFold_trans h g f Eg Ef). congruence.
Qed.

Lemma store_del_count g flags msg :
  fold_count g (Flags (foldl (fun m f => RemoveFlag f m) msg flags)) =
  (fold_count g (Flags msg) - fold_count g flags)%nat.
Proof.
  revert msg. induction flags as [|f flags IH]; intros msg; cbn [foldl]; [by rewrite Nat.sub_0_r|].
  rewrite IH. cbn [RemoveFlag set_flags Flags]. rewrite cut_flag_count, fold_count_cons.
  destruct (EqualFold f g); lia.
Qed.

Lemma HasFlag_SetFlag f g msg : HasFlag (SetFlag f msg) g = HasFlag msg g || EqualFold f g.
Proof.
  unfold SetFlag, HasFlag. destruct (has_flag (Flags msg) f) eqn:E.
  - destruct (EqualFold f g) eqn:Ef; [|by rewrite orb_false_r]. rewrite orb_true_r.
    unfold has_flag in *. apply existsb_exists in E as (h & Hin & Hh). apply existsb_exists.
    exists h. split; [done|]. by eapply EqualFold_trans.
  - cbn. unfold has_flag. rewrite existsb_app. cbn. by rewrite orb_false_r.
Qed.

Lemma store_add_has g flags msg :
  HasFlag (foldl (fun m f => SetFlag f m) msg flags) g = HasFlag msg g || has_flag flags g.
Proof.
  revert msg. induction flags as [|f flags IH]; intros msg; cbn [foldl]; [by rewrite orb_false_r|].
  rewrite IH, HasFlag_SetFlag. cbn. by rewrite orb_assoc.
Qed.

(** What a session that selected the mailbox at [l] works on. *)
Record selects (m : Mem) (l : loc) (mb : Mailbox) : Prop := {
  sel_loc : selectedMailbox (m_sess m) = Some l;
  sel_box : boxes (m_store m) !! l = Some mb;
  sel_wf : mailbox_wf mb;
}.

(** The state with the messages of the selected mailbox replaced. *)
Definition with_messages (l : loc) (mb : Mailbox) (msgs : list Message) (m : Mem) : Mem :=
  set_store (upd_box l (set_messages msgs mb) (m_store m)) m.


(** ** FETCH *)

(** Fetching a section that is not peeked at marks the message, unless the
    mailbox was opened read-only. *)
Definition marks_seen (o : FetchOptions) (readOnly : bool) : bool :=
  existsb (fun sec => negb (Peek sec)) (fo_BodySection o) && negb readOnly.
Definition mark (b : bool) (msg : Message) : Message := if b then SetFlag FlagSeen msg else msg.

Lemma SetFlag_idem f msg : SetFlag f (SetFlag f msg) = SetFlag f msg.
Proof.
  unfold SetFlag at 1. rewrite HasFlag_SetFlag, EqualFold_refl, orb_true_r. done.
Qed.
Lemma mark_mark a b msg : mark a (mark b msg) = mark (b || a) msg.
Proof. destruct a, b; simpl; [apply SetFlag_idem|done..]. Qed.
Lemma fetchSection_mark b msg sec : fetchSection (mark b msg) sec = fetchSection msg sec.
Proof. destruct b; [|done]. unfold mark, SetFlag. by case_if. Qed.

(** The data of the sections, as they are asked for. *)
Definition sections_of (msg : Message) (secs : list FetchItemBodySection)
    (out : list (FetchItemBodySection * bytes)) : Prop :=
  Forall2 (fun sec '(sec', data) => sec' = sec /\ fetchSection msg sec = Ok data) secs out.

Lemma fetch_sections_Ok ro msg secs out msg' :
  fetch_sections ro msg secs = (Ok out, msg') ->
  sections_of msg secs out /\
  msg' = mark (existsb (fun sec => negb (Peek sec)) secs && negb ro) msg.
Proof.
  revert msg out. unfold sections_of. induction secs as [|sec secs IH]; intros msg out; cbn [fetch_sections].
  { intros [= <- <-]. split; [constructor|done]. }
  destruct (fetchSection msg sec) as [data| | |] eqn:E; try done.
  change (if negb (Peek sec) && negb ro then SetFlag FlagSeen msg else msg)
    with (mark (negb (Peek sec) && negb ro) msg).
  destruct (fetch_sections ro _ secs) as [[out1| | |] msg1] eqn:E1; try done.
  intros [= <- <-]. apply IH in E1 as [HF ->]. split.
  - constructor; [done|]. eapply Forall2_impl; [|exact HF]. intros sec' [sec1 d] [? Hd]. split; [done|].
    by rewrite fetchSection_mark in Hd.
  - rewrite mark_mark. f_equal. cbn [existsb]. by rewrite andb_orb_distrib_l.
Qed.

(** What is reported of one message: its state before the fetch. *)
Record fetched (o : FetchOptions) (n : Z) (msg : Message) (d : FetchMessageData) : Prop := {
  ft_seq : fd_SeqNum d = n;
  ft_flags : fd_Flags d = if fo_Flags o then Some (Flags msg) else None;
  ft_uid : fd_UID d = if fo_UID o then UID msg else 0;
  ft_size : fd_RFC822Size d = if fo_RFC822Size o then Size msg else 0;
  ft_date : fd_InternalDate d = if fo_InternalDate o then InternalDate msg else time_zero;
  ft_env : if fo_Envelope o then exists e, ParseEnvelope lookupName msg = Ok e /\ fd_Envelope d = Some e
           else fd_Envelope d = None;
  ft_sections : sections_of msg (fo_BodySection o) (fd_BodySection d);
}.

Lemma fetch_one_Ok o ro n msg d msg' :
  fetch_one lookupName o ro n msg = (Ok d, msg') ->
  fetched o n msg d /\ msg' = mark (marks_seen o ro) msg.
Proof.
  unfold fetch_one. destruct (fo_Envelope o) eqn:Ee.
  - destruct (ParseEnvelope lookupName msg) as [e| | |] eqn:Ep; try done. cbn.
    destruct (fetch_sections ro msg (fo_BodySection o)) as [[out| | |] msg1] eqn:E; try done.
    intros [= <- <-]. apply fetch_sections_Ok in E as [? ->]. split; [|done].
    split; rewrite ?Ee; simpl; eauto.
  - destruct (fetch_sections ro msg (fo_BodySection o)) as [[out| | |] msg1] eqn:E; try done.
    intros [= <- <-]. apply fetch_sections_Ok in E as [? ->]. split; [|done].
    split; rewrite ?Ee; simpl; eauto.
Qed.

Lemma fetch_loop_Ok o ro matches msgs msgs' calls :
  fetch_loop lookupName o ro matches msgs = ((Ok tt, msgs'), calls) ->
  msgs' = put_all (mark (marks_seen o ro)) matches msgs /\
  Forall2 (fun '(n, msg) d => fetched o n msg d) matches calls.
Proof.
  revert msgs calls. induction matches as [|[n msg] matches IH]; intros msgs calls; cbn [fetch_loop].
  { intros [= <- <-]. by split. }
  destruct (fetch_one lookupName o ro n msg) as [[d| | |] msg1] eqn:E; try done.
  apply fetch_one_Ok in E as [Hd ->].
  destruct (fetch_loop lookupName o ro matches _) as [[r msgs1] calls1] eqn:EL.
  intros [= -> -> <-]. apply IH in EL as [-> HF]. split; [done|by constructor].
Qed.


(** ** COPY *)

(** A copy: the same mail under a new UID and without the \Recent flag. *)
Record copy_of (msg new : Message) : Prop := {
  cp_body : Body new = Body msg;
  cp_size : Size new = len (Body msg);
  cp_flags : Flags new = cut_flag FlagRecent (Flags msg);
  cp_date : IsZero (InternalDate msg) = false -> InternalDate new = InternalDate msg;
}.
Definition add_msgs (news : list Message) (mb : Mailbox) : Mailbox :=
  mkMailbox (mb_Name mb) (mb_Messages mb ++ news) (mb_Flags mb) (mb_PermanentFlags mb)
    (mb_UIDNext mb + Z.of_nat (length news)) (mb_UIDValidity mb) (mb_Subscribed mb).

Lemma seqZ_cons_S n k : seqZ n (Z.of_nat (S k)) = n :: seqZ (n + 1) (Z.of_nat k).
Proof. rewrite seqZ_cons by lia. do 2 f_equal; lia. Qed.

Lemma copy_loop_spec dest matches : forall src dst m mb,
  boxes (m_store m) !! dest = Some mb -> 0 <= mb_UIDNext mb ->
  mb_UIDNext mb + Z.of_nat (length matches) < 2 ^ 32 ->
  exists news m',
    copy_loop clock dest matches src dst m =
      (Ok (src ++ (UID <$> matches.*2), dst ++ (UID <$> news)), m') /\
    boxes (m_store m') = <[dest := add_msgs news mb]> (boxes (m_store m)) /\
    tables (m_store m') = tables (m_store m) /\ m_sess m' = m_sess m /\
    Forall2 copy_of matches.*2 news /\
    UID <$> news = seqZ (mb_UIDNext mb) (Z.of_nat (length news)).
Proof.
  induction matches as [|[n msg] matches IH]; intros src dst m mb Hb Hnn Hroom.
  { exists [], m. cbn [copy_loop fmap list_fmap]. rewrite !app_nil_r. split_and!; try done.
    rewrite insert_id; [done|]. rewrite Hb. unfold add_msgs. destruct mb. cbn. rewrite app_nil_r.
    do 2 f_equal. lia. }
  cbn [copy_loop length] in *.
  set (t := if IsZero (InternalDate msg) then now clock else mret time_zero).
  assert (exists tm m1, t m = (Ok tm, m1) /\ boxes (m_store m1) = boxes (m_store m) /\
    tables (m_store m1) = tables (m_store m) /\ m_sess m1 = m_sess m) as (tm & m1 & Ht & Hbox & Htab & Hsess).
  { unfold t. destruct (IsZero (InternalDate msg)); by eexists _, _. }
  rewrite (st_bind_ok _ _ _ _ _ Ht). unfold mbind at 1, st_bind at 1. cbn [st_get].
  rewrite <- Hbox in Hb. rewrite Hb. unfold CopyMessageTo.
  set (new := mkMessage (mb_UIDNext mb) (cut_flag FlagRecent (CopyFlags msg))
    (if IsZero (InternalDate msg) then tm else InternalDate msg) (len (Body msg)) (Body msg)).
  cbn [Append]. fold new. rewrite (u32_small (mb_UIDNext mb + 1)) by lia.
  match goal with |- context [put_box dest ?b] => set (mb1 := b) end.
  set (m2 := set_store (upd_box dest mb1 (m_store m1)) m1).
  rewrite (st_bind_ok (put_box dest mb1) _ m1 m2 tt eq_refl).
  destruct (IH (src ++ [UID msg]) (dst ++ [UID new]) m2 mb1) as
    (news & m' & Hrun & Hbox' & Htab' & Hsess' & HF & Huids); [apply lookup_insert_eq|simpl; lia|simpl; lia|].
  exists (new :: news), m'. rewrite Hrun. cbn [fmap list_fmap length fst snd] in *.
  rewrite <- !(assoc_L (++)). split_and!; [done|..].
  - rewrite Hbox'. cbn [m2 set_store m_store upd_box boxes]. rewrite insert_insert_eq, Hbox. f_equal.
    unfold add_msgs, mb1. cbn. rewrite <- (assoc_L (++)). f_equal. lia.
  - by rewrite Htab'.
  - by rewrite Hsess'.
  - constructor; [|done]. split; try done. cbn. by intros ->.
  - rewrite seqZ_cons_S. f_equal. exact Huids.
Qed.

(** COPY to an existing mailbox with UIDs left appends to it copies of
    exactly the messages the set names, in order, under the next UIDs, and
    changes no other mailbox; the answer pairs the old UIDs with the new. *)
Theorem copy_spec (ns : NumSet) (dest : bytes) (m : Mem) (l dl ul : loc) (mb dmb : Mailbox) :
  selects m l mb -> s_userData (m_sess m) = Some ul ->
  GetMailbox (table ul (m_store m)) dest = Some dl -> boxes (m_store m) !! dl = Some dmb ->
  mailbox_wf dmb -> room (OpCopy ns dest) m ->
  let matched := (MatchesMessages ns (kind_of ns) mb).*2 in
  exists news m',
    Copy clock ns dest m =
      (Ok (mkCopyData (mb_UIDValidity dmb)
             (UIDSet_AddNum (mkUIDSet []) (UID <$> matched))
             (UIDSet_AddNum (mkUIDSet []) (UID <$> news))), m') /\
    Forall2 copy_of matched news /\
    UID <$> news = seqZ (mb_UIDNext dmb) (Z.of_nat (length news)) /\
    boxes (m_store m') = <[dl := add_msgs news dmb]> (boxes (m_store m)) /\
    tables (m_store m') = tables (m_store m) /\ m_sess m' = m_sess m.
Proof.
  intros [Hl Hb Hwf] Hul Hd Hdb Hdwf Hroom matched.
  specialize (Hroom dl dmb Hdb). unfold appends in Hroom. rewrite Hl in Hroom. cbn in Hroom.
  rewrite Hb in Hroom. pose proof (wf_next _ Hdwf).
  destruct (copy_loop_spec dl (MatchesMessages ns (kind_of ns) mb) [] [] m dmb Hdb ltac:(lia) Hroom)
    as (news & m' & Hrun & Hbox & Htab & Hsess & HF & Huids).
  exists news, m'. split_and!; try done. unfold Copy, with_selected. rewrite Hl, Hb, Hul, Hd, Hdb.
  by rewrite (st_bind_ok _ _ _ _ _ Hrun).
Qed.

End Props.

(** ** LIST *)
Section Listing.
Context (ord : nat -> list bytes -> list bytes).

Lemma existsb_perm {A} (p : A -> bool) l l' : l ≡ₚ l' -> existsb p l = existsb p l'.
Proof.
  induction 1 as [|x l l' _ IH|x y l|l1 l2 l3 _ IH1 _ IH2]; cbn; [done|by rewrite IH| |congruence].
  by destruct (p x), (p y).
Qed.

Lemma elem_keys {A} (u : gmap bytes A) n : n ∈ (map_to_list u).*1 <-> is_Some (u !! n).
Proof.
  rewrite list_elem_of_fmap. split.
  - intros ([n' a] & -> & H%elem_of_map_to_list). by exists a.
  - intros [a H]. exists (n, a). split; [done|]. by apply elem_of_map_to_list.
Qed.

Lemma HasChildren_spec (u : UserData) names name delim :
  names ≡ₚ (map_to_list u).*1 ->
  HasChildren name names delim = true <-> exists rest, is_Some (u !! (name ++ delim :: rest)).
Proof.
  intros Hp. unfold HasChildren. rewrite (existsb_perm _ _ _ Hp), existsb_exists. split.
  - intros (other & Hin & Hpre). apply list_elem_of_In, elem_keys in Hin.
    apply HasPrefix_spec in Hpre as [rest ->]. exists rest.
    by rewrite <- (assoc_L (++)) in Hin.
  - intros [rest Hrest]. exists (name ++ delim :: rest). split; [by apply list_elem_of_In, elem_keys|].
    apply HasPrefix_spec. exists rest. by rewrite <- (assoc_L (++)).
Qed.

(** The entry of one mailbox. *)
Record listed (o : option ListOptions) (ref : bytes) (patterns : list bytes) (u : UserData)
    (name : bytes) (mb : Mailbox) (d : ListData) : Prop := {
  li_match : exists p, p ∈ patterns /\ glob Delimiter (ref ++ p) name;
  li_subscribed : (lo_SelectSubscribed <$> o) = Some true -> mb_Subscribed mb = true;
  li_data : exists children : bool,
    (children = true <-> exists rest, is_Some (u !! (name ++ Delimiter :: rest))) /\
    let on f := match o with Some o => f o | None => false end in
    d = list_data
      ((if on lo_ReturnSubscribed && mb_Subscribed mb then [MailboxAttrSubscribed] else [])
       ++ (if on lo_ReturnChildren
           then [if children then MailboxAttrHasChildren else MailboxAttrHasNoChildren] else []))
      (bval Delimiter) name;
}.

Lemma list_entry_spec o ref patterns u names name mb d :
  names ≡ₚ (map_to_list u).*1 ->
  list_entry o ref patterns names name mb = Some d <-> listed o ref patterns u name mb d.
Proof.
  intros Hp. unfold list_entry.
  pose proof (HasChildren_spec u names name Delimiter Hp) as HC.
  assert (existsb (fun p => matchPattern name (ref ++ p) Delimiter) patterns = true <->
    exists p, p ∈ patterns /\ glob Delimiter (ref ++ p) name) as Hm.
  { rewrite existsb_elem. by setoid_rewrite matchPattern_glob. }
  destruct (existsb _ patterns); cbn [negb].
  2: { split; [done|]. intros [Hex _ _]. by apply Hm in Hex. }
  assert (match o with Some o => lo_SelectSubscribed o | None => false end = true <->
    (lo_SelectSubscribed <$> o) = Some true) as Hsub.
  { destruct o; cbn; [split; congruence|done]. }
  revert Hsub. generalize (match o with Some o => lo_SelectSubscribed o | None => false end).
  intros sel Hsub. destruct (sel && negb (mb_Subscribed mb)) eqn:E.
  - split; [done|]. intros [_ Hs _]. apply andb_true_iff in E as [E1 E2].
    rewrite Hs in E2; [done|]. by apply Hsub.
  - split.
    + intros [= <-]. split; [by apply Hm| |by eexists].
      intros H1%Hsub. rewrite H1 in E. by destruct (mb_Subscribed mb).
    + intros [_ _ (children & Hch & ->)]. do 2 f_equal. f_equal.
      case_if; [|done]. do 2 f_equal. destruct (HasChildren name names Delimiter), children; naive_solver.
Qed.

Lemma omap_list_NoDup {A B} (f : A -> option B) (g : B -> A) l :
  (forall a b, f a = Some b -> g b = a) -> NoDup l -> NoDup (g <$> omap f l).
Proof.
  intros Hg Hnd. assert (g <$> omap f l `sublist_of` l) as Hsub; [|by eapply sublist_NoDup].
  clear Hnd. induction l as [|a l IH]; [constructor|]. cbn. destruct (f a) as [b|] eqn:E; cbn.
  - rewrite (Hg a b E). by constructor.
  - by constructor.
Qed.

(** LIST reports every mailbox of the user whose name matches one of the
    patterns (with the reference in front, an asterisk standing for any text
    and a percent sign for text without the delimiter), once each and no other,
    with the attributes asked for: it is marked as having children exactly when
    a mailbox below it exists.  It changes no mailbox. *)
Theorem list_spec (ref : bytes) (patterns : list bytes) (o : option ListOptions) (m : Mem) (ul : loc) :
  (forall n l, ord n l ≡ₚ l) -> store_wf (m_store m) ->
  s_userData (m_sess m) = Some ul -> patterns <> [[]] ->
  exists m' calls, List_ ord ref patterns o m = ((Ok tt, m'), calls) /\
    boxes (m_store m') = boxes (m_store m) /\ tables (m_store m') = tables (m_store m) /\
    m_sess m' = m_sess m /\
    NoDup (ld_Mailbox <$> calls) /\
    forall d, d ∈ calls <-> exists name l mb,
      table ul (m_store m) !! name = Some l /\ boxes (m_store m) !! l = Some mb /\
      listed o ref patterns (table ul (m_store m)) name mb d.
Proof.
  intros Hord Hst Hul Hpat. unfold List_. rewrite Hul.
  replace ((length patterns =? 1)%nat && forallb (fun p => p =s []) patterns) with false.
  2: { destruct patterns as [|[|c p] [|]]; done. }
  unfold MailboxNames. set (u := table ul (m_store m)). eexists _, _. split; [reflexivity|].
  change (table ul (tick (tick (m_store m)))) with u.
  change (table ul (tick (m_store m))) with u.
  split_and!; [done..| |].
  - apply omap_list_NoDup; [|rewrite Hord; apply NoDup_fst_map_to_list].
    intros name d. destruct (_ !! name) as [l|]; [|done]. cbn. destruct (boxes _ !! l) as [mb|]; [|done].
    cbn. intros [_ _ (? & _ & ->)]%(list_entry_spec o ref patterns u); [done|apply Hord].
  - intros d. rewrite list_elem_of_omap. split.
    + intros (name & Hin & He). destruct (u !! name) as [l|] eqn:El; [|done]. cbn in He.
      destruct (boxes (m_store m) !! l) as [mb|] eqn:Eb; [|done]. cbn in He.
      apply (list_entry_spec o ref patterns u) in He; [by eauto 10|apply Hord].
    + intros (name & l & mb & Hn & Hl & Hd). exists name. split.
      * rewrite Hord. apply elem_keys. by eexists.
      * rewrite Hn. cbn. rewrite Hl. cbn. apply (list_entry_spec o ref patterns u); [apply Hord|done].
Qed.

End Listing.

(** ** CREATE, DELETE, RENAME *)

(** No mailbox is filed under two names. *)
Definition one_name (u : UserData) : Prop :=
  forall n n' l, u !! n = Some l -> u !! n' = Some l -> n = n'.

Lemma one_name_insert u n l :
  one_name u -> (forall n', u !! n' <> Some l) -> one_name (<[n := l]> u).
Proof.
  intros Hu Hl n1 n2 l'. rewrite !lookup_insert_Some.
  intros [[<- <-]|[? H1]] [[<- ?]|[? H2]]; [done|..]; subst; try (by exfalso; eapply Hl).
  by eapply Hu.
Qed.
Lemma one_name_delete u n : one_name u -> one_name (delete n u).
Proof. intros Hu n1 n2 l. rewrite !lookup_delete_Some. intros [_ ?] [_ ?]. by eapply Hu. Qed.

Lemma table_upd ul u st : table ul (upd_table ul u st) = u.
Proof. unfold table. cbn. by rewrite lookup_insert_eq. Qed.

Lemma fresh_unfiled st ul n : store_wf st -> table ul st !! n <> Some (fresh st).
Proof.
  intros Hst (u & Hu & Hn)%table_Some.
  pose proof (sw_fresh_box _ Hst _ (sw_tables _ Hst _ _ _ _ Hu Hn)). lia.
Qed.

Lemma RenameMailbox_table ul old new st l :
  getMailboxLocked (table ul st) old = Some l -> getMailboxLocked (table ul st) new = None ->
  exists st', RenameMailbox ul old new st = (None, st') /\
    table ul st' = <[new := l]> (delete old (table ul st)).
Proof.
  intros Ho Hn. unfold RenameMailbox. rewrite Ho, Hn. eexists. split; [reflexivity|]. apply table_upd.
Qed.

(** A mailbox found under a name that is no key is INBOX under another case. *)
Lemma getMailboxLocked_alias u name l :
  u !! name = None -> getMailboxLocked u name = Some l -> u !! INBOX = Some l /\ name <> INBOX.
Proof.
  unfold getMailboxLocked. intros H. rewrite H. case_if; [|done]. intros Hl. split; [done|congruence].
Qed.

Lemma rename_one_name u old new l :
  one_name u -> getMailboxLocked u old = Some l -> getMailboxLocked u new = None ->
  one_name (<[new := l]> (delete old u)) <-> is_Some (u !! old).
Proof.
  intros Hu Ho Hn. assert (u !! new = None) as Hnew by (unfold getMailboxLocked in Hn; by destruct (u !! new)).
  split.
  - intros Hone. destruct (u !! old) as [l0|] eqn:E; [by eexists|exfalso].
    destruct (getMailboxLocked_alias u old l E Ho) as [Hin Hne].
    assert (new = INBOX) as ->; [|congruence].
    apply (Hone new INBOX l); [by rewrite lookup_insert_eq|].
    rewrite lookup_insert_ne by congruence. by rewrite lookup_delete_ne.
  - intros [l0 E]. unfold getMailboxLocked in Ho. rewrite E in Ho. simplify_eq.
    apply one_name_insert; [by apply one_name_delete|].
    intros n [Hne Hl]%lookup_delete_Some. by eapply Hne, Hu.
Qed.

(** CREATE and DELETE change the user's names by exactly the one given,
    refuse a name that is taken or missing, and never delete INBOX.  RENAME
    moves the mailbox to the new name; the mailboxes stay filed under one name
    each exactly when the old name is itself a name in the table, and not when
    it is INBOX in another case: then both names lead to one mailbox. *)
Theorem mailbox_names (ul : loc) (name newName : bytes) (st : Store) :
  store_wf st -> is_Some (tables st !! ul) -> one_name (table ul st) ->
  let u := table ul st in
  match CreateMailbox ul name st with
  | (None, st') => getMailboxLocked u name = None /\ one_name (table ul st') /\
      (forall n, table ul st' !! n = if n =s name then Some (fresh st) else u !! n)
  | (Some _, st') => st' = st /\ is_Some (getMailboxLocked u name)
  end /\
  match DeleteMailbox ul name st with
  | (None, st') => normalizeINBOX name <> INBOX /\ is_Some (u !! name) /\ one_name (table ul st') /\
      (forall n, table ul st' !! n = if n =s name then None else u !! n)
  | (Some _, st') => st' = st /\ (normalizeINBOX name = INBOX \/ u !! name = None)
  end /\
  match RenameMailbox ul name newName st with
  | (None, st') => exists l, getMailboxLocked u name = Some l /\ getMailboxLocked u newName = None /\
      (forall n, table ul st' !! n =
         if n =s newName then Some l else if n =s name then None else u !! n) /\
      (one_name (table ul st') <-> is_Some (u !! name))
  | (Some _, st') => st' = st /\
      (getMailboxLocked u name = None \/ is_Some (getMailboxLocked u newName))
  end.
Proof.
  intros Hst Hul Hone u. split_and!.
  - unfold CreateMailbox. fold u. destruct (getMailboxLocked u name) eqn:E; [by eauto|].
    cbn [alloc_box]. rewrite table_upd. change (table ul (mkStore _ _ _ _ _ _)) with u. split_and!; [done|..].
    + apply one_name_insert; [done|]. intros n. by apply fresh_unfiled.
    + intros n. case_if; to_prop; [subst; apply lookup_insert_eq|by apply lookup_insert_ne].
  - unfold DeleteMailbox. fold u. destruct (normalizeINBOX name =s INBOX) eqn:En; [to_prop; by eauto|].
    unfold getMailboxLocked. rewrite En. destruct (u !! name) eqn:E; [|by eauto]. to_prop.
    rewrite table_upd. split_and!; [done|done|by apply one_name_delete|].
    intros n0. case_if; to_prop; [subst; apply lookup_delete_eq|by apply lookup_delete_ne].
  - destruct (getMailboxLocked u name) as [l|] eqn:Eo.
    2: { unfold RenameMailbox. fold u. rewrite Eo. by eauto. }
    destruct (getMailboxLocked u newName) as [l'|] eqn:En.
    { unfold RenameMailbox. fold u. rewrite Eo, En. by eauto. }
    destruct (RenameMailbox_table ul name newName st l Eo En) as (st' & -> & Ht). fold u in Ht.
    exists l. rewrite Ht. split_and!; [done|done| |by apply rename_one_name].
    intros n. case_if; to_prop; [subst; apply lookup_insert_eq|].
    rewrite lookup_insert_ne by done. case_if; to_prop; [subst; apply lookup_delete_eq|by apply lookup_delete_ne].
Qed.

(** ** Concrete cases *)
Definition demo_mem : Mem := mkMem (w_store demo4) (default session0 (w_sess demo4 !! 0%nat)).
Definition demo_box : Mailbox := default (NewMailbox []) (boxes (w_store demo4) !! 0%nat).

Lemma demo_wf : store_wf (w_store demo4).
Proof. apply (reachable_inv (U := basic_unicode) demo_names demo_clock demo_ord), demo4_reachable. Qed.
Lemma demo_lookup : boxes (m_store demo_mem) !! 0%nat = Some demo_box.
Proof. by vm_compute. Qed.
Lemma demo_selects : selects demo_mem 0%nat demo_box.
Proof. split; [by vm_compute|apply demo_lookup|]. apply (sw_boxes _ demo_wf 0%nat), demo_lookup. Qed.



Lemma copy_spec_witness :
  let U := basic_unicode in
  exists news m',
    (Copy demo_clock (NumSeq (mkSeqSet [mkRange 1 1])) "INBOX" demo_mem).2 = m' /\
    UID <$> news = seqZ 2 (Z.of_nat (length news)) /\
    boxes (m_store m') !! 0%nat = Some (add_msgs news demo_box).
Proof.
  intros U. destruct (copy_spec demo_clock (NumSeq (mkSeqSet [mkRange 1 1])) "INBOX" demo_mem 0%nat 0%nat 1%nat
    demo_box demo_box demo_selects) as (news & m' & H1 & H2 & H3 & H4 & H5);
    [by vm_compute|by vm_compute|apply demo_lookup|apply demo_selects|apply room_small; by vm_compute|].
  exists news, m'. rewrite H1, H4. split; [done|]. split; [exact H3|apply lookup_insert_eq].
Defined.

Lemma list_spec_witness :
  exists m' calls, List_ demo_ord [] [["%"%char]] None demo_mem = ((Ok tt, m'), calls) /\
    NoDup (ld_Mailbox <$> calls).
Proof.
  destruct (list_spec demo_ord [] [["%"%char]] None demo_mem 1%nat) as (m' & calls & H1 & H2 & H3 & H4 & H5 & _);
    [done|apply demo_wf|by vm_compute|done|].
  exists m', calls. by split.
Defined.

Lemma mailbox_names_witness :
  let st := w_store demo4 in
  let st' := (RenameMailbox 1%nat "inbox" "old" st).2 in
  table 1%nat st' !! INBOX = Some 0%nat /\ table 1%nat st' !! ("old" : bytes) = Some 0%nat /\
  ~ one_name (table 1%nat st').
Proof.
  intros st st'. split; [by vm_compute|]. split; [by vm_compute|].
  assert (one_name (table 1%nat st)) as Hone.
  { intros n n' l. assert (table 1%nat st = {[ INBOX := 0%nat ]}) as ->
      by (apply (bool_decide_unpack _); by vm_compute).
    intros [<- _]%lookup_singleton_Some [<- _]%lookup_singleton_Some. done. }
  destruct (mailbox_names 1%nat "inbox" "old" st demo_wf
    ltac:(apply (bool_decide_unpack _); by vm_compute) Hone)
    as (_ & _ & H).
  destruct (RenameMailbox 1%nat "inbox" "old" st) as [[e|] st1] eqn:E.
  - exfalso. destruct H as [_ [H|[? H]]]; by vm_compute in H.
  - destruct H as (l & _ & _ & _ & H). intros Hn. apply H in Hn as [? Hn]. by vm_compute in Hn.
Defined.
