(* ===== verification/Conn.v ===== *)
(** * Connections (capability.go, server/options.go, server/session.go,
      server/conn.go, server/handler.go)

    The interface a backend implements, the state of one connection and the
    computations of a command handler, which read the arguments, call the
    backend and write responses. *)

From S2P Require Import Prelude Utf8 GoStrings GoTime NumSet Imap Decoder Encoder Writers.
From S2P Require Import ConnState.

(** ** Capability sets (capability.go)

    Ranging over the Go map visits the capabilities in an order given by an
    oracle. *)
Abbreviation CapSet := (gset bytes).

Definition NewCapSet (caps : list bytes) : CapSet := list_to_set caps.
Definition CapSet_Has (cs : CapSet) (cap : bytes) : bool := bool_decide (cap ∈ cs).
Definition CapSet_Add (caps : list bytes) (cs : CapSet) : CapSet := cs ∪ list_to_set caps.
Definition CapSet_Remove (caps : list bytes) (cs : CapSet) : CapSet := cs ∖ list_to_set caps.
Definition CapSet_All (order : list bytes -> list bytes) (cs : CapSet) : list bytes :=
  order (elements cs).
Definition CapSet_Len (cs : CapSet) : Z := Z.of_nat (size cs).
Definition CapSet_String (order : list bytes -> list bytes) (cs : CapSet) : bytes :=
  Join (CapSet_All order cs) " ".
Definition CapSet_Clone (cs : CapSet) : CapSet := cs.
Definition CapSet_HasAuth {U : Unicode} (cs : CapSet) (mechanism : bytes) : bool :=
  CapSet_Has cs ("AUTH=" ++ ToUpper mechanism).

(** ** Options (server/options.go)

    [TLSConfig] only matters for being there.  Timeouts, the logger and the
    limits, which the modelled code does not read, are left out. *)
Record Options := mkOptions {
  op_TLSConfig : bool;
  op_Caps : CapSet;
  op_GreetingText : bytes;
  op_AllowInsecureAuth : bool;
  op_EnableStartTLS : bool;
}.
Definition NewDefaultCapSet : CapSet :=
  NewCapSet ["IMAP4rev1" : bytes; "IDLE" : bytes; "LITERAL+" : bytes].
Definition DefaultOptions : Options :=
  mkOptions false NewDefaultCapSet "IMAP server ready" false false.

(** ** The backend (server/session.go)

    One session: its state and its operations.  An operation that is handed a
    writer returns the calls it makes on it; [Idle] is told whether its stop
    channel will be closed. *)
Inductive fetch_call :=
| CallFlags (seqNum : Z) (flags : list bytes)
| CallFetchData (data : FetchMessageData).
Inductive Update :=
| ExistsUpdate (NumMessages : Z)
| ExpungeUpdate (SeqNum : Z)
| FetchFlagsUpdate (SeqNum : Z) (Flags : list bytes).

Class Backend (S : Type) := {
  bk_Login : bytes -> bytes -> St S unit;
  bk_Select : bytes -> option SelectOptions -> St S SelectData;
  bk_Create : bytes -> CreateOptions -> St S unit;
  bk_Delete : bytes -> St S unit;
  bk_Rename : bytes -> bytes -> St S unit;
  bk_Subscribe : bytes -> St S unit;
  bk_Unsubscribe : bytes -> St S unit;
  bk_List : bytes -> list bytes -> option ListOptions -> S -> (res unit * S) * list ListData;
  bk_Status : bytes -> StatusOptions -> St S StatusData;
  bk_Append : bytes -> bytes -> option AppendOptions -> St S (option AppendData);
  bk_Idle : bool -> S -> (res unit * S) * list Update;
  bk_Unselect : St S unit;
  bk_Expunge : option UIDSet -> S -> (res unit * S) * list Z;
  bk_Search : NumKind -> option SearchCriteria -> option SearchOptions -> St S SearchData;
  bk_Fetch : NumSet -> FetchOptions -> S -> (res unit * S) * list fetch_call;
  bk_Store : NumSet -> StoreFlags -> StoreOptions -> S -> (res unit * S) * list fetch_call;
  bk_Copy : NumSet -> bytes -> St S (option CopyData);
  bk_Close : St S unit;
}.

(** ** The connection (server/conn.go)

    [c_in] is what the client still sends, [c_tls] what it will send inside TLS
    if the handshake succeeds.  [c_out] is the list of flushed writes, one per
    [Encode] call.  [c_ticks] counts the uses of the map-order oracle. *)
Record Conn := mkConn {
  c_in : bytes;
  c_tls : option bytes;
  c_out : list bytes;
  c_state : Machine;
  c_enabled : CapSet;
  c_isTLS : bool;
  c_mailbox : bytes;
  c_readOnly : bool;
  c_closed : bool;
  c_ticks : nat;
}.

Definition newConn (input : bytes) (tls : option bytes) (isTLS : bool) : Conn :=
  mkConn input tls [] (New ConnStateNotAuthenticated) (NewCapSet []) isTLS [] false false 0.

Definition set_in (i : bytes) (c : Conn) : Conn :=
  mkConn i (c_tls c) (c_out c) (c_state c) (c_enabled c) (c_isTLS c) (c_mailbox c) (c_readOnly c)
    (c_closed c) (c_ticks c).
Definition Encode (fn : Enc.Encoder -> Enc.Encoder) (c : Conn) : Conn :=
  mkConn (c_in c) (c_tls c) (c_out c ++ [fn []]) (c_state c) (c_enabled c) (c_isTLS c) (c_mailbox c)
    (c_readOnly c) (c_closed c) (c_ticks c).
Definition set_machine (m : Machine) (c : Conn) : Conn :=
  mkConn (c_in c) (c_tls c) (c_out c) m (c_enabled c) (c_isTLS c) (c_mailbox c) (c_readOnly c)
    (c_closed c) (c_ticks c).
Definition set_enabled (e : CapSet) (c : Conn) : Conn :=
  mkConn (c_in c) (c_tls c) (c_out c) (c_state c) e (c_isTLS c) (c_mailbox c) (c_readOnly c)
    (c_closed c) (c_ticks c).
Definition SetMailbox (name : bytes) (readOnly : bool) (c : Conn) : Conn :=
  mkConn (c_in c) (c_tls c) (c_out c) (c_state c) (c_enabled c) (c_isTLS c) name readOnly
    (c_closed c) (c_ticks c).
Definition tick_conn (c : Conn) : Conn :=
  mkConn (c_in c) (c_tls c) (c_out c) (c_state c) (c_enabled c) (c_isTLS c) (c_mailbox c)
    (c_readOnly c) (c_closed c) (S (c_ticks c)).
Definition set_closed (c : Conn) : Conn :=
  mkConn (c_in c) (c_tls c) (c_out c) (c_state c) (c_enabled c) (c_isTLS c) (c_mailbox c)
    (c_readOnly c) true (c_ticks c).

Definition conn_State (c : Conn) : ConnState := State (c_state c).

(** Whether the handshake succeeds; the new decoder only reads what comes
    through TLS. *)
Definition UpgradeTLS (c : Conn) : bool * Conn :=
  match c_tls c with
  | None => (false, c)
  | Some input =>
    (true, mkConn input None (c_out c) (c_state c) (c_enabled c) true (c_mailbox c) (c_readOnly c)
             (c_closed c) (c_ticks c))
  end.

Definition WriteOK (tag text : bytes) : Conn -> Conn := Encode (Enc.StatusResponse tag "OK" [] text).
Definition WriteOKCode (tag code text : bytes) : Conn -> Conn :=
  Encode (Enc.StatusResponse tag "OK" code text).
Definition WriteNO (tag text : bytes) : Conn -> Conn := Encode (Enc.StatusResponse tag "NO" [] text).
Definition WriteBAD (tag text : bytes) : Conn -> Conn := Encode (Enc.StatusResponse tag "BAD" [] text).
Definition WriteBYE (text : bytes) : Conn -> Conn := Encode (Enc.StatusResponse "*" "BYE" [] text).
Definition writeGreeting (opts : Options) : Conn -> Conn :=
  Encode (Enc.StatusResponse "*" "OK" [] (op_GreetingText opts)).

(** [Server.Capabilities] and [Conn.WriteCapabilities]. *)
Definition capability_set (opts : Options) (c : Conn) : CapSet :=
  let caps := CapSet_Clone (op_Caps opts) in
  let caps := if op_EnableStartTLS opts && negb (c_isTLS c)
              then CapSet_Add ["STARTTLS" : bytes] caps else caps in
  if negb (c_isTLS c) && negb (op_AllowInsecureAuth opts)
  then CapSet_Add ["LOGINDISABLED" : bytes] caps else caps.

Section Order.
Context (ord : nat -> list bytes -> list bytes).
Definition Capabilities (opts : Options) (c : Conn) : list bytes * Conn :=
  (CapSet_All (ord (c_ticks c)) (capability_set opts c), tick_conn c).
Definition WriteCapabilities (opts : Options) (c : Conn) : Conn :=
  let '(caps, c) := Capabilities opts c in
  Encode (fun e => foldl (fun e cap => e |> Enc.SP |> Enc.Atom cap)
                     (e |> Enc.Star |> Enc.Atom "CAPABILITY") caps |> Enc.CRLF) c.
End Order.

(** ** Command handlers (server/handler.go)

    The context of a command: [x_decoder] tells whether there are arguments. *)
Record CommandContext := mkContext {
  x_Tag : bytes;
  x_Name : bytes;
  x_NumKind : NumKind;
  x_decoder : bool;
}.

Section Handlers.
Context {S : Type}.

(** What a handler works on: its arguments, the connection and the session. *)
Record HState := mkH { h_args : bytes; h_conn : Conn; h_sess : S }.
Definition H (A : Type) := St HState A.
Definition Handler := CommandContext -> H unit.

Definition arg {A} (m : Dec A) : H A := fun h =>
  let '(r, args) := m (h_args h) in (r, mkH args (h_conn h) (h_sess h)).
Definition session {A} (m : St S A) : H A := fun h =>
  let '(r, s) := m (h_sess h) in (r, mkH (h_args h) (h_conn h) s).
Definition on_conn (f : Conn -> Conn) : H unit := fun h =>
  (Ok tt, mkH (h_args h) (f (h_conn h)) (h_sess h)).
Definition with_conn {A} (f : Conn -> A * Conn) : H A := fun h =>
  let '(a, c) := f (h_conn h) in (Ok a, mkH (h_args h) c (h_sess h)).
Definition get_conn : H Conn := fun h => (Ok (h_conn h), h).
(** Reading from the connection itself. *)
Definition conn_read {A} (m : Dec A) : H A := fun h =>
  let '(r, i) := m (c_in (h_conn h)) in
  (r, mkH (h_args h) (set_in i (h_conn h)) (h_sess h)).
Definition write (fn : Enc.Encoder -> Enc.Encoder) : H unit := on_conn (Encode fn).
(** A session operation with a writer: the calls are written as they come. *)
Definition session_writing {W} (call : W -> list (Enc.Encoder -> Enc.Encoder))
    (m : S -> (res unit * S) * list W) : H unit := fun h =>
  let '((r, s), calls) := m (h_sess h) in
  (r, mkH (h_args h) (foldl (fun c fn => Encode fn c) (h_conn h) (concat (call <$> calls))) s).
Definition SetState (s : ConnState) : H unit := fun h =>
  let '(r, m) := Transition s (c_state (h_conn h)) in
  (r, mkH (h_args h) (set_machine m (h_conn h)) (h_sess h)).

(** [if ctx.Decoder == nil { return imap.ErrBad(text) }] *)
Definition need_args (ctx : CommandContext) (text : bytes) : H unit :=
  if x_decoder ctx then mret tt else st_fail (ErrBad text).
End Handlers.
Arguments HState : clear implicits.
Arguments H : clear implicits.
Arguments Handler : clear implicits.
