(* ===== verification/Commands.v ===== *)
(** * Command handlers (server/commands)

    Every built-in command over an arbitrary backend. *)

From S2P Require Import Prelude Utf8 GoStrings GoTime NumSet Imap Decoder Encoder Writers.
From S2P Require Import ConnState Conn.

Import Enc (SP, CRLF, Star, Atom, Number, Number64, BeginList, EndList, Flags, RawString,
  StatusResponse, NumResponse, ResponseCode, MailboxName, AString, ContinuationRequest).

Section Commands.
Context {U : Unicode} {Sess : Type} {B : Backend Sess}.
Context (opts : Options) (ord : nat -> list bytes -> list bytes).
Abbreviation Cmd := (H Sess).

Definition fail {A} (e : error) : Cmd A := st_fail e.
Definition ok (ctx : CommandContext) (text : bytes) : Cmd unit := on_conn (WriteOK (x_Tag ctx) text).

(** ** Any state *)
Definition Capability (ctx : CommandContext) : Cmd unit :=
  _ ← on_conn (WriteCapabilities ord opts);
  ok ctx "CAPABILITY completed".

Definition Noop (ctx : CommandContext) : Cmd unit := ok ctx "NOOP completed".

Definition Logout (ctx : CommandContext) : Cmd unit :=
  _ ← on_conn (WriteBYE "LOGOUT requested");
  _ ← SetState ConnStateLogout;
  ok ctx "LOGOUT completed".

(** ** Not authenticated *)
Definition StartTLS (ctx : CommandContext) : Cmd unit :=
  c ← get_conn;
  if c_isTLS c then fail (ErrBad "already using TLS")
  else if negb (op_TLSConfig opts) then fail (ErrNo "STARTTLS not available")
  else
    _ ← ok ctx "Begin TLS negotiation now";
    upgraded ← with_conn UpgradeTLS;
    if (upgraded : bool) then mret tt else fail (ErrNo "TLS negotiation failed").

Definition Login (ctx : CommandContext) : Cmd unit :=
  c ← get_conn;
  if negb (c_isTLS c) && negb (op_AllowInsecureAuth opts)
  then fail (ErrNo "LOGIN disabled without TLS")
  else
    _ ← need_args ctx "missing arguments";
    username ← arg ReadAString ?> ErrBad "invalid username";
    _ ← arg ReadSP ?> ErrBad "missing password";
    password ← arg ReadAString ?> ErrBad "invalid password";
    _ ← session (bk_Login username password);
    _ ← SetState ConnStateAuthenticated;
    ok ctx "LOGIN completed".

(** ** Authenticated *)
Fixpoint enable_loop (fuel : nat) (requested : list bytes) : Cmd (list bytes) :=
  match fuel with
  | O => st_hang
  | S f =>
    cap ← attempt (arg ReadAtom);
    match cap with
    | inl _ => mret requested
    | inr cap =>
      let requested := requested ++ [ToUpper cap] in
      sp ← attempt (arg ReadSP);
      match sp with inl _ => mret requested | inr _ => enable_loop f requested end
    end
  end.

Definition Enable (ctx : CommandContext) : Cmd unit :=
  _ ← need_args ctx "missing capabilities";
  h ← st_get;
  requested ← enable_loop (length (h_args h) + 1) [];
  if bool_decide (requested = []) then fail (ErrBad "missing capabilities to enable")
  else
    serverCaps ← with_conn (Capabilities ord opts);
    let enabled := filter (fun cap => CapSet_Has (NewCapSet serverCaps) cap = true) requested in
    _ ← on_conn (fun c => set_enabled (CapSet_Add enabled (c_enabled c)) c);
    _ ← write (fun e => foldl (fun e cap => e |> SP |> Atom cap) (e |> Star |> Atom "ENABLED") enabled
                        |> CRLF);
    ok ctx "ENABLE completed".

Definition select_writes (data : SelectData) : list (Enc.Encoder -> Enc.Encoder) :=
  let code name n := fun e => e |> Star |> Atom "OK" |> SP |> ResponseCode name [n] |> CRLF in
  [ (fun e => e |> Star |> Atom "FLAGS" |> SP |> Flags (sel_Flags data) |> CRLF);
    NumResponse (sel_NumMessages data) "EXISTS";
    NumResponse (sel_NumRecent data) "RECENT";
    code "UIDVALIDITY" (FormatUint (sel_UIDValidity data));
    code "UIDNEXT" (FormatUint (sel_UIDNext data)) ]
  ++ when (bool_decide (sel_PermanentFlags data <> []))
       (fun e => e |> Star |> Atom "OK" |> SP |> RawString "[PERMANENTFLAGS "
                   |> Flags (sel_PermanentFlags data) |> RawString "] " |> CRLF)
  ++ when (0 <? sel_FirstUnseen data) (code "UNSEEN" (FormatUint (sel_FirstUnseen data)))
  ++ when (0 <? sel_HighestModSeq data) (code "HIGHESTMODSEQ" (FormatUint (sel_HighestModSeq data)))
  ++ when (nonempty (sel_MailboxID data))
       (code "MAILBOXID" ("(" ++ sel_MailboxID data ++ ")")).

Definition write_all (fns : list (Enc.Encoder -> Enc.Encoder)) : Cmd unit :=
  on_conn (fun c => foldl (fun c fn => Encode fn c) c fns).

Definition handleSelect (readOnly : bool) (ctx : CommandContext) : Cmd unit :=
  _ ← need_args ctx "missing mailbox name";
  mailbox ← arg ReadAString ?> ErrBad "invalid mailbox name";
  data ← session (bk_Select mailbox (Some (select_options readOnly)));
  _ ← write_all (select_writes data);
  _ ← on_conn (SetMailbox mailbox (sel_ReadOnly data));
  _ ← SetState ConnStateSelected;
  let code : bytes := if sel_ReadOnly data then "READ-ONLY" else "READ-WRITE" in
  write (StatusResponse (x_Tag ctx) "OK" code "SELECT completed").
Definition Select : Handler Sess := handleSelect false.
Definition Examine : Handler Sess := handleSelect true.

(** A command with one mailbox name. *)
Definition Create (ctx : CommandContext) : Cmd unit :=
  _ ← need_args ctx "missing mailbox name";
  mailbox ← arg ReadAString ?> ErrBad "invalid mailbox name";
  _ ← session (bk_Create mailbox (mkCreateOptions []));
  ok ctx "CREATE completed".
Definition Delete (ctx : CommandContext) : Cmd unit :=
  _ ← need_args ctx "missing mailbox name";
  mailbox ← arg ReadAString ?> ErrBad "invalid mailbox name";
  _ ← session (bk_Delete mailbox);
  ok ctx "DELETE completed".
Definition Subscribe (ctx : CommandContext) : Cmd unit :=
  _ ← need_args ctx "missing mailbox name";
  mailbox ← arg ReadAString ?> ErrBad "invalid mailbox name";
  _ ← session (bk_Subscribe mailbox);
  ok ctx "SUBSCRIBE completed".
Definition Unsubscribe (ctx : CommandContext) : Cmd unit :=
  _ ← need_args ctx "missing mailbox name";
  mailbox ← arg ReadAString ?> ErrBad "invalid mailbox name";
  _ ← session (bk_Unsubscribe mailbox);
  ok ctx "UNSUBSCRIBE completed".

Definition Rename (ctx : CommandContext) : Cmd unit :=
  _ ← need_args ctx "missing arguments";
  oldName ← arg ReadAString ?> ErrBad "invalid mailbox name";
  _ ← arg ReadSP ?> ErrBad "missing new mailbox name";
  newName ← arg ReadAString ?> ErrBad "invalid new mailbox name";
  _ ← session (bk_Rename oldName newName);
  ok ctx "RENAME completed".

Definition list_with (options : ListOptions) (done : bytes) (ctx : CommandContext) : Cmd unit :=
  _ ← need_args ctx "missing arguments";
  ref ← arg ReadAString ?> ErrBad "invalid reference name";
  _ ← arg ReadSP ?> ErrBad "missing mailbox pattern";
  pattern ← arg ReadAString ?> ErrBad "invalid mailbox pattern";
  _ ← session_writing WriteList (bk_List ref [pattern] (Some options));
  ok ctx done.
Definition List_ : Handler Sess := list_with list_options0 "LIST completed".
Definition Lsub : Handler Sess :=
  list_with (mkListOptions true false false false false false false None false None) "LSUB completed".

(** ** STATUS *)
Definition status_item (o : StatusOptions) (item : bytes) : StatusOptions :=
  let 'mkStatusOptions m n v u r z a d h i := o in
  if item =s "MESSAGES" then mkStatusOptions true n v u r z a d h i
  else if item =s "UIDNEXT" then mkStatusOptions m true v u r z a d h i
  else if item =s "UIDVALIDITY" then mkStatusOptions m n true u r z a d h i
  else if item =s "UNSEEN" then mkStatusOptions m n v true r z a d h i
  else if item =s "RECENT" then mkStatusOptions m n v u true z a d h i
  else if item =s "SIZE" then mkStatusOptions m n v u r true a d h i
  else if item =s "APPENDLIMIT" then mkStatusOptions m n v u r z true d h i
  else if item =s "DELETED" then mkStatusOptions m n v u r z a true h i
  else if item =s "HIGHESTMODSEQ" then mkStatusOptions m n v u r z a d true i
  else if item =s "MAILBOXID" then mkStatusOptions m n v u r z a d h true
  else o.

Definition status_response (data : StatusData) (e : Enc.Encoder) : Enc.Encoder :=
  let num name := fun n e => e |> Atom name |> SP |> Number n in
  let num64 name := fun n e => e |> Atom name |> SP |> Number64 n in
  e |> Star |> Atom "STATUS" |> SP |> MailboxName (sa_Mailbox data) |> SP |> BeginList
    |> spaced true
         (when_some (sa_NumMessages data) (num "MESSAGES")
          ++ when_some (sa_UIDNext data) (num "UIDNEXT")
          ++ when_some (sa_UIDValidity data) (num "UIDVALIDITY")
          ++ when_some (sa_NumUnseen data) (num "UNSEEN")
          ++ when_some (sa_NumRecent data) (num "RECENT")
          ++ when_some (sa_Size data) (fun n => num64 "SIZE" (u64 n))
          ++ when_some (sa_AppendLimit data) (num "APPENDLIMIT")
          ++ when_some (sa_NumDeleted data) (num "DELETED")
          ++ when_some (sa_HighestModSeq data) (num64 "HIGHESTMODSEQ")
          ++ when (nonempty (sa_MailboxID data))
               (fun e => e |> Atom "MAILBOXID" |> SP |> BeginList |> AString (sa_MailboxID data) |> EndList))
    |> EndList |> CRLF.

Definition Status (ctx : CommandContext) : Cmd unit :=
  _ ← need_args ctx "missing arguments";
  mailbox ← arg ReadAString ?> ErrBad "invalid mailbox name";
  _ ← arg ReadSP ?> ErrBad "missing status items";
  items ← arg (ReadList ReadAtom) ?> ErrBad "invalid status items list";
  let options := foldl status_item status_options0 (ToUpper <$> items) in
  data ← session (bk_Status mailbox options);
  _ ← write (status_response data);
  ok ctx "STATUS completed".

(** ** APPEND *)
Definition parse_literal_size (s : bytes) : res (Z * bool) :=
  let s := TrimSpace s in
  let binary := HasPrefix s "~" in
  let s := if binary then drop 1 s else s in
  if negb (HasPrefix s "{") || negb (HasSuffix s "}") then
    Err (Errorf [Txt "expected literal, got "; QStr s])
  else
    let inner := TrimSuffix (take (length s - 2) (drop 1 s)) "+" in
    match ParseInt inner with
    | Ok size => Ok (size, binary)
    | Err e => Err (Errorf [Txt "invalid literal size "; QStr inner; Txt ": "; Wrap e])
    | Panic => Panic
    | Hang => Hang
    end.
(** The loop takes all that is left of the arguments. *)
Definition readLiteralSize : Dec (Z * bool) := fun s => (parse_literal_size s, []).

Definition append_date (dateStr : bytes) : error + Time :=
  match Parse InternalDateLayout dateStr with
  | inr t => inr t
  | inl _ =>
    match Parse InternalDateLayout1 dateStr with
    | inr t => inr t
    | inl _ => Parse RFC822Z dateStr
    end
  end.

(** [b] is the next byte of the arguments. *)
Definition append_flags (b : ascii) : Cmd (list bytes * ascii) :=
  if b =c "(" then
    flags ← arg ReadFlags ?> ErrBad "invalid flags";
    _ ← arg ReadSP ?> ErrBad "missing message data";
    b ← arg PeekByte ?> ErrBad "unexpected end of command";
    mret (flags, b)
  else mret ([], b).
Definition append_datetime (b : ascii) : Cmd Time :=
  if b =c DQ then
    dateStr ← arg ReadQuotedString ?> ErrBad "invalid date-time";
    match append_date dateStr with
    | inl _ => fail (ErrBad "invalid date-time format")
    | inr t =>
      _ ← arg ReadSP ?> ErrBad "missing message data";
      mret t
    end
  else mret time_zero.

(** Whatever the backend leaves of the literal is drained. *)
Definition Append (ctx : CommandContext) : Cmd unit :=
  _ ← need_args ctx "missing arguments";
  mailbox ← arg ReadAString ?> ErrBad "invalid mailbox name";
  _ ← arg ReadSP ?> ErrBad "missing message data";
  b ← arg PeekByte ?> ErrBad "unexpected end of command";
  '(flags, b) ← append_flags b;
  date ← append_datetime b;
  '(litSize, isBinary) ← on_err (arg readLiteralSize)
     (fun e => ErrBad ("invalid literal: " ++ Error e));
  body ← conn_read (ReadLiteral litSize);
  data ← session (bk_Append mailbox body (Some (mkAppendOptions flags date isBinary false)));
  match data with
  | Some d =>
    if (0 <? ad_UIDValidity d) && (0 <? ad_UID d) then
      let code := "APPENDUID " ++ FormatUint (ad_UIDValidity d) ++ " " ++ FormatUint (ad_UID d) in
      write (StatusResponse (x_Tag ctx) "OK" code "APPEND completed")
    else ok ctx "APPEND completed"
  | None => ok ctx "APPEND completed"
  end.

(** ** IDLE

    The reader goroutine takes lines until DONE; an error before that leaves
    the stop channel open. *)
Fixpoint wait_done (fuel : nat) : Dec unit :=
  match fuel with
  | O => st_hang
  | S f =>
    line ← ReadLine;
    if EqualFold (TrimSpace line) "DONE" then mret tt else wait_done f
  end.
Definition update_call (u : Update) : list (Enc.Encoder -> Enc.Encoder) :=
  match u with
  | ExistsUpdate n => [WriteExists n]
  | ExpungeUpdate n => [WriteExpunge false n]
  | FetchFlagsUpdate n flags => [WriteMessageFlags n flags]
  end.
Definition Idle (ctx : CommandContext) : Cmd unit :=
  _ ← write (ContinuationRequest "idling");
  c ← get_conn;
  readErr ← attempt (conn_read (wait_done (length (c_in c) + 1)));
  _ ← session_writing update_call (bk_Idle match readErr with inr _ => true | inl _ => false end);
  match readErr with
  | inl e => fail (ErrBad ("IDLE terminated: " ++ Error e))
  | inr _ => ok ctx "IDLE completed"
  end.

(** ** Selected *)
Definition expunge_call (n : Z) : list (Enc.Encoder -> Enc.Encoder) := [WriteExpunge false n].

Definition Close (ctx : CommandContext) : Cmd unit :=
  _ ← attempt (session_writing expunge_call (bk_Expunge None));
  _ ← session bk_Unselect;
  _ ← on_conn (SetMailbox [] false);
  _ ← SetState ConnStateAuthenticated;
  ok ctx "CLOSE completed".

Definition Unselect (ctx : CommandContext) : Cmd unit :=
  _ ← session bk_Unselect;
  _ ← on_conn (SetMailbox [] false);
  _ ← SetState ConnStateAuthenticated;
  ok ctx "UNSELECT completed".

Definition Expunge (ctx : CommandContext) : Cmd unit :=
  uids ← (match x_NumKind ctx with
          | NumKindUID =>
            if x_decoder ctx then
              uidStr ← arg ReadAtom ?> ErrBad "invalid UID set";
              uidSet ← arg (lift_res (ParseUIDSet uidStr)) ?> ErrBad "invalid UID set";
              mret (Some uidSet)
            else mret None
          | NumKindSeq => mret None
          end);
  _ ← session_writing expunge_call (bk_Expunge uids);
  ok ctx "EXPUNGE completed".

(** The set a command starts with. *)
Definition read_numset (ctx : CommandContext) : Cmd NumSet :=
  seqSetStr ← arg ReadAtom ?> ErrBad "invalid sequence set";
  match x_NumKind ctx with
  | NumKindUID =>
    uidSet ← arg (lift_res (ParseUIDSet seqSetStr)) ?> ErrBad "invalid UID set";
    mret (NumUID uidSet)
  | NumKindSeq =>
    seqSet ← arg (lift_res (ParseSeqSet seqSetStr)) ?> ErrBad "invalid sequence set";
    mret (NumSeq seqSet)
  end.

Definition Copy (ctx : CommandContext) : Cmd unit :=
  _ ← need_args ctx "missing arguments";
  numSet ← read_numset ctx;
  _ ← arg ReadSP ?> ErrBad "missing destination mailbox";
  dest ← arg ReadAString ?> ErrBad "invalid destination mailbox";
  data ← session (bk_Copy numSet dest);
  match data with
  | Some d =>
    if 0 <? cd_UIDValidity d then
      let code := "COPYUID " ++ FormatUint (cd_UIDValidity d) ++ " " ++ UIDSet_String (cd_SourceUIDs d)
                  ++ " " ++ UIDSet_String (cd_DestUIDs d) in
      write (StatusResponse (x_Tag ctx) "OK" code "COPY completed")
    else ok ctx "COPY completed"
  | None => ok ctx "COPY completed"
  end.

Definition store_action (upper : bytes) : option StoreAction :=
  if HasPrefix upper "+FLAGS" then Some StoreFlagsAdd
  else if HasPrefix upper "-FLAGS" then Some StoreFlagsDel
  else if HasPrefix upper "FLAGS" then Some StoreFlagsSet
  else None.

Definition fetch_writes (call : fetch_call) : list (Enc.Encoder -> Enc.Encoder) :=
  match call with
  | CallFlags n flags => [WriteFlags false n flags]
  | CallFetchData data => [WriteFetchData false data]
  end.

Definition Store (ctx : CommandContext) : Cmd unit :=
  _ ← need_args ctx "missing arguments";
  numSet ← read_numset ctx;
  _ ← arg ReadSP ?> ErrBad "missing store action";
  actionStr ← arg ReadAtom ?> ErrBad "invalid store action";
  let upper := ToUpper actionStr in
  match store_action upper with
  | None => fail (ErrBad ("invalid store action: " ++ actionStr))
  | Some action =>
    let silent := HasSuffix upper ".SILENT" in
    _ ← arg ReadSP ?> ErrBad "missing flags";
    flags ← arg ReadFlags ?> ErrBad "invalid flags";
    _ ← session_writing fetch_writes (bk_Store numSet (mkStoreFlags action silent flags) (mkStoreOptions 0));
    ok ctx "STORE completed"
  end.

(** ** FETCH *)

(** One item sets or adds to the options. *)
Definition fetch_upd := FetchOptions -> FetchOptions.
Definition upd_base (bs e f d z u : bool) : fetch_upd := fun o =>
  mkFetchOptions (fo_BodySection o) (fo_BodyStructure o || bs) (fo_Envelope o || e) (fo_Flags o || f)
    (fo_InternalDate o || d) (fo_RFC822Size o || z) (fo_UID o || u) (fo_Ext o).
Definition upd_ext (m p s e t : bool) : fetch_upd := fun o =>
  let x := fo_Ext o in
  mkFetchOptions (fo_BodySection o) (fo_BodyStructure o) (fo_Envelope o) (fo_Flags o)
    (fo_InternalDate o) (fo_RFC822Size o) (fo_UID o)
    (mkFetchExt (fe_ModSeq x || m) (fe_Preview x || p) (fe_SaveDate x || s) (fe_EmailID x || e)
       (fe_ThreadID x || t) (fe_BinarySection x) (fe_BinarySizeSection x) (fe_PreviewLazy x) (fe_ChangedSince x) (fe_Vanished x)).
Definition add_section (sec : FetchItemBodySection) : fetch_upd := fun o =>
  mkFetchOptions (fo_BodySection o ++ [sec]) (fo_BodyStructure o) (fo_Envelope o) (fo_Flags o)
    (fo_InternalDate o) (fo_RFC822Size o) (fo_UID o) (fo_Ext o).
Definition add_binary (secs : list FetchItemBinarySection) (sizes : list (list Z)) : fetch_upd := fun o =>
  let x := fo_Ext o in
  mkFetchOptions (fo_BodySection o) (fo_BodyStructure o) (fo_Envelope o) (fo_Flags o)
    (fo_InternalDate o) (fo_RFC822Size o) (fo_UID o)
    (mkFetchExt (fe_ModSeq x) (fe_Preview x) (fe_SaveDate x) (fe_EmailID x) (fe_ThreadID x)
       (fe_BinarySection x ++ secs) (fe_BinarySizeSection x ++ sizes) (fe_PreviewLazy x) (fe_ChangedSince x)
       (fe_Vanished x)).

Definition readFieldList : Dec (list bytes) := ReadList ReadAString.

(** The loop that skips a partial range; a round that consumes nothing repeats
    for ever, and every other round takes a byte of the input. *)
Fixpoint skip_partial_loop (fuel : nat) : Dec unit :=
  match fuel with
  | O => st_hang
  | S f =>
    ch ← attempt PeekByte;
    match ch with
    | inl _ => mret tt
    | inr ch =>
      if ch =c ">" then _ ← attempt (ExpectByte ">"); mret tt
      else _ ← attempt ReadAtom; skip_partial_loop f
    end
  end.
Definition skip_partial : Dec unit :=
  b ← attempt PeekByte;
  match b with
  | inr b => if b =c "<" then s ← st_get; skip_partial_loop (length s + 1) else mret tt
  | inl _ => mret tt
  end.

(** The section named by [spec], whose field list is still to be read. *)
Definition read_section (peek : bool) (spec : bytes) : Dec FetchItemBodySection :=
  let plain s := mret (mkSection s [] [] false peek None) in
  if spec =s "HEADER" then plain "HEADER"
  else if spec =s "TEXT" then plain "TEXT"
  else if spec =s "MIME" then plain "MIME"
  else if HasPrefix spec "HEADER.FIELDS.NOT" then
    _ ← ReadSP; fields ← readFieldList;
    mret (mkSection "HEADER.FIELDS.NOT" [] fields true peek None)
  else if HasPrefix spec "HEADER.FIELDS" then
    _ ← ReadSP; fields ← readFieldList;
    mret (mkSection "HEADER.FIELDS" [] fields false peek None)
  else plain [].

Definition parseFetchBodySectionFromAtom (item : bytes) (peek : bool) : Dec FetchItemBodySection :=
  let rest := match IndexByte item "[" with Some i => drop (i + 1) item | None => item end in
  section ← read_section peek (ToUpper rest);
  _ ← ExpectByte "]";
  _ ← skip_partial;
  mret section.

Definition parseFetchBodySection (peek : bool) : Dec FetchItemBodySection :=
  _ ← ExpectByte "[";
  b ← PeekByte;
  section ← (if negb (b =c "]") then spec ← ReadAtom; read_section peek (ToUpper spec)
             else mret (mkSection [] [] [] false peek None));
  _ ← ExpectByte "]";
  _ ← skip_partial;
  mret section.

Definition parseBinaryPart (s : bytes) : list Z :=
  if s =s [] then []
  else omap (fun p => match Atoi p with Ok n => Some n | _ => None end) (Split s ".").

(** A byte is taken for the closing bracket whatever it is. *)
Definition consumePartial : Dec (option SectionPartial) :=
  b ← attempt PeekByte;
  match b with
  | inl _ => mret None
  | inr b =>
    if negb (b =c "<") then mret None
    else
      _ ← attempt (ExpectByte "<");
      atom ← attempt ReadAtom;
      match atom with
      | inl _ => mret None
      | inr atom =>
        _ ← attempt (ExpectByte ">");
        match SplitN atom "." 2 with
        | [p; q] =>
          match ParseInt p, ParseInt q with
          | Ok offset, Ok count => mret (Some (mkPartial offset count))
          | _, _ => mret None
          end
        | _ => mret None
        end
      end
  end.

Definition parseBinaryItem (part : bytes) (peek : bool) : Dec fetch_upd :=
  _ ← ExpectByte "]";
  partial ← consumePartial;
  mret (add_binary [mkBinary (parseBinaryPart part) peek partial] []).

Definition parseSingleFetchItem : Dec fetch_upd :=
  item ← ReadAtom;
  let upper := ToUpper item in
  let set u : Dec fetch_upd := mret u in
  let section m : Dec fetch_upd := s ← m; mret (add_section s) in
  if upper =s "ALL" then set (upd_base false true true true true false)
  else if upper =s "FAST" then set (upd_base false false true true true false)
  else if upper =s "FULL" then set (upd_base true true true true true false)
  else if upper =s "ENVELOPE" then set (upd_base false true false false false false)
  else if upper =s "FLAGS" then set (upd_base false false true false false false)
  else if upper =s "INTERNALDATE" then set (upd_base false false false true false false)
  else if upper =s "RFC822.SIZE" then set (upd_base false false false false true false)
  else if upper =s "UID" then set (upd_base false false false false false true)
  else if upper =s "BODYSTRUCTURE" then set (upd_base true false false false false false)
  else if upper =s "MODSEQ" then set (upd_ext true false false false false)
  else if upper =s "PREVIEW" then set (upd_ext false true false false false)
  else if upper =s "EMAILID" then set (upd_ext false false false true false)
  else if upper =s "THREADID" then set (upd_ext false false false false true)
  else if upper =s "SAVEDATE" then set (upd_ext false false true false false)
  else if HasPrefix upper "BODY.PEEK[" then section (parseFetchBodySectionFromAtom item true)
  else if HasPrefix upper "BODY[" then section (parseFetchBodySectionFromAtom item false)
  else if upper =s "BODY.PEEK" then
    b ← attempt PeekByte;
    match b with
    | inr b => if b =c "[" then section (parseFetchBodySection true) else set id
    | inl _ => set id
    end
  else if upper =s "BODY" then
    b ← attempt PeekByte;
    let structure := set (upd_base true false false false false false) in
    match b with
    | inr b => if b =c "[" then section (parseFetchBodySection false) else structure
    | inl _ => structure
    end
  else if HasPrefix upper "BINARY.SIZE[" then
    _ ← ExpectByte "]";
    mret (add_binary [] [parseBinaryPart (drop 12 item)])
  else if HasPrefix upper "BINARY.PEEK[" then parseBinaryItem (drop 12 item) true
  else if HasPrefix upper "BINARY[" then parseBinaryItem (drop 7 item) false
  else if upper =s "RFC822" then set (add_section section0)
  else if upper =s "RFC822.HEADER" then set (add_section (mkSection "HEADER" [] [] false true None))
  else if upper =s "RFC822.TEXT" then set (add_section (mkSection "TEXT" [] [] false false None))
  else set id.

Definition parseFetchItems : Dec FetchOptions :=
  b ← PeekByte;
  if b =c "(" then
    upds ← ReadList parseSingleFetchItem;
    mret (foldl (fun o u => u o) fetch_options0 upds)
  else
    u ← parseSingleFetchItem;
    mret (u fetch_options0).

Definition Fetch (ctx : CommandContext) : Cmd unit :=
  _ ← need_args ctx "missing arguments";
  numSet ← read_numset ctx;
  _ ← arg ReadSP ?> ErrBad "missing fetch items";
  options ← on_err (arg parseFetchItems) (fun e => ErrBad ("invalid fetch items: " ++ Error e));
  let options := match x_NumKind ctx with
                 | NumKindUID => upd_base false false false false false true options
                 | NumKindSeq => options
                 end in
  _ ← session_writing fetch_writes (bk_Fetch numSet options);
  ok ctx "FETCH completed".

(** ** SEARCH *)
Definition sp_astring : Dec bytes := _ ← ReadSP; ReadAString.
Definition sp_atom : Dec bytes := _ ← ReadSP; ReadAtom.
Definition sp_number : Dec Z := _ ← ReadSP; ReadNumber64.
Definition sp_date (name : bytes) : Dec Time :=
  s ← sp_astring;
  match Parse SearchDateLayout s with
  | inr t => mret t
  | inl e => st_fail (Errorf [Txt "invalid "; Txt name; Txt " date: "; Wrap e])
  end.

Definition parse_modseq : Dec SearchCriteriaModSeq :=
  _ ← ReadSP;
  b ← PeekByte;
  '(name, type) ← (if b =c DQ then
                     entryName ← ReadQuotedString;
                     _ ← ReadSP;
                     entryType ← ReadAtom;
                     _ ← ReadSP;
                     mret (entryName, ToLower entryType)
                   else mret ([], []));
  n ← ReadNumber64;
  mret (mkSearchModSeq n name type).

Definition ext_upd (f : SearchExt -> SearchExt) (c : SearchCriteria) : SearchCriteria :=
  with_ext (f (sc_Ext c)) c.

(** The keys that stand alone, by the flags they ask for. *)
Definition flag_key (key : bytes) : option (SearchCriteria -> SearchCriteria) :=
  if key =s "ALL" then Some id
  else if key =s "ANSWERED" then Some (with_flag FlagAnswered)
  else if key =s "DELETED" then Some (with_flag FlagDeleted)
  else if key =s "DRAFT" then Some (with_flag FlagDraft)
  else if key =s "FLAGGED" then Some (with_flag FlagFlagged)
  else if key =s "SEEN" then Some (with_flag FlagSeen)
  else if key =s "RECENT" then Some (with_flag FlagRecent)
  else if key =s "UNANSWERED" then Some (with_notflag FlagAnswered)
  else if key =s "UNDELETED" then Some (with_notflag FlagDeleted)
  else if key =s "UNDRAFT" then Some (with_notflag FlagDraft)
  else if key =s "UNFLAGGED" then Some (with_notflag FlagFlagged)
  else if key =s "UNSEEN" then Some (with_notflag FlagSeen)
  else if key =s "NEW" then Some (fun c => with_notflag FlagSeen (with_flag FlagRecent c))
  else if key =s "OLD" then Some (with_notflag FlagRecent)
  else None.

(** The keys with arguments; [None] is the default case of the switch. *)
Definition arg_key (key : bytes) (c : SearchCriteria) : option (Dec SearchCriteria) :=
  let header name := s ← sp_astring; mret (with_header (mkHeaderField name s) c) in
  if key =s "KEYWORD" then Some (kw ← sp_atom; mret (with_flag kw c))
  else if key =s "UNKEYWORD" then Some (kw ← sp_atom; mret (with_notflag kw c))
  else if key =s "LARGER" then Some (n ← sp_number; mret (with_larger (i64 n) c))
  else if key =s "SMALLER" then Some (n ← sp_number; mret (with_smaller (i64 n) c))
  else if key =s "BODY" then Some (s ← sp_astring; mret (with_body s c))
  else if key =s "TEXT" then Some (s ← sp_astring; mret (with_text s c))
  else if key =s "SUBJECT" then Some (header "Subject")
  else if key =s "FROM" then Some (header "From")
  else if key =s "TO" then Some (header "To")
  else if key =s "CC" then Some (header "Cc")
  else if key =s "BCC" then Some (header "Bcc")
  else if key =s "HEADER" then
    Some (name ← sp_astring; v ← sp_astring; mret (with_header (mkHeaderField name v) c))
  else if key =s "UID" then
    Some (s ← sp_atom; set ← lift_res (ParseUIDSet s); mret (with_uid set c))
  else if key =s "MODSEQ" then
    Some (m ← parse_modseq;
          mret (ext_upd (set_modseq m) c))
  else if key =s "SAVEDBEFORE" then
    Some (t ← sp_date "SAVEDBEFORE";
          mret (ext_upd (set_saved_before t) c))
  else if key =s "SAVEDSINCE" then
    Some (t ← sp_date "SAVEDSINCE";
          mret (ext_upd (set_saved_since t) c))
  else if key =s "SAVEDON" then
    Some (t ← sp_date "SAVEDON";
          mret (ext_upd (set_saved_on t) c))
  else None.

(** The loop and its recursion for NOT; both go on after an atom was read, so
    the length of the input plus one bounds them. *)
Fixpoint search_loop (fuel : nat) (c : SearchCriteria) : Dec SearchCriteria :=
  match fuel with
  | O => st_hang
  | S f =>
    b ← attempt PeekByte;
    match b with
    | inl _ => mret c
    | inr b =>
      if b =c ")" then mret c
      else
        key ← attempt ReadAtom;
        match key with
        | inl _ => mret c
        | inr key =>
          let upper := ToUpper key in
          c ← (match flag_key upper with
               | Some set => mret (set c)
               | None =>
                 match arg_key upper c with
                 | Some m => m
                 | None =>
                   if upper =s "NOT" then
                     _ ← ReadSP;
                     sub ← search_loop f criteria0;
                     mret (with_not sub c)
                   else
                     match ParseSeqSet key with
                     | Ok set => mret (with_seqnum set c)
                     | _ => mret c
                     end
                 end
               end);
          sp ← attempt ReadSP;
          match sp with inl _ => mret c | inr _ => search_loop f c end
        end
    end
  end.
Definition parseSearchCriteria (c : SearchCriteria) : Dec SearchCriteria :=
  s ← st_get; search_loop (length s + 1) c.

Definition search_response (ctx : CommandContext) (data : SearchData) (e : Enc.Encoder) : Enc.Encoder :=
  let nums := match x_NumKind ctx with
              | NumKindUID => sd_AllUIDs data
              | NumKindSeq => sd_AllSeqNums data
              end in
  let e := foldl (fun e n => e |> SP |> Number n) (e |> Star |> Atom "SEARCH") nums in
  let e := if 0 <? sd_ModSeq data
           then e |> SP |> BeginList |> Atom "MODSEQ" |> SP |> Number64 (sd_ModSeq data) |> EndList
           else e in
  e |> CRLF.

Definition Search (ctx : CommandContext) : Cmd unit :=
  _ ← need_args ctx "missing search criteria";
  criteria ← on_err (arg (parseSearchCriteria criteria0))
               (fun e => ErrBad ("invalid search criteria: " ++ Error e));
  data ← session (bk_Search (x_NumKind ctx) (Some criteria)
                    (Some search_options0));
  _ ← write (search_response ctx data);
  ok ctx "SEARCH completed".

(** ** The table (server/commands/register.go) *)
Definition builtins : list (bytes * Handler Sess) :=
  [("CAPABILITY" : bytes, Capability); ("NOOP" : bytes, Noop); ("LOGOUT" : bytes, Logout);
   ("STARTTLS" : bytes, StartTLS); ("LOGIN" : bytes, Login);
   ("ENABLE" : bytes, Enable); ("SELECT" : bytes, Select); ("EXAMINE" : bytes, Examine);
   ("CREATE" : bytes, Create); ("DELETE" : bytes, Delete); ("RENAME" : bytes, Rename);
   ("SUBSCRIBE" : bytes, Subscribe); ("UNSUBSCRIBE" : bytes, Unsubscribe);
   ("LIST" : bytes, List_); ("LSUB" : bytes, Lsub); ("STATUS" : bytes, Status);
   ("APPEND" : bytes, Append); ("IDLE" : bytes, Idle);
   ("CLOSE" : bytes, Close); ("UNSELECT" : bytes, Unselect); ("EXPUNGE" : bytes, Expunge);
   ("SEARCH" : bytes, Search); ("FETCH" : bytes, Fetch); ("STORE" : bytes, Store);
   ("COPY" : bytes, Copy)].

End Commands.
