(* ===== verification/Dispatch.v ===== *)
(** * Dispatch and the connection loop (server/dispatch.go, server/conn.go,
      server/server.go) *)

From S2P Require Import Prelude Utf8 GoStrings GoTime NumSet Imap Decoder Encoder Writers.
From S2P Require Import ConnState Conn Commands.

(** ** The dispatcher *)
Section Dispatch.
Context {U : Unicode} {Sess : Type}.

Abbreviation Dispatcher := (gmap bytes (Handler Sess)).
Definition NewDispatcher : Dispatcher := ∅.
Definition disp_Register (name : bytes) (handler : Handler Sess) (d : Dispatcher) : Dispatcher :=
  <[ToUpper name := handler]> d.
Definition disp_Get (d : Dispatcher) (name : bytes) : option (Handler Sess) := d !! ToUpper name.
Definition disp_Wrap (name : bytes) (wrapper : Handler Sess -> Handler Sess) (d : Dispatcher) : Dispatcher :=
  match d !! ToUpper name with
  | Some h => <[ToUpper name := wrapper h]> d
  | None => d
  end.
Definition disp_Names (order : list bytes -> list bytes) (d : Dispatcher) : list bytes :=
  order (map_to_list d).*1.

(** [RegisterAll] *)
Definition RegisterAll (handlers : list (bytes * Handler Sess)) : Dispatcher :=
  foldl (fun d '(name, h) => disp_Register name h d) NewDispatcher handlers.

(** ** Parsing a command line *)
Definition parseLine (line : bytes) : res (bytes * bytes * bytes) :=
  if line =s [] then Err (emsg "empty command")
  else
    match IndexByte line " " with
    | None => Err (emsg "missing command name")
    | Some i =>
      let tag := take i line in
      let remaining := drop (i + 1) line in
      let '(name, rest) :=
        match IndexByte remaining " " with
        | None => (remaining, [])
        | Some j => (take j remaining, drop (j + 1) remaining)
        end in
      if tag =s [] then Err (emsg "empty tag")
      else if name =s [] then Err (emsg "empty command name")
      else Ok (tag, name, rest)
    end.

(** ** Dispatching *)
Record CState := mkCS { cs_conn : Conn; cs_sess : Sess }.
Abbreviation C := (St CState).

Definition conn_do (f : Conn -> Conn) : C unit := fun s =>
  (Ok tt, mkCS (f (cs_conn s)) (cs_sess s)).

(** The handler runs on its arguments; what it leaves of them is dropped. *)
Definition run_handler (handler : Handler Sess) (ctx : CommandContext) (rest : bytes) : C unit := fun s =>
  let '(r, h) := handler ctx (mkH rest (cs_conn s) (cs_sess s)) in
  (r, mkCS (h_conn h) (h_sess h)).

(** The response to a handler's error. *)
Definition reply_error (tag : bytes) (err : error) : C unit :=
  match err with
  | IMAPError StatusNO code _ text => conn_do (Encode (Enc.StatusResponse tag "NO" code text))
  | IMAPError StatusBAD code _ text => conn_do (Encode (Enc.StatusResponse tag "BAD" code text))
  | IMAPError StatusBYE _ _ text =>
    _ ← conn_do (WriteBYE text);
    st_fail (Errorf [Txt "BYE: "; Txt text])
  | IMAPError _ _ _ _ => conn_do (WriteNO tag (Error err))
  | _ => conn_do (WriteNO tag "internal server error")
  end.

(** The command, after a UID prefix has been taken off. *)
Definition uid_prefix (name rest : bytes) : option (NumKind * bytes * bytes) :=
  let upper := ToUpper name in
  if upper =s "UID" then
    match SplitN rest " " 2 with
    | [] => None
    | p :: ps =>
      if p =s [] then None
      else Some (NumKindUID, ToUpper p, match ps with q :: _ => q | [] => [] end)
    end
  else Some (NumKindSeq, upper, rest).

Definition dispatch (d : Dispatcher) (tag name rest : bytes) : C unit :=
  match uid_prefix name rest with
  | None => conn_do (WriteBAD tag "missing command after UID")
  | Some (numKind, upper, rest) =>
    s ← st_get;
    match (match CommandAllowedStates upper with
           | None =>
             match disp_Get d upper with
             | None => Some ("unknown command " ++ upper)
             | Some _ => None
             end
           | Some allowed => Error <$> RequireState (c_state (cs_conn s)) allowed
           end) with
    | Some text => conn_do (WriteBAD tag text)
    | None =>
      match disp_Get d upper with
      | None => conn_do (WriteBAD tag ("command " ++ upper ++ " not implemented"))
      | Some handler =>
        r ← attempt (run_handler handler (mkContext tag upper numKind (negb (rest =s []))) rest);
        match r with
        | inl err => reply_error tag err
        | inr _ => mret tt
        end
      end
    end
  end.

(** ** The loop *)
Definition readAndHandle (d : Dispatcher) : C unit :=
  s ← st_get;
  let '(r, rest) := ReadLine (c_in (cs_conn s)) in
  _ ← conn_do (set_in rest);
  match r with
  | Ok line =>
    match parseLine line with
    | Ok (tag, name, rest) => dispatch d tag name rest
    | Err e => conn_do (WriteBAD "*" (Error e))
    | Panic => st_panic
    | Hang => st_hang
    end
  | Err e => st_fail e
  | Panic => st_panic
  | Hang => st_hang
  end.

(** Every round takes at least a byte of what the client sends, in clear or
    inside TLS. *)
Fixpoint serve_loop (fuel : nat) (d : Dispatcher) : C unit :=
  match fuel with
  | O => st_hang
  | S f =>
    r ← attempt (readAndHandle d);
    match r with
    | inl _ => mret tt
    | inr _ =>
      s ← st_get;
      if bool_decide (conn_State (cs_conn s) = ConnStateLogout) then mret tt else serve_loop f d
    end
  end.

Context {B : Backend Sess} (opts : Options).

Definition conn_Close : C unit := fun s =>
  if c_closed (cs_conn s) then (Ok tt, s)
  else
    let '(r, sess) := bk_Close (cs_sess s) in
    (match r with Panic => Panic | Hang => Hang | _ => Ok tt end, mkCS (set_closed (cs_conn s)) sess).

Definition serve_fuel (c : Conn) : nat :=
  S (length (c_in c) + match c_tls c with Some t => length t | None => 0 end).

Definition serve (d : Dispatcher) : C unit :=
  _ ← conn_do (writeGreeting opts);
  s ← st_get;
  _ ← serve_loop (serve_fuel (cs_conn s)) d;
  conn_Close.

End Dispatch.
Arguments CState : clear implicits.
