(* ===== verification/Replies.v ===== *)
(** * The responses to a command

    Every command is answered by untagged data followed by one tagged reply. *)

From S2P Require Import Prelude Utf8 GoStrings GoTime NumSet Imap Decoder Encoder Writers.
From S2P Require Import ConnState Conn Commands Dispatch.

(** ** Writes only append *)
Definition grows (f : Enc.Encoder -> Enc.Encoder) : Prop :=
  forall e0 e, e0 `prefix_of` e -> e0 `prefix_of` f e.

Lemma grows_app (e0 e x : bytes) : e0 `prefix_of` e -> e0 `prefix_of` e ++ x.
Proof. apply prefix_app_r. Qed.

Create HintDb enc.
#[export] Hint Unfold Enc.Raw Enc.RawString Enc.Atom Enc.SP Enc.CRLF Enc.QuotedString Enc.Literal
  Enc.BinaryLiteral Enc.Nil Enc.Number Enc.Number64 Enc.BeginList Enc.EndList Enc.DateTime
  Enc.ResponseCode Enc.AString Enc.NumResponse Enc.ContinuationRequest : enc.

Lemma grows_EncString s : grows (Enc.EncString s).
Proof. intros e0 e He. unfold Enc.EncString. repeat case_if; by apply grows_app. Qed.
Lemma grows_items b l : grows (Enc.items b l).
Proof.
  revert b. induction l as [|s l IH]; intros b e0 e He; [done|]. apply IH, grows_EncString.
  destruct b; [done|by apply grows_app].
Qed.
Lemma grows_Flags l : grows (Enc.Flags l).
Proof. intros e0 e He. apply grows_app, grows_items, grows_app, He. Qed.
Lemma grows_MailboxName {U : Unicode} s : grows (Enc.MailboxName s).
Proof. intros e0 e He. unfold Enc.MailboxName. case_if; [by apply grows_app|by apply grows_EncString]. Qed.
Lemma grows_foldl {A} (f : Enc.Encoder -> A -> Enc.Encoder) l e0 e :
  (forall a e, e0 `prefix_of` e -> e0 `prefix_of` f e a) ->
  e0 `prefix_of` e -> e0 `prefix_of` foldl f e l.
Proof. intros Hf. revert e. induction l as [|a l IH]; intros e He; [done|]. by apply IH, Hf. Qed.
Lemma grows_spaced b items : Forall grows items -> grows (spaced b items).
Proof.
  intros HF. revert b. induction HF as [|f items Hf _ IH]; intros b e0 e He; [done|].
  apply IH, Hf. destruct b; [done|by apply grows_app].
Qed.
Lemma grows_when b f : grows f -> Forall grows (when b f).
Proof. intros. destruct b; by repeat constructor. Qed.
Lemma grows_when_some {A} (o : option A) f : (forall a, grows (f a)) -> Forall grows (when_some o f).
Proof. intros. destruct o; by repeat constructor. Qed.
Lemma grows_list {A} (f : A -> Enc.Encoder -> Enc.Encoder) l : (forall a, grows (f a)) -> Forall grows (f <$> l).
Proof. intros. apply Forall_fmap, list.Forall_forall. intros a _. apply H. Qed.

Lemma star_prefix : ("* " : bytes) `prefix_of` Enc.Star [].
Proof. done. Qed.

(** A chain of writes grows. *)
Ltac grow :=
  repeat (intros; autounfold with enc;
    first [ assumption | apply star_prefix | apply grows_EncString | apply grows_Flags | apply grows_items
          | simple apply grows_app | apply grows_MailboxName | apply grows_spaced | apply Forall_app_2 | apply grows_when
          | apply grows_when_some | apply grows_list | apply grows_foldl | apply Forall_nil_2
          | match goal with
            | |- grows _ => unfold grows
            | |- _ `prefix_of` (if ?b then _ else _) => destruct b
            | |- _ `prefix_of` match ?p with pair _ _ => _ end _ => destruct p
            | |- _ `prefix_of` match ?p with pair _ _ => _ end => destruct p
            end ]).

Lemma grows_string_or_nil s : grows (string_or_nil s).
Proof. unfold string_or_nil. grow. Qed.
Lemma grows_writeAddressList l : grows (writeAddressList l).
Proof.
  unfold writeAddressList. intros e0 e He. destruct l as [|a l]; [grow|]. apply grows_app, grows_spaced; [|grow].
  apply grows_list. intros [n mb h]. unfold write_address. repeat (grow; apply grows_string_or_nil).
Qed.
Lemma grows_writeEnvelope env : grows (writeEnvelope env).
Proof.
  unfold writeEnvelope. intros e0 e He.
  repeat (grow; first [apply grows_string_or_nil|apply grows_writeAddressList]).
Qed.

(** ** Untagged data and tagged replies *)
Definition untagged (w : bytes) : Prop := ("* " : bytes) `prefix_of` w \/ ("+ " : bytes) `prefix_of` w.
Definition tagged (tag w : bytes) : Prop :=
  exists status code text, w = Enc.StatusResponse tag status code text [] /\
    status ∈ ["OK" : bytes; "NO" : bytes; "BAD" : bytes].

Section Writes.
Context {U : Unicode}.

Lemma untagged_WriteFlags b n l : untagged (WriteFlags b n l []).
Proof. left. unfold WriteFlags. grow. Qed.

Lemma grows_fetch_items d : Forall grows (fetch_items d).
Proof.
  unfold fetch_items. grow.
  - intros. apply grows_writeEnvelope. grow.
  - case_match; [constructor|]; grow.
  - case_if; [constructor|]; grow.
Qed.
Lemma untagged_WriteFetchData b d : untagged (WriteFetchData b d []).
Proof.
  left. unfold WriteFetchData. do 2 apply grows_app. apply grows_spaced; [apply grows_fetch_items|grow].
Qed.

Lemma untagged_WriteList d : Forall (fun fn => untagged (fn [])) (WriteList d).
Proof.
  constructor.
  - left. unfold write_list, extended_items. grow.
  - unfold when_some. destruct (ld_Status d) as [st|]; [|constructor]. apply list.Forall_singleton.
    left. unfold write_status. grow.
Qed.

Lemma untagged_update u : Forall (fun fn => untagged (fn [])) (update_call u).
Proof.
  destruct u; apply list.Forall_singleton; left; unfold WriteExists, WriteExpunge, WriteMessageFlags; grow.
Qed.
Lemma untagged_expunge n : Forall (fun fn => untagged (fn [])) (expunge_call n).
Proof. apply list.Forall_singleton. left. unfold WriteExpunge. grow. Qed.
Lemma untagged_fetch_call c : Forall (fun fn => untagged (fn [])) (fetch_writes c).
Proof. destruct c; apply list.Forall_singleton; [apply untagged_WriteFlags|apply untagged_WriteFetchData]. Qed.
Lemma untagged_select d : Forall (fun fn => untagged (fn [])) (select_writes d).
Proof.
  assert (forall b fn, untagged (fn []) -> Forall (fun fn => untagged (fn [])) (when b fn)) as Hw.
  { intros [] fn Hfn; [by apply list.Forall_singleton|constructor]. }
  unfold select_writes. repeat apply Forall_app_2; try (apply Hw; left; grow).
  repeat (apply list.Forall_cons; split; [left; grow|]). constructor.
Qed.
Lemma untagged_status d : untagged (status_response d []).
Proof. left. unfold status_response. grow. Qed.
Lemma untagged_search ctx d : untagged (search_response ctx d []).
Proof. left. unfold search_response. grow. Qed.

End Writes.

(** ** Handlers *)
Section Quiet.
Context {U : Unicode} {Sess : Type} {B : Backend Sess}.
Context (opts : Options) (ord : nat -> list bytes -> list bytes).

Definition said (c c' : Conn) (ws : list bytes) : Prop := c_out c' = c_out c ++ ws.

(** A computation that writes untagged data only. *)
Class Quiet {A} (m : H Sess A) : Prop :=
  quiet : forall h r h', m h = (r, h') ->
    exists us, said (h_conn h) (h_conn h') us /\ Forall untagged us.

(** One that ends, if it succeeds, with one tagged reply, and that has not
    written it when it fails or panics. *)
Class Replies (tag : bytes) (m : H Sess unit) : Prop :=
  replies : forall h r h', m h = (r, h') ->
    exists us ts, said (h_conn h) (h_conn h') (us ++ ts) /\ Forall untagged us /\
      match r with
      | Ok _ => exists t, ts = [t] /\ tagged tag t
      | _ => ts = []
      end.

Lemma said_refl c : said c c [].
Proof. unfold said. by rewrite app_nil_r. Qed.
Lemma said_trans c1 c2 c3 u v : said c1 c2 u -> said c2 c3 v -> said c1 c3 (u ++ v).
Proof. unfold said. intros H1 H2. by rewrite H2, H1, (assoc_L (++)). Qed.

Lemma quiet_same {A} (m : H Sess A) :
  (forall h, c_out (h_conn (m h).2) = c_out (h_conn h)) -> Quiet m.
Proof.
  intros Hm h r h' E. exists []. split; [|constructor]. specialize (Hm h). rewrite E in Hm.
  unfold said. by rewrite app_nil_r.
Qed.

#[export] Instance quiet_ret {A} (a : A) : Quiet (mret a : H Sess A).
Proof. by apply quiet_same. Qed.
#[export] Instance quiet_fail {A} e : Quiet (st_fail e : H Sess A).
Proof. by apply quiet_same. Qed.
#[export] Instance quiet_hang {A} : Quiet (st_hang : H Sess A).
Proof. by apply quiet_same. Qed.
#[export] Instance quiet_get : Quiet (st_get : H Sess _).
Proof. by apply quiet_same. Qed.
#[export] Instance quiet_get_conn : Quiet (get_conn : H Sess _).
Proof. by apply quiet_same. Qed.
#[export] Instance quiet_arg {A} (m : Dec A) : Quiet (arg m : H Sess A).
Proof. apply quiet_same. intros h. unfold arg. by destruct (m (h_args h)). Qed.
#[export] Instance quiet_conn_read {A} (m : Dec A) : Quiet (conn_read m : H Sess A).
Proof. apply quiet_same. intros h. unfold conn_read. by destruct (m (c_in (h_conn h))). Qed.
#[export] Instance quiet_session {A} (m : St Sess A) : Quiet (session m).
Proof. apply quiet_same. intros h. unfold session. by destruct (m (h_sess h)). Qed.
#[export] Instance quiet_SetState s : Quiet (SetState s : H Sess _).
Proof. apply quiet_same. intros h. unfold SetState. by destruct (Transition s _). Qed.
#[export] Instance quiet_SetMailbox n b : Quiet (on_conn (SetMailbox n b) : H Sess _).
Proof. by apply quiet_same. Qed.
#[export] Instance quiet_need_args ctx t : Quiet (need_args ctx t : H Sess _).
Proof. apply quiet_same. intros h. unfold need_args. by case_if. Qed.

#[export] Instance quiet_bind {A C} (m : H Sess A) (k : A -> H Sess C) :
  Quiet m -> (forall a, Quiet (k a)) -> Quiet (m ≫= k).
Proof.
  intros Hm Hk h r h'. unfold mbind, st_bind. destruct (m h) as [r1 h1] eqn:E.
  apply Hm in E as (us & Hs & Hu). destruct r1 as [a|e| |]; [|intros [= <- <-]; by eauto..].
  intros (us' & Hs' & Hu')%Hk. exists (us ++ us'). split; [by eapply said_trans|by apply Forall_app_2].
Qed.
#[export] Instance quiet_on_err {A} (m : H Sess A) f : Quiet m -> Quiet (on_err m f).
Proof.
  intros Hm h r h'. unfold on_err. destruct (m h) as [r1 h1] eqn:E. apply Hm in E.
  destruct r1; by intros [= <- <-].
Qed.
#[export] Instance quiet_attempt {A} (m : H Sess A) : Quiet m -> Quiet (attempt m).
Proof.
  intros Hm h r h'. unfold attempt. destruct (m h) as [r1 h1] eqn:E. apply Hm in E.
  destruct r1; by intros [= <- <-].
Qed.

Lemma said_writes fns c :
  Forall (fun fn => untagged (fn [])) fns ->
  exists us, said c (foldl (fun c fn => Encode fn c) c fns) us /\ Forall untagged us.
Proof.
  intros HF. revert c. induction HF as [|fn fns Hfn _ IH]; intros c.
  - exists []. split; [apply said_refl|constructor].
  - destruct (IH (Encode fn c)) as (us & Hs & Hu). exists (fn [] :: us).
    split; [|by constructor]. exact (said_trans c (Encode fn c) _ [fn []] us eq_refl Hs).
Qed.
Lemma quiet_writes fns : Forall (fun fn => untagged (fn [])) fns -> Quiet (write_all fns : H Sess _).
Proof. intros HF h r h' [= <- <-]. by apply said_writes. Qed.
Lemma quiet_write fn : untagged (fn []) -> Quiet (write fn : H Sess _).
Proof. intros Hfn h r h' [= <- <-]. exists [fn []]. split; [done|by apply list.Forall_singleton]. Qed.
Lemma quiet_writing {W} (call : W -> list (Enc.Encoder -> Enc.Encoder)) (m : Sess -> (res unit * Sess) * list W) :
  (forall w, Forall (fun fn => untagged (fn [])) (call w)) -> Quiet (session_writing call m).
Proof.
  intros Hw h r h'. unfold session_writing. destruct (m (h_sess h)) as [[r1 s] calls].
  intros [= <- <-]. apply said_writes. apply Forall_concat, Forall_fmap, list.Forall_forall. intros w _. apply Hw.
Qed.
#[export] Instance quiet_WriteBYE t : Quiet (on_conn (WriteBYE t) : H Sess _).
Proof. apply quiet_write. left. unfold Enc.StatusResponse. cbn [orb]. grow. Qed.
#[export] Instance quiet_capabilities : Quiet (on_conn (WriteCapabilities ord opts) : H Sess _).
Proof.
  intros h r h' [= <- <-]. eexists. split; [reflexivity|]. apply list.Forall_singleton. left. grow.
Qed.
#[export] Instance quiet_select d : Quiet (write_all (select_writes d) : H Sess _).
Proof. apply quiet_writes, untagged_select. Qed.
#[export] Instance quiet_list m : Quiet (session_writing WriteList m).
Proof. apply quiet_writing, untagged_WriteList. Qed.
#[export] Instance quiet_expunge m : Quiet (session_writing expunge_call m).
Proof. apply quiet_writing, untagged_expunge. Qed.
#[export] Instance quiet_fetch m : Quiet (session_writing fetch_writes m).
Proof. apply quiet_writing, untagged_fetch_call. Qed.
#[export] Instance quiet_update m : Quiet (session_writing update_call m).
Proof. apply quiet_writing, untagged_update. Qed.
#[export] Instance quiet_status d : Quiet (write (status_response d) : H Sess _).
Proof. apply quiet_write, untagged_status. Qed.
#[export] Instance quiet_search ctx d : Quiet (write (search_response ctx d) : H Sess _).
Proof. apply quiet_write, untagged_search. Qed.
#[export] Instance quiet_idling : Quiet (write (Enc.ContinuationRequest "idling") : H Sess _).
Proof. apply quiet_write. right. by exists (("idling" : bytes) ++ crlf). Qed.
#[export] Instance quiet_enable_loop fuel l : Quiet (enable_loop fuel l : H Sess _).
Proof.
  revert l. induction fuel as [|f IH]; intros l; cbn [enable_loop]; [apply _|].
  apply quiet_bind; [apply _|]. intros [e|cap]; [apply _|].
  apply quiet_bind; [apply _|]. intros [e|[]]; apply _.
Qed.
#[export] Instance quiet_read_numset ctx : Quiet (read_numset ctx : H Sess _).
Proof. unfold read_numset. apply quiet_bind; [apply _|]. intros s. destruct (x_NumKind ctx); apply _. Qed.
#[export] Instance quiet_append_flags b : Quiet (append_flags b : H Sess _).
Proof. unfold append_flags. case_if; apply _. Qed.
#[export] Instance quiet_append_datetime b : Quiet (append_datetime b : H Sess _).
Proof.
  unfold append_datetime. case_if; [|apply _]. apply quiet_bind; [apply _|]. intros s.
  destruct (append_date s); apply _.
Qed.

(** Replies after untagged data. *)
Lemma tagged_status tag status code text :
  status ∈ ["OK" : bytes; "NO" : bytes; "BAD" : bytes] ->
  tagged tag (Enc.StatusResponse tag status code text []).
Proof. intros H. by exists status, code, text. Qed.

#[export] Instance replies_write tag code text : Replies tag (write (Enc.StatusResponse tag "OK" code text)).
Proof.
  intros h r h' [= <- <-]. exists [], [Enc.StatusResponse tag "OK" code text []].
  split; [done|]. split; [constructor|]. eexists. split; [done|]. apply tagged_status. set_solver.
Qed.
#[export] Instance replies_ok ctx text : Replies (x_Tag ctx) (ok ctx text).
Proof. apply replies_write. Qed.
#[export] Instance replies_fail tag e : Replies tag (st_fail e).
Proof. intros h r h' [= <- <-]. exists [], []. split; [apply said_refl|]. split; [constructor|done]. Qed.
#[export] Instance replies_bind {A} tag (m : H Sess A) k :
  Quiet m -> (forall a, Replies tag (k a)) -> Replies tag (m ≫= k).
Proof.
  intros Hm Hk h r h'. unfold mbind, st_bind. destruct (m h) as [r1 h1] eqn:E.
  apply Hm in E as (us & Hs & Hu).
  destruct r1 as [a|e| |]; [|intros [= <- <-]; exists us, []; by rewrite app_nil_r..].
  intros (us' & ts & Hs' & Hu' & Hr)%Hk. exists (us ++ us'), ts. split_and!; [|by apply Forall_app_2|done].
  rewrite <- (assoc_L (++)). by eapply said_trans.
Qed.

#[export] Instance quiet_Capabilities : Quiet (with_conn (Capabilities ord opts) : H Sess _).
Proof. by apply quiet_same. Qed.
#[export] Instance quiet_set_enabled f : Quiet (on_conn (fun c => set_enabled (f c) c) : H Sess _).
Proof. by apply quiet_same. Qed.
#[export] Instance quiet_enabled l : Quiet (write (fun e => Enc.CRLF (foldl (fun e cap => Enc.Atom cap (Enc.SP e))
  (Enc.Atom "ENABLED" (Enc.Star e)) l)) : H Sess _).
Proof. apply quiet_write. left. grow. Qed.

End Quiet.

(** Work through a handler: quiet steps, then the reply. *)
Ltac reply :=
  repeat match goal with
  | |- Replies _ (if ?b then _ else _) => destruct b
  | |- Replies _ match ?x with _ => _ end => destruct x
  | |- Replies _ (mbind _ _) => apply replies_bind; [|intros ?]
  | |- Replies _ _ => apply _
  | |- Quiet _ => apply _
  end.

(** ** The built-in commands *)
Section Builtins.
Context {U : Unicode} {Sess : Type} {B : Backend Sess}.
Context (opts : Options) (ord : nat -> list bytes -> list bytes).

Create HintDb cmds.
#[local] Hint Unfold Capability Noop Logout Login Enable Select Examine handleSelect Create Delete Rename
  Subscribe Unsubscribe List_ Lsub list_with Status Append Idle Close Unselect Expunge Search Fetch Store
  Copy fail : cmds.

(** Every built-in command but STARTTLS. *)
Lemma builtin_replies name handler :
  (name, handler) ∈ (builtins opts ord : list (bytes * Handler Sess)) ->
  name = ("STARTTLS" : bytes) \/ forall ctx, Replies (x_Tag ctx) (handler ctx).
Proof.
  unfold builtins. intros Hin.
  repeat (apply elem_of_cons in Hin as [[= -> ->]|Hin]; [first [by left | right; intros ctx]|]).
  all: try (by apply elem_of_nil in Hin).
  all: autounfold with cmds; reply.
  destruct (x_NumKind ctx); [|destruct (x_decoder ctx)]; apply _.
Qed.

(** The handshake of a STARTTLS command fails. *)
Definition handshake_fails (upper : bytes) (c : Conn) : bool :=
  (upper =s "STARTTLS") && bool_decide (conn_State c = ConnStateNotAuthenticated)
  && negb (c_isTLS c) && op_TLSConfig opts && bool_decide (c_tls c = None).

Definition no_or_bad (e : error) : bool :=
  match e with IMAPError (StatusNO | StatusBAD) _ _ _ => true | _ => false end.

Lemma starttls_replies ctx (h : HState Sess) r h' :
  StartTLS opts ctx h = (r, h') ->
  exists ts, said (h_conn h) (h_conn h') ts /\
    match r with
    | Ok _ => exists t, ts = [t] /\ tagged (x_Tag ctx) t
    | Err e => no_or_bad e = true
    | _ => False
    end /\
    (is_err r = true -> if negb (c_isTLS (h_conn h)) && op_TLSConfig opts && bool_decide (c_tls (h_conn h) = None)
                        then exists t, ts = [t] /\ tagged (x_Tag ctx) t else ts = []) /\
    (r = Ok tt -> c_tls (h_conn h) <> None).
Proof.
  destruct h as [args c s]. unfold StartTLS, mbind, st_bind, get_conn, fail, st_fail. cbn [h_conn].
  destruct (c_isTLS c) eqn:Et; cbn [negb andb].
  { intros [= <- <-]. exists []. split; [apply said_refl|]. split_and!; [done..]. }
  destruct (op_TLSConfig opts); cbn [negb andb].
  2: { intros [= <- <-]. exists []. split; [apply said_refl|]. split_and!; [done..]. }
  unfold ok, on_conn, with_conn, UpgradeTLS, WriteOK, Encode. cbn [h_conn c_tls].
  set (t := Enc.StatusResponse (x_Tag ctx) "OK" [] "Begin TLS negotiation now" []).
  assert (tagged (x_Tag ctx) t) as Ht by (apply tagged_status; set_solver).
  destruct (c_tls c) as [input|] eqn:Ec; intros [= <- <-]; exists [t]; (split; [done|]).
  - split_and!; [by eauto|done|done].
  - split_and!; [done|intros _; rewrite bool_decide_true by done; by eauto|done].
Qed.

Lemma RegisterAll_lookup (l : list (bytes * Handler Sess)) n h :
  disp_Get (RegisterAll l) n = Some h -> exists name, (name, h) ∈ l /\ ToUpper name = ToUpper n.
Proof.
  unfold disp_Get, RegisterAll. assert (forall d : gmap bytes (Handler Sess),
    foldl (fun d '(name, h) => disp_Register name h d) d l !! ToUpper n = Some h ->
    (exists name, (name, h) ∈ l /\ ToUpper name = ToUpper n) \/ d !! ToUpper n = Some h) as Hgen.
  { induction l as [|[name h0] l IH]; intros d; cbn [foldl]; [by right|].
    intros [(name' & Hin & Hn)|Hd]%IH; [left; exists name'; by split; [right|]|].
    unfold disp_Register in Hd.
    apply lookup_insert_Some in Hd as [[Hn ->]|[_ Hd]]; [left; exists name; by split; [left|]|by right]. }
  intros [H|H]%Hgen; [done|]. unfold NewDispatcher in H. by rewrite lookup_empty in H.
Qed.

Lemma builtin_names : Forall (fun '(n, _) => ToUpper n = n) (builtins opts ord : list (bytes * Handler Sess)).
Proof. repeat (constructor; [by rewrite ToUpper_ascii by done|]). constructor. Qed.

(** The handler found for an upper-case name is the one of the table. *)
Lemma builtin_found upper h :
  ToUpper upper = upper ->
  disp_Get (RegisterAll (builtins opts ord)) upper = Some h -> (upper, h) ∈ (builtins opts ord : list (bytes * Handler Sess)).
Proof.
  intros Hup (name & Hin & Hn)%RegisterAll_lookup. pose proof builtin_names as HF.
  rewrite list.Forall_forall in HF. specialize (HF _ Hin). simpl in HF. congruence.
Qed.
Lemma uid_prefix_upper name rest k upper rest' :
  uid_prefix name rest = Some (k, upper, rest') -> ToUpper upper = upper.
Proof.
  unfold uid_prefix. case_if.
  - destruct (SplitN rest " " 2) as [|p ps]; [done|]. case_if; [done|]. intros [= <- <- <-]. apply ToUpper_idem.
  - intros [= <- <- <-]. apply ToUpper_idem.
Qed.

Lemma said_one fn c : said c (Encode fn c) [fn []].
Proof. done. Qed.

(** What an error adds. *)
Lemma reply_error_said tag err (s s' : CState Sess) r :
  reply_error tag err s = (r, s') ->
  exists t, said (cs_conn s) (cs_conn s') [t] /\
    match r with
    | Ok _ => tagged tag t
    | _ => untagged t /\ no_or_bad err = false
    end.
Proof.
  assert (forall st code text, st ∈ ["OK" : bytes; "NO" : bytes; "BAD" : bytes] ->
    conn_do (Encode (Enc.StatusResponse tag st code text)) s = (r, s') ->
    exists t, said (cs_conn s) (cs_conn s') [t] /\
      match r with Ok _ => tagged tag t | _ => untagged t /\ no_or_bad err = false end) as Hconn.
  { intros st code text Hst [= <- <-]. eexists. split; [apply said_one|]. by apply tagged_status. }
  unfold reply_error, WriteNO. destruct err as [| | | |ty code a text|]; try (apply Hconn; set_solver).
  destruct ty; try (apply Hconn; set_solver).
  intros [= <- <-]. eexists. split; [apply said_one|]. split; [|done].
  left. unfold Enc.StatusResponse. cbn [orb]. grow.
Qed.

Lemma run_handler_said handler ctx rest (s : CState Sess) r s' :
  run_handler handler ctx rest s = (r, s') ->
  exists h h', h_conn h = cs_conn s /\ h_conn h' = cs_conn s' /\ handler ctx h = (r, h').
Proof.
  unfold run_handler. destruct (handler ctx _) as [r1 h1] eqn:E. intros [= <- <-].
  by exists (mkH rest (cs_conn s) (cs_sess s)), h1.
Qed.

(** What a command may add: untagged responses and [n] tagged ones, none if it
    ends the connection. *)
Definition answered (tag : bytes) (n : nat) (c c' : Conn) (r : res unit) : Prop :=
  match r with
  | Ok _ => exists us ts, said c c' (us ++ ts) /\ Forall untagged us /\
      Forall (tagged tag) ts /\ length ts = n
  | _ => exists us, said c c' us /\ Forall untagged us
  end.

Lemma answered_bad tag text (s s' : CState Sess) r :
  conn_do (WriteBAD tag text) s = (r, s') -> answered tag 1 (cs_conn s) (cs_conn s') r.
Proof.
  intros [= <- <-]. exists [], [Enc.StatusResponse tag "BAD" [] text []]. split_and!; [done|constructor| |done].
  apply list.Forall_singleton, tagged_status. set_solver.
Qed.

(** A handler and the response to its error. *)
Lemma answered_handler upper handler tag k rest (s s' : CState Sess) r :
  (if decide (upper = ("STARTTLS" : bytes))
   then handler = StartTLS opts /\ conn_State (cs_conn s) = ConnStateNotAuthenticated
   else forall ctx, Replies (x_Tag ctx) (handler ctx)) ->
  (x ← attempt (run_handler handler (mkContext tag upper k (negb (rest =s []))) rest);
   match x with inl err => reply_error tag err | inr _ => mret tt end) s = (r, s') ->
  answered tag (if handshake_fails upper (cs_conn s) then 2 else 1) (cs_conn s) (cs_conn s') r.
Proof.
  intros Hcase. unfold mbind, st_bind, attempt.
  set (ctx := mkContext tag upper k (negb (rest =s []))).
  destruct (run_handler handler ctx rest s) as [r1 s1] eqn:E.
  apply run_handler_said in E as (h & h' & Hc & Hc' & E). rewrite <- Hc.
  destruct (decide (upper = ("STARTTLS" : bytes))) as [->|Hne].
  - destruct Hcase as [-> Hstate].
    apply starttls_replies in E as (ts & Hs & Hr & He & Hok). rewrite Hc' in Hs.
    assert (handshake_fails "STARTTLS" (h_conn h) = negb (c_isTLS (h_conn h)) && op_TLSConfig opts
      && bool_decide (c_tls (h_conn h) = None)) as ->.
    { unfold handshake_fails. rewrite (bool_decide_true (conn_State _ = _)) by (rewrite Hc; auto).
      by rewrite (bool_decide_true (_ = _ :> bytes)). }
    destruct r1 as [[]|e| |]; [| |done|done].
    + intros [= <- <-]. destruct Hr as (t & -> & Ht). exists [], [t]. split_and!; [done|constructor| |].
      * by apply list.Forall_singleton.
      * rewrite (bool_decide_false (c_tls (h_conn h) = None)) by auto. by rewrite andb_false_r.
    + intros (t & Hs' & Ht)%reply_error_said. specialize (He eq_refl).
      destruct r as [[]|e'| |]; [|destruct Ht; congruence..].
      destruct (negb _ && _ && _).
      * destruct He as (t0 & -> & Ht0). exists [], [t0; t]. split_and!; [|constructor| |done].
        -- exact (said_trans _ _ _ _ _ Hs Hs').
        -- by repeat constructor.
      * subst ts. exists [], [t]. split_and!; [|constructor| |done].
        -- exact (said_trans _ _ _ _ _ Hs Hs').
        -- by apply list.Forall_singleton.
  - assert (handshake_fails upper (h_conn h) = false) as ->.
    { unfold handshake_fails. by rewrite bool_decide_false. }
    apply Hcase in E as (us & ts & Hs & Hu & Hr). rewrite Hc' in Hs.
    destruct r1 as [[]|e| |].
    3,4: intros [= <- <-]; subst ts; exists us; by rewrite app_nil_r in Hs.
    + intros [= <- <-]. destruct Hr as (t & -> & Ht). exists us, [t]. split_and!; [done..| |done].
      by apply list.Forall_singleton.
    + subst ts. rewrite app_nil_r in Hs. intros (t & Hs' & Ht)%reply_error_said.
      pose proof (said_trans _ _ _ _ _ Hs Hs') as Hs2. destruct r as [[]|e'| |].
      2-4: exists (us ++ [t]); split; [done|]; apply Forall_app_2; [done|]; apply list.Forall_singleton, Ht.
      exists us, [t]. split_and!; [done..| |done]. by apply list.Forall_singleton.
Qed.

Lemma foldl_register_other (l : list (bytes * Handler Sess)) n :
  Forall (fun '(m, _) => ToUpper m = m) l -> n ∉ l.*1 -> forall d : gmap bytes (Handler Sess),
  foldl (fun d '(name, h) => disp_Register name h d) d l !! n = d !! n.
Proof.
  induction 1 as [|[m h] l Hm _ IH]; intros Hn d; [done|]. cbn [foldl fmap list_fmap fst] in *.
  apply not_elem_of_cons in Hn as [Hne Hn]. rewrite IH by done. unfold disp_Register. rewrite Hm.
  by rewrite lookup_insert_ne.
Qed.
Lemma RegisterAll_get (l : list (bytes * Handler Sess)) n h :
  Forall (fun '(m, _) => ToUpper m = m) l -> NoDup l.*1 -> (n, h) ∈ l -> disp_Get (RegisterAll l) n = Some h.
Proof.
  intros HF Hnd Hin. assert (ToUpper n = n) as Hup.
  { rewrite list.Forall_forall in HF. exact (HF _ Hin). }
  unfold disp_Get, RegisterAll. rewrite Hup. generalize (NewDispatcher (Sess := Sess)).
  induction HF as [|[m h0] l Hm HF IH]; [by apply elem_of_nil in Hin|]. intros d.
  cbn [foldl fmap list_fmap fst] in *. apply list.NoDup_cons in Hnd as [Hni Hnd].
  apply elem_of_cons in Hin as [[= -> ->]|Hin]; [|by apply IH].
  rewrite foldl_register_other by done. unfold disp_Register. rewrite Hm. apply lookup_insert_eq.
Qed.
Lemma builtin_get n h :
  (n, h) ∈ builtins opts ord -> disp_Get (RegisterAll (builtins opts ord)) n = Some h.
Proof.
  apply RegisterAll_get; [apply builtin_names|]. apply (bool_decide_unpack _). by vm_compute.
Qed.
Lemma starttls_builtin : (("STARTTLS" : bytes), StartTLS opts) ∈ (builtins opts ord : list (bytes * Handler Sess)).
Proof. unfold builtins. do 3 right. left. Qed.

Lemma RequireState_spec m allowed : RequireState m allowed = None <-> State m ∈ allowed.
Proof.
  unfold RequireState, State. destruct (existsb _ allowed) eqn:E.
  - split; [|done]. intros _. apply existsb_exists in E as (x & Hin & Hx%bool_decide_eq_true).
    rewrite Hx. by apply list_elem_of_In.
  - split; [done|]. intros Hin. exfalso. apply not_true_iff_false in E. apply E, existsb_exists.
    exists (m_state m). split; [by apply list_elem_of_In|]. by apply bool_decide_eq_true.
Qed.

(** A dispatcher whose handlers reply. *)
Record answering (d : gmap bytes (Handler Sess)) : Prop := {
  an_starttls : d !! ("STARTTLS" : bytes) = Some (StartTLS opts : Handler Sess);
  an_other upper h : d !! upper = Some h -> upper <> ("STARTTLS" : bytes) ->
    forall ctx, Replies (x_Tag ctx) (h ctx);
}.

Lemma answered_dispatch d tag name rest (s s' : CState Sess) r :
  answering d -> dispatch d tag name rest s = (r, s') ->
  answered tag
    match uid_prefix name rest with
    | Some (_, upper, _) => if handshake_fails upper (cs_conn s) then 2 else 1
    | None => 1
    end (cs_conn s) (cs_conn s') r.
Proof.
  intros [Htls Hrest]. unfold dispatch. destruct (uid_prefix name rest) as [[[k upper] rest']|] eqn:Ep; [|apply answered_bad].
  pose proof (uid_prefix_upper _ _ _ _ _ Ep) as Hup. unfold mbind at 1, st_bind at 1. cbn [st_get].
  unfold disp_Get. rewrite Hup.
  destruct (decide (upper = ("STARTTLS" : bytes))) as [->|Hne].
  - change (CommandAllowedStates "STARTTLS") with (Some [ConnStateNotAuthenticated]). rewrite Htls. cbn iota.
    destruct (RequireState (c_state (cs_conn s)) [ConnStateNotAuthenticated]) as [e|] eqn:Er;
      cbn [fmap option_fmap option_map].
    + assert (conn_State (cs_conn s) <> ConnStateNotAuthenticated) as Hs.
      { intros Hs. assert (Some e = None) as [=]. rewrite <- Er. apply RequireState_spec.
        unfold conn_State in Hs. rewrite Hs. left. }
      unfold handshake_fails. rewrite (bool_decide_false (conn_State _ = _)) by done.
      rewrite andb_false_r. apply answered_bad.
    + apply RequireState_spec, list_elem_of_singleton in Er. apply answered_handler.
      by rewrite decide_True by done.
  - assert (handshake_fails upper (cs_conn s) = false) as Hother.
    { unfold handshake_fails. by rewrite bool_decide_false. }
    case_match; [rewrite Hother; apply answered_bad|].
    destruct (d !! upper) as [h|] eqn:Eg; [|rewrite Hother; apply answered_bad].
    apply answered_handler. rewrite decide_False by done. by eapply Hrest.
Qed.

(** The table of the built-in handlers. *)
Lemma builtin_table upper h :
  RegisterAll (builtins opts ord) !! upper = Some h -> (upper, h) ∈ (builtins opts ord : list (bytes * Handler Sess)).
Proof.
  intros Hl. assert (ToUpper upper = upper) as Hup.
  { unfold RegisterAll in Hl. assert (forall l (d : gmap bytes (Handler Sess)),
      map_Forall (fun n _ => ToUpper n = n) d ->
      map_Forall (fun n _ => ToUpper n = n) (foldl (fun d '(name, h) => disp_Register name h d) d l)) as Hgen.
    { induction l as [|[n h0] l IH]; intros d Hd; [done|]. apply IH, map_Forall_insert_2; [apply ToUpper_idem|done]. }
    exact (Hgen _ NewDispatcher (map_Forall_empty _) _ _ Hl). }
  apply builtin_found; [done|]. unfold disp_Get. by rewrite Hup.
Qed.
Lemma builtins_answering : answering (RegisterAll (builtins opts ord)).
Proof.
  split.
  { rewrite <- (builtin_get _ _ starttls_builtin). unfold disp_Get. by rewrite ToUpper_ascii. }
  intros upper h Hl Hne. by destruct (builtin_replies upper h (builtin_table _ _ Hl)).
Qed.


End Builtins.
