(* ===== verification/Gate.v ===== *)
(** * Who may do what on a connection

    A connection becomes authenticated only through a LOGIN the backend
    accepts, and LOGIN is only accepted on an encrypted connection or where
    the configuration allows it in clear. *)

From S2P Require Import Prelude Utf8 GoStrings GoTime NumSet Imap Decoder Encoder Writers.
From S2P Require Import ConnState Conn Commands Dispatch Replies.

Section Gate.
Context {U : Unicode} {Sess : Type} {B : Backend Sess}.
Context (opts : Options) (ord : nat -> list bytes -> list bytes).
Abbreviation table := (RegisterAll (builtins opts ord)).

(** ** Commands before authentication *)

Lemma builtin_unique n h h' :
  (n, h) ∈ (builtins opts ord : list (bytes * Handler Sess)) -> (n, h') ∈ builtins opts ord -> h = h'.
Proof. intros H1%builtin_get H2%builtin_get. congruence. Qed.

(** Every built-in command is in the state table. *)
Definition permitted (st : ConnState) (name : bytes) : bool :=
  match CommandAllowedStates name with Some allowed => bool_decide (st ∈ allowed) | None => false end.

Lemma builtin_in_table n h :
  (n, h) ∈ (builtins opts ord : list (bytes * Handler Sess)) -> CommandAllowedStates n <> None.
Proof.
  assert (forallb (fun p => bool_decide (CommandAllowedStates p.1 <> None))
    (builtins opts ord : list (bytes * Handler Sess)) = true) as HF by by vm_compute.
  rewrite forallb_Forall, list.Forall_forall in HF. intros Hin. specialize (HF _ Hin).
  by apply bool_decide_eq_true in HF.
Qed.

(** The handlers that run before authentication. *)
Lemma unauth_builtin n h :
  (n, h) ∈ (builtins opts ord : list (bytes * Handler Sess)) ->
  permitted ConnStateNotAuthenticated n = true ->
  h = Capability opts ord \/ h = Noop \/ h = Logout \/ h = StartTLS opts \/ h = Login opts.
Proof.
  intros Hin. unfold builtins in Hin.
  repeat (apply elem_of_cons in Hin as [[= -> ->]|Hin]; [intros Hp; first [by auto 6 | by vm_compute in Hp]|]).
  by apply elem_of_nil in Hin.
Qed.

(** What follows the handler. *)
Definition finish (tag : bytes) (r : res unit) (h : HState Sess) : res unit * CState Sess :=
  let s := mkCS (h_conn h) (h_sess h) in
  match r with
  | Ok _ => (Ok tt, s)
  | Err e => reply_error tag e s
  | Panic => (Panic, s)
  | Hang => (Hang, s)
  end.

(** What dispatch does, as a relation: a refusal or a handler that runs in a
    state that permits its command. *)
Inductive dispatched (tag : bytes) (s s' : CState Sess) (r : res unit) : Prop :=
| d_refused text : conn_do (WriteBAD tag text) s = (r, s') -> dispatched tag s s' r
| d_handled upper (h : Handler Sess) k rest r1 h1 :
    (upper, h) ∈ builtins opts ord ->
    permitted (conn_State (cs_conn s)) upper = true ->
    h (mkContext tag upper k (negb (rest =s []))) (mkH rest (cs_conn s) (cs_sess s)) = (r1, h1) ->
    finish tag r1 h1 = (r, s') -> dispatched tag s s' r.

Lemma finish_conn tag r1 h1 r s' :
  finish tag r1 h1 = (r, s') ->
  cs_sess s' = h_sess h1 /\ (cs_conn s' = h_conn h1 \/ exists fn, cs_conn s' = Encode fn (h_conn h1)).
Proof.
  unfold finish. destruct r1 as [a|e| |]; try (intros [= <- <-]; by auto).
  unfold reply_error, WriteNO. destruct e as [| | | |ty code a text|]; try (intros [= <- <-]; by eauto).
  destruct ty; intros [= <- <-]; by eauto.
Qed.

Lemma dispatch_inv tag name rest (s s' : CState Sess) r :
  dispatch table tag name rest s = (r, s') -> dispatched tag s s' r.
Proof.
  unfold dispatch. destruct (uid_prefix name rest) as [[[k upper] rest']|] eqn:Ep; [|by intros; eapply d_refused].
  pose proof (uid_prefix_upper _ _ _ _ _ Ep) as Hup. unfold mbind at 1, st_bind at 1. cbn [st_get].
  destruct (disp_Get table upper) as [h|] eqn:Eg.
  2: { case_match; intros; by eapply d_refused. }
  apply builtin_found in Eg; [|done]. pose proof (builtin_in_table _ _ Eg) as Htab.
  destruct (CommandAllowedStates upper) as [allowed|] eqn:Ea; [|done].
  destruct (RequireState (c_state (cs_conn s)) allowed) as [e|] eqn:Er; cbn [fmap option_fmap option_map];
    [by intros; eapply d_refused|].
  apply RequireState_spec in Er. unfold mbind, st_bind, attempt, run_handler.
  destruct (h _ (mkH rest' (cs_conn s) (cs_sess s))) as [r1 h1] eqn:E. intros H.
  eapply d_handled; [exact Eg| |exact E|].
  - unfold permitted. rewrite Ea. by apply bool_decide_eq_true.
  - by destruct r1.
Qed.

(** ** Steps that leave session and connection state alone *)
Definition same_gate (h h1 : HState Sess) : Prop :=
  h_sess h1 = h_sess h /\ c_state (h_conn h1) = c_state (h_conn h) /\
  c_isTLS (h_conn h1) = c_isTLS (h_conn h).

Class Frame {A} (m : H Sess A) : Prop := frame h : same_gate h (m h).2.

Lemma same_trans_gate h1 h2 h3 : same_gate h1 h2 -> same_gate h2 h3 -> same_gate h1 h3.
Proof. unfold same_gate. intuition congruence. Qed.

(** A step that frames, then the rest; [h0] is where the command started. *)
Lemma leads_bind {A C} (m : H Sess A) (k : A -> H Sess C) h0 h (Q : HState Sess -> Prop) :
  Frame m -> same_gate h0 h -> (forall h1, same_gate h0 h1 -> Q h1) ->
  (forall a h1, same_gate h0 h1 -> Q (k a h1).2) -> Q ((m ≫= k) h).2.
Proof.
  intros Hm Hh Hq Hk. unfold mbind, st_bind. pose proof (same_trans_gate _ _ _ Hh (Hm h)) as Hs.
  destruct (m h) as [[a|e| |] h1]; [by apply Hk|by apply Hq..].
Qed.

#[local] Instance frame_arg {A} (m : Dec A) : Frame (arg m).
Proof. intros h. unfold arg. by destruct (m (h_args h)). Qed.
#[local] Instance frame_get_conn : Frame get_conn.
Proof. by intros h. Qed.
#[local] Instance frame_need ctx t : Frame (need_args ctx t).
Proof. intros h. unfold need_args. by case_if. Qed.
#[local] Instance frame_on_err {A} (m : H Sess A) f : Frame m -> Frame (on_err m f).
Proof. intros Hm h. unfold on_err. pose proof (Hm h). by destruct (m h) as [[] ?]. Qed.
#[local] Instance frame_ok ctx t : Frame (ok ctx t).
Proof. by intros h. Qed.
#[local] Instance frame_bye t : Frame (on_conn (WriteBYE t)).
Proof. by intros h. Qed.
#[local] Instance frame_caps : Frame (on_conn (WriteCapabilities ord opts)).
Proof. by intros h. Qed.

(** What a command may do to a connection that is not authenticated: nothing but
    logging out, or a login the backend is asked about. *)
Inductive gate (h h1 : HState Sess) : Prop :=
| gate_quiet :
    h_sess h1 = h_sess h ->
    conn_State (h_conn h1) ∈ [ConnStateNotAuthenticated; ConnStateLogout] -> gate h h1
| gate_login u p r :
    c_isTLS (h_conn h) = true \/ op_AllowInsecureAuth opts = true ->
    bk_Login u p (h_sess h) = (r, h_sess h1) ->
    conn_State (h_conn h1) = ConnStateNotAuthenticated \/
      (conn_State (h_conn h1) = ConnStateAuthenticated /\ r = Ok tt) -> gate h h1.

Lemma gate_same h h1 :
  same_gate h h1 -> conn_State (h_conn h) = ConnStateNotAuthenticated -> gate h h1.
Proof.
  intros (Hs & Hc & _) Hn. apply gate_quiet; [done|]. unfold conn_State in *. rewrite Hc, Hn. left.
Qed.

Lemma SetState_after s (h : HState Sess) :
  let h1 := (SetState s h).2 in
  h_sess h1 = h_sess h /\
  (conn_State (h_conn h1) = conn_State (h_conn h) \/ conn_State (h_conn h1) = s).
Proof.
  unfold SetState. pose proof (Transition_cases s (c_state (h_conn h))) as [Hc _].
  destruct (Transition s (c_state (h_conn h))) as [r m]. cbn in *. split; [done|].
  unfold conn_State. cbn. destruct Hc as [->|[_ ->]]; [by left|by right].
Qed.

(** A state change and the reply end a command. *)
Lemma leads_SetState st ctx text h (Q : HState Sess -> Prop) :
  (forall h1, h_sess h1 = h_sess h ->
     conn_State (h_conn h1) = conn_State (h_conn h) \/ conn_State (h_conn h1) = st -> Q h1) ->
  Q ((_ ← SetState st; ok ctx text) h).2.
Proof.
  intros HQ. unfold mbind, st_bind. pose proof (SetState_after st h) as [Hs Hc].
  destruct (SetState st h) as [[a|e| |] h1]; by apply HQ.
Qed.

Lemma gate_Logout ctx h : conn_State (h_conn h) = ConnStateNotAuthenticated -> gate h (Logout ctx h).2.
Proof.
  intros Hn. unfold Logout. apply (leads_bind _ _ h); [apply _|done|intros h1 H1; by apply gate_same|].
  intros _ h1 (Hs1 & Hc1 & _). apply leads_SetState. intros h2 Hs2 Hc2. apply gate_quiet; [congruence|].
  unfold conn_State in *. rewrite Hc1, Hn in Hc2. destruct Hc2 as [->| ->]; [left|right; left].
Qed.

Lemma gate_Login ctx h : conn_State (h_conn h) = ConnStateNotAuthenticated -> gate h (Login opts ctx h).2.
Proof.
  intros Hn. unfold Login. unfold mbind at 1, st_bind at 1, get_conn. cbn beta iota.
  destruct (negb (c_isTLS (h_conn h)) && negb (op_AllowInsecureAuth opts)) eqn:Eg.
  { by apply gate_same. }
  assert (c_isTLS (h_conn h) = true \/ op_AllowInsecureAuth opts = true) as Hg.
  { destruct (c_isTLS (h_conn h)); [by left|right]. by destruct (op_AllowInsecureAuth opts). }
  assert (forall h1, same_gate h h1 -> gate h h1) as Hq by (intros; by apply gate_same).
  apply (leads_bind _ _ h); [apply _|done|done|]. intros _ h1 H1.
  apply (leads_bind _ _ h); [apply _|done|done|]. intros u h2 H2.
  apply (leads_bind _ _ h); [apply _|done|done|]. intros _ h3 H3.
  apply (leads_bind _ _ h); [apply _|done|done|]. intros p h4 (Hs4 & Hc4 & _).
  unfold mbind at 1, st_bind at 1, session. destruct (bk_Login u p (h_sess h4)) as [r s1] eqn:El.
  rewrite Hs4 in El.
  assert (conn_State (h_conn h4) = ConnStateNotAuthenticated) as Hn4 by (unfold conn_State in *; by rewrite Hc4).
  destruct r as [[]|e| |]; try (eapply gate_login; [done|exact El|by left]).
  apply leads_SetState. cbn. intros h5 Hs5 Hc5. eapply gate_login; [done|by rewrite Hs5|].
  rewrite Hn4 in Hc5. naive_solver.
Qed.

Lemma gate_StartTLS ctx h : conn_State (h_conn h) = ConnStateNotAuthenticated -> gate h (StartTLS opts ctx h).2.
Proof.
  intros Hn. unfold StartTLS, mbind, st_bind, get_conn. cbn beta iota.
  destruct (c_isTLS (h_conn h)); [by apply gate_same|].
  destruct (op_TLSConfig opts); [|by apply gate_same]. cbn.
  unfold with_conn, UpgradeTLS. cbn. destruct (c_tls (h_conn h)); cbn; apply gate_quiet; try done;
    unfold conn_State in *; cbn; rewrite Hn; left.
Qed.

Lemma builtin_gate upper h ctx st :
  (upper, h) ∈ (builtins opts ord : list (bytes * Handler Sess)) ->
  permitted ConnStateNotAuthenticated upper = true ->
  conn_State (h_conn st) = ConnStateNotAuthenticated -> gate st (h ctx st).2.
Proof.
  intros Hin Hper Hn. destruct (unauth_builtin upper h Hin Hper) as [->|[->|[->|[->| ->]]]].
  - by apply gate_same.
  - by apply gate_same.
  - by apply gate_Logout.
  - by apply gate_StartTLS.
  - by apply gate_Login.
Qed.

(** A command on a connection that is not authenticated. *)
Lemma gated_dispatch (tag name rest : bytes) (s s' : CState Sess) (r : res unit) :
  conn_State (cs_conn s) = ConnStateNotAuthenticated ->
  dispatch table tag name rest s = (r, s') ->
  (cs_sess s' = cs_sess s /\
     conn_State (cs_conn s') ∈ [ConnStateNotAuthenticated; ConnStateLogout]) \/
  ((c_isTLS (cs_conn s) = true \/ op_AllowInsecureAuth opts = true) /\
   exists username password r1, bk_Login username password (cs_sess s) = (r1, cs_sess s') /\
     (conn_State (cs_conn s') = ConnStateNotAuthenticated \/
      (conn_State (cs_conn s') = ConnStateAuthenticated /\ r1 = Ok tt))).
Proof.
  intros Hn [text Ht|upper h k rest' r1 h1 Hin Hper Hrun [Hs Hc]%finish_conn]%dispatch_inv.
  { injection Ht as <- <-. left. split; [done|].
    change (conn_State (cs_conn s) ∈ [ConnStateNotAuthenticated; ConnStateLogout]). rewrite Hn. left. }
  assert (conn_State (cs_conn s') = conn_State (h_conn h1)) as ->.
  { by destruct Hc as [->|[fn ->]]. }
  rewrite Hs. rewrite Hn in Hper.
  set (h0 := mkH rest' (cs_conn s) (cs_sess s)) in *.
  assert (gate h0 h1) as Hgate.
  { replace h1 with (r1, h1).2 by done. rewrite <- Hrun. by eapply builtin_gate. }
  destruct Hgate as [? ?|u p r0 Hg Hl Hst]; [by left|right]. split; [done|]. by eauto.
Qed.

(** [C10] On a connection that is not authenticated, whatever command arrives, the
    session of the backend stays as it is unless the command is a LOGIN over
    TLS or with insecure logins allowed, which is all the backend is asked; and
    the connection becomes authenticated only if the backend accepted. *)
Theorem login_gate (tag name rest : bytes) (s s' : CState Sess) (r : res unit) :
  conn_State (cs_conn s) = ConnStateNotAuthenticated ->
  dispatch table tag name rest s = (r, s') ->
  (cs_sess s' = cs_sess s /\
     conn_State (cs_conn s') ∈ [ConnStateNotAuthenticated; ConnStateLogout]) \/
  ((c_isTLS (cs_conn s) = true \/ op_AllowInsecureAuth opts = true) /\
   exists username password r1, bk_Login username password (cs_sess s) = (r1, cs_sess s') /\
     (conn_State (cs_conn s') = ConnStateNotAuthenticated \/
      (conn_State (cs_conn s') = ConnStateAuthenticated /\ r1 = Ok tt))).
Proof. apply gated_dispatch. Qed.

(** ** A connection in clear *)
Hypothesis no_tls : op_TLSConfig opts = false.
Hypothesis no_insecure : op_AllowInsecureAuth opts = false.

(** The connection as it stays. *)
Definition plain (c : Conn) : Prop :=
  conn_State c = ConnStateNotAuthenticated /\ c_isTLS c = false /\ c_closed c = false.
(** As it is left by a command. *)
Record plain_step (s s' : CState Sess) : Prop := {
  ps_sess : cs_sess s' = cs_sess s;
  ps_in : c_in (cs_conn s') = c_in (cs_conn s);
  ps_conn : plain (cs_conn s') \/
    (conn_State (cs_conn s') = ConnStateLogout /\ c_closed (cs_conn s') = false);
}.

Lemma plain_handler upper h ctx s0 rest r1 h1 :
  plain (cs_conn s0) -> (upper, h) ∈ (builtins opts ord : list (bytes * Handler Sess)) ->
  permitted ConnStateNotAuthenticated upper = true ->
  h ctx (mkH rest (cs_conn s0) (cs_sess s0)) = (r1, h1) ->
  plain_step s0 (mkCS (h_conn h1) (h_sess h1)) /\
  match r1 with Ok _ => True | Err (IMAPError StatusBYE _ _ _) => False | Err _ => True | _ => False end.
Proof.
  intros (Hn & Ht & Hcl) Hin Hper Hrun.
  destruct (unauth_builtin upper h Hin Hper) as [->|[->|[->|[->| ->]]]].
  - injection Hrun as <- <-. split; [|done]. by split; [done..|left].
  - injection Hrun as <- <-. split; [|done]. by split; [done..|left].
  - unfold Logout, mbind, st_bind, on_conn, SetState, Transition in Hrun. cbn [h_conn c_state WriteBYE Encode] in Hrun.
    destruct (negb _); [injection Hrun as <- <-; split; [by split; [done..|left]|done]|].
    destruct (run_hooks _ _ _); [injection Hrun as <- <-; split; [by split; [done..|left]|done]|].
    destruct (run_hooks _ _ _); injection Hrun as <- <-; (split; [by split; [done..|right]|done]).
  - unfold StartTLS, mbind, st_bind, get_conn in Hrun. cbn [h_conn] in Hrun. rewrite Ht, no_tls in Hrun.
    injection Hrun as <- <-. split; [|done]. by split; [done..|left].
  - unfold Login, mbind, st_bind, get_conn in Hrun. cbn [h_conn] in Hrun. rewrite Ht, no_insecure in Hrun.
    injection Hrun as <- <-. split; [|done]. by split; [done..|left].
Qed.

Lemma plain_Encode s s1 fn : plain_step s s1 -> plain_step s (mkCS (Encode fn (cs_conn s1)) (cs_sess s1)).
Proof. by intros []. Qed.

Lemma plain_dispatch tag name rest (s s' : CState Sess) r :
  plain (cs_conn s) -> dispatch table tag name rest s = (r, s') -> r = Ok tt /\ plain_step s s'.
Proof.
  intros Hp [text Ht|upper h k rest' r1 h1 Hin Hper Hrun Hf]%dispatch_inv.
  { injection Ht as <- <-. split; [done|]. by split; [done..|left]. }
  rewrite (proj1 Hp) in Hper. destruct (plain_handler _ _ _ _ _ _ _ Hp Hin Hper Hrun) as [Hstep Hr].
  destruct r1 as [[]|e| |]; [injection Hf as <- <-; done| |done|done].
  unfold finish, reply_error, WriteNO in Hf.
  destruct e as [| | | |ty code a text|]; try (injection Hf as <- <-; split; [done|]; by apply (plain_Encode s (mkCS _ _))).
  destruct ty; try done; injection Hf as <- <-; (split; [done|]; by apply (plain_Encode s (mkCS _ _))).
Qed.

Lemma ReadLine_cases s :
  (s = [] /\ ReadLine s = (Err EOF, [])) \/
  exists line rest, ReadLine s = (Ok line, rest) /\ (length rest < length s)%nat.
Proof.
  destruct s as [|c s]; [by left|right]. unfold ReadLine.
  set (p := fun c : ascii => negb (c =c LF)).
  pose proof (take_drop_while p (c :: s)) as Htd. destruct (drop_while p (c :: s)) as [|d rest] eqn:E.
  - eexists _, _. split; [reflexivity|]. simpl. lia.
  - eexists _, _. split; [reflexivity|]. apply (f_equal length) in Htd. rewrite length_app in Htd. simpl in *. lia.
Qed.

Lemma parseLine_cases line :
  (exists tag name rest, parseLine line = Ok (tag, name, rest)) \/ exists e, parseLine line = Err e.
Proof.
  unfold parseLine. case_if; [by eauto|]. destruct (IndexByte line " ") as [i|]; [|by eauto].
  destruct (IndexByte (drop (i + 1) line) " "); repeat case_if; eauto.
Qed.

Lemma plain_round (s : CState Sess) :
  plain (cs_conn s) ->
  (c_in (cs_conn s) = [] /\ readAndHandle table s = (Err EOF, s)) \/
  exists s1, readAndHandle table s = (Ok tt, s1) /\ cs_sess s1 = cs_sess s /\
    (length (c_in (cs_conn s1)) < length (c_in (cs_conn s)))%nat /\
    (plain (cs_conn s1) \/ (conn_State (cs_conn s1) = ConnStateLogout /\ c_closed (cs_conn s1) = false)).
Proof.
  intros Hp. unfold readAndHandle, mbind, st_bind, st_get.
  destruct (ReadLine_cases (c_in (cs_conn s))) as [[Hin ->]|(line & rest & -> & Hlt)].
  { left. split; [done|]. cbn. f_equal. destruct s as [[]]. cbn in *. by subst. }
  right. unfold conn_do. set (s1 := mkCS (set_in rest (cs_conn s)) (cs_sess s)).
  assert (plain (cs_conn s1)) as Hp1 by done.
  destruct (parseLine_cases line) as [(tag & name & args & ->)|[e ->]].
  - destruct (dispatch table tag name args s1) as [r s2] eqn:E.
    apply plain_dispatch in E as [-> [H1 H2 H3]]; [|done]. exists s2. split_and!; [done|exact H1| |exact H3].
    by rewrite H2.
  - eexists. split; [reflexivity|]. cbn. split_and!; [done..|by left].
Qed.

Lemma plain_loop fuel (s : CState Sess) :
  plain (cs_conn s) -> (length (c_in (cs_conn s)) < fuel)%nat ->
  exists s', serve_loop fuel table s = (Ok tt, s') /\ cs_sess s' = cs_sess s /\ c_closed (cs_conn s') = false.
Proof.
  revert s. induction fuel as [|fuel IH]; intros s Hp Hfuel; [lia|]. cbn [serve_loop].
  unfold mbind, st_bind, attempt, st_get.
  destruct (plain_round s Hp) as [[_ ->]|(s1 & -> & Hs & Hlt & Hc)].
  { exists s. split; [done|]. split; [done|apply Hp]. }
  destruct Hc as [Hp1|[Hc Hcl]].
  - rewrite bool_decide_false by (by rewrite (proj1 Hp1)).
    destruct (IH s1 Hp1 ltac:(lia)) as (s' & -> & Hs' & Hcl). exists s'. split_and!; [done| |done]. congruence.
  - rewrite bool_decide_true by done. by exists s1.
Qed.

Lemma plain_serve (input : bytes) (tls : option bytes) (sess : Sess) :
  exists c, c_closed c = false /\
    serve opts table (mkCS (newConn input tls false) sess) = conn_Close (mkCS c sess).
Proof.
  unfold serve, mbind at 1, st_bind at 1, conn_do, st_get. cbn [cs_conn cs_sess].
  set (s1 := mkCS (writeGreeting opts (newConn input tls false)) sess).
  unfold mbind at 1, st_bind at 1.
  destruct (plain_loop (serve_fuel (cs_conn s1)) s1) as ([c' sess'] & Hrun & Hs & Hcl).
  - done.
  - unfold serve_fuel. cbn. lia.
  - unfold mbind, st_bind. rewrite Hrun. cbn in *. subst. by exists c'.
Qed.

(** [C11] Where there is no TLS and logins in clear are not allowed, nothing a
    client sends on a connection reaches the backend: for every input the
    connection is served to its end, the session stays as it was created and
    the only thing that happens to it is its closing. *)
Theorem plaintext_conn (input : bytes) (tls : option bytes) (sess : Sess) :
  exists c, c_closed c = false /\
    serve opts table (mkCS (newConn input tls false) sess) = conn_Close (mkCS c sess).
Proof using no_tls no_insecure. apply plain_serve. Qed.

End Gate.
