(* ===== verification/Mock.v ===== *)
(** * The mock session (imaptest/mock/session.go)

    A session for tests: each operation calls a function that can be set, and
    has a default where it is not. *)

From S2P Require Import Prelude Utf8 GoStrings NumSet GoTime Imap Decoder Encoder Writers ConnState Conn Commands Dispatch Gate.

Section Mock.
Context {S : Type}.

(** A function that is [nil] is [None]. *)
Record MockSession := mkMock {
  CloseFunc : option (St S unit);
  LoginFunc : option (bytes -> bytes -> St S unit);
  SelectFunc : option (bytes -> option SelectOptions -> St S SelectData);
  CreateFunc : option (bytes -> CreateOptions -> St S unit);
  DeleteFunc : option (bytes -> St S unit);
  RenameFunc : option (bytes -> bytes -> St S unit);
  SubscribeFunc : option (bytes -> St S unit);
  UnsubscribeFunc : option (bytes -> St S unit);
  ListFunc : option (bytes -> list bytes -> option ListOptions -> S -> (res unit * S) * list ListData);
  StatusFunc : option (bytes -> StatusOptions -> St S StatusData);
  AppendFunc : option (bytes -> bytes -> option AppendOptions -> St S (option AppendData));
  PollFunc : option (bool -> S -> (res unit * S) * list Update);
  IdleFunc : option (bool -> S -> (res unit * S) * list Update);
  UnselectFunc : option (St S unit);
  ExpungeFunc : option (option UIDSet -> S -> (res unit * S) * list Z);
  SearchFunc : option (NumKind -> option SearchCriteria -> option SearchOptions -> St S SearchData);
  FetchFunc : option (NumSet -> FetchOptions -> S -> (res unit * S) * list fetch_call);
  StoreFunc : option (NumSet -> StoreFlags -> StoreOptions -> S -> (res unit * S) * list fetch_call);
  CopyFunc : option (NumSet -> bytes -> St S (option CopyData));
}.

Definition or_default {A} (f : option A) (d : A) : A := default d f.
Definition Poll (m : MockSession) : bool -> S -> (res unit * S) * list Update :=
  or_default (PollFunc m) (fun _ s => ((Ok tt, s), [])).

(** What the handlers call; [Idle] waits for its stop channel to be closed. *)
Definition mock_backend (m : MockSession) : Backend S := {|
  bk_Close := or_default (CloseFunc m) (mret tt);
  bk_Login := or_default (LoginFunc m) (fun _ _ => st_fail (ErrNo "LOGIN not implemented"));
  bk_Select := or_default (SelectFunc m) (fun _ _ => st_fail (ErrNo "SELECT not implemented"));
  bk_Create := or_default (CreateFunc m) (fun _ _ => st_fail (ErrNo "CREATE not implemented"));
  bk_Delete := or_default (DeleteFunc m) (fun _ => st_fail (ErrNo "DELETE not implemented"));
  bk_Rename := or_default (RenameFunc m) (fun _ _ => st_fail (ErrNo "RENAME not implemented"));
  bk_Subscribe := or_default (SubscribeFunc m) (fun _ => mret tt);
  bk_Unsubscribe := or_default (UnsubscribeFunc m) (fun _ => mret tt);
  bk_List := or_default (ListFunc m) (fun _ _ _ s => ((Ok tt, s), []));
  bk_Status := or_default (StatusFunc m) (fun mailbox _ =>
    mret (mkStatusData mailbox None None None None None None None None None []));
  bk_Append := or_default (AppendFunc m) (fun _ _ _ => mret (Some (mkAppendData 0 0)));
  bk_Idle := or_default (IdleFunc m) (fun stop s => ((if stop then Ok tt else Hang, s), []));
  bk_Unselect := or_default (UnselectFunc m) (mret tt);
  bk_Expunge := or_default (ExpungeFunc m) (fun _ s => ((Ok tt, s), []));
  bk_Search := or_default (SearchFunc m) (fun _ _ _ => mret (mkSearchData [] [] 0 0 None 0 0 search_data_ext0));
  bk_Fetch := or_default (FetchFunc m) (fun _ _ s => ((Ok tt, s), []));
  bk_Store := or_default (StoreFunc m) (fun _ _ _ s => ((Ok tt, s), []));
  bk_Copy := or_default (CopyFunc m) (fun _ _ => mret (Some (mkCopyData 0 (mkUIDSet []) (mkUIDSet []))));
|}.
End Mock.
Arguments MockSession : clear implicits.

(** ** A server whose sessions refuse every login *)
Section Refusing.
Context {U : Unicode} {S : Type} {B : Backend S} (opts : Options) (ord : nat -> list bytes -> list bytes).
Abbreviation table := (RegisterAll (builtins opts ord : list (bytes * Handler S))).
Definition refuses : Prop := forall u p (s : S), exists e, bk_Login u p s = (Err e, s).
Hypothesis (Href : refuses).

(** The connection is where it was or logged out, and the session was not
    asked for anything. *)
Definition unmoved (sess : S) (s : CState S) : Prop :=
  cs_sess s = sess /\ conn_State (cs_conn s) ∈ [ConnStateNotAuthenticated; ConnStateLogout].

Lemma unmoved_dispatch tag name rest (s s' : CState S) r :
  conn_State (cs_conn s) = ConnStateNotAuthenticated -> dispatch table tag name rest s = (r, s') ->
  unmoved (cs_sess s) s'.
Proof using Href.
  intros Hn [H|(_ & u & p & r1 & Hl & H)]%gated_dispatch; [done| |done].
  destruct (Href u p (cs_sess s)) as [e He]. rewrite He in Hl. injection Hl as <- Hs.
  split; [done|]. destruct H as [->|[_ [=]]]. left.
Qed.
Lemma unmoved_round (s s' : CState S) r :
  conn_State (cs_conn s) = ConnStateNotAuthenticated -> readAndHandle table s = (r, s') -> unmoved (cs_sess s) s'.
Proof using Href.
  intros Hn. unfold readAndHandle, mbind, st_bind, st_get, conn_do.
  assert (forall i, unmoved (cs_sess s) (mkCS (set_in i (cs_conn s)) (cs_sess s))) as Hin.
  { intros i. split; [done|]. change (conn_State (cs_conn s) ∈ [ConnStateNotAuthenticated; ConnStateLogout]).
    rewrite Hn. left. }
  destruct (ReadLine _) as [[line|e| |] i]; [|intros [= _ <-]; apply Hin..].
  destruct (parseLine line) as [[[tag name] rest]|e| |]; [|intros [= _ <-]; apply Hin..].
  exact (unmoved_dispatch tag name rest (mkCS (set_in i (cs_conn s)) (cs_sess s)) s' r Hn).
Qed.
Lemma unmoved_loop fuel (s s' : CState S) r :
  conn_State (cs_conn s) = ConnStateNotAuthenticated -> serve_loop fuel table s = (r, s') -> unmoved (cs_sess s) s'.
Proof using Href.
  revert s. induction fuel as [|fuel IH]; intros s Hn.
  { intros [= _ <-]. split; [done|]. rewrite Hn. left. }
  cbn [serve_loop]. unfold mbind, st_bind, attempt, st_get.
  destruct (readAndHandle table s) as [r1 s1] eqn:E. apply unmoved_round in E; [|done].
  destruct r1 as [[]|e| |]; [|by intros [= _ <-]..].
  destruct E as [Hs [Hst|Hst]%elem_of_cons].
  - rewrite bool_decide_false by (by rewrite Hst). intros H. rewrite <- Hs. by apply (IH s1).
  - apply list_elem_of_singleton in Hst. rewrite bool_decide_true by done. intros [= _ <-].
    split; [done|]. rewrite Hst. right. left.
Qed.
Lemma unmoved_serve input tls isTLS (sess : S) r s' :
  serve opts table (mkCS (newConn input tls isTLS) sess) = (r, s') ->
  conn_State (cs_conn s') ∈ [ConnStateNotAuthenticated; ConnStateLogout]
  /\ (cs_sess s' = sess \/ cs_sess s' = (bk_Close sess).2).
Proof using Href.
  unfold serve, mbind, st_bind, conn_do, st_get. cbn [cs_conn cs_sess].
  destruct (serve_loop _ _ _) as [r1 s1] eqn:E. apply unmoved_loop in E as [Hs Hst]; [|done]. cbn [cs_sess] in Hs.
  destruct r1 as [[]|e| |]; [|intros [= _ <-]; by auto..].
  unfold conn_Close. destruct (c_closed _); [intros [= _ <-]; by auto|].
  destruct (bk_Close (cs_sess s1)) as [r2 sess'] eqn:Ec. intros [= _ <-]. split; [done|right].
  by rewrite <- Hs, Ec.
Qed.
End Refusing.

(** A mock without a [LoginFunc] is never asked for anything: whatever a client
    sends, over TLS or in clear, no connection to it is ever authenticated and
    all that reaches the functions of the mock is [Close]. *)
Theorem mock_inert {U : Unicode} {S : Type} (m : MockSession S) opts ord input tls isTLS (sess : S) r s' :
  LoginFunc m = None ->
  serve (B := mock_backend m) opts (RegisterAll (builtins (B := mock_backend m) opts ord))
    (mkCS (newConn input tls isTLS) sess) = (r, s') ->
  conn_State (cs_conn s') ∈ [ConnStateNotAuthenticated; ConnStateLogout]
  /\ (cs_sess s' = sess \/ cs_sess s' = (default (mret tt) (CloseFunc m) sess).2).
Proof.
  intros Hl. apply (unmoved_serve (B := mock_backend m)). intros u p s. cbn [bk_Login mock_backend].
  rewrite Hl. by eexists.
Qed.
