(* ===== verification/Config.v ===== *)
(** * The configuration of a server (server/options.go, server/server.go: New)

    [New] starts from the defaults and applies the options in the order they
    are given; what the handlers use of the result is an [Options]. *)

From S2P Require Import Prelude Utf8 GoStrings Imap Encoder Writers ConnState Conn Commands Dispatch Gate.

Section Config.
Context {TLS Log Factory : Type} (default_logger : Log).

(** Pointers and functions that can be nil are options; durations are in
    nanoseconds. *)
Record Config := mkConfig {
  TLSConfig : option TLS;
  Caps : CapSet;
  Logger : Log;
  NewSession : option Factory;
  MaxLiteralSize : Z;
  ReadTimeout : Z;
  WriteTimeout : Z;
  IdleTimeout : Z;
  MaxConnections : Z;
  GreetingText : bytes;
  AllowInsecureAuth : bool;
  EnableStartTLS : bool;
  InsecureSkipVerify : bool;
}.
Definition minute : Z := 60 * 10 ^ 9.
Definition DefaultConfig : Config :=
  mkConfig None NewDefaultCapSet default_logger None 0 (30 * minute) (1 * minute) (30 * minute) 0
    "IMAP server ready" false false false.

(** The calls that make an [Option], and the function each returns. *)
Inductive Opt :=
| WithTLS (config : option TLS)
| WithLogger (logger : Log)
| WithNewSession (fn : option Factory)
| WithMaxLiteralSize (n : Z)
| WithReadTimeout (d : Z)
| WithWriteTimeout (d : Z)
| WithIdleTimeout (d : Z)
| WithMaxConnections (n : Z)
| WithCapabilities (caps : list bytes)
| WithGreetingText (text : bytes)
| WithAllowInsecureAuth (allow : bool)
| WithStartTLS (config : option TLS).
Definition apply_opt (o : Config) (opt : Opt) : Config :=
  let 'mkConfig tls caps log new lit rd wr idle conns text insecure starttls skip := o in
  match opt with
  | WithTLS config => mkConfig config caps log new lit rd wr idle conns text insecure starttls skip
  | WithLogger logger => mkConfig tls caps logger new lit rd wr idle conns text insecure starttls skip
  | WithNewSession fn => mkConfig tls caps log fn lit rd wr idle conns text insecure starttls skip
  | WithMaxLiteralSize n => mkConfig tls caps log new n rd wr idle conns text insecure starttls skip
  | WithReadTimeout d => mkConfig tls caps log new lit d wr idle conns text insecure starttls skip
  | WithWriteTimeout d => mkConfig tls caps log new lit rd d idle conns text insecure starttls skip
  | WithIdleTimeout d => mkConfig tls caps log new lit rd wr d conns text insecure starttls skip
  | WithMaxConnections n => mkConfig tls caps log new lit rd wr idle n text insecure starttls skip
  | WithCapabilities cs => mkConfig tls (CapSet_Add cs caps) log new lit rd wr idle conns text insecure starttls skip
  | WithGreetingText t => mkConfig tls caps log new lit rd wr idle conns t insecure starttls skip
  | WithAllowInsecureAuth allow => mkConfig tls caps log new lit rd wr idle conns text allow starttls skip
  | WithStartTLS config =>
    mkConfig (match tls with None => config | Some _ => tls end) caps log new lit rd wr idle conns text insecure true skip
  end.
Definition New (opts : list Opt) : Config := foldl apply_opt DefaultConfig opts.
Definition options_of (o : Config) : Options :=
  mkOptions (bool_decide (is_Some (TLSConfig o))) (Caps o) (GreetingText o) (AllowInsecureAuth o) (EnableStartTLS o).

(** An option opens the server if it can let a login in clear or TLS in. *)
Definition opens (opt : Opt) : bool :=
  match opt with
  | WithTLS (Some _) | WithStartTLS (Some _) | WithAllowInsecureAuth true => true
  | _ => false
  end.
Definition caps_of (opt : Opt) : list bytes := match opt with WithCapabilities cs => cs | _ => [] end.
Definition is_starttls (opt : Opt) : bool := match opt with WithStartTLS _ => true | _ => false end.

(** The last option of a list decides, so the lists are taken apart from the end. *)
Lemma New_snoc opts opt : New (opts ++ [opt]) = apply_opt (New opts) opt.
Proof. unfold New. by rewrite foldl_app. Qed.
Lemma New_closed opts : forallb (fun o => negb (opens o)) opts = true ->
  TLSConfig (New opts) = None /\ AllowInsecureAuth (New opts) = false.
Proof.
  induction opts as [|opt opts IH] using rev_ind; [done|]. rewrite forallb_app, andb_true_iff. intros [H Ho].
  destruct (IH H) as [Ht Ha]. rewrite New_snoc. destruct (New opts). cbn in *. subst.
  by destruct opt as [[]| | | | | | | | | |[]|[]].
Qed.
Lemma New_caps opts cap : cap ∈ Caps (New opts) <-> cap ∈ NewDefaultCapSet \/ cap ∈ concat (caps_of <$> opts).
Proof.
  induction opts as [|opt opts IH] using rev_ind.
  { split; [by left|by intros [H|H%elem_of_nil]]. }
  rewrite New_snoc, fmap_app, concat_app, elem_of_app. cbn [fmap list_fmap concat]. rewrite app_nil_r.
  assert (Caps (apply_opt (New opts) opt) = Caps (New opts) ∪ list_to_set (caps_of opt)) as ->.
  { destruct (New opts), opt; cbn; try done; by rewrite (right_id_L ∅ (∪)). }
  rewrite elem_of_union, elem_of_list_to_set, IH. tauto.
Qed.
Lemma New_starttls opts : EnableStartTLS (New opts) = existsb is_starttls opts.
Proof.
  induction opts as [|opt opts IH] using rev_ind; [done|]. rewrite New_snoc, existsb_app, <- IH.
  destruct (New opts), opt; cbn; by rewrite ?orb_false_r, ?orb_true_r.
Qed.

(** What a server announces on a connection: the defaults, what its options
    add, STARTTLS where that was asked for, and that logins are disabled
    exactly where they are refused. *)
Theorem announced opts c (cap : bytes) :
  let o := options_of (New opts) in
  cap ∈ capability_set o c <->
  cap ∈ ["IMAP4rev1" : bytes; "IDLE" : bytes; "LITERAL+" : bytes]
  \/ cap ∈ concat (caps_of <$> opts)
  \/ cap = "STARTTLS" /\ c_isTLS c = false /\ existsb is_starttls opts = true
  \/ cap = "LOGINDISABLED" /\ c_isTLS c = false /\ op_AllowInsecureAuth o = false.
Proof.
  intros o. unfold capability_set, CapSet_Clone, CapSet_Add.
  assert (cap ∈ op_Caps o <-> cap ∈ ["IMAP4rev1" : bytes; "IDLE" : bytes; "LITERAL+" : bytes]
    \/ cap ∈ concat (caps_of <$> opts)) as Hc.
  { subst o. cbn [op_Caps options_of]. rewrite New_caps. unfold NewDefaultCapSet, NewCapSet. by rewrite elem_of_list_to_set. }
  assert (op_EnableStartTLS o = existsb is_starttls opts) as Hs by apply New_starttls.
  rewrite Hs. destruct (c_isTLS c), (existsb is_starttls opts), (op_AllowInsecureAuth o); cbn [negb andb];
    rewrite ?elem_of_union, ?elem_of_list_to_set, ?list_elem_of_singleton, Hc; naive_solver.
Qed.
End Config.

(** A server that is given no TLS configuration and not told to allow logins in
    clear is closed, whatever else it is given: nothing a client sends reaches
    the backend. *)
Theorem closed_by_default {U : Unicode} {Sess TLS Log Factory : Type} {B : Backend Sess} (log : Log)
    (ord : nat -> list bytes -> list bytes) (opts : list (@Opt TLS Log Factory)) (input : bytes) (tls : option bytes)
    (sess : Sess) :
  forallb (fun o => negb (opens o)) opts = true ->
  let o := options_of (New log opts) in
  exists c, c_closed c = false /\
    serve o (RegisterAll (builtins o ord)) (mkCS (newConn input tls false) sess) = conn_Close (mkCS c sess).
Proof.
  intros H o. destruct (New_closed log opts H) as [Ht Ha]. apply plain_serve; [|done].
  subst o. cbn [op_TLSConfig options_of]. by rewrite Ht.
Qed.
