(* ===== verification/MemServer.v ===== *)
(** * The server on the in-memory backend (server/memserver with server)

    The sessions of the in-memory store as a backend of the connections, and
    the system of connections that share the store.  Whatever bytes the clients
    send, every command amounts to session operations of [MemSession], so what
    [MemWorld] shows of those operations holds of the running server. *)

From S2P Require Import Prelude Utf8 GoStrings GoTime NumSet Imap Decoder Encoder Writers.
From S2P Require Import Message Mailbox MailboxFacts MemStore MemSession MemFacts MemWorld.
From S2P Require Import ConnState Conn Commands Dispatch Replies Gate.

Definition map_res {S A C} (f : A -> C) (r : res A * S) : res C * S := (f <$> r.1, r.2).

Section MemServer.
Context {U : Unicode} (lookupName : bytes -> Z -> option Z).
Context (clock : nat -> Time) (ord : nat -> list bytes -> list bytes) (opts : Options).
Abbreviation run := (run_op lookupName clock ord).
Abbreviation world_step := (world_step lookupName clock ord).

(** The operations of a session as the handlers call them.  [Idle] waits for its
    stop channel to be closed. *)
Definition mem_backend : Backend Mem := {|
  bk_Login := MemSession.Login;
  bk_Select := MemSession.Select;
  bk_Create mailbox _ := MemSession.Create mailbox;
  bk_Delete := MemSession.Delete;
  bk_Rename := MemSession.Rename;
  bk_Subscribe := MemSession.Subscribe;
  bk_Unsubscribe := MemSession.Unsubscribe;
  bk_List := MemSession.List_ ord;
  bk_Status := MemSession.Status;
  bk_Append mailbox body o m := map_res Some (Append_ clock mailbox body o m).1;
  bk_Idle stop m := ((if stop then Ok tt else Hang, m), []);
  bk_Unselect := MemSession.Unselect;
  bk_Expunge := Expunge_;
  bk_Search := MemSession.Search lookupName;
  bk_Fetch ns o m := let '(r, calls) := MemSession.Fetch lookupName ns o m in (r, CallFetchData <$> calls);
  bk_Store ns f _ m :=
    let '(r, calls) := Store_ ns f m in (r, (fun '(n, flags) => CallFlags n flags) <$> calls);
  bk_Copy ns dest m := map_res Some (MemSession.Copy clock ns dest m);
  bk_Close := MemSession.Close;
|}.
#[local] Existing Instance mem_backend.
Abbreviation table := (RegisterAll (builtins opts ord : list (bytes * Handler Mem))).

(** ** Connections that share the store

    A connection is accepted with all its client will ever send; a connection
    handles one line (as long as UIDs are left), or is closed; a user is added or
    removed. *)
Record Server := mkServer { sv_store : MemStore.Store; sv_conns : gmap nat (Conn * Session) }.
Definition server0 : Server := mkServer MemStore.New ∅.
Definition put_conn (sid : nat) (s : CState Mem) (sv : Server) : Server :=
  mkServer (m_store (cs_sess s)) (<[sid := (cs_conn s, m_sess (cs_sess s))]> (sv_conns sv)).
Definition conn_of (c : Conn) (s : Session) (sv : Server) : CState Mem := mkCS c (mkMem (sv_store sv) s).

(** UIDs are left in every mailbox for one more message, and for a copy of every
    message of any other. *)
Definition uids_left (st : MemStore.Store) : Prop :=
  forall l l' mb mb', boxes st !! l = Some mb -> boxes st !! l' = Some mb' ->
    mb_UIDNext mb + len (mb_Messages mb') + 1 < 2 ^ 32.

Inductive server_step : Server -> Server -> Prop :=
| ss_accept sv sid input tls isTLS :
    sv_conns sv !! sid = None ->
    server_step sv (put_conn sid (conn_of (writeGreeting opts (newConn input tls isTLS)) session0 sv) sv)
| ss_line sv sid c s r cs :
    sv_conns sv !! sid = Some (c, s) -> conn_State c <> ConnStateLogout -> uids_left (sv_store sv) ->
    readAndHandle table (conn_of c s sv) = (r, cs) ->
    server_step sv (put_conn sid cs sv)
| ss_close sv sid c s r cs :
    sv_conns sv !! sid = Some (c, s) -> conn_Close (conn_of c s sv) = (r, cs) ->
    server_step sv (put_conn sid cs sv)
| ss_add sv username password :
    server_step sv (mkServer (AddUser username password (sv_store sv)) (sv_conns sv))
| ss_remove sv username :
    server_step sv (mkServer (RemoveUser username (sv_store sv)) (sv_conns sv)).

(** The store and the sessions of a server. *)
Definition world_of (sv : Server) : World := mkWorld (sv_store sv) (snd <$> sv_conns sv).

(** ** Sequences of operations *)
Definition op_step (P : sess_op -> bool) (m m' : Mem) : Prop :=
  exists op, P op = true /\ op_ok op (m_sess m) /\ m' = (run op m).2.
Definition any_op (op : sess_op) : bool := true.
Definition no_op (op : sess_op) : bool := false.
(** The operations that neither log in, select nor add messages. *)
Definition inner_op (op : sess_op) : bool :=
  match op with OpLogin _ _ | OpSelect _ _ | OpAppend _ _ _ | OpCopy _ _ => false | _ => true end.

(** Only LOGIN sets the user, only SELECT the mailbox. *)
Definition sets_session (op : sess_op) : bool :=
  match op with OpLogin _ _ | OpSelect _ _ => true | _ => false end.
Lemma op_session op m :
  sets_session op = false ->
  (s_userData (m_sess m) = None -> s_userData (m_sess (run op m).2) = None) /\
  (selectedMailbox (m_sess m) = None -> selectedMailbox (m_sess (run op m).2) = None).
Proof.
  intros Hop. destruct (moves_session op) eqn:Em; [|by rewrite run_op_stays].
  destruct op; try done; cbn [run_op discard snd].
  unfold MemSession.Delete, with_user. destruct (s_userData (m_sess m)) eqn:Eul; [|simpl; by rewrite Eul].
  rewrite lift_sess. split; [done|]. intros Hs. by rewrite Hs.
Qed.

(** ** Computations that run operations of one kind

    and leave the state of the connection alone. *)
Class Calls (P : sess_op -> bool) {A} (m : H Mem A) : Prop :=
  calls h : rtc (op_step P) (h_sess h) (h_sess (m h).2) /\
            c_state (h_conn (m h).2) = c_state (h_conn h).

Lemma calls_none P {A} (m : H Mem A) :
  (forall h, h_sess (m h).2 = h_sess h /\ c_state (h_conn (m h).2) = c_state (h_conn h)) -> Calls P m.
Proof. intros Hm h. destruct (Hm h) as [-> ->]. split; [apply rtc_refl|done]. Qed.

Lemma encode_state fns c : c_state (foldl (fun c fn => Encode fn c) c fns) = c_state c.
Proof. revert c. induction fns as [|fn fns IH]; intros c; [done|]. simpl. by rewrite IH. Qed.

#[local] Instance calls_ret P {A} (a : A) : Calls P (mret a).
Proof. by apply calls_none. Qed.
#[local] Instance calls_fail P {A} e : Calls P (st_fail e : H Mem A).
Proof. by apply calls_none. Qed.
#[local] Instance calls_hang P {A} : Calls P (st_hang : H Mem A).
Proof. by apply calls_none. Qed.
#[local] Instance calls_get P : Calls P st_get.
Proof. by apply calls_none. Qed.
#[local] Instance calls_get_conn P : Calls P get_conn.
Proof. by apply calls_none. Qed.
#[local] Instance calls_arg P {A} (m : Dec A) : Calls P (arg m).
Proof. apply calls_none. intros h. unfold arg. by destruct (m (h_args h)). Qed.
#[local] Instance calls_conn_read P {A} (m : Dec A) : Calls P (conn_read m).
Proof. apply calls_none. intros h. unfold conn_read. by destruct (m (c_in (h_conn h))). Qed.
#[local] Instance calls_need P ctx t : Calls P (need_args ctx t).
Proof. unfold need_args. case_if; apply _. Qed.
#[local] Instance calls_write P fn : Calls P (write fn).
Proof. by apply calls_none. Qed.
#[local] Instance calls_ok P ctx t : Calls P (ok ctx t).
Proof. by apply calls_none. Qed.
#[local] Instance calls_write_all P fns : Calls P (write_all fns).
Proof. apply calls_none. intros h. split; [done|]. apply encode_state. Qed.
#[local] Instance calls_bye P t : Calls P (on_conn (WriteBYE t)).
Proof. by apply calls_none. Qed.
#[local] Instance calls_WriteCapabilities P : Calls P (on_conn (WriteCapabilities ord opts)).
Proof. by apply calls_none. Qed.
#[local] Instance calls_Capabilities P : Calls P (with_conn (Capabilities ord opts)).
Proof. by apply calls_none. Qed.
#[local] Instance calls_UpgradeTLS P : Calls P (with_conn UpgradeTLS).
Proof. apply calls_none. intros h. unfold with_conn, UpgradeTLS. by destruct (c_tls (h_conn h)). Qed.
#[local] Instance calls_SetMailbox P n b : Calls P (on_conn (SetMailbox n b)).
Proof. by apply calls_none. Qed.
#[local] Instance calls_set_enabled P f : Calls P (on_conn (fun c => set_enabled (f c) c)).
Proof. by apply calls_none. Qed.

#[local] Instance calls_bind P {A C} (m : H Mem A) (k : A -> H Mem C) :
  Calls P m -> (forall a, Calls P (k a)) -> Calls P (m ≫= k).
Proof.
  intros Hm Hk h. unfold mbind, st_bind. destruct (Hm h) as [Hr Hc].
  destruct (m h) as [[a|e| |] h1]; try done. destruct (Hk a h1) as [Hr' Hc']. cbn [snd] in *.
  split; [by etrans|congruence].
Qed.
#[local] Instance calls_on_err P {A} (m : H Mem A) f : Calls P m -> Calls P (on_err m f).
Proof. intros Hm h. unfold on_err. pose proof (Hm h). by destruct (m h) as [[] ?]. Qed.
#[local] Instance calls_attempt P {A} (m : H Mem A) : Calls P m -> Calls P (attempt m).
Proof. intros Hm h. unfold attempt. pose proof (Hm h). by destruct (m h) as [[] ?]. Qed.

(** A call that is one operation. *)
Lemma calls_session {A} op (m : St Mem A) :
  inner_op op = true -> (forall x, (m x).2 = (run op x).2) -> Calls inner_op (session m).
Proof.
  intros Hop Hm h. unfold session. specialize (Hm (h_sess h)). destruct (m (h_sess h)) as [r x].
  cbn in *. subst x. split; [|done]. apply rtc_once. exists op. split_and!; [done| |done]. by destruct op.
Qed.
Lemma calls_writing {W} op (call : W -> list (Enc.Encoder -> Enc.Encoder)) (m : Mem -> (res unit * Mem) * list W) :
  inner_op op = true -> (forall x, (m x).1.2 = (run op x).2) -> Calls inner_op (session_writing call m).
Proof.
  intros Hop Hm h. unfold session_writing. specialize (Hm (h_sess h)).
  destruct (m (h_sess h)) as [[r x] l]. cbn in *. subst x. split; [|apply encode_state].
  apply rtc_once. exists op. split_and!; [done| |done]. by destruct op.
Qed.

#[local] Instance calls_Create mb o : Calls inner_op (session (bk_Create mb o)).
Proof. by apply (calls_session (OpCreate mb)). Qed.
#[local] Instance calls_Delete mb : Calls inner_op (session (bk_Delete mb)).
Proof. by apply (calls_session (OpDelete mb)). Qed.
#[local] Instance calls_Rename mb n : Calls inner_op (session (bk_Rename mb n)).
Proof. by apply (calls_session (OpRename mb n)). Qed.
#[local] Instance calls_Subscribe mb : Calls inner_op (session (bk_Subscribe mb)).
Proof. by apply (calls_session (OpSubscribe mb)). Qed.
#[local] Instance calls_Unsubscribe mb : Calls inner_op (session (bk_Unsubscribe mb)).
Proof. by apply (calls_session (OpUnsubscribe mb)). Qed.
#[local] Instance calls_List r ps o : Calls inner_op (session_writing WriteList (bk_List r ps o)).
Proof. by apply (calls_writing (OpList r ps o)). Qed.
#[local] Instance calls_Status mb o : Calls inner_op (session (bk_Status mb o)).
Proof. by apply (calls_session (OpStatus mb o)). Qed.
#[local] Instance calls_Idle P stop : Calls P (session_writing update_call (bk_Idle stop)).
Proof. by apply calls_none. Qed.
#[local] Instance calls_Unselect : Calls inner_op (session bk_Unselect).
Proof. by apply (calls_session OpUnselect). Qed.
#[local] Instance calls_Expunge u : Calls inner_op (session_writing expunge_call (bk_Expunge u)).
Proof. by apply (calls_writing (OpExpunge u)). Qed.
#[local] Instance calls_Search k c o : Calls inner_op (session (bk_Search k c o)).
Proof. by apply (calls_session (OpSearch k c o)). Qed.
#[local] Instance calls_Fetch ns o : Calls inner_op (session_writing fetch_writes (bk_Fetch ns o)).
Proof.
  apply (calls_writing (OpFetch ns o)); [done|]. intros m. cbn. by destruct (MemSession.Fetch _ ns o m).
Qed.
#[local] Instance calls_Store ns f o : Calls inner_op (session_writing fetch_writes (bk_Store ns f o)).
Proof. apply (calls_writing (OpStore ns f)); [done|]. intros m. cbn. by destruct (Store_ ns f m). Qed.

#[local] Instance calls_enable_loop P fuel l : Calls P (enable_loop fuel l).
Proof.
  revert l. induction fuel as [|f IH]; intros l; cbn [enable_loop]; [apply _|].
  apply calls_bind; [apply _|]. intros [e|cap]; [apply _|].
  apply calls_bind; [apply _|]. intros [e|[]]; apply _.
Qed.

(** Work through a handler. *)
Ltac call :=
  repeat match goal with
  | |- Calls _ (if ?b then _ else _) => destruct b
  | |- Calls _ match ?x with _ => _ end => destruct x
  | |- Calls _ (mbind _ _) => apply calls_bind; [|intros ?]
  | |- Calls _ _ => apply _
  end.
Create HintDb cmd_defs.
#[local] Hint Unfold Capability Noop StartTLS Enable Create Delete Rename
  Subscribe Unsubscribe List_ Lsub list_with Status append_flags append_datetime Idle
  Expunge Search Fetch Store read_numset fail : cmd_defs.

(** The commands that log in, select, add messages or change the state of the
    connection. *)
Definition moves_conn (name : bytes) : bool :=
  bool_decide (name ∈ ["LOGOUT" : bytes; "LOGIN" : bytes; "SELECT" : bytes; "EXAMINE" : bytes;
                       "APPEND" : bytes; "CLOSE" : bytes; "UNSELECT" : bytes; "COPY" : bytes]).

Lemma builtin_calls name h ctx :
  (name, h) ∈ (builtins opts ord : list (bytes * Handler Mem)) -> moves_conn name = false ->
  Calls inner_op (h ctx).
Proof.
  unfold builtins. intros Hin Hname.
  repeat (apply elem_of_cons in Hin as [[= -> ->]|Hin]; [first [by vm_compute in Hname|clear Hname]|]).
  all: try (by apply elem_of_nil in Hin).
  all: autounfold with cmd_defs; call.
Qed.

(** ** Connection and session in step

    A connection that is not authenticated has no user, and only a selected one
    has a mailbox selected. *)
Record coherent (c : Conn) (s : Session) : Prop := {
  co_machine : c_state c = ConnState.New (conn_State c);
  co_user : conn_State c = ConnStateNotAuthenticated -> s_userData s = None;
  co_selected : conn_State c = ConnStateNotAuthenticated \/ conn_State c = ConnStateAuthenticated ->
                selectedMailbox s = None;
}.

(** What handling a command leads to: operations that neither log in, select nor
    add messages, or one operation of any kind. *)
Definition ran (m m' : Mem) : Prop := rtc (op_step inner_op) m m' \/ op_step any_op m m'.
Record stepped (m : Mem) (h : HState Mem) : Prop := {
  st_ops : ran m (h_sess h);
  st_coherent : coherent (h_conn h) (m_sess (h_sess h));
}.

Lemma coherent_same c c' s : c_state c' = c_state c -> coherent c s -> coherent c' s.
Proof. intros Hc [Ha Hb Hd]. by split; unfold conn_State in *; rewrite Hc. Qed.
Lemma coherent_inner c m m' : rtc (op_step inner_op) m m' -> coherent c (m_sess m) -> coherent c (m_sess m').
Proof.
  induction 1 as [m|m m1 m' (op & Hop & _ & ->) _ IH]; [done|]. intros [Ha Hb Hd]. apply IH.
  destruct (op_session op m) as [Hu Hs]; [by destruct op|]. split; auto.
Qed.
Lemma stepped_refl h : coherent (h_conn h) (m_sess (h_sess h)) -> stepped (h_sess h) h.
Proof. split; [left; apply rtc_refl|done]. Qed.

Lemma calls_stepped {A} (m : H Mem A) h :
  Calls inner_op m -> coherent (h_conn h) (m_sess (h_sess h)) -> stepped (h_sess h) (m h).2.
Proof.
  intros Hm Hco. destruct (Hm h) as [Hr Hc]. split; [by left|].
  eapply coherent_same; [exact Hc|]. by eapply coherent_inner.
Qed.

Lemma no_op_same m m' : rtc (op_step no_op) m m' -> m' = m.
Proof. by intros [->|(? & (op & Hop & _) & _)]%rtc_inv. Qed.

(** A computation that runs no operation, then the rest. *)
Lemma stepped_bind {A C} (m : H Mem A) (k : A -> H Mem C) h :
  Calls no_op m -> coherent (h_conn h) (m_sess (h_sess h)) ->
  (forall a h1, h_sess h1 = h_sess h -> c_state (h_conn h1) = c_state (h_conn h) ->
     coherent (h_conn h1) (m_sess (h_sess h1)) -> stepped (h_sess h) (k a h1).2) ->
  stepped (h_sess h) ((m ≫= k) h).2.
Proof.
  intros Hm Hco Hk. destruct (Hm h) as [Hs%no_op_same Hc]. unfold mbind, st_bind.
  destruct (m h) as [r h1]. cbn [snd] in *.
  assert (coherent (h_conn h1) (m_sess (h_sess h1))) as Hco1 by (rewrite Hs; by eapply coherent_same).
  destruct r; [by apply Hk|by rewrite <- Hs; apply stepped_refl..].
Qed.

(** An operation, then a rest that runs none and leaves the state alone. *)
Lemma stepped_op {A C} op (m : St Mem A) (k : A -> H Mem C) h :
  sets_session op = false -> (forall x, (m x).2 = (run op x).2) -> (forall a, Calls no_op (k a)) ->
  coherent (h_conn h) (m_sess (h_sess h)) -> stepped (h_sess h) ((session m ≫= k) h).2.
Proof.
  intros Hop Hm Hk [Ha Hb Hd]. unfold mbind, st_bind, session. specialize (Hm (h_sess h)).
  destruct (m (h_sess h)) as [r x]. cbn [snd] in Hm.
  destruct (op_session op (h_sess h) Hop) as [Hu Hs]. rewrite <- Hm in Hu, Hs.
  assert (op_step any_op (h_sess h) x) as Hstep by (exists op; split_and!; [done|by destruct op|done]).
  assert (coherent (h_conn h) (m_sess x)) as Hco by (split; auto).
  destruct r as [a|e| |]; try (by split; [right|]).
  destruct (Hk a (mkH (h_args h) (h_conn h) x)) as [Hsame%no_op_same Hc].
  split; [right; by rewrite Hsame|]. rewrite Hsame. by eapply coherent_same.
Qed.

Lemma SetState_default from to (h : HState Mem) :
  c_state (h_conn h) = ConnState.New from -> default_next from to = true ->
  SetState to h = (Ok tt, mkH (h_args h) (set_machine (ConnState.New to) (h_conn h)) (h_sess h)).
Proof.
  intros Hc Hn. unfold SetState, Transition. rewrite Hc.
  rewrite default_allowed by done. cbn [m_state ConnState.New]. by rewrite Hn.
Qed.

(** The end of a command that changes the state. *)
Lemma stepped_SetState to fn x h :
  ran x (h_sess h) -> c_state (h_conn h) = ConnState.New (conn_State (h_conn h)) ->
  default_next (conn_State (h_conn h)) to = true -> to <> ConnStateNotAuthenticated ->
  (to = ConnStateAuthenticated -> selectedMailbox (m_sess (h_sess h)) = None) ->
  stepped x ((_ ← SetState to; write fn) h).2.
Proof.
  intros Hops Hm Hn Hna Hsel. unfold mbind, st_bind. rewrite (SetState_default _ _ _ Hm Hn).
  split; [done|]. split; [done|done|]. intros [H|H]; [done|by apply Hsel].
Qed.

(** Run what comes before the operation of a handler; the connection is in state [st]. *)
Ltac before Hst :=
  repeat (apply stepped_bind; [apply _|assumption|];
    let Hs := fresh in let Hc := fresh in let Hco := fresh "Hco" in
    intros ? ? Hs Hc Hco; rewrite <- Hs; rewrite <- Hc in Hst; clear Hs Hc).

Lemma conn_State_new st c : c_state c = ConnState.New st -> conn_State c = st.
Proof. unfold conn_State. by intros ->. Qed.

Lemma stepped_Logout ctx h st :
  c_state (h_conn h) = ConnState.New st -> st <> ConnStateLogout ->
  coherent (h_conn h) (m_sess (h_sess h)) -> stepped (h_sess h) (Logout ctx h).2.
Proof.
  intros Hst Hl Hco. unfold Logout. apply stepped_bind; [apply _|done|]. intros _ h1 <- Hc [Hm _ _].
  apply stepped_SetState; try done; [left; apply rtc_refl|]. rewrite <- Hc in Hst.
  rewrite (conn_State_new _ _ Hst). by destruct st.
Qed.

Lemma stepped_Login ctx h :
  c_state (h_conn h) = ConnState.New ConnStateNotAuthenticated ->
  coherent (h_conn h) (m_sess (h_sess h)) -> stepped (h_sess h) (Login opts ctx h).2.
Proof.
  intros Hst Hco. unfold Login. before Hst. destruct (negb _ && negb _); [by apply stepped_refl|].
  before Hst. match goal with |- stepped (h_sess ?h) _ => rename h into h4 end.
  pose proof (conn_State_new _ _ Hst) as Hn. pose proof (co_selected _ _ Hco4 (or_introl Hn)) as Hsel.
  unfold mbind at 1, st_bind at 1, session. cbn [bk_Login mem_backend].
  match goal with |- context [MemSession.Login ?u ?p] =>
    assert (op_step any_op (h_sess h4) (run (OpLogin u p) (h_sess h4)).2) as Hop by (by exists (OpLogin u p)) end.
  cbn [run_op] in Hop. unfold MemSession.Login in *.
  destruct (users (m_store (h_sess h4)) !! _); [case_if|]; cbn [snd] in *;
    [|by split; [left; apply rtc_refl|]..].
  apply stepped_SetState; try done; cbn [h_conn h_sess]; rewrite ?Hn; [by right|done|done].
Qed.

Lemma stepped_select ro ctx h st :
  c_state (h_conn h) = ConnState.New st -> default_next st ConnStateSelected = true ->
  coherent (h_conn h) (m_sess (h_sess h)) -> stepped (h_sess h) (handleSelect ro ctx h).2.
Proof.
  intros Hst Hn Hco. unfold handleSelect. before Hst.
  match goal with |- stepped (h_sess ?h) _ => rename h into h4 end.
  unfold mbind at 1, st_bind at 1, session. cbn [bk_Select mem_backend].
  match goal with |- context [MemSession.Select ?u ?p] =>
    assert (op_step any_op (h_sess h4) (run (OpSelect u p) (h_sess h4)).2) as Hop by (by exists (OpSelect u p)) end.
  cbn [run_op discard snd] in Hop. unfold MemSession.Select, with_mailbox, with_user in *.
  destruct (s_userData (m_sess (h_sess h4))); [|by split; [left; apply rtc_refl|]].
  destruct (GetMailbox _ _); [|by split; [left; apply rtc_refl|]].
  destruct (boxes _ !! _); [|by split; [left; apply rtc_refl|]].
  unfold mbind at 1, st_bind at 1, write_all, on_conn at 1. cbn [h_conn h_args h_sess].
  unfold mbind at 1, st_bind at 1, on_conn at 1. cbn [h_conn h_args h_sess].
  apply stepped_SetState; try done; [by right|..];
    unfold conn_State; cbn [h_conn SetMailbox c_state]; by rewrite encode_state, Hst.
Qed.

Lemma stepped_unselect ctx x h text :
  rtc (op_step inner_op) x (h_sess h) -> c_state (h_conn h) = ConnState.New ConnStateSelected ->
  stepped x ((_ ← session bk_Unselect; _ ← on_conn (SetMailbox [] false);
              _ ← SetState ConnStateAuthenticated; ok ctx text) h).2.
Proof.
  intros Hops Hst. unfold mbind at 1, st_bind at 1, session. cbn [bk_Unselect mem_backend].
  unfold MemSession.Unselect. cbn beta iota. unfold mbind at 1, st_bind at 1, on_conn at 1. cbn [h_conn h_args h_sess].
  apply stepped_SetState; try done; cbn [h_sess h_conn].
  - left. etrans; [exact Hops|]. apply rtc_once. by exists OpUnselect.
  - unfold conn_State. cbn. by rewrite Hst.
  - unfold conn_State. cbn. by rewrite Hst.
Qed.

Lemma stepped_Close ctx h :
  c_state (h_conn h) = ConnState.New ConnStateSelected ->
  coherent (h_conn h) (m_sess (h_sess h)) -> stepped (h_sess h) (Close ctx h).2.
Proof.
  intros Hst Hco. unfold Close, mbind at 1, st_bind at 1.
  assert (Calls inner_op (attempt (session_writing expunge_call (bk_Expunge None)))) as HC by apply _.
  pose proof (calls_stepped _ h HC Hco) as Hstep. destruct (HC h) as [Hr Hc].
  destruct (attempt _ h) as [[a|e| |] h1]; try done. cbn [snd] in Hr, Hc.
  apply stepped_unselect; [done|]. by rewrite Hc.
Qed.

Lemma stepped_Append ctx h st :
  c_state (h_conn h) = ConnState.New st ->
  coherent (h_conn h) (m_sess (h_sess h)) -> stepped (h_sess h) (Append ctx h).2.
Proof.
  intros Hst Hco. unfold Append. before Hst.
  assert (forall b, Calls no_op (append_flags b)) as ? by (intros; autounfold with cmd_defs; call).
  assert (forall b, Calls no_op (append_datetime b)) as ? by (intros; autounfold with cmd_defs; call).
  apply stepped_bind; [apply _|done|]. intros [flags b] h4 Hs Hc Hco4. rewrite <- Hs. rewrite <- Hc in Hst.
  before Hst.
  match goal with |- context [match ?p with pair _ _ => _ end] => destruct p end. before Hst.
  match goal with |- context [bk_Append ?m ?b ?o] => apply (stepped_op (OpAppend m b o)) end;
    [done|reflexivity| |done]. intros d. call.
Qed.

Lemma stepped_Copy ctx h st :
  c_state (h_conn h) = ConnState.New st ->
  coherent (h_conn h) (m_sess (h_sess h)) -> stepped (h_sess h) (Copy ctx h).2.
Proof.
  intros Hst Hco. unfold Copy.
  assert (Calls no_op (read_numset ctx)) as ? by (autounfold with cmd_defs; call).
  before Hst. match goal with |- context [bk_Copy ?ns ?d] => apply (stepped_op (OpCopy ns d)) end;
    [done|reflexivity| |done]. intros d. call.
Qed.

Lemma handler_stepped name h ctx hs :
  (name, h) ∈ (builtins opts ord : list (bytes * Handler Mem)) ->
  permitted (conn_State (h_conn hs)) name = true ->
  coherent (h_conn hs) (m_sess (h_sess hs)) -> stepped (h_sess hs) (h ctx hs).2.
Proof.
  intros Hin Hper Hco. pose proof (co_machine _ _ Hco) as Hst.
  destruct (moves_conn name) eqn:Em; [|by apply calls_stepped; [eapply builtin_calls|]].
  unfold builtins in Hin.
  repeat (apply elem_of_cons in Hin as [[= -> ->]|Hin]; [first [by vm_compute in Em|clear Em]|]).
  all: try (by apply elem_of_nil in Hin).
  - eapply stepped_Logout; [done| |done]. by destruct (conn_State (h_conn hs)).
  - apply stepped_Login; [|done]. by destruct (conn_State (h_conn hs)).
  - eapply stepped_select; [done| |done]. by destruct (conn_State (h_conn hs)).
  - eapply stepped_select; [done| |done]. by destruct (conn_State (h_conn hs)).
  - by eapply stepped_Append.
  - apply stepped_Close; [|done]. by destruct (conn_State (h_conn hs)).
  - apply stepped_unselect; [apply rtc_refl|]. by destruct (conn_State (h_conn hs)).
  - by eapply stepped_Copy.
Qed.

Lemma dispatch_stepped tag name rest (s s' : CState Mem) r :
  coherent (cs_conn s) (m_sess (cs_sess s)) -> dispatch table tag name rest s = (r, s') ->
  ran (cs_sess s) (cs_sess s') /\ coherent (cs_conn s') (m_sess (cs_sess s')).
Proof.
  intros Hco [text Ht|upper h k rest' r1 h1 Hin Hper Hrun [Hs Hc]%finish_conn]%dispatch_inv.
  { injection Ht as <- <-. split; [left; apply rtc_refl|]. by apply (coherent_same (cs_conn s)). }
  pose proof (handler_stepped _ _ (mkContext tag upper k (negb (rest' =s [])))
    (mkH rest' (cs_conn s) (cs_sess s)) Hin Hper Hco) as Hstep.
  rewrite Hrun in Hstep. destruct Hstep as [Hops Hco1]. cbn [snd h_sess h_conn] in *. rewrite Hs. split; [done|].
  destruct Hc as [->|[fn ->]]; [done|]. by apply (coherent_same (h_conn h1)).
Qed.

Lemma line_stepped (s s' : CState Mem) r :
  coherent (cs_conn s) (m_sess (cs_sess s)) -> readAndHandle table s = (r, s') ->
  ran (cs_sess s) (cs_sess s') /\ coherent (cs_conn s') (m_sess (cs_sess s')).
Proof.
  intros Hco. unfold readAndHandle, mbind at 1, st_bind at 1, st_get.
  destruct (ReadLine (c_in (cs_conn s))) as [rl i]. unfold mbind, st_bind, conn_do.
  set (s1 := mkCS (set_in i (cs_conn s)) (cs_sess s)).
  assert (coherent (cs_conn s1) (m_sess (cs_sess s1))) as Hco1 by (by apply (coherent_same (cs_conn s))).
  assert (ran (cs_sess s) (cs_sess s1)) as Hrefl by (left; apply rtc_refl).
  destruct rl as [line|e| |]; try by intros [= <- <-].
  destruct (parseLine line) as [[[tag name] rest]|e| |]; try by intros [= <- <-].
  - intros HD. by apply (dispatch_stepped _ _ _ s1) in HD.
  - intros [= <- <-]. split; [done|]. by apply (coherent_same (cs_conn s1)).
Qed.

(** ** The simulation *)
Lemma matches_loop_length i total ns k msgs : (length (matches_loop i total ns k msgs) <= length msgs)%nat.
Proof.
  revert i. induction msgs as [|msg msgs IH]; intros i; [done|]. cbn [matches_loop].
  specialize (IH (i + 1)). destruct (numSetContains ns _ total); simpl; lia.
Qed.

Lemma inner_room op m : store_wf (m_store m) -> inner_op op = true -> room op m.
Proof.
  intros Hst Hop l mb Hl. assert (appends op m = 0%nat) as -> by (by destruct op).
  pose proof (wf_next _ (sw_boxes _ Hst _ _ Hl)). lia.
Qed.
Lemma left_room op m : store_wf (m_store m) -> uids_left (m_store m) -> room op m.
Proof.
  intros Hst Hleft l mb Hl. destruct (inner_op op) eqn:Eo; [by eapply inner_room|].
  pose proof (Hleft l l mb mb Hl Hl). pose proof (len_nonneg (mb_Messages mb)).
  destruct op; try done; cbn [appends]; try lia.
  destruct (selectedMailbox (m_sess m) ≫= _) as [mb'|] eqn:E; [|lia].
  apply bind_Some in E as (l' & _ & Hl'). pose proof (Hleft l l' mb mb' Hl Hl').
  pose proof (matches_loop_length 0 (u32 (len (mb_Messages mb'))) numSet (kind_of numSet) (mb_Messages mb')).
  unfold MatchesMessages, len in *. lia.
Qed.

(** Operations of one session are steps of the world. *)
Lemma op_world w sid m op :
  w_store w = m_store m -> w_sess w !! sid = Some (m_sess m) -> op_ok op (m_sess m) -> room op m ->
  world_step w (mkWorld (m_store (run op m).2) (<[sid := m_sess (run op m).2]> (w_sess w))).
Proof. intros Hst Hs Hok Hroom. destruct m as [st s]. cbn in *. subst st. by apply ws_op. Qed.

Lemma inner_world w sid m m' :
  world_inv w -> w_store w = m_store m -> w_sess w !! sid = Some (m_sess m) ->
  rtc (op_step inner_op) m m' ->
  rtc world_step w (mkWorld (m_store m') (<[sid := m_sess m']> (w_sess w))).
Proof.
  intros Hinv Hst Hs Hrtc. revert w Hinv Hst Hs.
  induction Hrtc as [m|m m1 m' (op & Hop & Hok & ->) _ IH]; intros w Hinv Hst Hs.
  - destruct w as [st ss]. cbn in *. rewrite insert_id by done. subst st. apply rtc_refl.
  - assert (room op m) as Hroom by (apply inner_room; [rewrite <- Hst; apply Hinv|done]).
    pose proof (op_world w sid m op Hst Hs Hok Hroom) as Hstep.
    eapply rtc_l; [exact Hstep|]. apply (step_inv _ _ _ _ _ Hinv) in Hstep.
    specialize (IH _ Hstep eq_refl (lookup_insert_eq _ _ _)). cbn [w_sess] in IH. by rewrite insert_insert_eq in IH.
Qed.

Lemma ran_world w sid m m' :
  world_inv w -> w_store w = m_store m -> w_sess w !! sid = Some (m_sess m) ->
  uids_left (m_store m) -> ran m m' ->
  rtc world_step w (mkWorld (m_store m') (<[sid := m_sess m']> (w_sess w))).
Proof.
  intros Hinv Hst Hs Hleft [Hr|(op & _ & Hok & ->)]; [by eapply inner_world|].
  apply rtc_once, op_world; try done. apply left_room; [|done]. rewrite <- Hst. apply Hinv.
Qed.

Lemma world_put sid cs sv :
  world_of (put_conn sid cs sv) =
  mkWorld (m_store (cs_sess cs)) (<[sid := m_sess (cs_sess cs)]> (w_sess (world_of sv))).
Proof. unfold world_of, put_conn. cbn. by rewrite fmap_insert. Qed.
Lemma world_lookup sv sid c s :
  sv_conns sv !! sid = Some (c, s) -> w_sess (world_of sv) !! sid = Some s.
Proof. intros Hc. cbn. by rewrite lookup_fmap, Hc. Qed.

Definition server_inv (sv : Server) : Prop :=
  forall sid c s, sv_conns sv !! sid = Some (c, s) -> coherent c s.

Lemma put_inv sid cs sv :
  server_inv sv -> coherent (cs_conn cs) (m_sess (cs_sess cs)) -> server_inv (put_conn sid cs sv).
Proof.
  intros Hinv Hco sid' c s. unfold put_conn. cbn [sv_conns].
  intros [[<- [= <- <-]]|[_ H]]%lookup_insert_Some; [done|by eapply Hinv].
Qed.

Lemma server_step_sim sv sv' :
  world_inv (world_of sv) -> server_inv sv -> server_step sv sv' ->
  rtc world_step (world_of sv) (world_of sv') /\ server_inv sv'.
Proof.
  intros Hw Hinv Hstep. destruct Hstep as [sv sid input tls isTLS Hn|sv sid c s r cs Hc Hl Hleft Hrun
    |sv sid c s r cs Hc Hrun|sv u p|sv u].
  - rewrite world_put. split; [|by apply put_inv].
    apply rtc_once, ws_connect. cbn. by rewrite lookup_fmap, Hn.
  - apply line_stepped in Hrun as [Hran Hco]; [|by eapply Hinv]. split; [|by apply put_inv].
    rewrite world_put. by apply (ran_world _ sid (mkMem (sv_store sv) s)); [|cbn|eapply world_lookup|..].
  - unfold conn_Close in Hrun. cbn [bk_Close mem_backend] in Hrun. rewrite world_put.
    destruct (c_closed _); injection Hrun as <- <-.
    + split; [|by apply put_inv; [|eapply Hinv]].
      by apply (inner_world _ sid (mkMem (sv_store sv) s)); [|cbn|eapply world_lookup|apply rtc_refl].
    + split; [|apply put_inv; [done|by apply Hinv in Hc as [Ha Hb Hd]]].
      apply (inner_world _ sid (mkMem (sv_store sv) s)); [done|done|by eapply world_lookup|].
      apply rtc_once. by exists OpClose.
  - split; [|done]. apply rtc_once, ws_add.
  - split; [|done]. apply rtc_once, ws_remove.
Qed.

(** [C1] The server refines the sessions on the store.  Whatever bytes any number
    of clients send, in any interleaving of their command lines, the store and
    the sessions are always those of some sequence of session operations run on
    well-formed data, so what holds of all such sequences holds of the server;
    and a connection that is not authenticated has no user, one that is not in
    the selected state no mailbox. *)
Theorem server_refines (sv : Server) :
  rtc server_step server0 sv ->
  reachable lookupName clock ord (world_of sv) /\ world_inv (world_of sv) /\
  forall sid c s, sv_conns sv !! sid = Some (c, s) -> conn_State c <> ConnStateLogout ->
    (conn_State c = ConnStateNotAuthenticated -> s_userData s = None) /\
    (conn_State c <> ConnStateSelected -> selectedMailbox s = None).
Proof.
  intros Hrtc. assert (reachable lookupName clock ord (world_of sv) /\ server_inv sv) as [Hr Hinv].
  { assert (reachable lookupName clock ord (world_of server0) /\ server_inv server0) as H0.
    { split; [|by intros ? ? ?]. unfold reachable, world_of. cbn. rewrite fmap_empty. apply rtc_refl. }
    induction Hrtc as [|sv0 sv1 sv Hstep _ IH]; [done|]. apply IH. destruct H0 as [IH1 IH2].
    apply server_step_sim in Hstep as [H1 H2]; [|by apply (reachable_inv lookupName clock ord)|done].
    split; [|done]. unfold reachable in *. by etrans. }
  split_and!; [done|by apply (reachable_inv lookupName clock ord)|]. intros sid c s Hc Hl.
  destruct (Hinv _ _ _ Hc) as [_ Hu Hsel]. split; [done|]. intros Hns. apply Hsel.
  destruct (conn_State c); auto; done.
Qed.

End MemServer.

(** ** On concrete input *)
Definition demo_options : Options := mkOptions true NewDefaultCapSet "ready" false true.
Definition demo_backend : Backend Mem :=
  mem_backend (U := basic_unicode) demo_names demo_clock demo_ord.
#[local] Existing Instance demo_backend.
#[local] Existing Instance basic_unicode.
Abbreviation demo_table := (RegisterAll (builtins (U := basic_unicode) (B := demo_backend) demo_options demo_ord)).
Abbreviation demo_login := (dispatch demo_table "a1" "LOGIN" "alice a").
Abbreviation demo_server_step :=
  (server_step (U := basic_unicode) demo_names demo_clock demo_ord demo_options).

Definition demo_input : bytes :=
  "a1 LOGIN alice a" ++ crlf ++ "a2 SELECT inbox" ++ crlf ++ "a3 STORE 1 +FLAGS (x)" ++ crlf.
Definition demo_client : CState Mem :=
  mkCS (newConn demo_input None true) (mkMem (AddUser "alice" "a" MemStore.New) session0).

Lemma outcome {A C} (p : A * C) a : p.1 = a -> p = (a, p.2).
Proof. destruct p. simpl. by intros ->. Qed.


Lemma login_gate_witness :
  let s' := (demo_login demo_client).2 in
  conn_State (cs_conn s') = ConnStateAuthenticated /\
  exists username password r1, bk_Login username password (cs_sess demo_client) = (r1, cs_sess s').
Proof.
  intros s'. assert (conn_State (cs_conn s') = ConnStateAuthenticated) as Hs by (by vm_compute).
  assert ((demo_login demo_client).1 = Ok tt) as Ho by (by vm_compute).
  split; [exact Hs|].
  destruct (login_gate (U := basic_unicode) (B := demo_backend) demo_options demo_ord "a1" "LOGIN" "alice a"
    demo_client s' (Ok tt) eq_refl (outcome (demo_login demo_client) (Ok tt) Ho)) as [[_ H]|(_ & u & p & r1 & H & _)].
  - rewrite Hs in H. exfalso. apply (bool_decide_eq_true_2 (_ ∈ _)) in H. by vm_compute in H.
  - by exists u, p, r1.
Defined.

Lemma plaintext_conn_witness :
  exists c, c_closed c = false /\
    serve DefaultOptions (RegisterAll (builtins DefaultOptions demo_ord))
      (mkCS (newConn demo_input None false) (cs_sess demo_client)) = conn_Close (mkCS c (cs_sess demo_client)).
Proof.
  exact (plaintext_conn (U := basic_unicode) (B := demo_backend) DefaultOptions demo_ord eq_refl eq_refl
    demo_input None (cs_sess demo_client)).
Defined.

Definition demo_server : Server := mkServer (AddUser "alice" "a" MemStore.New) ∅.
Definition demo_accepted : Server :=
  put_conn 0 (conn_of (writeGreeting demo_options (newConn demo_input None true)) session0 demo_server) demo_server.
Definition demo_line (sv : Server) : Server :=
  match sv_conns sv !! 0%nat with
  | Some (c, s) => put_conn 0 (readAndHandle demo_table (conn_of c s sv)).2 sv
  | None => sv
  end.
Lemma uids_left_check st :
  bool_decide (map_Forall (fun _ mb => map_Forall (fun _ mb' =>
    mb_UIDNext mb + len (mb_Messages mb') + 1 < 2 ^ 32) (boxes st)) (boxes st)) = true -> uids_left st.
Proof. intros H%bool_decide_eq_true l l' mb mb' Hl Hl'. by eapply (H l mb Hl l' mb'). Qed.
Definition demo_state (sv : Server) : option ConnState := (fun p => conn_State p.1) <$> sv_conns sv !! 0%nat.
Lemma demo_line_step sv st :
  demo_state sv = Some st -> st <> ConnStateLogout -> uids_left (sv_store sv) ->
  demo_server_step sv (demo_line sv).
Proof.
  unfold demo_state, demo_line. destruct (sv_conns sv !! 0%nat) as [[c s]|] eqn:Hc; [|done].
  intros [= <-] Hl Hu. eapply ss_line; [exact Hc|done|done|]. by apply outcome.
Qed.

Lemma server_refines_witness :
  world_inv (world_of (demo_line (demo_line demo_accepted))) /\
  demo_state (demo_line (demo_line demo_accepted)) = Some ConnStateSelected.
Proof.
  split; [|by vm_compute].
  apply (server_refines (U := basic_unicode) demo_names demo_clock demo_ord demo_options).
  eapply rtc_l; [apply (ss_add _ _ _ _ server0 "alice" "a")|].
  eapply rtc_l; [apply (ss_accept _ _ _ _ demo_server 0%nat demo_input None true); reflexivity|].
  eapply rtc_l; [apply (demo_line_step demo_accepted ConnStateNotAuthenticated);
    [by vm_compute|done|by apply uids_left_check; vm_compute]|].
  eapply rtc_l; [apply (demo_line_step (demo_line demo_accepted) ConnStateAuthenticated);
    [by vm_compute|done|by apply uids_left_check; vm_compute]|].
  apply rtc_refl.
Defined.
