(* ===== verification/Tracker.v ===== *)
(** * Mailbox trackers (server/tracker.go)

    The trackers of mailboxes and sessions, method by method, and then with
    their locks: a method takes its locks one after the other while the methods
    of other goroutines run. *)

From S2P Require Import Prelude Utf8 GoStrings GoTime NumSet Imap Decoder Encoder Writers ConnState Conn.

(** ** Data

    Trackers are addressed by number, as the source addresses them by
    pointer. *)
Record MailboxTracker := mkMT {
  mt_name : bytes;
  mt_numMessages : Z;
  mt_uidNext : Z;
  mt_uidValidity : Z;
  mt_sessions : gset nat;
}.
Record SessionTracker := mkST {
  st_mailbox : option nat;
  st_updates : list Update;
}.
Record Trackers := mkTrackers {
  tk_boxes : gmap nat MailboxTracker;
  tk_sessions : gmap nat SessionTracker;
}.

Definition NewMailboxTracker (name : bytes) (numMessages uidValidity uidNext : Z) : MailboxTracker :=
  mkMT name numMessages uidNext uidValidity ∅.
Definition NewSessionTracker : SessionTracker := mkST None [].

Definition set_num (n : Z) (t : MailboxTracker) : MailboxTracker :=
  mkMT (mt_name t) n (mt_uidNext t) (mt_uidValidity t) (mt_sessions t).
Definition set_watchers (ss : gset nat) (t : MailboxTracker) : MailboxTracker :=
  mkMT (mt_name t) (mt_numMessages t) (mt_uidNext t) (mt_uidValidity t) ss.
Definition alter_box (b : nat) (f : MailboxTracker -> MailboxTracker) (tk : Trackers) : Trackers :=
  mkTrackers (alter f b (tk_boxes tk)) (tk_sessions tk).
Definition alter_session (s : nat) (f : SessionTracker -> SessionTracker) (tk : Trackers) : Trackers :=
  mkTrackers (tk_boxes tk) (alter f s (tk_sessions tk)).

(** ** The critical sections *)
Definition queueUpdate (update : Update) (s : nat) : Trackers -> Trackers :=
  alter_session s (fun st => mkST (st_mailbox st) (st_updates st ++ [update])).
Definition addSession (b s : nat) : Trackers -> Trackers :=
  alter_box b (fun t => set_watchers ({[ s ]} ∪ mt_sessions t) t).
Definition removeSession (b s : nat) : Trackers -> Trackers :=
  alter_box b (fun t => set_watchers (mt_sessions t ∖ {[ s ]}) t).
(** [numMessages] is a uint32: the increment wraps. *)
Definition count_expunge (b : nat) : Trackers -> Trackers :=
  alter_box b (fun t => set_num (if 0 <? mt_numMessages t then mt_numMessages t - 1 else mt_numMessages t) t).
Definition count_new (b : nat) : Trackers -> Trackers :=
  alter_box b (fun t => set_num (u32 (mt_numMessages t + 1)) t).
Definition numMessages (b : nat) (tk : Trackers) : Z :=
  match tk_boxes tk !! b with Some t => mt_numMessages t | None => 0 end.
Definition watchers (b : nat) (tk : Trackers) : gset nat :=
  match tk_boxes tk !! b with Some t => mt_sessions t | None => ∅ end.
Definition selected_box (s : nat) (tk : Trackers) : option nat := tk_sessions tk !! s ≫= st_mailbox.
Definition pending (s : nat) (tk : Trackers) : list Update :=
  match tk_sessions tk !! s with Some st => st_updates st | None => [] end.
Definition associate (s : nat) (mbox : option nat) : Trackers -> Trackers :=
  alter_session s (fun _ => mkST mbox []).

(** ** The methods, one at a time

    Ranging over the map of sessions visits each once; as each has its own
    queue, the order does not matter. *)
Definition QueueUpdate (b : nat) (update : Update) (tk : Trackers) : Trackers :=
  foldl (fun tk s => queueUpdate update s tk) tk (elements (watchers b tk)).
Definition QueueExpunge (b : nat) (seqNum : Z) (tk : Trackers) : Trackers :=
  QueueUpdate b (ExpungeUpdate seqNum) (count_expunge b tk).
Definition QueueNewMessage (b : nat) (tk : Trackers) : Trackers :=
  let tk := count_new b tk in QueueUpdate b (ExistsUpdate (numMessages b tk)) tk.
Definition QueueFlagsUpdate (b : nat) (seqNum : Z) (flags : list bytes) : Trackers -> Trackers :=
  QueueUpdate b (FetchFlagsUpdate seqNum flags).

Definition tracker_Select (s : nat) (mbox : option nat) (tk : Trackers) : Trackers :=
  let tk := match selected_box s tk with Some b => removeSession b s tk | None => tk end in
  let tk := associate s mbox tk in
  match mbox with Some b => addSession b s tk | None => tk end.
Definition tracker_Unselect (s : nat) (tk : Trackers) : Trackers :=
  let tk := match selected_box s tk with Some b => removeSession b s tk | None => tk end in
  associate s None tk.

(** What [Flush] writes of one update. *)
Definition flush_update (allowExpunge : bool) (u : Update) : list Update :=
  match u with
  | ExpungeUpdate _ => if allowExpunge then [u] else []
  | _ => [u]
  end.
Definition Flush (s : nat) (allowExpunge : bool) (tk : Trackers) : Trackers * list Update :=
  (alter_session s (fun st => mkST (st_mailbox st) []) tk,
   concat (flush_update allowExpunge <$> pending s tk)).

(** ** What a client makes of the updates: the number of messages it knows. *)
Definition client_count (n : Z) (u : Update) : Z :=
  match u with
  | ExistsUpdate m => m
  | ExpungeUpdate _ => if 0 <? n then n - 1 else n
  | FetchFlagsUpdate _ _ => n
  end.

(** ** Runs of methods, with what each client knows *)
Inductive tracker_op :=
| TExpunge (b : nat) (seqNum : Z)
| TNewMessage (b : nat)
| TFlags (b : nat) (seqNum : Z) (flags : list bytes)
| TSelect (s : nat) (mbox : option nat)
| TUnselect (s : nat)
| TFlush (s : nat) (allowExpunge : bool).

Record Watch := mkWatch { w_tk : Trackers; w_known : nat -> Z }.

(** A client learns the number of messages when it selects, and from what is
    flushed to it. *)
Definition learn (s : nat) (n : Z) (known : nat -> Z) : nat -> Z :=
  fun s' => if bool_decide (s' = s) then n else known s'.
Definition watch_op (w : Watch) (op : tracker_op) : Watch :=
  let 'mkWatch tk known := w in
  match op with
  | TExpunge b n => mkWatch (QueueExpunge b n tk) known
  | TNewMessage b => mkWatch (QueueNewMessage b tk) known
  | TFlags b n flags => mkWatch (QueueFlagsUpdate b n flags tk) known
  | TSelect s mbox =>
    mkWatch (tracker_Select s mbox tk)
      (match mbox with Some b => learn s (numMessages b tk) known | None => known end)
  | TUnselect s => mkWatch (tracker_Unselect s tk) known
  | TFlush s allow =>
    let '(tk', written) := Flush s allow tk in
    mkWatch tk' (learn s (foldl client_count (known s) written) known)
  end.

(** The trackers a select refers to exist. *)
Definition op_in (tk : Trackers) (op : tracker_op) : Prop :=
  match op with
  | TSelect s (Some b) => is_Some (tk_boxes tk !! b) /\ is_Some (tk_sessions tk !! s)
  | _ => True
  end.

Record trackers_wf (tk : Trackers) : Prop := {
  tw_watch s b : selected_box s tk = Some b <-> s ∈ watchers b tk;
  tw_box s b : selected_box s tk = Some b -> is_Some (tk_boxes tk !! b);
}.

(** What the client knows and what is pending add up to the mailbox. *)
Definition in_sync (w : Watch) (s b : nat) : Prop :=
  foldl client_count (w_known w s) (pending s (w_tk w)) = numMessages b (w_tk w).

(** *** One session's view of an update *)
Lemma queueUpdate_spec u s tk s' :
  tk_boxes (queueUpdate u s tk) = tk_boxes tk /\
  selected_box s' (queueUpdate u s tk) = selected_box s' tk /\
  pending s' (queueUpdate u s tk) =
    pending s' tk ++ if bool_decide (s' = s /\ is_Some (tk_sessions tk !! s')) then [u] else [].
Proof.
  split; [done|]. unfold selected_box, pending, queueUpdate, alter_session. cbn [tk_sessions].
  destruct (decide (s' = s)) as [->|Hne].
  - rewrite lookup_alter_eq. destruct (tk_sessions tk !! s) as [st|].
    + split; [done|]. by rewrite bool_decide_true by eauto.
    + split; [done|]. rewrite bool_decide_false by (by intros [_ [? [=]]]). done.
  - rewrite lookup_alter_ne by done. rewrite bool_decide_false by naive_solver. by rewrite app_nil_r.
Qed.

Lemma queue_sessions u l tk s :
  NoDup l -> let tk' := foldl (fun tk s => queueUpdate u s tk) tk l in
  tk_boxes tk' = tk_boxes tk /\ selected_box s tk' = selected_box s tk /\
  pending s tk' = pending s tk ++ if bool_decide (s ∈ l /\ is_Some (tk_sessions tk !! s)) then [u] else [].
Proof.
  intros Hnd. revert tk. induction Hnd as [|s' l Hs' Hnd IH]; intros tk; cbn [foldl] in *.
  - rewrite bool_decide_false by set_solver. by rewrite app_nil_r.
  - destruct (IH (queueUpdate u s' tk)) as (-> & -> & ->).
    destruct (queueUpdate_spec u s' tk s) as (-> & -> & ->). split_and!; [done..|].
    assert (is_Some (tk_sessions (queueUpdate u s' tk) !! s) <-> is_Some (tk_sessions tk !! s)) as Hs.
    { unfold queueUpdate, alter_session. cbn [tk_sessions]. by rewrite lookup_alter_is_Some. }
    rewrite <- (assoc_L (++)). f_equal.
    destruct (decide (s = s')) as [->|Hne].
    + rewrite (bool_decide_false (s' ∈ l /\ _)) by naive_solver. rewrite app_nil_r.
      erewrite bool_decide_ext; [done|]. set_solver.
    + rewrite (bool_decide_false (s = s' /\ _)) by naive_solver.
      erewrite bool_decide_ext; [done|]. rewrite Hs. set_solver.
Qed.

Lemma QueueUpdate_spec b u tk s :
  trackers_wf tk ->
  tk_boxes (QueueUpdate b u tk) = tk_boxes tk /\
  selected_box s (QueueUpdate b u tk) = selected_box s tk /\
  pending s (QueueUpdate b u tk) =
    pending s tk ++ if bool_decide (selected_box s tk = Some b) then [u] else [].
Proof.
  intros Hwf. unfold QueueUpdate.
  destruct (queue_sessions u (elements (watchers b tk)) tk s) as (-> & -> & ->); [apply NoDup_elements|].
  split_and!; [done..|]. f_equal. erewrite bool_decide_ext; [done|].
  rewrite elem_of_elements, <- (tw_watch _ Hwf). split; [by intros [? _]|]. intros Hs. split; [done|].
  unfold selected_box in Hs. by destruct (tk_sessions tk !! s).
Qed.

(** *** The invariant *)
Lemma wf_same tk tk' :
  trackers_wf tk -> (forall s, selected_box s tk' = selected_box s tk) ->
  (forall b, watchers b tk' = watchers b tk) ->
  (forall b, is_Some (tk_boxes tk !! b) -> is_Some (tk_boxes tk' !! b)) -> trackers_wf tk'.
Proof.
  intros [Ha Hb] Hs Hw Hk. split; intros s b; rewrite Hs, ?Hw; [done|]. intros H. by eapply Hk, Hb.
Qed.

Lemma alter_box_watchers b f tk b' :
  (forall t, mt_sessions (f t) = mt_sessions t) -> watchers b' (alter_box b f tk) = watchers b' tk.
Proof.
  intros Hf. unfold watchers, alter_box. cbn [tk_boxes]. destruct (decide (b' = b)) as [->|Hne].
  - rewrite lookup_alter_eq. destruct (tk_boxes tk !! b); [apply Hf|done].
  - by rewrite lookup_alter_ne.
Qed.
Lemma alter_box_wf b f tk :
  (forall t, mt_sessions (f t) = mt_sessions t) -> trackers_wf tk -> trackers_wf (alter_box b f tk).
Proof.
  intros Hf Hwf. apply (wf_same tk); [done|done|by intros; apply alter_box_watchers|].
  intros b' Hb. unfold alter_box. cbn [tk_boxes]. by apply lookup_alter_is_Some.
Qed.
Lemma QueueUpdate_wf b u tk : trackers_wf tk -> trackers_wf (QueueUpdate b u tk).
Proof.
  intros Hwf. apply (wf_same tk); [done|..].
  - intros s. by apply QueueUpdate_spec.
  - intros b'. unfold watchers. by destruct (QueueUpdate_spec b u tk 0 Hwf) as (-> & _ & _).
  - intros b'. by destruct (QueueUpdate_spec b u tk 0 Hwf) as (-> & _ & _).
Qed.

Lemma associate_spec s mbox tk s' :
  selected_box s' (associate s mbox tk) =
    (if bool_decide (s' = s /\ is_Some (tk_sessions tk !! s)) then mbox else selected_box s' tk) /\
  pending s' (associate s mbox tk) = if bool_decide (s' = s) then [] else pending s' tk.
Proof.
  unfold associate, alter_session, selected_box, pending. cbn [tk_sessions].
  destruct (decide (s' = s)) as [->|Hne].
  - rewrite lookup_alter_eq, (bool_decide_true (s = s)) by done. destruct (tk_sessions tk !! s).
    + by rewrite bool_decide_true by eauto.
    + rewrite bool_decide_false by (by intros [_ [? [=]]]). done.
  - rewrite lookup_alter_ne by done. rewrite !bool_decide_false by naive_solver. done.
Qed.

Lemma alter_watchers b f tk b' :
  watchers b' (alter_box b (fun t => set_watchers (f (mt_sessions t)) t) tk) =
  if bool_decide (b' = b /\ is_Some (tk_boxes tk !! b)) then f (watchers b tk) else watchers b' tk.
Proof.
  unfold watchers, alter_box. cbn [tk_boxes]. destruct (decide (b' = b)) as [->|Hne].
  - rewrite lookup_alter_eq. destruct (tk_boxes tk !! b).
    + by rewrite bool_decide_true by eauto.
    + rewrite bool_decide_false by (by intros [_ [? [=]]]). done.
  - rewrite lookup_alter_ne by done. by rewrite bool_decide_false by naive_solver.
Qed.
Lemma alter_watchers_num b f tk b' :
  numMessages b' (alter_box b (fun t => set_watchers (f (mt_sessions t)) t) tk) = numMessages b' tk.
Proof.
  unfold numMessages, alter_box. cbn [tk_boxes]. destruct (decide (b' = b)) as [->|Hne].
  - rewrite lookup_alter_eq. by destruct (tk_boxes tk !! b).
  - by rewrite lookup_alter_ne.
Qed.

(** Leaving the mailbox takes the session off every list. *)
Definition leave (s : nat) (tk : Trackers) : Trackers :=
  match selected_box s tk with Some b => removeSession b s tk | None => tk end.
Lemma leave_spec s tk :
  trackers_wf tk ->
  tk_sessions (leave s tk) = tk_sessions tk /\
  (forall b, is_Some (tk_boxes (leave s tk) !! b) <-> is_Some (tk_boxes tk !! b)) /\
  (forall b, numMessages b (leave s tk) = numMessages b tk) /\
  (forall b, watchers b (leave s tk) = watchers b tk ∖ {[ s ]}).
Proof.
  intros Hwf. pose proof (tw_watch _ Hwf s) as Hw. unfold leave. destruct (selected_box s tk) as [b0|] eqn:E.
  - split_and!; [done|..].
    + intros b. unfold removeSession, alter_box. cbn [tk_boxes]. by rewrite lookup_alter_is_Some.
    + intros b. apply (alter_watchers_num b0 (fun ss => ss ∖ {[ s ]})).
    + intros b. unfold removeSession. rewrite (alter_watchers b0 (fun ss => ss ∖ {[ s ]})).
      destruct (decide (b = b0)) as [->|Hne].
      * rewrite bool_decide_true; [done|]. split; [done|]. by eapply (tw_box _ Hwf).
      * rewrite bool_decide_false by naive_solver. assert (s ∉ watchers b tk) by (rewrite <- Hw; congruence).
        set_solver.
  - split_and!; [done..|]. intros b. assert (s ∉ watchers b tk) by (by rewrite <- Hw). set_solver.
Qed.

(** A session that has left, associated again. *)
Lemma associate_leave s mbox tk :
  trackers_wf tk -> op_in tk (TSelect s mbox) ->
  let tk1 := associate s mbox (leave s tk) in
  forall s', selected_box s' tk1 = (if bool_decide (s' = s) then mbox else selected_box s' tk) /\
             pending s' tk1 = if bool_decide (s' = s) then [] else pending s' tk.
Proof.
  intros Hwf Hin tk1 s'. unfold tk1. destruct (leave_spec s tk Hwf) as (Hs & _).
  destruct (associate_spec s mbox (leave s tk) s') as [-> ->]. unfold selected_box, pending. rewrite Hs.
  split; [|done]. destruct (decide (s' = s)) as [->|Hne].
  - rewrite (bool_decide_true (s = s)) by done. destruct (tk_sessions tk !! s) eqn:E.
    + by rewrite bool_decide_true by eauto.
    + rewrite bool_decide_false by (by intros [_ [? [=]]]). destruct mbox as [b|]; [|done].
      destruct Hin as [_ [? Hx]]. congruence.
  - by rewrite !bool_decide_false by naive_solver.
Qed.

Lemma Select_watchers s b tk b' :
  trackers_wf tk -> is_Some (tk_boxes tk !! b) ->
  watchers b' (addSession b s (associate s (Some b) (leave s tk))) =
    if bool_decide (b' = b) then {[ s ]} ∪ watchers b tk else watchers b' tk ∖ {[ s ]}.
Proof.
  intros Hwf Hb. destruct (leave_spec s tk Hwf) as (_ & Hbox & _ & Hw). unfold addSession.
  rewrite (alter_watchers b (fun ss => {[ s ]} ∪ ss)).
  assert (forall b, watchers b (associate s (Some b) (leave s tk)) = watchers b tk ∖ {[ s ]}) as Hw1 by exact Hw.
  destruct (decide (b' = b)) as [->|Hne].
  - rewrite !bool_decide_true; [|done|split; [done|]; by apply Hbox]. rewrite Hw1.
    apply set_eq. intros x. destruct (decide (x = s)); set_solver.
  - rewrite !bool_decide_false by naive_solver. exact (Hw b').
Qed.

Lemma Select_wf s mbox tk :
  trackers_wf tk -> op_in tk (TSelect s mbox) -> trackers_wf (tracker_Select s mbox tk).
Proof.
  intros Hwf Hin. pose proof (associate_leave s mbox tk Hwf Hin) as Hsel.
  destruct (leave_spec s tk Hwf) as (_ & Hb & _ & Hw). unfold tracker_Select. fold (leave s tk).
  destruct mbox as [b|]; cbn zeta.
  - split; intros s' b'; change (selected_box s' (addSession b s ?x)) with (selected_box s' x);
      destruct (Hsel s') as [-> _].
    + rewrite Select_watchers by (done || apply Hin). pose proof (tw_watch _ Hwf s' b').
      repeat case_bool_decide; set_solver.
    + intros Hsb. unfold addSession, alter_box. cbn [tk_boxes]. rewrite lookup_alter_is_Some. apply Hb.
      case_bool_decide; [injection Hsb as <-; apply Hin|by eapply (tw_box _ Hwf)].
  - split; intros s' b'; destruct (Hsel s') as [-> _].
    + change (watchers b' (associate _ _ ?x)) with (watchers b' x). rewrite Hw. pose proof (tw_watch _ Hwf s' b').
      case_bool_decide; set_solver.
    + intros Hsb. apply Hb. case_bool_decide; [done|by eapply (tw_box _ Hwf)].
Qed.

Lemma Select_spec s mbox tk s' b :
  trackers_wf tk -> op_in tk (TSelect s mbox) ->
  let tk' := tracker_Select s mbox tk in
  numMessages b tk' = numMessages b tk /\
  selected_box s' tk' = (if bool_decide (s' = s) then mbox else selected_box s' tk) /\
  pending s' tk' = if bool_decide (s' = s) then [] else pending s' tk.
Proof.
  intros Hwf Hin. pose proof (associate_leave s mbox tk Hwf Hin s') as [Hsel Hp].
  destruct (leave_spec s tk Hwf) as (_ & _ & Hn & _). unfold tracker_Select. fold (leave s tk).
  destruct mbox as [b0|]; [|split_and!; [exact (Hn b)|done..]].
  split_and!; [|done..]. etrans; [apply (alter_watchers_num b0 (fun ss => {[ s ]} ∪ ss))|exact (Hn b)].
Qed.

(** *** The counts *)
Lemma count_num b g tk b' :
  numMessages b' (alter_box b (fun t => set_num (g (mt_numMessages t)) t) tk) =
  if bool_decide (b' = b /\ is_Some (tk_boxes tk !! b)) then g (numMessages b tk) else numMessages b' tk.
Proof.
  unfold numMessages, alter_box. cbn [tk_boxes]. destruct (decide (b' = b)) as [->|Hne].
  - rewrite lookup_alter_eq. destruct (tk_boxes tk !! b).
    + by rewrite bool_decide_true by eauto.
    + rewrite bool_decide_false by (by intros [_ [? [=]]]). done.
  - rewrite lookup_alter_ne by done. by rewrite bool_decide_false by naive_solver.
Qed.

(** An update that says what happened to the count keeps a client in step. *)
Lemma queue_sync b g u tk tk1 n s b' :
  trackers_wf tk1 -> tk_sessions tk1 = tk_sessions tk ->
  numMessages b' tk1 = (if bool_decide (b' = b) then g (numMessages b tk) else numMessages b' tk) ->
  (b' = b -> client_count (numMessages b tk) u = g (numMessages b tk)) ->
  selected_box s tk = Some b' -> foldl client_count n (pending s tk) = numMessages b' tk ->
  foldl client_count n (pending s (QueueUpdate b u tk1)) = numMessages b' (QueueUpdate b u tk1).
Proof.
  intros Hwf Hss Hnum Hg Hs Hsync. destruct (QueueUpdate_spec b u tk1 s Hwf) as (Hbox & _ & ->).
  assert (numMessages b' (QueueUpdate b u tk1) = numMessages b' tk1) as ->
    by (unfold numMessages; by rewrite Hbox).
  assert (pending s tk1 = pending s tk) as -> by (unfold pending; by rewrite Hss).
  assert (selected_box s tk1 = selected_box s tk) as -> by (unfold selected_box; by rewrite Hss).
  rewrite foldl_app, Hsync, Hs, Hnum. destruct (decide (b' = b)) as [->|Hne].
  - rewrite !bool_decide_true by done. by apply Hg.
  - by rewrite !bool_decide_false by naive_solver.
Qed.

(** Every operation keeps the trackers well formed, and every operation but a
    flush that holds back expunges keeps the clients in step. *)
Definition watch_inv (w : Watch) : Prop :=
  trackers_wf (w_tk w) /\ forall s b, selected_box s (w_tk w) = Some b -> in_sync w s b.
Definition full_flush (op : tracker_op) : bool :=
  match op with TFlush _ allow => allow | _ => true end.

Lemma Flush_spec s allow tk s' b :
  trackers_wf tk ->
  let tk' := (Flush s allow tk).1 in
  trackers_wf tk' /\ numMessages b tk' = numMessages b tk /\ selected_box s' tk' = selected_box s' tk /\
  pending s' tk' = if bool_decide (s' = s) then [] else pending s' tk.
Proof.
  intros Hwf. cbn [Flush fst].
  assert (forall x, selected_box x (alter_session s (fun st => mkST (st_mailbox st) []) tk) = selected_box x tk) as Hsel.
  { intros x. unfold selected_box, alter_session. cbn [tk_sessions]. destruct (decide (x = s)) as [->|Hne].
    - rewrite lookup_alter_eq. by destruct (tk_sessions tk !! s).
    - by rewrite lookup_alter_ne. }
  split_and!; [by apply (wf_same tk)|done|apply Hsel|].
  unfold pending, alter_session. cbn [tk_sessions]. destruct (decide (s' = s)) as [->|Hne].
  - rewrite lookup_alter_eq, bool_decide_true by done. by destruct (tk_sessions tk !! s).
  - rewrite lookup_alter_ne by done. by rewrite bool_decide_false.
Qed.

Lemma written_all us : concat (flush_update true <$> us) = us.
Proof. induction us as [|u us IH]; [done|]. rewrite fmap_cons. cbn [concat]. rewrite IH. by destruct u. Qed.

(** Counting, then telling everyone. *)
Lemma counted_sync b g u tk known :
  watch_inv (mkWatch tk known) ->
  (is_Some (tk_boxes tk !! b) -> client_count (numMessages b tk) u = g (numMessages b tk)) ->
  watch_inv (mkWatch (QueueUpdate b u (alter_box b (fun t => set_num (g (mt_numMessages t)) t) tk)) known).
Proof.
  intros [Hwf Hsync] Hg. cbn [w_tk] in *.
  set (tk1 := alter_box b _ tk). assert (trackers_wf tk1) as Hwf1 by (by apply alter_box_wf).
  split; [by apply QueueUpdate_wf|]. intros s b'. unfold in_sync in *. cbn [w_tk w_known] in *.
  destruct (QueueUpdate_spec b u tk1 s Hwf1) as (_ & -> & _). intros Hs. change (selected_box s tk = Some b') in Hs.
  pose proof (tw_box _ Hwf _ _ Hs) as Hb.
  eapply (queue_sync b g _ tk); try done; [|by intros <-; apply Hg|by apply Hsync].
  unfold tk1. rewrite count_num.
  destruct (decide (b' = b)) as [->|Hne]; [by rewrite !bool_decide_true|by rewrite !bool_decide_false by naive_solver].
Qed.

Lemma set_num_same b tk : alter_box b (fun t => set_num (mt_numMessages t) t) tk = tk.
Proof.
  destruct tk as [bs ss]. unfold alter_box. cbn [tk_boxes tk_sessions]. f_equal. apply map_eq. intros b'.
  destruct (decide (b' = b)) as [->|Hne]; [|by rewrite lookup_alter_ne].
  rewrite lookup_alter_eq. destruct (bs !! b) as [[]|]; done.
Qed.

Lemma watch_step w op :
  watch_inv w -> op_in (w_tk w) op -> full_flush op = true -> watch_inv (watch_op w op).
Proof.
  intros Hinv Hin Hfull. destruct w as [tk known].
  assert (forall s mbox, op_in tk (TSelect s mbox) ->
    watch_inv (watch_op (mkWatch tk known) (TSelect s mbox))) as Hselect.
  { clear Hin. intros s mbox Hop. destruct Hinv as [Hwf Hsync]. split; [by apply Select_wf|].
    intros s' b. unfold in_sync in *. cbn [w_tk w_known watch_op] in *.
    destruct (Select_spec s mbox tk s' b Hwf Hop) as (-> & -> & ->). unfold learn. case_bool_decide.
    - intros ->. subst s'. by rewrite bool_decide_true.
    - intros Hs. rewrite <- (Hsync _ _ Hs). destruct mbox; [|done]. by rewrite bool_decide_false. }
  destruct op as [b n|b|b n flags|s mbox|s|s allow]; [..|apply (Hselect s None I)|].
  - by apply (counted_sync b (fun n => if 0 <? n then n - 1 else n)).
  - cbn [watch_op]. unfold QueueNewMessage. cbn zeta. apply (counted_sync b (fun n => u32 (n + 1))); [done|].
    intros Hb. cbn [client_count]. unfold count_new. rewrite (count_num b (fun n => u32 (n + 1))).
    by rewrite bool_decide_true.
  - cbn [watch_op]. unfold QueueFlagsUpdate. rewrite <- (set_num_same b tk) at 1. by apply (counted_sync b id).
  - by apply Hselect.
  - cbn in Hfull. subst allow. destruct Hinv as [Hwf Hsync]. cbn [w_tk] in *.
    pose proof (fun s' b => Flush_spec s true tk s' b Hwf) as HF. split; [apply (HF 0%nat 0%nat)|].
    intros s' b. unfold in_sync in *. cbn [w_tk w_known watch_op Flush] in *.
    destruct (HF s' b) as (_ & Hn & Hs & Hp). cbn [Flush fst] in *. rewrite Hn, Hs, Hp, written_all.
    unfold learn. case_bool_decide; [subst s'|]; intros Hsel; by apply Hsync.
Qed.

(** ** The methods with their locks

    A goroutine is where it stands in its method.  A critical section without a
    lock inside is one step, taken when nobody holds its lock; [QueueUpdate]
    takes the lock of each session while it holds the read lock of the mailbox,
    [Select] and [Unselect] take the lock of the mailbox while they hold that of
    the session. *)
Inductive thread :=
| AtQueueUpdate (b : nat) (u : Update)
| InQueueUpdate (b : nat) (u : Update) (todo : list nat)
| AtExpunge (b : nat) (seqNum : Z)
| AtNewMessage (b : nat)
| AtSelect (s : nat) (mbox : option nat)
| InSelect (s b : nat) (mbox : option nat)
| AtAdd (s b : nat)
| AtFlush (s : nat) (allowExpunge : bool)
| Finished.

Record Config := mkConfig { cf_tk : Trackers; cf_threads : gmap nat thread }.

Definition read_locked (b : nat) (c : Config) : Prop :=
  exists i u todo, cf_threads c !! i = Some (InQueueUpdate b u todo).
Definition session_locked (s : nat) (c : Config) : Prop :=
  exists i b mbox, cf_threads c !! i = Some (InSelect s b mbox).

Definition after_select (s : nat) (mbox : option nat) : thread :=
  match mbox with Some b => AtAdd s b | None => Finished end.

(** One step of a goroutine at [t]: the trackers and where it stands then. *)
Inductive thread_step (c : Config) : thread -> Trackers -> thread -> Prop :=
| ts_range b u todo :
    todo ≡ₚ elements (watchers b (cf_tk c)) ->
    thread_step c (AtQueueUpdate b u) (cf_tk c) (InQueueUpdate b u todo)
| ts_queue b u s todo :
    ~ session_locked s c ->
    thread_step c (InQueueUpdate b u (s :: todo)) (queueUpdate u s (cf_tk c)) (InQueueUpdate b u todo)
| ts_queued b u : thread_step c (InQueueUpdate b u []) (cf_tk c) Finished
| ts_expunge b n :
    ~ read_locked b c ->
    thread_step c (AtExpunge b n) (count_expunge b (cf_tk c)) (AtQueueUpdate b (ExpungeUpdate n))
| ts_new b :
    ~ read_locked b c ->
    let tk := count_new b (cf_tk c) in
    thread_step c (AtNewMessage b) tk (AtQueueUpdate b (ExistsUpdate (numMessages b tk)))
| ts_select s mbox :
    ~ session_locked s c -> selected_box s (cf_tk c) = None ->
    thread_step c (AtSelect s mbox) (associate s mbox (cf_tk c)) (after_select s mbox)
| ts_hold s b mbox :
    ~ session_locked s c -> selected_box s (cf_tk c) = Some b ->
    thread_step c (AtSelect s mbox) (cf_tk c) (InSelect s b mbox)
| ts_remove s b mbox :
    ~ read_locked b c ->
    thread_step c (InSelect s b mbox) (associate s mbox (removeSession b s (cf_tk c))) (after_select s mbox)
| ts_add s b :
    ~ read_locked b c -> thread_step c (AtAdd s b) (addSession b s (cf_tk c)) Finished
| ts_flush s allow :
    ~ session_locked s c -> thread_step c (AtFlush s allow) (Flush s allow (cf_tk c)).1 Finished.

Definition conc_step (c c' : Config) : Prop :=
  exists i t tk t', cf_threads c !! i = Some t /\ thread_step c t tk t' /\
    c' = mkConfig tk (<[i := t']> (cf_threads c)).

(** A goroutine in [QueueUpdate] that waits for a session whose goroutine waits
    in [Select] or [Unselect] for the mailbox: neither ever moves again. *)
Definition embrace (c : Config) (i j : nat) : Prop :=
  exists b u s todo mbox, cf_threads c !! i = Some (InQueueUpdate b u (s :: todo)) /\
    cf_threads c !! j = Some (InSelect s b mbox).

Lemma embrace_step c c' i j :
  embrace c i j -> conc_step c c' ->
  embrace c' i j /\ cf_threads c' !! i = cf_threads c !! i /\ cf_threads c' !! j = cf_threads c !! j.
Proof.
  intros (b & u & s & todo & mbox & Hi & Hj) (k & t & tk & t' & Hk & Hstep & ->). cbn [cf_threads].
  assert (k <> i) as Hki.
  { intros ->. rewrite Hi in Hk. injection Hk as <-. inversion Hstep as [|? ? ? ? Hn| | | | | | | |]; subst.
    apply Hn. by exists j, b, mbox. }
  assert (k <> j) as Hkj.
  { intros ->. rewrite Hj in Hk. injection Hk as <-. inversion Hstep as [| | | | | | |? ? ? Hn| |]; subst.
    apply Hn. by exists i, u, (s :: todo). }
  unfold embrace. cbn [cf_threads]. rewrite !lookup_insert_ne by done. split; [|done]. by exists b, u, s, todo, mbox.
Qed.

Lemma embrace_forever c c' i j :
  embrace c i j -> rtc conc_step c c' ->
  cf_threads c' !! i = cf_threads c !! i /\ cf_threads c' !! j = cf_threads c !! j.
Proof.
  intros He Hr. induction Hr as [|c c1 c' Hs _ IH]; [done|].
  destruct (embrace_step _ _ _ _ He Hs) as (He' & H1 & H2). destruct (IH He'). by rewrite <- H1, <- H2.
Qed.

(** Without a goroutine inside [Select] or [Unselect] there is always one that
    can move. *)
Definition outside_select (c : Config) : Prop := forall s, ~ session_locked s c.

Lemma queue_moves c i b u todo :
  outside_select c -> cf_threads c !! i = Some (InQueueUpdate b u todo) -> exists c', conc_step c c'.
Proof.
  intros Hout Hi. destruct todo as [|s todo]; eexists _, i, _, _, _; split_and!; try done.
  - apply ts_queued.
  - by apply ts_queue.
Qed.

Definition reading (b : nat) (t : thread) : bool :=
  match t with InQueueUpdate b' _ _ => bool_decide (b' = b) | _ => false end.
Lemma read_locked_dec b c :
  read_locked b c \/ ~ read_locked b c.
Proof.
  destruct (existsb (fun p => reading b p.2) (map_to_list (cf_threads c))) eqn:E.
  - left. apply existsb_exists in E as ([j t] & Hj%list_elem_of_In%elem_of_map_to_list & Hb).
    destruct t; try done. cbn in Hb. apply bool_decide_eq_true in Hb as ->. by eexists _, _, _.
  - right. intros (j & u & todo & Hj). apply not_true_iff_false in E. apply E, existsb_exists.
    exists (j, InQueueUpdate b u todo). split; [by apply list_elem_of_In, elem_of_map_to_list|].
    by apply bool_decide_eq_true.
Qed.

Lemma moves c i t :
  outside_select c -> cf_threads c !! i = Some t -> t <> Finished -> exists c', conc_step c c'.
Proof.
  intros Hout Hi Ht.
  assert (forall tk t', thread_step c t tk t' -> exists c', conc_step c c') as Hmove
    by (intros tk t' Hs; by eexists _, i, _, _, _).
  assert (forall b, ~ read_locked b c \/ exists c', conc_step c c') as Hfree.
  { intros b. destruct (read_locked_dec b c) as [(j & u & todo & Hj)|]; [|by left].
    right. by eapply queue_moves. }
  destruct t as [b u|b u todo|b n|b|s mbox|s b mbox|s b|s allow|].
  - eapply Hmove. by apply ts_range.
  - by eapply queue_moves.
  - destruct (Hfree b); [|done]. by eapply Hmove, ts_expunge.
  - destruct (Hfree b); [|done]. by eapply Hmove, ts_new.
  - destruct (selected_box s (cf_tk c)) eqn:E; eapply Hmove; [by apply ts_hold|by apply ts_select].
  - destruct (Hfree b); [|done]. by eapply Hmove, ts_remove.
  - destruct (Hfree b); [|done]. by eapply Hmove, ts_add.
  - by eapply Hmove, ts_flush.
  - done.
Qed.

(** ** The properties *)
Definition unwatched (tk : Trackers) : Prop :=
  (forall s, selected_box s tk = None) /\ (forall b, watchers b tk = ∅).
Definition watch_steps (w w' : Watch) : Prop :=
  exists op, op_in (w_tk w) op /\ full_flush op = true /\ w' = watch_op w op.

Lemma unwatched_inv tk known : unwatched tk -> watch_inv (mkWatch tk known).
Proof.
  intros [Hs Hw]. split; [split|]; intros s b; cbn [w_tk]; rewrite Hs; try done. rewrite Hw. set_solver.
Qed.

Lemma expunges_held ns : concat (flush_update false <$> (ExpungeUpdate <$> ns)) = [].
Proof. by induction ns. Qed.
Lemma expunges_counted ns n :
  Z.of_nat (length ns) <= n -> foldl client_count n (ExpungeUpdate <$> ns) = n - Z.of_nat (length ns).
Proof.
  revert n. induction ns as [|x ns IH]; intros n Hn; [cbn; lia|]. rewrite fmap_cons. cbn [foldl client_count length] in *.
  destruct (Z.ltb_spec 0 n); [|lia]. rewrite IH by lia. lia.
Qed.



(** ** On concrete trackers *)
Definition demo_trackers : Trackers :=
  mkTrackers {[ 0%nat := NewMailboxTracker "INBOX" 3 1 4 ]} {[ 0%nat := NewSessionTracker ]}.
Definition demo_watch : Watch :=
  foldl watch_op (mkWatch demo_trackers (fun _ => 0)) [TSelect 0 (Some 0%nat); TExpunge 0 1].

Lemma demo_unwatched : unwatched demo_trackers.
Proof.
  split.
  - intros [|s]; unfold selected_box, demo_trackers; cbn [tk_sessions].
    + by rewrite lookup_singleton_eq.
    + by rewrite lookup_singleton_ne.
  - intros [|b]; unfold watchers, demo_trackers; cbn [tk_boxes].
    + by rewrite lookup_singleton_eq.
    + by rewrite lookup_singleton_ne.
Qed.


