(* ===== verification/Auth.v ===== *)
(** * SASL mechanisms (auth)

    The two sides of every mechanism behind the interfaces of auth/auth.go, and
    the registry of mechanisms.  The authenticator is the application's: an
    argument, whose calls each step of a server mechanism reports. *)

From S2P Require Import Prelude Utf8 GoStrings.

(** ** Interfaces (auth/auth.go) *)

(** A call of [Authenticate]: mechanism, identity, credentials ([None] for
    nil). *)
Record auth_call := mkCall { ac_mechanism : bytes; ac_identity : bytes; ac_credentials : option bytes }.
Definition Authenticator := auth_call -> option error.

Record server_next := mkNext {
  sn_challenge : option bytes;
  sn_done : bool;
  sn_err : option error;
  sn_calls : list auth_call;
}.

(** [Start] returns [None] where the source returns nil. *)
Class ClientMechanism (S : Type) := {
  cl_Name : bytes;
  cl_Start : S -> res (option bytes);
  cl_Next : bytes -> St S bytes;
}.
Class ServerMechanism (S : Type) := {
  sm_Name : bytes;
  sm_Next : Authenticator -> bytes -> S -> server_next * S;
}.

(** A mechanism that ends with an error, and one that ends with what the
    authenticator says. *)
Definition refuse (text : bytes) : server_next := mkNext None true (Some (emsg text)) [].
Definition ask (auth : Authenticator) (c : auth_call) : server_next := mkNext None true (auth c) [c].

(** ** PLAIN (auth/plain) *)
Module Plain.
Definition Name : bytes := "PLAIN".
Record Client := mkClient { AuthzID : bytes; Username : bytes; Password : bytes }.
Definition Start (m : Client) : bytes := AuthzID m ++ [NUL] ++ Username m ++ [NUL] ++ Password m.
#[global] Instance client : ClientMechanism Client := {|
  cl_Name := Name;
  cl_Start m := Ok (Some (Start m));
  cl_Next _ m := (Err (emsg "plain: unexpected challenge"), m);
|}.
Record Server := mkServer { done : bool }.
Definition NewServerMechanism : Server := mkServer false.
Definition Next (auth : Authenticator) (response : bytes) (m : Server) : server_next * Server :=
  if done m then (refuse "plain: mechanism already completed", m)
  else
    (match SplitN response [NUL] 3 with
     | [_; username; password] => ask auth (mkCall Name username (Some password))
     | _ => refuse "plain: invalid response format"
     end, mkServer true).
#[global] Instance server : ServerMechanism Server := {| sm_Name := Name; sm_Next := Next |}.
End Plain.

(** ** LOGIN (auth/login) *)
Module AuthLogin.
Definition Name : bytes := "LOGIN".
Record Client := mkClient { Username : bytes; Password : bytes; step : Z }.
Definition client_Next (challenge : bytes) : St Client bytes := fun m =>
  if step m =? 0 then (Ok (Username m), mkClient (Username m) (Password m) (step m + 1))
  else if step m =? 1 then (Ok (Password m), mkClient (Username m) (Password m) (step m + 1))
  else (Err (emsg "login: unexpected challenge"), m).
#[global] Instance client : ClientMechanism Client := {|
  cl_Name := Name;
  cl_Start _ := Ok None;
  cl_Next := client_Next;
|}.
Record Server := mkServer { sstep : Z; username : bytes }.
Definition NewServerMechanism : Server := mkServer 0 [].
Definition Next (auth : Authenticator) (response : bytes) (m : Server) : server_next * Server :=
  if sstep m =? 0 then (mkNext (Some ("Username:" : bytes)) false None [], mkServer (sstep m + 1) (username m))
  else if sstep m =? 1 then (mkNext (Some ("Password:" : bytes)) false None [], mkServer (sstep m + 1) response)
  else if sstep m =? 2 then
    (ask auth (mkCall Name (username m) (Some response)), mkServer (sstep m + 1) (username m))
  else (refuse "login: unexpected response", m).
#[global] Instance server : ServerMechanism Server := {| sm_Name := Name; sm_Next := Next |}.
End AuthLogin.

(** ** CRAM-MD5 (auth/crammd5)

    [hmac] is HMAC-MD5 of the standard library: key, message, digest. *)
Definition hex_EncodeToString (src : bytes) : bytes :=
  concat ((fun c => [hex (bval c / 16); hex (bval c mod 16)]) <$> src).
Module CramMD5.
Definition Name : bytes := "CRAM-MD5".
Record Client := mkClient { Username : bytes; Password : bytes }.
Definition client_Next (hmac : bytes -> bytes -> bytes) (challenge : bytes) : St Client bytes := fun m =>
  (Ok (Username m ++ " " ++ hex_EncodeToString (hmac (Password m) challenge)), m).
Definition client (hmac : bytes -> bytes -> bytes) : ClientMechanism Client := {|
  cl_Name := Name;
  cl_Start _ := Ok None;
  cl_Next := client_Next hmac;
|}.
Record Server := mkServer { challenge : bytes; sstep : Z }.
Definition NewServerMechanism : Server := mkServer [] 0.
Definition the_challenge : bytes := "<" ++ Itoa 0 ++ "." ++ Itoa 0 ++ "@localhost>".
(** The step is not advanced once a response has been looked at. *)
Definition Next (auth : Authenticator) (response : bytes) (m : Server) : server_next * Server :=
  if sstep m =? 0 then (mkNext (Some the_challenge) false None [], mkServer the_challenge (sstep m + 1))
  else if sstep m =? 1 then
    (match SplitN response " " 2 with
     | [user; _] => ask auth (mkCall Name user (Some response))
     | _ => refuse "cram-md5: invalid response format"
     end, m)
  else (refuse "cram-md5: unexpected response", m).
#[global] Instance server : ServerMechanism Server := {| sm_Name := Name; sm_Next := Next |}.
End CramMD5.

(** ** EXTERNAL and ANONYMOUS (auth/external, auth/anonymous) *)
Module External.
Definition Name : bytes := "EXTERNAL".
Record Client := mkClient { AuthzID : bytes }.
#[global] Instance client : ClientMechanism Client := {|
  cl_Name := Name;
  cl_Start m := Ok (Some (AuthzID m));
  cl_Next _ m := (Err (emsg "external: unexpected challenge"), m);
|}.
Record Server := mkServer { done : bool }.
Definition NewServerMechanism : Server := mkServer false.
Definition Next (auth : Authenticator) (response : bytes) (m : Server) : server_next * Server :=
  if done m then (refuse "external: mechanism already completed", m)
  else (ask auth (mkCall Name response None), mkServer true).
#[global] Instance server : ServerMechanism Server := {| sm_Name := Name; sm_Next := Next |}.
End External.

Module Anonymous.
Definition Name : bytes := "ANONYMOUS".
Record Client := mkClient { Trace : bytes }.
#[global] Instance client : ClientMechanism Client := {|
  cl_Name := Name;
  cl_Start m := Ok (Some (Trace m));
  cl_Next _ m := (Err (emsg "anonymous: unexpected challenge"), m);
|}.
Record Server := mkServer { done : bool }.
Definition NewServerMechanism : Server := mkServer false.
Definition Next (auth : Authenticator) (response : bytes) (m : Server) : server_next * Server :=
  if done m then (refuse "anonymous: mechanism already completed", m)
  else (ask auth (mkCall Name response None), mkServer true).
#[global] Instance server : ServerMechanism Server := {| sm_Name := Name; sm_Next := Next |}.
End Anonymous.

(** ** OAUTHBEARER (auth/oauthbearer) *)
Module OAuthBearer.
Definition Name : bytes := "OAUTHBEARER".
Record Client := mkClient { Username : bytes; AccessToken : bytes; Host : bytes; Port : bytes }.
Definition Start (m : Client) : bytes :=
  "n,a=" ++ Username m ++ "," ++ [SOH]
  ++ (if Host m =s [] then [] else "host=" ++ Host m ++ [SOH])
  ++ (if Port m =s [] then [] else "port=" ++ Port m ++ [SOH])
  ++ "auth=Bearer " ++ AccessToken m ++ [SOH; SOH].
#[global] Instance client : ClientMechanism Client := {|
  cl_Name := Name;
  cl_Start m := Ok (Some (Start m));
  cl_Next _ m := (Ok [SOH], m);
|}.
Record Server := mkServer { done : bool }.
Definition NewServerMechanism : Server := mkServer false.
(** The last part that looks like a token wins. *)
Definition token_part (token part : bytes) : bytes :=
  if HasPrefix part "auth=Bearer " then drop 12 part
  else if HasPrefix part "auth=" then drop 5 part
  else token.
Definition parseOAuthBearer (data : bytes) : error + (bytes * bytes) :=
  if negb (HasPrefix data "n,") then inl (emsg "oauthbearer: invalid GS2 header")
  else
    let s := drop 2 data in
    match IndexByte s "," with
    | None => inl (emsg "oauthbearer: invalid format")
    | Some commaIdx =>
      let authzPart := take commaIdx s in
      let username := if HasPrefix authzPart "a=" then drop 2 authzPart else [] in
      let token := foldl token_part [] (Split (drop (commaIdx + 1) s) [SOH]) in
      if username =s [] then inl (emsg "oauthbearer: missing username")
      else if token =s [] then inl (emsg "oauthbearer: missing access token")
      else inr (username, token)
    end.
Definition Next (auth : Authenticator) (response : bytes) (m : Server) : server_next * Server :=
  if done m then (refuse "oauthbearer: mechanism already completed", m)
  else
    (match parseOAuthBearer response with
     | inr (username, token) => ask auth (mkCall Name username (Some token))
     | inl e => mkNext None true (Some e) []
     end, mkServer true).
#[global] Instance server : ServerMechanism Server := {| sm_Name := Name; sm_Next := Next |}.
End OAuthBearer.

(** ** XOAUTH2 (auth/xoauth2) *)
Module XOAuth2.
Definition Name : bytes := "XOAUTH2".
Record Client := mkClient { Username : bytes; AccessToken : bytes }.
Definition Start (m : Client) : bytes :=
  "user=" ++ Username m ++ [SOH] ++ "auth=Bearer " ++ AccessToken m ++ [SOH; SOH].
#[global] Instance client : ClientMechanism Client := {|
  cl_Name := Name;
  cl_Start m := Ok (Some (Start m));
  cl_Next _ m := (Ok [], m);
|}.
Record Server := mkServer { done : bool }.
Definition NewServerMechanism : Server := mkServer false.
Definition strip_bearer (val : bytes) : bytes :=
  if (7 <? len val) && (take 7 val =s "Bearer ") then drop 7 val else val.
(** A round takes at least the equals sign, so the length of the input bounds
    the rounds. *)
Fixpoint parse_loop (fuel : nat) (username token s : bytes) : bytes * bytes :=
  match fuel with
  | O => (username, token)
  | S f =>
    match IndexByte s "=" with
    | None => (username, token)
    | Some eqIdx =>
      let key := take eqIdx s in
      let rest := drop (eqIdx + 1) s in
      let val := take_while (fun c => negb (c =c SOH)) rest in
      let rest := drop 1 (drop_while (fun c => negb (c =c SOH)) rest) in
      if key =s "user" then parse_loop f val token rest
      else if key =s "auth" then parse_loop f username (strip_bearer val) rest
      else parse_loop f username token rest
    end
  end.
Definition parseXOAuth2 (data : bytes) : error + (bytes * bytes) :=
  let '(username, token) := parse_loop (length data) [] [] data in
  if username =s [] then inl (emsg "xoauth2: missing username")
  else if token =s [] then inl (emsg "xoauth2: missing access token")
  else inr (username, token).
Definition Next (auth : Authenticator) (response : bytes) (m : Server) : server_next * Server :=
  if done m then (refuse "xoauth2: mechanism already completed", m)
  else
    (match parseXOAuth2 response with
     | inr (username, token) => ask auth (mkCall Name username (Some token))
     | inl e => mkNext None true (Some e) []
     end, mkServer true).
#[global] Instance server : ServerMechanism Server := {| sm_Name := Name; sm_Next := Next |}.
End XOAuth2.

(** ** The registry (auth/auth.go)

    Factories are kept under upper-case names; [CF] and [SF] are their types. *)
Section Registry.
Context {U : Unicode} {CF SF : Type}.
Record AuthRegistry := mkAuthRegistry {
  clientFactories : gmap bytes CF;
  serverFactories : gmap bytes SF;
}.
Definition NewAuthRegistry : AuthRegistry := mkAuthRegistry ∅ ∅.
Definition RegisterClient (name : bytes) (factory : CF) (r : AuthRegistry) : AuthRegistry :=
  mkAuthRegistry (<[ToUpper name := factory]> (clientFactories r)) (serverFactories r).
Definition RegisterServer (name : bytes) (factory : SF) (r : AuthRegistry) : AuthRegistry :=
  mkAuthRegistry (clientFactories r) (<[ToUpper name := factory]> (serverFactories r)).
Definition NewClientMechanism (name : bytes) (r : AuthRegistry) : error + CF :=
  match clientFactories r !! ToUpper name with
  | Some f => inr f
  | None => inl (Errorf [Txt "auth: unsupported client mechanism "; QStr name])
  end.
Definition NewServerMechanism (name : bytes) (r : AuthRegistry) : error + SF :=
  match serverFactories r !! ToUpper name with
  | Some f => inr f
  | None => inl (Errorf [Txt "auth: unsupported server mechanism "; QStr name])
  end.
Definition ClientMechanisms (order : list bytes -> list bytes) (r : AuthRegistry) : list bytes :=
  order (map_to_list (clientFactories r)).*1.
Definition ServerMechanisms (order : list bytes -> list bytes) (r : AuthRegistry) : list bytes :=
  order (map_to_list (serverFactories r)).*1.
End Registry.

(** ** A conversation

    The server is given the initial response, or an empty one where the client
    has none, and then each answer of the client to its challenge. *)
Fixpoint converse {C S} {CM : ClientMechanism C} {SM : ServerMechanism S} (auth : Authenticator)
    (fuel : nat) (response : bytes) (c : C) (s : S) : option (option error * list auth_call) :=
  match fuel with
  | O => None
  | S f =>
    let '(r, s) := sm_Next auth response s in
    if sn_done r then Some (sn_err r, sn_calls r)
    else
      match cl_Next (default [] (sn_challenge r)) c with
      | (Ok response, c) => converse auth f response c s
      | _ => None
      end
  end.
Definition authenticate {C S} {CM : ClientMechanism C} {SM : ServerMechanism S} (auth : Authenticator)
    (c : C) (s : S) : option (option error * list auth_call) :=
  match cl_Start c with
  | Ok ir => converse auth 3 (default [] ir) c s
  | _ => None
  end.

(** The calls a server mechanism makes on a sequence of responses. *)
Fixpoint calls_on {S} {SM : ServerMechanism S} (auth : Authenticator) (responses : list bytes) (s : S)
    : list auth_call :=
  match responses with
  | [] => []
  | r :: rest => let '(n, s) := sm_Next auth r s in sn_calls n ++ calls_on auth rest s
  end.

(** ** What the servers make of what the clients send *)
Lemma plain_parse authz user pass :
  NUL ∉ authz -> NUL ∉ user ->
  SplitN (Plain.Start (Plain.mkClient authz user pass)) [NUL] 3 = [authz; user; pass].
Proof.
  intros Ha Hu. unfold Plain.Start. cbn [Plain.AuthzID Plain.Username Plain.Password app].
  rewrite SplitN1_field by done. by rewrite SplitN1_field.
Qed.

Lemma optional_part key v rest cur :
  SOH ∉ v -> SOH ∉ key -> HasPrefix (key ++ v) "auth=Bearer " = false -> HasPrefix (key ++ v) "auth=" = false ->
  foldl OAuthBearer.token_part cur
    (split_go [SOH] 0 [] ((if v =s [] then [] else key ++ v ++ [SOH]) ++ rest)) =
  foldl OAuthBearer.token_part cur (split_go [SOH] 0 [] rest).
Proof.
  intros Hv Hk H1 H2. destruct (v =s []) eqn:E; [done|].
  rewrite (assoc_L (++)), <- (assoc_L (++)). cbn [app]. rewrite split1_field by set_solver.
  cbn [foldl app]. unfold OAuthBearer.token_part at 2. by rewrite H1, H2.
Qed.

Lemma oauth_token token host port :
  SOH ∉ token -> SOH ∉ host -> SOH ∉ port ->
  foldl OAuthBearer.token_part []
    (Split ([SOH] ++ (if host =s [] then [] else "host=" ++ host ++ [SOH])
            ++ (if port =s [] then [] else "port=" ++ port ++ [SOH])
            ++ "auth=Bearer " ++ token ++ [SOH; SOH]) [SOH]) = token.
Proof.
  intros Ht Hh Hp. unfold Split.
  pose proof (split1_field SOH [] [] ltac:(set_solver)) as H1. cbn [app] in H1. cbn [app]. rewrite H1. cbn [foldl]. unfold OAuthBearer.token_part at 2. cbn [HasPrefix].
  rewrite !optional_part by (done || set_solver).
  change ([SOH; SOH]) with (SOH :: [] ++ SOH :: []). rewrite (assoc_L (++)), split1_field by set_solver.
  rewrite split1_field by set_solver. rewrite split1_last by set_solver. cbn [foldl app].
  unfold OAuthBearer.token_part. rewrite HasPrefix_app. cbn [HasPrefix].
  by change (drop 12 ("auth=Bearer " ++ token)) with token.
Qed.

Lemma oauth_parse user token host port :
  user <> [] -> token <> [] -> ","%char ∉ user -> SOH ∉ token -> SOH ∉ host -> SOH ∉ port ->
  OAuthBearer.parseOAuthBearer (OAuthBearer.Start (OAuthBearer.mkClient user token host port)) =
  inr (user, token).
Proof.
  intros Hu Ht Hcomma Hst Hsh Hsp. unfold OAuthBearer.parseOAuthBearer, OAuthBearer.Start.
  cbn [OAuthBearer.Username OAuthBearer.AccessToken OAuthBearer.Host OAuthBearer.Port].
  pose proof (oauth_token token host port Hst Hsh Hsp) as Htok. set (tail := [SOH] ++ _) in *.
  change ("n,a=" ++ user ++ "," ++ tail) with ("n," ++ (("a=" ++ user) ++ ","%char :: tail)).
  rewrite HasPrefix_app. cbn [negb]. change (drop 2 ("n," ++ ?x)) with x.
  rewrite IndexByte_app by set_solver. rewrite take_app_length, HasPrefix_app.
  change (drop 2 ("a=" ++ user)) with user. rewrite drop_app_add. cbn [drop]. rewrite drop_0, Htok.
  by rewrite !bool_decide_false.
Qed.

(** One round of the loop on a pair. *)
Lemma xoauth_round f username token key val rest :
  "="%char ∉ key -> SOH ∉ val ->
  XOAuth2.parse_loop (S f) username token (key ++ "="%char :: val ++ SOH :: rest) =
  if key =s "user" then XOAuth2.parse_loop f val token rest
  else if key =s "auth" then XOAuth2.parse_loop f username (XOAuth2.strip_bearer val) rest
  else XOAuth2.parse_loop f username token rest.
Proof.
  intros Hk Hv. cbn [XOAuth2.parse_loop]. rewrite IndexByte_app by done.
  rewrite take_app_length, drop_app_add. cbn [drop]. rewrite drop_0.
  assert (forallb (fun c => negb (c =c SOH)) val = true) as Hall.
  { apply forallb_forall. intros c Hc. apply negb_true_iff, beqb_false. intros ->. apply Hv.
    by apply list_elem_of_In. }
  assert (stops (fun c => negb (c =c SOH)) (SOH :: rest)) as Hstop by done.
  rewrite (take_while_app _ _ _ Hall Hstop), (drop_while_app _ _ _ Hall Hstop). cbn [drop]. by rewrite drop_0.
Qed.

Lemma xoauth_parse user token :
  user <> [] -> token <> [] -> SOH ∉ user -> SOH ∉ token ->
  XOAuth2.parseXOAuth2 (XOAuth2.Start (XOAuth2.mkClient user token)) = inr (user, token).
Proof.
  intros Hu Ht Hsu Hst. unfold XOAuth2.parseXOAuth2, XOAuth2.Start.
  cbn [XOAuth2.Username XOAuth2.AccessToken].
  set (tail := "auth=Bearer " ++ token ++ [SOH; SOH]).
  change ("user=" ++ user ++ [SOH] ++ tail) with (("user" : bytes) ++ "="%char :: user ++ SOH :: tail).
  remember (length _) as fuel eqn:Ef.
  assert (3 <= fuel)%nat as Hf by (subst fuel; rewrite length_app; change (length ("user" : bytes)) with 4%nat; lia).
  destruct fuel as [|[|[|fuel]]]; [lia..|]. clear Ef Hf.
  rewrite xoauth_round by (done || set_solver). cbn [bool_decide]. rewrite bool_decide_true by done.
  change tail with (("auth" : bytes) ++ "="%char :: ("Bearer " ++ token) ++ SOH :: [SOH]).
  rewrite xoauth_round by set_solver. rewrite bool_decide_false by done. rewrite bool_decide_true by done.
  cbn [XOAuth2.parse_loop IndexByte]. change (SOH =c "=") with false. cbn [fmap option_fmap option_map].
  unfold XOAuth2.strip_bearer. destruct token as [|t token]; [done|].
  assert (7 <? len (("Bearer " : bytes) ++ t :: token) = true) as ->
    by (apply Z.ltb_lt; rewrite len_app, len_cons; pose proof (len_nonneg token); change (len ("Bearer " : bytes)) with 7; lia).
  change (take 7 (("Bearer " : bytes) ++ t :: token)) with ("Bearer " : bytes).
  rewrite (bool_decide_true (("Bearer " : bytes) = "Bearer ")) by done.
  cbn [andb]. change (drop 7 (("Bearer " : bytes) ++ t :: token)) with (t :: token).
  by rewrite !bool_decide_false.
Qed.

(** ** The properties *)



(** A bound on the calls still to come that every step respects. *)
Lemma calls_bound {S} {SM : ServerMechanism S} auth (left : S -> nat) responses s :
  (forall r s, let '(n, s') := sm_Next auth r s in (length (sn_calls n) + left s' <= left s)%nat) ->
  (length (calls_on auth responses s) <= left s)%nat.
Proof.
  intros Hstep. revert s. induction responses as [|r rest IH]; intros s; cbn [calls_on length]; [lia|].
  specialize (Hstep r s). destruct (sm_Next auth r s) as [n s'] eqn:E. rewrite length_app. specialize (IH s'). lia.
Qed.

Lemma plain_once auth rs : (length (calls_on auth rs Plain.NewServerMechanism) <= 1)%nat.
Proof.
  apply (calls_bound auth (fun s => if Plain.done s then 0 else 1)%nat). intros r [d]. cbn [sm_Next Plain.server].
  unfold Plain.Next. destruct d; cbn [Plain.done sn_calls refuse length]; [lia|].
  destruct (SplitN r [NUL] 3) as [|? [|? [|? [|]]]]; cbn; lia.
Qed.
Lemma login_once auth rs : (length (calls_on auth rs AuthLogin.NewServerMechanism) <= 1)%nat.
Proof.
  apply (calls_bound auth (fun s => if (AuthLogin.sstep s <=? 2)%Z then 1 else 0)%nat). intros r [st u].
  cbn [sm_Next AuthLogin.server]. unfold AuthLogin.Next. cbn [AuthLogin.sstep AuthLogin.username].
  destruct (Z.eqb_spec st 0) as [->|]; [done|]. destruct (Z.eqb_spec st 1) as [->|]; [done|].
  destruct (Z.eqb_spec st 2) as [->|]; done.
Qed.
Lemma oauth_once auth rs : (length (calls_on auth rs OAuthBearer.NewServerMechanism) <= 1)%nat.
Proof.
  apply (calls_bound auth (fun s => if OAuthBearer.done s then 0 else 1)%nat). intros r [d].
  cbn [sm_Next OAuthBearer.server]. unfold OAuthBearer.Next.
  destruct d; [cbn; lia|]. destruct (OAuthBearer.parseOAuthBearer r) as [|[]]; cbn; lia.
Qed.
Lemma xoauth_once auth rs : (length (calls_on auth rs XOAuth2.NewServerMechanism) <= 1)%nat.
Proof.
  apply (calls_bound auth (fun s => if XOAuth2.done s then 0 else 1)%nat). intros r [d].
  cbn [sm_Next XOAuth2.server]. unfold XOAuth2.Next.
  destruct d; [cbn; lia|]. destruct (XOAuth2.parseXOAuth2 r) as [|[]]; cbn; lia.
Qed.

(** What CRAM-MD5 asks about one response. *)
Definition cram_calls (response : bytes) : list auth_call :=
  match IndexByte response " " with
  | Some i => [mkCall "CRAM-MD5" (take i response) (Some response)]
  | None => []
  end.
Lemma cram_calls_on auth c rs : calls_on auth rs (CramMD5.mkServer c 1) = concat (cram_calls <$> rs).
Proof.
  induction rs as [|r rs IH]; [done|]. rewrite fmap_cons. cbn [calls_on concat sm_Next CramMD5.server].
  unfold CramMD5.Next. cbn [CramMD5.sstep Z.eqb Pos.eqb]. rewrite IH. f_equal. unfold cram_calls.
  change (" " : bytes) with [" "%char]. cbn [SplitN]. rewrite Index1. by destruct (IndexByte r " ").
Qed.

(** Whatever a client sends and however often, a server mechanism asks the
    authenticator at most once, except CRAM-MD5: after its challenge it asks
    about every response that has a space in it. *)
Theorem sasl_once (auth : Authenticator) (responses : list bytes) :
  (length (calls_on auth responses Plain.NewServerMechanism) <= 1)%nat /\
  (length (calls_on auth responses AuthLogin.NewServerMechanism) <= 1)%nat /\
  (length (calls_on auth responses External.NewServerMechanism) <= 1)%nat /\
  (length (calls_on auth responses Anonymous.NewServerMechanism) <= 1)%nat /\
  (length (calls_on auth responses OAuthBearer.NewServerMechanism) <= 1)%nat /\
  (length (calls_on auth responses XOAuth2.NewServerMechanism) <= 1)%nat /\
  calls_on auth responses CramMD5.NewServerMechanism = concat (cram_calls <$> drop 1 responses).
Proof.
  split_and!; [apply plain_once|apply login_once| | |apply oauth_once|apply xoauth_once|].
  - apply (calls_bound auth (fun s => if External.done s then 0 else 1)%nat). intros r [[]]; cbn; lia.
  - apply (calls_bound auth (fun s => if Anonymous.done s then 0 else 1)%nat). intros r [[]]; cbn; lia.
  - destruct responses as [|r rs]; [done|]. cbn [drop]. rewrite drop_0. apply cram_calls_on.
Qed.
