(* ===== verification/ClientParse.v ===== *)
(** * What the client writes and parses (client/auth.go, client/mailbox.go,
      client/message.go, client/reader.go)

    The pure functions of the client: quoting of arguments, the parsers of the
    lines of a server and the texts of option lists.  A loop of the source that
    can run for ever is a fixpoint whose fuel is the number of bytes it could
    consume, and [Hang] when it stops consuming them. *)

From S2P Require Import Prelude Utf8 GoStrings GoTime NumSet Imap Decoder Encoder.

(** ** Strings *)

(** [strings.TrimLeft(s, " ")] *)
Definition TrimLeftSP (s : bytes) : bytes := drop_while (fun c => c =c " ") s.
(** [strings.TrimPrefix] *)
Definition TrimPrefix (s p : bytes) : bytes := if HasPrefix s p then drop (length p) s else s.

(** [strings.Fields]: the maximal runs without white space; [cur] is the run
    being read. *)
Definition flush_field (cur : bytes) : list bytes := if cur =s [] then [] else [cur].
Fixpoint fields_go (fuel : nat) (cur s : bytes) : list bytes :=
  match fuel, s with
  | S f, c :: s' =>
    match trim_left1 spaces s with
    | Some rest => flush_field cur ++ fields_go f [] rest
    | None => fields_go f (cur ++ [c]) s'
    end
  | _, _ => flush_field cur
  end.
Definition Fields (s : bytes) : list bytes := fields_go (length s) [] s.

(** ** Arguments (client/auth.go) *)
Definition needs_quotes (b : ascii) : bool :=
  (b =c " ") || (b =c DQ) || (b =c "\") || (b =c "(") || (b =c ")") || (b =c "{")
  || (bval b <? 0x20) || (0x7e <? bval b).
Definition quoteArg (s : bytes) : bytes :=
  if s =s [] then [DQ; DQ]
  else if existsb needs_quotes s then
    [DQ] ++ concat ((fun c => if (c =c DQ) || (c =c "\") then ["\"%char; c] else [c]) <$> s) ++ [DQ]
  else s.

(** ** Status responses (client/reader.go) *)

(** [text[1:endBracket]] of a text that starts with a response code, and what
    follows the bracket. *)
Definition bracketed (text : bytes) : option (bytes * bytes) :=
  if HasPrefix text "[" then
    match IndexByte text "]" with
    | Some i => Some (take (i - 1) (drop 1 text), drop (S i) text)
    | None => None
    end
  else None.

Definition parseStatusResponse (s : bytes) : bytes * bytes * bytes :=
  match IndexByte s " " with
  | None => (s, [], [])
  | Some i =>
    let status := take i s in
    let rest := drop (S i) s in
    match bracketed rest with
    | Some (code, after) => (status, code, drop 1 after)
    | None => (status, [], rest)
    end
  end.

(** ** LIST responses (client/mailbox.go) *)

(** The end of a quoted string: the bytes up to the quote that is not behind a
    backslash, the escapes kept, and what follows the quote. *)
Fixpoint quoted_end (acc s : bytes) : option (bytes * bytes) :=
  match s with
  | [] => None
  | c :: s' =>
    match s' with
    | d :: s'' =>
      if c =c "\" then quoted_end (acc ++ [c; d]) s''
      else if c =c DQ then Some (acc, s')
      else quoted_end (acc ++ [c]) s'
    | [] => if c =c DQ then Some (acc, []) else None
    end
  end.

Definition parseMailboxName (line : bytes) : bytes * bytes :=
  if HasPrefix line [DQ] then
    match quoted_end [] (drop 1 line) with
    | Some (name, rest) => (name, rest)
    | None => (Trim1 line DQ, [])
    end
  else
    match IndexByte line " " with
    | None => (line, [])
    | Some i => (take i line, drop i line)
    end.

Definition readQuotedOrAtom (s : bytes) : bytes * bytes :=
  match s with
  | [] => ([], [])
  | c :: t =>
    if c =c DQ then
      match quoted_end [] t with
      | Some (v, rest) => (v, rest)
      | None => (t, [])
      end
    else
      let atom b := negb (b =c " ") && negb (b =c "(") && negb (b =c ")") in
      (take_while atom s, drop_while atom s)
  end.

(** The bytes up to the parenthesis that closes the [depth] ones open, and what
    follows it. *)
Fixpoint close_paren (depth : Z) (acc s : bytes) : option (bytes * bytes) :=
  match s with
  | [] => None
  | c :: s' =>
    if c =c "(" then close_paren (depth + 1) (acc ++ [c]) s'
    else if c =c ")" then
      if depth - 1 =? 0 then Some (acc, s') else close_paren (depth - 1) (acc ++ [c]) s'
    else close_paren depth (acc ++ [c]) s'
  end.

Definition extractParenthesized (s : bytes) : bytes * bytes :=
  if HasPrefix s "(" then
    match close_paren 1 [] (drop 1 s) with
    | Some (inner, rest) => (inner, rest)
    | None => (drop 1 s, [])
    end
  else ([], s).

(** The list of a CHILDINFO item; a value that takes no byte repeats for ever. *)
Fixpoint childinfo_loop (fuel : nat) (acc : list bytes) (s : bytes) : res (list bytes) :=
  let s := TrimLeftSP s in
  if s =s [] then Ok acc
  else
    match fuel with
    | O => Hang
    | S f => let '(val, r) := readQuotedOrAtom s in childinfo_loop f (acc ++ [val]) r
    end.

(** [data.Metadata[key] = val], the entries of the map in the order of their
    first assignment. *)
Fixpoint set_entry (k v : bytes) (md : list (bytes * bytes)) : list (bytes * bytes) :=
  match md with
  | [] => [(k, v)]
  | (k', v') :: md => if k =s k' then (k, v) :: md else (k', v') :: set_entry k v md
  end.
Fixpoint metadata_loop (fuel : nat) (md : list (bytes * bytes)) (s : bytes) : res (list (bytes * bytes)) :=
  let s := TrimLeftSP s in
  if s =s [] then Ok md
  else
    match fuel with
    | O => Hang
    | S f =>
      let '(key, r) := readQuotedOrAtom s in
      let '(val, r2) := readQuotedOrAtom (TrimLeftSP r) in
      metadata_loop f (set_entry key val md) r2
    end.

Definition set_childinfo (l : list bytes) (d : ListData) : ListData :=
  mkListData (ld_Attrs d) (ld_Delim d) (ld_Mailbox d) (ld_OldName d) l (ld_Status d) (ld_MyRights d)
    (ld_Metadata d).
Definition set_oldname (n : bytes) (d : ListData) : ListData :=
  mkListData (ld_Attrs d) (ld_Delim d) (ld_Mailbox d) n (ld_ChildInfo d) (ld_Status d) (ld_MyRights d)
    (ld_Metadata d).
Definition set_myrights (r : bytes) (d : ListData) : ListData :=
  mkListData (ld_Attrs d) (ld_Delim d) (ld_Mailbox d) (ld_OldName d) (ld_ChildInfo d) (ld_Status d) r
    (ld_Metadata d).
Definition set_metadata (md : list (bytes * bytes)) (d : ListData) : ListData :=
  mkListData (ld_Attrs d) (ld_Delim d) (ld_Mailbox d) (ld_OldName d) (ld_ChildInfo d) (ld_Status d)
    (ld_MyRights d) (Some md).
Definition set_status (st : StatusData) (d : ListData) : ListData :=
  mkListData (ld_Attrs d) (ld_Delim d) (ld_Mailbox d) (ld_OldName d) (ld_ChildInfo d) (Some st)
    (ld_MyRights d) (ld_Metadata d).

Section Parsers.
Context {U : Unicode}.

(** One key and its value: the data with them, and what follows. *)
Definition extended_item (key inner : bytes) (data : ListData) : res (ListData * bytes) :=
  if key =s "CHILDINFO" then
    if HasPrefix inner "(" then
      let '(listStr, rest2) := extractParenthesized inner in
      l ← childinfo_loop (length listStr) (ld_ChildInfo data) listStr;
      mret (set_childinfo l data, TrimLeftSP rest2)
    else mret (data, inner)
  else if key =s "OLDNAME" then
    if HasPrefix inner "(" then
      let '(listStr, rest2) := extractParenthesized inner in
      mret (set_oldname (readQuotedOrAtom (TrimSpace listStr)).1 data, TrimLeftSP rest2)
    else mret (data, inner)
  else if key =s "MYRIGHTS" then
    let '(val, rest2) := readQuotedOrAtom inner in
    mret (set_myrights val data, TrimLeftSP rest2)
  else if key =s "METADATA" then
    if HasPrefix inner "(" then
      let '(listStr, rest2) := extractParenthesized inner in
      md ← metadata_loop (length listStr) [] listStr;
      mret (set_metadata md data, TrimLeftSP rest2)
    else mret (data, inner)
  else mret (data, inner).

Fixpoint extended_loop (fuel : nat) (inner : bytes) (data : ListData) : res ListData :=
  let inner := TrimLeftSP inner in
  if inner =s [] then Ok data
  else
    match fuel with
    | O => Hang
    | S f =>
      let '(key, rest) := readQuotedOrAtom inner in
      '(data, inner) ← extended_item (ToUpper key) (TrimLeftSP rest) data;
      extended_loop f inner data
    end.

Definition parseExtendedData (s : bytes) (data : ListData) : res ListData :=
  if HasPrefix s "(" then
    match close_paren 1 [] (drop 1 s) with
    | Some (inner, _) => extended_loop (length inner) inner data
    | None => Ok data
    end
  else Ok data.

Definition parse_attrs (line : bytes) : option (list bytes * bytes) :=
  if HasPrefix line "(" then
    match IndexByte line ")" with
    | None => None
    | Some i => Some (Fields (take (i - 1) (drop 1 line)), TrimLeftSP (drop (S i) line))
    end
  else Some ([], line).
Definition parse_delim (line : bytes) : Z * bytes :=
  if HasPrefix line "NIL" then (0, TrimLeftSP (drop 3 line))
  else
    match line with
    | q :: d :: _ :: rest => if q =c DQ then (bval d, TrimLeftSP rest) else (0, line)
    | _ => (0, line)
    end.
Definition parseListResponse (line : bytes) : res (option ListData) :=
  match parse_attrs line with
  | None => Ok None
  | Some (attrs, line) =>
    let '(delim, line) := parse_delim line in
    let '(mailbox, rest) := parseMailboxName line in
    let rest := TrimLeftSP rest in
    let data := list_data attrs delim mailbox in
    if HasPrefix rest "(" then Some <$> parseExtendedData rest data else Ok (Some data)
  end.

(** ** STATUS responses *)
Definition status_value (data : StatusData) (name : bytes) (val : Z) : StatusData :=
  let 'mkStatusData b m n v u r z a d h i := data in
  if name =s "MESSAGES" then mkStatusData b (Some (u32 val)) n v u r z a d h i
  else if name =s "UIDNEXT" then mkStatusData b m (Some (u32 val)) v u r z a d h i
  else if name =s "UIDVALIDITY" then mkStatusData b m n (Some (u32 val)) u r z a d h i
  else if name =s "UNSEEN" then mkStatusData b m n v (Some (u32 val)) r z a d h i
  else if name =s "RECENT" then mkStatusData b m n v u (Some (u32 val)) z a d h i
  else if name =s "SIZE" then mkStatusData b m n v u r (Some (i64 val)) a d h i
  else if name =s "HIGHESTMODSEQ" then mkStatusData b m n v u r z a d (Some val) i
  else data.
Fixpoint status_pairs (data : StatusData) (parts : list bytes) : StatusData :=
  match parts with
  | name :: val :: rest =>
    status_pairs match ParseUint val 64 with
                 | Ok n => status_value data (ToUpper name) n
                 | _ => data
                 end rest
  | _ => data
  end.
Definition status_data (mailbox : bytes) : StatusData :=
  mkStatusData mailbox None None None None None None None None None [].
Definition parseStatusResponse2 (line : bytes) : StatusData :=
  match IndexByte line " " with
  | None => status_data []
  | Some i =>
    let rest := TrimLeftSP (drop (S i) line) in
    let rest := if HasPrefix rest "(" then TrimSuffix (TrimPrefix rest "(") ")" else rest in
    status_pairs (status_data (Trim1 (take i line) DQ)) (Fields rest)
  end.

Definition buildStatusItems (opts : option StatusOptions) : list bytes :=
  let usual := ["MESSAGES" : bytes; "UIDNEXT" : bytes; "UIDVALIDITY" : bytes; "UNSEEN" : bytes] in
  match opts with
  | None => usual
  | Some o =>
    let item (b : bool) (name : bytes) : list bytes := if b then [name] else [] in
    match item (st_NumMessages o) "MESSAGES" ++ item (st_UIDNext o) "UIDNEXT"
          ++ item (st_UIDValidity o) "UIDVALIDITY" ++ item (st_NumUnseen o) "UNSEEN"
          ++ item (st_NumRecent o) "RECENT" ++ item (st_Size o) "SIZE"
          ++ item (st_HighestModSeq o) "HIGHESTMODSEQ" with
    | [] => usual
    | items => items
    end
  end.

(** ** SEARCH, COPYUID and APPENDUID (client/message.go, client/mailbox.go) *)
Definition numbers (fields : list bytes) : list Z :=
  omap (fun f => match ParseUint f 32 with Ok n => Some n | _ => None end) fields.
Definition with_prefix (p : bytes) (lines : list bytes) : list bytes :=
  omap (fun line => if HasPrefix line p then Some (drop (length p) line) else None) lines.
Definition parseSearchResults (lines : list bytes) : list Z :=
  concat ((fun l => numbers (Fields l)) <$> with_prefix "SEARCH " lines).

Definition copy_data0 : CopyData := mkCopyData 0 (mkUIDSet []) (mkUIDSet []).
Definition uid_or (bits : Z) (old : Z) (s : bytes) : Z := match ParseUint s bits with Ok n => n | _ => old end.
Definition set_or (old : UIDSet) (s : bytes) : UIDSet := match ParseUIDSet s with Ok set => set | _ => old end.
Definition parseCopyUID (s : bytes) (data : CopyData) : CopyData :=
  match Fields s with
  | v :: src :: dst :: _ =>
    mkCopyData (uid_or 32 (cd_UIDValidity data) v) (set_or (cd_SourceUIDs data) src)
      (set_or (cd_DestUIDs data) dst)
  | _ => data
  end.
Definition copy_result (code : bytes) : CopyData :=
  if HasPrefix code "COPYUID " then parseCopyUID (drop 8 code) copy_data0 else copy_data0.
Definition append_result (code : bytes) : AppendData :=
  let none := mkAppendData 0 0 in
  if HasPrefix code "APPENDUID " then
    match Fields (drop 10 code) with
    | v :: uid :: _ => mkAppendData (uid_or 32 0 v) (uid_or 32 0 uid)
    | _ => none
    end
  else none.
End Parsers.
