(* ===== verification/Client.v ===== *)
(** * The client (client/client.go, client/command.go, client/reader.go,
      client/auth.go, client/mailbox.go, client/message.go, client/idle.go)

    The state of a client, the reader that turns lines of the server into
    changes of that state, and the commands.  A command writes its line and
    waits; while it waits the reader works on what the server sends.  The
    interleavings of several commands are in ClientConc. *)

From S2P Require Import Prelude Utf8 GoStrings GoTime NumSet Imap Decoder Encoder ConnState.
From S2P Require Import Utf7 Base64 Auth ClientParse.

(** ** State *)

(** [cr_err] is set when the command ended without a response. *)
Record commandResult := mkResult {
  cr_status : bytes;
  cr_code : bytes;
  cr_text : bytes;
  cr_err : option error;
}.
Definition failed (err : error) : commandResult := mkResult [] [] [] (Some err).

(** The connection: what the server sends, what the client has written, and the
    error further writes get. *)
Record Wire := mkWire { w_in : bytes; w_out : bytes; w_err : option error }.

(** The fields under [mu]. *)
Record View := mkView {
  v_state : ConnState;
  v_caps : list bytes;
  v_mailboxName : bytes;
  v_messages : Z;
  v_recent : Z;
  v_uidValidity : Z;
  v_uidNext : Z;
  v_unseen : Z;
  v_readOnly : bool;
}.

(** A call of the handler of unsolicited data. *)
Inductive unilateral := CallExists (n : Z) | CallRecent (n : Z) | CallExpunge (n : Z).
(** Which functions of the handler are set. *)
Record UnilateralDataHandler := mkHandler { uh_Expunge : bool; uh_Exists : bool; uh_Recent : bool }.

(** [cl_pending] holds the tags of [pendingCommands]; the channel of a command
    is named by its tag, [cl_done] holds the results not yet received.
    [cl_disconnect] is set once [disconnectOnce] has run. *)
Record Client := mkClient {
  cl_wire : Wire;
  cl_counter : Z;
  cl_pending : gset bytes;
  cl_done : gmap bytes commandResult;
  cl_view : View;
  cl_untagged : list bytes;
  cl_continuation : option (error + bytes);
  cl_closed : bool;
  cl_disconnect : option error;
  cl_calls : list unilateral;
}.

Definition on_wire (f : Wire -> Wire) (c : Client) : Client :=
  let 'mkClient w n p d v u k x e l := c in mkClient (f w) n p d v u k x e l.
Definition on_view (f : View -> View) (c : Client) : Client :=
  let 'mkClient w n p d v u k x e l := c in mkClient w n p d (f v) u k x e l.
Definition with_done (p : gset bytes) (d : gmap bytes commandResult) (c : Client) : Client :=
  let 'mkClient w n _ _ v u k x e l := c in mkClient w n p d v u k x e l.
Definition set_untagged (u : list bytes) (c : Client) : Client :=
  let 'mkClient w n p d v _ k x e l := c in mkClient w n p d v u k x e l.
Definition set_continuation (k : option (error + bytes)) (c : Client) : Client :=
  let 'mkClient w n p d v u _ x e l := c in mkClient w n p d v u k x e l.
Definition client_call (u : unilateral) (c : Client) : Client :=
  let 'mkClient w n p d v t k x e l := c in mkClient w n p d v t k x e (l ++ [u]).

Definition set_vstate (s : ConnState) (v : View) : View :=
  let 'mkView _ c b m r y n u o := v in mkView s c b m r y n u o.
Definition set_caps (c : list bytes) (v : View) : View :=
  let 'mkView s _ b m r y n u o := v in mkView s c b m r y n u o.
Definition set_box (b : bytes) (v : View) : View :=
  let 'mkView s c _ m r y n u o := v in mkView s c b m r y n u o.
Definition set_messages (m : Z) (v : View) : View :=
  let 'mkView s c b _ r y n u o := v in mkView s c b m r y n u o.
Definition set_recent (r : Z) (v : View) : View :=
  let 'mkView s c b m _ y n u o := v in mkView s c b m r y n u o.
Definition set_uidValidity (y : Z) (v : View) : View :=
  let 'mkView s c b m r _ n u o := v in mkView s c b m r y n u o.
Definition set_uidNext (n : Z) (v : View) : View :=
  let 'mkView s c b m r y _ u o := v in mkView s c b m r y n u o.
Definition set_unseen (u : Z) (v : View) : View :=
  let 'mkView s c b m r y n _ o := v in mkView s c b m r y n u o.
Definition set_readOnly (o : bool) (v : View) : View :=
  let 'mkView s c b m r y n u _ := v in mkView s c b m r y n u o.

(** ** Pending commands (client/command.go) *)
Definition tag_of (n : Z) : bytes := "A" ++ FormatInt n.
(** [tagGenerator.Next]: the counter is a 64-bit integer. *)
Definition Next (c : Client) : bytes * Client :=
  let 'mkClient w n p d v u k x e l := c in
  let n := i64 (n + 1) in (tag_of n, mkClient w n p d v u k x e l).
Definition Add (tag : bytes) (c : Client) : Client :=
  with_done ({[tag]} ∪ cl_pending c) (cl_done c) c.
Definition Complete (tag : bytes) (result : commandResult) (c : Client) : Client :=
  if bool_decide (tag ∈ cl_pending c)
  then with_done (cl_pending c ∖ {[tag]}) (<[tag := result]> (cl_done c)) c else c.
Definition CompleteAll (err : error) (c : Client) : Client :=
  with_done ∅ (gset_to_gmap (failed err) (cl_pending c) ∪ cl_done c) c.

(** ** The reader (client/reader.go, client/client.go) *)
Definition storeUntagged (line : bytes) (c : Client) : Client := set_untagged (cl_untagged c ++ [line]) c.

(** A full channel drops the continuation. *)
Definition offer_continuation (k : error + bytes) (c : Client) : Client :=
  match cl_continuation c with Some _ => c | None => set_continuation (Some k) c end.
Definition handleContinuation (line : bytes) : Client -> Client := offer_continuation (inr (drop 2 line)).

Definition handleDisconnect (err : error) (c : Client) : Client :=
  match cl_disconnect c with
  | Some _ => c
  | None =>
    let closed := Errorf [Txt "connection closed: "; Wrap err] in
    let 'mkClient w n p d v u k x _ l := offer_continuation (inl closed) (CompleteAll closed c) in
    mkClient w n p d v u k x (Some err) l
  end.

Section Client.
Context {U : Unicode} (handler : UnilateralDataHandler).

Definition handleCapability (line : bytes) : Client -> Client := on_view (set_caps (Fields line)).

Definition parse_into (arg : bytes) (set : Z -> View -> View) (c : Client) : Client :=
  match ParseUint arg 32 with Ok n => on_view (set n) c | _ => c end.
Definition handleResponseCode (code : bytes) (c : Client) : Client :=
  let '(name, arg) := match SplitN code " " 2 with
                      | [p] => (p, [])
                      | p :: q :: _ => (p, q)
                      | [] => ([], [])
                      end in
  let name := ToUpper name in
  if name =s "UIDVALIDITY" then parse_into arg set_uidValidity c
  else if name =s "UIDNEXT" then parse_into arg set_uidNext c
  else if name =s "UNSEEN" then parse_into arg set_unseen c
  else if name =s "PERMANENTFLAGS" then storeUntagged ("PERMANENTFLAGS " ++ arg) c
  else if name =s "CAPABILITY" then handleCapability arg c
  else if name =s "READ-ONLY" then on_view (set_readOnly true) c
  else if name =s "READ-WRITE" then on_view (set_readOnly false) c
  else c.
Definition handleStatusResponse (text : bytes) (c : Client) : Client :=
  match bracketed text with Some (code, _) => handleResponseCode code c | None => c end.

Definition processNumericResponse (num : Z) (rest : bytes) (c : Client) : Client :=
  let upper := ToUpper rest in
  let call (b : bool) (u : unilateral) (c : Client) := if b then client_call u c else c in
  if upper =s "EXISTS" then call (uh_Exists handler) (CallExists num) (on_view (set_messages num) c)
  else if upper =s "RECENT" then call (uh_Recent handler) (CallRecent num) (on_view (set_recent num) c)
  else if upper =s "EXPUNGE" then call (uh_Expunge handler) (CallExpunge num) c
  else if HasPrefix upper "FETCH " then storeUntagged ("FETCH " ++ FormatUint num ++ " " ++ drop 6 rest) c
  else storeUntagged (FormatUint num ++ " " ++ rest) c.

(** The responses with a name; the name is matched in any case. *)
Definition named_response (line : bytes) (c : Client) : Client :=
  let upperLine := ToUpper line in
  if HasPrefix upperLine "OK " then handleStatusResponse (drop 3 line) c
  else if HasPrefix upperLine "NO " then handleStatusResponse (drop 3 line) c
  else if HasPrefix upperLine "BAD " then handleStatusResponse (drop 4 line) c
  else if HasPrefix upperLine "BYE " then handleStatusResponse (drop 4 line) c
  else if HasPrefix upperLine "PREAUTH " then handleStatusResponse (drop 8 line) c
  else if HasPrefix upperLine "CAPABILITY " then handleCapability (drop 11 line) c
  else if HasPrefix upperLine "FLAGS " then storeUntagged ("FLAGS " ++ drop 6 line) c
  else if HasPrefix upperLine "LIST " then storeUntagged ("LIST " ++ drop 5 line) c
  else if HasPrefix upperLine "LSUB " then storeUntagged ("LIST " ++ drop 5 line) c
  else if HasPrefix upperLine "STATUS " then storeUntagged ("STATUS " ++ drop 7 line) c
  else if HasPrefix upperLine "SEARCH " || (upperLine =s "SEARCH") then storeUntagged ("SEARCH " ++ line) c
  else if HasPrefix upperLine "ESEARCH " then storeUntagged ("ESEARCH " ++ drop 8 line) c
  else if HasPrefix upperLine "NAMESPACE " then storeUntagged ("NAMESPACE " ++ drop 10 line) c
  else storeUntagged line c.

Definition processUntagged (line : bytes) (c : Client) : Client :=
  match IndexByte line " " with
  | Some (S i) =>
    match ParseUint (take (S i) line) 32 with
    | Ok num => processNumericResponse num (drop (S (S i)) line) c
    | _ => named_response line c
    end
  | _ => named_response line c
  end.

Definition processTagged (line : bytes) (c : Client) : Client :=
  match IndexByte line " " with
  | None => c
  | Some i =>
    let '(status, code, text) := parseStatusResponse (drop (S i) line) in
    Complete (take i line) (mkResult status code text None) c
  end.

(** The errors of malformed lines are only logged. *)
Definition processLine (line : bytes) (c : Client) : Client :=
  match line with
  | [] => c
  | b :: _ =>
    if b =c "+" then handleContinuation line c
    else if HasPrefix line "* " then processUntagged (drop 2 line) c
    else processTagged line c
  end.

Definition set_input (i : bytes) (w : Wire) : Wire := mkWire i (w_out w) (w_err w).
(** One round of [reader.run]; none once it has returned. *)
Definition reader_step (c : Client) : option Client :=
  match cl_disconnect c with
  | Some _ => None
  | None =>
    match ReadLine (w_in (cl_wire c)) with
    | (Ok line, rest) => Some (processLine line (on_wire (set_input rest) c))
    | (Err err, rest) =>
      let err := match err with EOF => ErrUnexpectedEOF | _ => err end in
      Some (handleDisconnect err (on_wire (set_input rest) c))
    | _ => None
    end
  end.

(** ** Waiting

    The reader runs until the channel has something.  Every round takes a byte
    of the input or ends the reader; a command that waits for a reader that has
    returned waits for ever. *)
Abbreviation Cl := (St Client).
Definition modify (f : Client -> Client) : Cl unit := fun c => (Ok tt, f c).

Fixpoint wait_loop {A} (fuel : nat) (poll : Client -> option (A * Client)) : Cl A := fun c =>
  match poll c with
  | Some (a, c) => (Ok a, c)
  | None =>
    match fuel with
    | O => (Hang, c)
    | S f => match reader_step c with
             | None => (Hang, c)
             | Some c => wait_loop f poll c
             end
    end
  end.
Definition wait {A} (poll : Client -> option (A * Client)) : Cl A := fun c =>
  wait_loop (length (w_in (cl_wire c)) + 1) poll c.

Definition poll_done (tag : bytes) (c : Client) : option (commandResult * Client) :=
  match cl_done c !! tag with
  | Some r => Some (r, with_done (cl_pending c) (delete tag (cl_done c)) c)
  | None => None
  end.
(** A [select] on the continuation and the result; when the connection ends
    both are there with the same error. *)
Definition poll_either (tag : bytes) (c : Client) : option ((error + bytes) + commandResult) * Client :=
  match cl_continuation c with
  | Some k => (Some (inl k), set_continuation None c)
  | None => match poll_done tag c with
            | Some (r, c) => (Some (inr r), c)
            | None => (None, c)
            end
  end.
Definition wait_either (tag : bytes) : Cl ((error + bytes) + commandResult) :=
  wait (fun c => let '(r, c) := poll_either tag c in (fun a => (a, c)) <$> r).

(** ** Executing commands (client/client.go) *)
Definition status_of (s : bytes) : StatusResponseType :=
  if s =s "OK" then StatusOK else if s =s "NO" then StatusNO else if s =s "BAD" then StatusBAD
  else if s =s "BYE" then StatusBYE else if s =s "PREAUTH" then StatusPREAUTH else StatusOther s.
Definition status_error (r : commandResult) : error :=
  IMAPError (status_of (cr_status r)) (cr_code r) None (cr_text r).
Definition commandResultError (r : commandResult) : option error :=
  match cr_err r with
  | Some e => Some e
  | None => if cr_status r =s "OK" then None else Some (status_error r)
  end.

(** [encoder.RawString] and [Flush]. *)
Definition send (s : bytes) : Cl unit := fun c =>
  match w_err (cl_wire c) with
  | Some e => (Err e, c)
  | None => (Ok tt, on_wire (fun w => mkWire (w_in w) (w_out w ++ s) (w_err w)) c)
  end.
(** A command line; a failed write completes the command. *)
Definition send_command (tag line : bytes) : Cl unit := fun c =>
  match send line c with
  | (Err e, c) => (Err e, Complete tag (failed e) c)
  | r => r
  end.

Definition new_command : Cl bytes := fun c => let '(tag, c) := Next c in (Ok tag, Add tag c).
Definition command_line (tag name : bytes) (args : list bytes) : bytes :=
  tag ++ " " ++ name ++ concat ((fun a => " "%char :: a) <$> args) ++ crlf.

Definition execute (name : bytes) (args : list bytes) : Cl commandResult :=
  tag ← new_command;
  _ ← send_command tag (command_line tag name args);
  result ← wait (poll_done tag);
  match cr_err result with Some e => st_fail e | None => mret result end.

Definition check_result (result : commandResult) : Cl unit :=
  match commandResultError result with Some e => st_fail e | None => mret tt end.
Definition executeCheck (name : bytes) (args : list bytes) : Cl unit :=
  result ← execute name args; check_result result.
(** [if result.status != "OK"] after [execute] *)
Definition execute_ok (name : bytes) (args : list bytes) : Cl commandResult :=
  result ← execute name args;
  if cr_status result =s "OK" then mret result else st_fail (status_error result).

Definition collectUntagged : Cl (list bytes) := fun c => (Ok (cl_untagged c), set_untagged [] c).

Definition waitForContinuation (tag : bytes) : Cl bytes :=
  r ← wait_either tag;
  match r with
  | inl (inl e) => st_fail e
  | inl (inr text) => mret text
  | inr result =>
    match commandResultError result with
    | Some e => st_fail e
    | None => st_fail (emsg "missing continuation request")
    end
  end.

Definition HasCap (cap : bytes) (c : Client) : bool :=
  existsb (fun s => ToUpper s =s ToUpper cap) (v_caps (cl_view c)).
Definition Caps (c : Client) : list bytes := v_caps (cl_view c).
Definition client_State (c : Client) : ConnState := v_state (cl_view c).
Definition DisconnectErr (c : Client) : option error := cl_disconnect c.

(** client/capability.go *)
Definition SupportsIMAP4rev2 : Client -> bool := HasCap "IMAP4rev2".
Definition SupportsIdle : Client -> bool := HasCap "IDLE".
Definition SupportsMove : Client -> bool := HasCap "MOVE".
Definition SupportsLiteralPlus : Client -> bool := HasCap "LITERAL+".
Definition SupportsUIDPlus : Client -> bool := HasCap "UIDPLUS".
Definition SupportsCondStore : Client -> bool := HasCap "CONDSTORE".
Definition SupportsQResync : Client -> bool := HasCap "QRESYNC".
Definition SupportsNamespace : Client -> bool := HasCap "NAMESPACE".
Definition SupportsSort : Client -> bool := HasCap "SORT".
Definition SupportsID : Client -> bool := HasCap "ID".
Definition SupportsEnable : Client -> bool := HasCap "ENABLE".
Definition SupportsStartTLS : Client -> bool := HasCap "STARTTLS".

(** Closing makes every later write fail. *)
Definition Close : Cl unit := fun c =>
  if cl_closed c then (Ok tt, c)
  else
    let 'mkClient w n p d v u k _ e l := c in
    let w := mkWire (w_in w) (w_out w) (Some (emsg "use of closed network connection")) in
    (Ok tt, handleDisconnect (emsg "connection closed") (mkClient w n p d v u k true e l)).

Definition view0 : View := mkView ConnStateNotAuthenticated [] [] 0 0 0 0 0 false.
Definition greeting_state (line : bytes) : option ConnState :=
  if HasPrefix line "* OK" then Some ConnStateNotAuthenticated
  else if HasPrefix line "* PREAUTH" then Some ConnStateAuthenticated else None.
Definition greeting_caps (line : bytes) : list bytes :=
  match Index line "[CAPABILITY " with
  | Some i => match IndexByte (drop i line) "]" with
              | Some e => Fields (take (e - 12) (drop (i + 12) line))
              | None => []
              end
  | None => []
  end.
Definition New (input : bytes) : res Client :=
  match ReadLine input with
  | (Ok line, rest) =>
    match greeting_state line with
    | Some s =>
      Ok (mkClient (mkWire rest [] None) 0 ∅ ∅ (set_caps (greeting_caps line) (set_vstate s view0))
            [] None false None [])
    | None =>
      if HasPrefix line "* BYE" then Err (Errorf [Txt "server rejected connection: "; Txt line])
      else Err (Errorf [Txt "unexpected greeting: "; Txt line])
    end
  | (Err e, _) => Err (Errorf [Txt "reading greeting: "; Wrap e])
  | (Panic, _) => Panic
  | (Hang, _) => Hang
  end.

(** ** Authentication (client/auth.go) *)
Definition Login (username password : bytes) : Cl unit :=
  result ← execute "LOGIN" [quoteArg username; quoteArg password];
  _ ← check_result result;
  modify (on_view (set_vstate ConnStateAuthenticated)).

(** The loop of challenges; every round takes a continuation the server sent. *)
Fixpoint sasl_loop {M} {CM : ClientMechanism M} (fuel : nat) (tag : bytes) (m : M) : Cl M :=
  match fuel with
  | O => st_hang
  | S f =>
    r ← wait_either tag;
    match r with
    | inl (inl e) => st_fail e
    | inl (inr text) =>
      match std_DecodeString text with
      | inl e => _ ← attempt (send ("*" ++ crlf)); st_fail (Errorf [Txt "decoding challenge: "; Wrap e])
      | inr challenge =>
        match cl_Next challenge m with
        | (Ok response, m) => _ ← send (std_EncodeToString response ++ crlf); sasl_loop f tag m
        | (Err e, _) => _ ← attempt (send ("*" ++ crlf)); st_fail (Errorf [Txt "SASL response: "; Wrap e])
        | (Panic, _) => st_panic
        | (Hang, _) => st_hang
        end
      end
    | inr result =>
      _ ← check_result result;
      _ ← modify (on_view (set_vstate ConnStateAuthenticated));
      mret m
    end
  end.

Definition Authenticate {M} {CM : ClientMechanism M} (m : M) : Cl M :=
  tag ← new_command;
  match cl_Start m with
  | Ok ir =>
    c ← st_get;
    let now := HasCap "SASL-IR" c in
    let arg := match ir with Some ir => if now then [std_EncodeToString ir] else [] | None => [] end in
    _ ← send_command tag (command_line tag ("AUTHENTICATE " ++ cl_Name) arg);
    _ ← (match ir with
         | Some ir =>
           if now then mret tt
           else _ ← waitForContinuation tag; send (std_EncodeToString ir ++ crlf)
         | None => mret tt
         end);
    c ← st_get;
    sasl_loop (length (w_in (cl_wire c)) + 2) tag m
  | Err e => st_fail (Errorf [Txt "SASL start: "; Wrap e])
  | Panic => st_panic
  | Hang => st_hang
  end.

Definition Logout : Cl unit :=
  r ← attempt (executeCheck "LOGOUT" []);
  _ ← modify (on_view (set_vstate ConnStateLogout));
  _ ← Close;
  match r with inl e => st_fail e | inr _ => mret tt end.

(** ** Mailboxes (client/mailbox.go) *)
Definition Select (mailbox : bytes) (opts : option SelectOptions) : Cl SelectData :=
  let cmd : bytes := match opts with
                     | Some o => if sl_ReadOnly o then "EXAMINE" else "SELECT"
                     | None => "SELECT"
                     end in
  _ ← collectUntagged;
  _ ← execute_ok cmd [quoteArg mailbox];
  _ ← modify (on_view (fun v => set_box mailbox (set_vstate ConnStateSelected v)));
  c ← st_get;
  let v := cl_view c in
  mret (mkSelectData [] [] (v_messages v) (v_recent v) (v_uidNext v) (v_uidValidity v) (v_unseen v) 0
          (v_readOnly v) [] None).
Definition Examine (mailbox : bytes) : Cl SelectData := Select mailbox (Some (select_options true)).

Definition Create (mailbox : bytes) : Cl unit := executeCheck "CREATE" [quoteArg mailbox].
Definition CreateWithOptions (mailbox : bytes) (specialUse : bytes) : Cl unit :=
  executeCheck "CREATE"
    (quoteArg mailbox :: if specialUse =s [] then [] else ["(USE (" ++ specialUse ++ "))"]).
Definition Delete (mailbox : bytes) : Cl unit := executeCheck "DELETE" [quoteArg mailbox].
Definition Rename (oldName newName : bytes) : Cl unit :=
  executeCheck "RENAME" [quoteArg oldName; quoteArg newName].
Definition Subscribe (mailbox : bytes) : Cl unit := executeCheck "SUBSCRIBE" [quoteArg mailbox].
Definition Unsubscribe (mailbox : bytes) : Cl unit := executeCheck "UNSUBSCRIBE" [quoteArg mailbox].

Definition of_res {A} (r : res A) : Cl A := fun c => (r, c).
(** The LIST lines; one without the closing parenthesis of its attributes is
    left out. *)
Fixpoint parse_lists (lines : list bytes) : res (list ListData) :=
  match lines with
  | [] => Ok []
  | l :: rest =>
    d ← parseListResponse l;
    ds ← parse_lists rest;
    mret match d with Some d => d :: ds | None => ds end
  end.
Definition ListMailboxes (ref pattern : bytes) : Cl (list ListData) :=
  _ ← collectUntagged;
  _ ← execute_ok "LIST" [quoteArg ref; quoteArg pattern];
  untagged ← collectUntagged;
  of_res (parse_lists (with_prefix "LIST " untagged)).

Definition parens (items : list bytes) : bytes := "(" ++ Join items " " ++ ")".
Definition opt (b : bool) (name : bytes) : list bytes := if b then [name] else [].
Definition hasSelectionOpts (o : ListOptions) : bool :=
  lo_SelectSubscribed o || lo_SelectRemote o || lo_SelectRecursiveMatch o || lo_SelectSpecialUse o.
Definition hasReturnOpts (o : ListOptions) : bool :=
  lo_ReturnSubscribed o || lo_ReturnChildren o || lo_ReturnSpecialUse o || lo_ReturnMyRights o
  || match lo_ReturnStatus o with Some _ => true | None => false end
  || match lo_ReturnMetadata o with Some _ => true | None => false end.
Definition metadata_option (m : ListReturnMetadata) : bytes :=
  "METADATA " ++ parens ((quoteArg <$> rm_Options m)
    ++ (if 0 <? rm_MaxSize m then ["MAXSIZE " ++ FormatInt (rm_MaxSize m)] else [])
    ++ (if rm_Depth m =s [] then [] else ["DEPTH " ++ rm_Depth m])).
Definition list_args (ref : bytes) (patterns : list bytes) (options : option ListOptions)
    : list bytes :=
  (match options with
   | Some o =>
     if hasSelectionOpts o
     then [parens (opt (lo_SelectSubscribed o) "SUBSCRIBED" ++ opt (lo_SelectRemote o) "REMOTE"
                   ++ opt (lo_SelectRecursiveMatch o) "RECURSIVEMATCH"
                   ++ opt (lo_SelectSpecialUse o) "SPECIAL-USE")]
     else []
   | None => []
   end)
  ++ [quoteArg ref]
  ++ [match patterns with [p] => quoteArg p | _ => parens (quoteArg <$> patterns) end]
  ++ match options with
     | Some o =>
       if hasReturnOpts o
       then ["RETURN" : bytes;
             parens (opt (lo_ReturnSubscribed o) "SUBSCRIBED" ++ opt (lo_ReturnChildren o) "CHILDREN"
                     ++ opt (lo_ReturnSpecialUse o) "SPECIAL-USE" ++ opt (lo_ReturnMyRights o) "MYRIGHTS"
                     ++ match lo_ReturnStatus o with
                        | Some s => ["STATUS " ++ parens (buildStatusItems (Some s))]
                        | None => []
                        end
                     ++ match lo_ReturnMetadata o with Some m => [metadata_option m] | None => [] end)]
       else []
     | None => []
     end.

(** [mailboxMap] holds the last entry of each name; a status is written to it. *)
Fixpoint attach_status (st : StatusData) (l : list ListData) : list ListData :=
  match l with
  | [] => []
  | d :: l =>
    if (ld_Mailbox d =s sa_Mailbox st) && negb (existsb (fun d' => ld_Mailbox d' =s sa_Mailbox st) l)
    then set_status st d :: l else d :: attach_status st l
  end.
Definition ListMailboxesExtended (ref : bytes) (patterns : list bytes)
    (options : option ListOptions) : Cl (list ListData) :=
  _ ← collectUntagged;
  _ ← execute_ok "LIST" (list_args ref patterns options);
  untagged ← collectUntagged;
  mailboxes ← of_res (parse_lists (with_prefix "LIST " untagged));
  mret (foldl (fun l line => attach_status (parseStatusResponse2 line) l) mailboxes
          (with_prefix "STATUS " untagged)).

Definition Status (mailbox : bytes) (opts : option StatusOptions) : Cl StatusData :=
  _ ← collectUntagged;
  _ ← execute_ok "STATUS" [quoteArg mailbox; parens (buildStatusItems opts)];
  untagged ← collectUntagged;
  mret match with_prefix "STATUS " untagged with
       | line :: _ => parseStatusResponse2 line
       | [] => status_data mailbox
       end.

(** [UNSELECT] and [CLOSE]. *)
Definition leave_mailbox (name : bytes) : Cl unit :=
  _ ← executeCheck name [];
  modify (on_view (fun v => set_box [] (set_vstate ConnStateAuthenticated v))).
Definition Unselect : Cl unit := leave_mailbox "UNSELECT".
Definition CloseMailbox : Cl unit := leave_mailbox "CLOSE".

Definition Noop : Cl unit := executeCheck "NOOP" [].
Definition Capability : Cl (list bytes) :=
  _ ← collectUntagged;
  _ ← executeCheck "CAPABILITY" [];
  c ← st_get; mret (Caps c).
Definition Enable (caps : list bytes) : Cl unit :=
  match caps with [] => mret tt | _ => executeCheck "ENABLE" [Join caps " "] end.

(** The message is written to the connection past the encoder. *)
Definition Append (mailbox : bytes) (flags : list bytes) (literal : bytes) : Cl AppendData :=
  tag ← new_command;
  let args := quoteArg mailbox :: (match flags with [] => [] | _ => [parens flags] end)
              ++ ["{" ++ Itoa (len literal) ++ "}"] in
  _ ← send_command tag (command_line tag "APPEND" args);
  _ ← waitForContinuation tag;
  _ ← send literal;
  _ ← send crlf;
  result ← wait (poll_done tag);
  _ ← check_result result;
  mret (append_result (cr_code result)).

(** ** Messages (client/message.go) *)
Definition fetch_as (name set items : bytes) : Cl (list bytes) :=
  _ ← collectUntagged;
  _ ← execute_ok name [set; items];
  untagged ← collectUntagged;
  mret (filter (fun line => HasPrefix line "FETCH " = true) untagged).
Definition Fetch : bytes -> bytes -> Cl (list bytes) := fetch_as "FETCH".
Definition UIDFetch : bytes -> bytes -> Cl (list bytes) := fetch_as "UID FETCH".

Definition StoreAction_String (a : StoreAction) : bytes :=
  match a with StoreFlagsSet => "FLAGS" | StoreFlagsAdd => "+FLAGS" | StoreFlagsDel => "-FLAGS" end.
Definition store_as (name set : bytes) (action : StoreAction) (flags : list bytes) (silent : bool) : Cl unit :=
  executeCheck name [set; StoreAction_String action ++ (if silent then ".SILENT" else []); parens flags].
Definition Store : bytes -> StoreAction -> list bytes -> bool -> Cl unit := store_as "STORE".
Definition UIDStore : bytes -> StoreAction -> list bytes -> bool -> Cl unit := store_as "UID STORE".

Definition copy_as (name set dest : bytes) : Cl CopyData :=
  result ← execute_ok name [set; quoteArg dest];
  mret (copy_result (cr_code result)).
Definition Copy : bytes -> bytes -> Cl CopyData := copy_as "COPY".
Definition UIDCopy : bytes -> bytes -> Cl CopyData := copy_as "UID COPY".
Definition Move : bytes -> bytes -> Cl CopyData := copy_as "MOVE".

Definition Expunge : Cl unit := executeCheck "EXPUNGE" [].
Definition UIDExpunge (uidSet : bytes) : Cl unit := executeCheck "UID EXPUNGE" [uidSet].

Definition search_as (name criteria : bytes) : Cl (list Z) :=
  _ ← collectUntagged;
  _ ← execute_ok name [criteria];
  untagged ← collectUntagged;
  mret (parseSearchResults untagged).
Definition Search : bytes -> Cl (list Z) := search_as "SEARCH".
Definition UIDSearch : bytes -> Cl (list Z) := search_as "UID SEARCH".
Definition Sort (criteria : bytes) : Cl (list Z) :=
  _ ← collectUntagged;
  _ ← execute_ok "SORT" [criteria];
  untagged ← collectUntagged;
  mret (concat ((fun l => numbers (Fields l)) <$> with_prefix "SORT " untagged)).
Definition Thread (algorithm criteria : bytes) : Cl (list bytes) :=
  _ ← collectUntagged;
  _ ← execute_ok "THREAD" [algorithm; criteria];
  untagged ← collectUntagged;
  mret (with_prefix "THREAD " untagged).
(** The entries of the map in the order Go ranges over them; what the server
    answers is dropped. *)
Definition ID (clientID : option (list (bytes * bytes))) : Cl unit :=
  _ ← collectUntagged;
  let args := match clientID with
              | None => "NIL" : bytes
              | Some l => parens ((fun '(k, v) => Quote k ++ " " ++ Quote v) <$> l)
              end in
  _ ← execute_ok "ID" [args];
  _ ← collectUntagged; mret tt.

(** ** IDLE (client/idle.go) *)
Definition Idle : Cl bytes :=
  tag ← new_command;
  _ ← send_command tag (command_line tag "IDLE" []);
  _ ← waitForContinuation tag;
  mret tag.
Definition Idle_Wait (tag : bytes) : Cl unit := result ← wait (poll_done tag); check_result result.
Definition Idle_Done (tag : bytes) : Cl unit := _ ← send ("DONE" ++ crlf); Idle_Wait tag.

End Client.
