(* ===== verification/ClientFacts.v ===== *)
(** * How a command ends

    What a line of the server does to a client, and what a command returns
    when the server answers it with untagged lines and one tagged reply. *)

From S2P Require Import Prelude Utf8 GoStrings GoTime NumSet Imap Decoder Encoder ConnState.
From S2P Require Import ClientParse Client.

(** ** Lines *)
Lemma ReadLine_crlf l rest : LF ∉ l -> ReadLine (l ++ crlf ++ rest) = (Ok l, rest).
Proof.
  intros Hl. unfold ReadLine.
  assert (forallb (fun c => negb (c =c LF)) (l ++ [CR]) = true) as HF.
  { apply forallb_Forall, list.Forall_forall. intros c [Hc| ->%list_elem_of_singleton]%elem_of_app; [|done].
    apply negb_true_iff, beqb_false. by intros ->. }
  replace (l ++ crlf ++ rest) with ((l ++ [CR]) ++ LF :: rest) by (by rewrite <- app_assoc).
  rewrite take_while_app, drop_while_app by done.
  assert (TrimSuffix (l ++ [CR]) [CR] = l) as ->.
  { unfold TrimSuffix, HasSuffix. rewrite length_app. cbn [length].
    rewrite bool_decide_true by lia. replace (length l + 1 - 1)%nat with (length l) by lia.
    rewrite drop_app_length, bool_decide_true by done. cbn [andb]. by rewrite take_app_length. }
  by destruct l.
Qed.

Lemma graphic_not c s : forallb graphic s = true -> graphic c = false -> c ∉ s.
Proof. rewrite forallb_Forall, list.Forall_forall. intros H Hc Hin. specialize (H c Hin). congruence. Qed.
Lemma digits_graphic s : forallb is_digit s = true -> forallb graphic s = true.
Proof.
  rewrite !forallb_Forall. intros H. eapply list.Forall_impl; [exact H|]. intros c. apply is_digit_graphic.
Qed.
Lemma tag_graphic n : forallb graphic (tag_of n) = true.
Proof.
  unfold tag_of, FormatInt. change (forallb graphic ("A" ++ ?x)) with (forallb graphic x).
  destruct (Z.ltb_spec n 0); [|apply FormatUint_graphic; lia].
  change (forallb graphic (FormatUint (- n)) = true). apply FormatUint_graphic. lia.
Qed.

(** ** What a line changes

    An untagged line changes the mailbox data and adds to the lines kept for
    the command and to the calls of the handler, whatever the client is in. *)
Definition patched (f : View -> View) (u : list bytes) (k : list unilateral) (c : Client) : Client :=
  let 'mkClient w n p d v t q x e l := c in mkClient w n p d (f v) (t ++ u) q x e (l ++ k).

Section Facts.
Context {U : Unicode} (handler : UnilateralDataHandler).

Definition patch (g : Client -> Client) : Prop := exists f u k, forall c, g c = patched f u k c.

Lemma patch_id : patch (fun c => c).
Proof. exists id, [], []. intros []. unfold patched. by rewrite !app_nil_r. Qed.
Lemma patch_view f : patch (on_view f).
Proof. exists f, [], []. intros []. unfold patched. by rewrite !app_nil_r. Qed.
Lemma patch_store l : patch (storeUntagged l).
Proof. exists id, [l], []. intros []. unfold patched. by rewrite !app_nil_r. Qed.
Lemma patch_call (b : bool) u g : patch g -> patch (fun c => if b then client_call u (g c) else g c).
Proof.
  intros (f & t & k & Hg). destruct b; [|by exists f, t, k].
  exists f, t, (k ++ [u]). intros c. rewrite Hg. destruct c. cbn. by rewrite app_assoc.
Qed.
Lemma patch_into a set : patch (parse_into a set).
Proof. unfold parse_into. destruct (ParseUint a 32); apply patch_id || apply patch_view. Qed.

Lemma patch_code code : patch (handleResponseCode code).
Proof.
  unfold handleResponseCode. destruct (match SplitN _ _ _ with _ => _ end) as [name a].
  repeat case_if; apply patch_into || apply patch_store || apply patch_view || apply patch_id.
Qed.
Lemma patch_status text : patch (handleStatusResponse text).
Proof. unfold handleStatusResponse. destruct (bracketed text) as [[]|]; [apply patch_code|apply patch_id]. Qed.
Lemma patch_numeric n rest : patch (processNumericResponse handler n rest).
Proof.
  unfold processNumericResponse. repeat case_if;
    first [apply patch_view | apply patch_store | apply patch_id
          | apply (patch_call true _ (on_view _)), patch_view | apply (patch_call true _ (fun c => c)), patch_id].
Qed.
Lemma patch_named line : patch (named_response line).
Proof.
  unfold named_response. repeat case_if; apply patch_status || apply patch_store || apply patch_view.
Qed.
Lemma patch_untagged line : patch (processUntagged handler line).
Proof.
  unfold processUntagged. destruct (IndexByte line " ") as [[|i]|]; [apply patch_named| |apply patch_named].
  destruct (ParseUint _ _); apply patch_numeric || apply patch_named.
Qed.

Definition absorb (ls : list bytes) (c : Client) : Client :=
  foldl (fun c l => processUntagged handler l c) c ls.

(** ** Waiting for the reply *)

(** The client once the result of [tag] has been received and nothing is left
    to read. *)
Definition retire (tag : bytes) (c : Client) : Client :=
  on_wire (set_input []) (with_done (cl_pending c ∖ {[tag]}) (cl_done c) c).

Lemma patch_frame g c :
  patch g -> cl_disconnect (g c) = cl_disconnect c /\ cl_pending (g c) = cl_pending c /\
  cl_done (g c) = cl_done c /\ cl_wire (g c) = cl_wire c /\
  (forall tag, g (retire tag c) = retire tag (g c)) /\
  (forall i, g (on_wire (set_input i) c) = on_wire (set_input i) (g c)).
Proof. intros (f & u & k & Hg). rewrite Hg. destruct c. split_and!; [done..| |]; intros; by rewrite Hg. Qed.

Definition untagged_line (l : bytes) : bytes := "* " ++ l ++ crlf.

Lemma processLine_untagged l c : processLine handler ("* " ++ l) c = processUntagged handler l c.
Proof.
  unfold processLine. rewrite HasPrefix_app. by change (drop 2 ("* " ++ l)) with l.
Qed.

Lemma reader_untagged l rest c :
  cl_disconnect c = None -> w_in (cl_wire c) = untagged_line l ++ rest -> LF ∉ l ->
  reader_step handler c = Some (processUntagged handler l (on_wire (set_input rest) c)).
Proof.
  intros Hd Hin Hl. unfold reader_step. rewrite Hd, Hin. unfold untagged_line.
  replace (("* " ++ l ++ crlf) ++ rest) with (("* " ++ l : bytes) ++ crlf ++ rest) by (by rewrite !app_assoc).
  rewrite ReadLine_crlf; [by rewrite processLine_untagged|]. 
  change ("* " ++ l) with ("*"%char :: " "%char :: l). by rewrite !not_elem_of_cons.
Qed.

Lemma processTagged_reply tag reply status code text c :
  forallb graphic tag = true -> parseStatusResponse reply = (status, code, text) ->
  processTagged (tag ++ " " ++ reply) c = Complete tag (mkResult status code text None) c.
Proof.
  intros Ht Hr. unfold processTagged. change (" " ++ reply) with (" "%char :: reply).
  rewrite IndexByte_app by by apply (graphic_not _ tag).
  rewrite take_app_length. replace (S (length tag)) with (length tag + 1)%nat by lia.
  rewrite <- drop_drop, drop_app_length. change (drop 1 (" "%char :: reply)) with reply. by rewrite Hr.
Qed.

Lemma reader_tagged n reply status code text c :
  cl_disconnect c = None -> w_in (cl_wire c) = tag_of n ++ " " ++ reply ++ crlf -> LF ∉ reply ->
  parseStatusResponse reply = (status, code, text) ->
  reader_step handler c =
  Some (Complete (tag_of n) (mkResult status code text None) (on_wire (set_input []) c)).
Proof.
  intros Hd Hin Hl Hr. unfold reader_step. rewrite Hd, Hin.
  replace (tag_of n ++ " " ++ reply ++ crlf) with ((tag_of n ++ " " ++ reply : bytes) ++ crlf ++ [])
    by (by rewrite app_nil_r, <- !app_assoc).
  rewrite ReadLine_crlf.
  - rewrite <- (processTagged_reply _ _ _ _ _ _ (tag_graphic n) Hr). done.
  - rewrite !elem_of_app. intros [H|[H|H]]; [|by apply list_elem_of_singleton in H|done].
    revert H. by apply graphic_not; [apply tag_graphic|].
Qed.

Lemma wait_reply fuel n ls reply status code text c :
  let tag := tag_of n in
  cl_disconnect c = None -> tag ∈ cl_pending c -> cl_done c !! tag = None ->
  w_in (cl_wire c) = concat (untagged_line <$> ls) ++ tag ++ " " ++ reply ++ crlf ->
  Forall (fun l => LF ∉ l) ls -> LF ∉ reply -> parseStatusResponse reply = (status, code, text) ->
  (length ls < fuel)%nat ->
  wait_loop handler fuel (poll_done tag) c = (Ok (mkResult status code text None), absorb ls (retire tag c)).
Proof.
  intros tag Hd Hp Hn Hin HF Hl Hr. revert fuel c Hd Hp Hn Hin.
  induction HF as [|l ls Hll HF IH]; intros fuel c Hd Hp Hn Hin Hfuel; (destruct fuel as [|fuel]; [lia|]);
    cbn [wait_loop]; unfold poll_done at 1; rewrite Hn.
  - rewrite (reader_tagged n reply status code text) by done. fold tag. unfold Complete.
    assert (cl_pending (on_wire (set_input []) c) = cl_pending c) as -> by by destruct c.
    rewrite bool_decide_true by done.
    assert (forall c', cl_done (with_done (cl_pending c ∖ {[tag]}) (<[tag:=mkResult status code text None]> (cl_done c)) c') !! tag
      = Some (mkResult status code text None)) as Hpoll by (intros []; cbn; apply lookup_insert_eq).
    destruct fuel; cbn [wait_loop]; unfold poll_done; destruct c; cbn in *; rewrite lookup_insert_eq;
      unfold retire; cbn; by rewrite delete_insert_eq, delete_id.
  - rewrite fmap_cons in Hin. cbn [concat] in Hin. rewrite <- app_assoc in Hin.
    rewrite (reader_untagged l _ c Hd Hin Hll). set (c0 := on_wire _ c).
    assert (retire tag c0 = retire tag c) as Hret by by destruct c.
    destruct (patch_frame _ c0 (patch_untagged l)) as (H1 & H2 & H3 & H4 & H5 & _).
    rewrite IH; [cbn [absorb foldl]; by rewrite <- H5, Hret|..|cbn in Hfuel; lia];
      rewrite ?H1, ?H2, ?H3, ?H4; subst c0; by destruct c.
Qed.

(** ** Executing *)

(** A client that is connected and does not wait for [tag]. *)
Definition ready (c : Client) : Prop :=
  let tag := (Next c).1 in
  cl_disconnect c = None /\ w_err (cl_wire c) = None /\ tag ∉ cl_pending c /\ cl_done c !! tag = None.
(** What the server sends to [c]. *)
Definition receiving (input : bytes) (c : Client) : Client := on_wire (set_input input) c.
(** [c] after writing [line], all input read. *)
Definition sent (line : bytes) (c : Client) : Client :=
  let 'mkClient w n p d v u k x e l := c in
  mkClient (mkWire [] (w_out w ++ line) None) (i64 (n + 1)) p d v u k x e l.

Lemma concat_lines ls : (length ls <= length (concat (untagged_line <$> ls)))%nat.
Proof.
  induction ls as [|l ls IH]; [done|]. rewrite fmap_cons. cbn [concat length]. rewrite length_app.
  assert (1 <= length (untagged_line l))%nat by (unfold untagged_line; simpl; lia). lia.
Qed.

Lemma execute_reply name args c ls reply status code text :
  let tag := (Next c).1 in
  ready c -> Forall (fun l => LF ∉ l) ls -> LF ∉ reply -> parseStatusResponse reply = (status, code, text) ->
  execute handler name args (receiving (concat (untagged_line <$> ls) ++ tag ++ " " ++ reply ++ crlf) c) =
  (Ok (mkResult status code text None), absorb ls (sent (command_line tag name args) c)).
Proof.
  intros tag (Hd & Hw & Hp & Hn) HF Hl Hr. unfold execute, new_command, mbind, st_bind.
  destruct c as [[inp out werr] n p d v u k x e l]. cbn in tag, Hd, Hw, Hp, Hn. subst werr e.
  unfold receiving, send_command, send. cbn -[wait absorb command_line tag_of concat crlf fmap list_fmap untagged_line].
  fold tag. unfold wait. cbn [cl_wire w_in].
  rewrite (wait_reply _ (i64 (n + 1)) ls reply status code text); cbn -[tag_of absorb untagged_line crlf]; [|done|set_solver|done..|].
  - unfold retire. cbn -[tag_of absorb]. fold tag. replace (({[tag]} ∪ p) ∖ {[tag]}) with p by set_solver. done.
  - rewrite length_app. pose proof (concat_lines ls). lia.
Qed.

Lemma absorb_view ls c : exists f u k, absorb ls c = patched f u k c.
Proof.
  revert c. induction ls as [|l ls IH]; intros c.
  - exists id, [], []. destruct c. cbn. by rewrite !app_nil_r.
  - destruct (patch_untagged l) as (f & u & k & Hl). destruct (IH (processUntagged handler l c)) as (f' & u' & k' & H).
    exists (fun v => f' (f v)), (u ++ u'), (k ++ k'). cbn [absorb foldl]. unfold absorb in H. rewrite H, Hl.
    destruct c. cbn. by rewrite !app_assoc.
Qed.
End Facts.
