(* ===== verification/Exchange.v ===== *)
(** * Client and server together

    One exchange is a command of the client against a connection of the server:
    the bytes the client writes are the line the server reads, and the bytes the
    server writes are what the client reads. *)

From S2P Require Import Prelude Utf8 GoStrings GoTime NumSet Imap Decoder Encoder Wire Writers.
From S2P Require Import ConnState Conn Commands Dispatch Replies Gate.
From S2P Require Import ClientParse Client ClientFacts.

(** ** Arguments *)

(** The arguments the server can read: those that are quoted, and atoms that do
    not start like a binary literal. *)
Definition tilde (s : bytes) : bool := match s with c :: _ => c =c "~" | [] => false end.
Definition readable_arg (s : bytes) : bool :=
  (s =s []) || existsb needs_quotes s || (forallb isAtomChar s && negb (tilde s)).

Lemma quoteArg_cases s :
  ((s = [] \/ existsb needs_quotes s = true) /\ quoteArg s = Enc.QuotedString s []) \/
  (s <> [] /\ existsb needs_quotes s = false /\ quoteArg s = s).
Proof.
  unfold quoteArg. destruct (s =s []) eqn:E0; to_prop; [left; subst; by split; [left|]|].
  destruct (existsb needs_quotes s) eqn:E; [left; by split; [right|]|by right].
Qed.

Lemma atom_read s rest :
  s <> [] -> forallb isAtomChar s = true -> tilde s = false -> stops isAtomChar rest ->
  ReadAString (s ++ rest) = (Ok s, rest).
Proof.
  intros Hne Ha Ht Hr. destruct s as [|c s]; [done|]. unfold ReadAString, ReadString, mbind, st_bind.
  cbn [app PeekByte]. cbn [forallb tilde] in Ha, Ht. apply andb_true_iff in Ha as [Hc Ha].
  assert (c <> DQ /\ c <> "{"%char) as [H1 H2] by (split; intros ->; done).
  rewrite (proj2 (beqb_false c DQ)), (proj2 (beqb_false c "{"%char)), Ht by done. cbn [orb].
  change (c :: s ++ rest) with ((c :: s) ++ rest). apply ReadAtom_app; [done| |done]. cbn [forallb]. by rewrite Hc.
Qed.

Lemma quoted_arg s rest : ReadAString (Enc.QuotedString s [] ++ rest) = (Ok s, rest).
Proof. exact (quoted_read s rest). Qed.

Lemma arg_read s rest :
  readable_arg s = true -> stops isAtomChar rest -> ReadAString (quoteArg s ++ rest) = (Ok s, rest).
Proof.
  intros Hs Hr. destruct (quoteArg_cases s) as [[_ ->]|(Hne & Hq & ->)]; [apply quoted_arg|].
  unfold readable_arg in Hs. rewrite Hq, bool_decide_false in Hs by done. cbn [orb] in Hs. to_prop.
  by apply atom_read.
Qed.

Lemma escape_notin c s : c <> "\"%char -> c ∉ s -> c ∉ Enc.escape_quoted s.
Proof.
  intros H2 Hs H. unfold Enc.escape_quoted in H.
  apply list_elem_of_In, in_concat in H as (l & Hd%list_elem_of_In & Hl%list_elem_of_In).
  apply list_elem_of_fmap in Hd as (d & -> & Hd). destruct (IsQuotedSpecial d); set_solver.
Qed.
Lemma quoteArg_notin c s : c <> DQ -> c <> "\"%char -> c ∉ s -> c ∉ quoteArg s.
Proof.
  intros H1 H2 Hs. destruct (quoteArg_cases s) as [[_ ->]|(_ & _ & ->)]; [|done].
  unfold Enc.QuotedString. rewrite !elem_of_app, !list_elem_of_singleton.
  intros [[]%elem_of_nil|[?|[H|?]]]; [done| |done]. by apply escape_notin in H.
Qed.
Lemma quoted_LF a b :
  quoteArg (a ++ LF :: b) = [DQ] ++ Enc.escape_quoted a ++ LF :: Enc.escape_quoted b ++ [DQ].
Proof.
  destruct (quoteArg_cases (a ++ LF :: b)) as [[_ ->]|(_ & H & _)].
  - unfold Enc.QuotedString, Enc.escape_quoted. rewrite fmap_app, fmap_cons, concat_app. cbn [concat].
    rewrite app_nil_l, <- !app_assoc. done.
  - exfalso. rewrite existsb_app, orb_false_iff in H. destruct H as [_ H]. done.
Qed.

Lemma not_all_atom s rest :
  forallb isAtomChar s = false -> ReadAtom (s ++ rest) <> (Ok s, rest).
Proof.
  intros Hs Hr. unfold ReadAtom in Hr. assert (take_while isAtomChar (s ++ rest) = s) as Ht.
  { destruct (take_while isAtomChar (s ++ rest)) eqn:E; [|congruence]. destruct (s ++ rest); congruence. }
  pose proof (take_while_all isAtomChar (s ++ rest)) as H. rewrite Ht in H. congruence.
Qed.
Lemma needs_quotes_not c s : existsb needs_quotes (c :: s) = false -> c <> DQ /\ c <> "{"%char.
Proof. cbn [existsb]. rewrite orb_false_iff. intros [H _]. split; intros ->; done. Qed.

Lemma unreadable_arg s rest : readable_arg s = false -> ReadAString (quoteArg s ++ rest) <> (Ok s, rest).
Proof.
  unfold readable_arg. intros H. apply orb_false_iff in H as [[H0 Hq]%orb_false_iff Ha]. to_prop.
  unfold quoteArg. rewrite bool_decide_false, Hq by done. destruct s as [|c s]; [done|].
  destruct (needs_quotes_not _ _ Hq) as [H1 H2]. destruct (c =c "~") eqn:Ec; to_prop; [subst|].
  - destruct (forallb isAtomChar ("~"%char :: s)) eqn:Hall.
    { pose proof (tilde_not_read ("~"%char :: s) rest) as Ht. unfold tilde_atom in Ht.
      assert (as_atom ("~"%char :: s) = true) as Has by by apply as_atom_spec. rewrite Has in Ht. specialize (Ht eq_refl).
      unfold Enc.EncString, as_atom in *. to_prop. by rewrite H, H3 in Ht. }
    destruct s as [|d s]; [done|]. assert ((d =c "{") = false) as Hd.
    { apply beqb_false. intros ->. done. }
    assert (exists e t, ReadLiteralInfo (("~"%char :: d :: s) ++ rest) = (Err e, t)) as (e & t & He).
    { unfold ReadLiteralInfo. rewrite (st_bind_ok _ _ _ ((d :: s) ++ rest) "~"%char) by done. eval_beq. cbn iota.
      rewrite (st_bind_ok _ _ _ (s ++ rest) d) by done. unfold literal_body. rewrite Hd.
      eexists _, _. reflexivity. }
    unfold ReadAString, ReadString. rewrite (st_bind_ok _ _ _ (("~"%char :: d :: s) ++ rest) "~"%char) by done.
    eval_beq. cbn [orb]. by rewrite (st_bind_err _ _ _ _ _ He).
  - unfold ReadAString, ReadString, mbind, st_bind. cbn [app PeekByte].
    rewrite (proj2 (beqb_false c DQ)), (proj2 (beqb_false c "{"%char)), (proj2 (beqb_false c "~"%char)) by done.
    cbn [orb]. apply (not_all_atom (c :: s)). destruct Ha as [Ha|Ha]; [done|].
    cbn [tilde] in Ha. by to_prop.
Qed.

(** ** Command lines *)
Lemma ReadLine_LF l rest : LF ∉ l -> ReadLine (l ++ LF :: rest) = (Ok (TrimSuffix l [CR]), rest).
Proof.
  intros Hl. unfold ReadLine.
  assert (forallb (fun c => negb (c =c LF)) l = true) as HF.
  { apply forallb_Forall, list.Forall_forall. intros c Hc. apply negb_true_iff, beqb_false. by intros ->. }
  rewrite take_while_app, drop_while_app by done. by destruct l.
Qed.
Lemma command_line_join tag name args :
  command_line tag name args =
  (tag ++ " " ++ name ++ match args with [] => [] | _ => " " ++ Join args " " end : bytes) ++ crlf ++ [].
Proof.
  assert (concat ((fun a => " "%char :: a) <$> args) = match args with [] => [] | _ => " " ++ Join args " " end) as Hj.
  { induction args as [|a args IH]; [done|]. rewrite fmap_cons. cbn [concat]. rewrite IH.
    change ((" "%char :: a) ++ ?x) with (" " ++ a ++ x). f_equal. destruct args; [apply app_nil_r|done]. }
  unfold command_line. by rewrite Hj, app_nil_r, <- !app_assoc.
Qed.

Lemma parseLine_command tag name rest :
  tag <> [] -> name <> [] -> forallb graphic tag = true -> forallb graphic name = true ->
  parseLine (tag ++ " " ++ name ++ match rest with None => [] | Some r => " " ++ r end)
  = Ok (tag, name, default [] rest).
Proof.
  intros Ht Hn Hgt Hgn. unfold parseLine. set (tail := match rest with None => [] | _ => _ end).
  rewrite bool_decide_false by by destruct tag. change (" " ++ name ++ tail) with (" "%char :: name ++ tail).
  rewrite IndexByte_app by by apply (graphic_not _ tag). rewrite take_app_length, <- drop_drop, drop_app_length.
  change (drop 1 (" "%char :: name ++ tail)) with (name ++ tail). subst tail. destruct rest as [r|].
  - change (" " ++ r) with (" "%char :: r). rewrite IndexByte_app by by apply (graphic_not _ name).
    rewrite take_app_length, <- drop_drop, drop_app_length. change (drop 1 (" "%char :: r)) with r.
    by rewrite !bool_decide_false.
  - rewrite app_nil_r, (proj2 (IndexByte_None name " "%char)) by by apply (graphic_not _ name).
    by rewrite !bool_decide_false.
Qed.

Lemma Join_notin c args : c <> " "%char -> Forall (fun a => c ∉ a) args -> c ∉ Join args " ".
Proof.
  intros Hc. induction 1 as [|a args Ha HF IH]; [apply not_elem_of_nil|]. cbn [Join].
  destruct args; [done|]. rewrite !elem_of_app. intros [H|[H|H]]; [done| |done].
  by apply list_elem_of_singleton in H.
Qed.
Lemma line_no_LF tag name args :
  forallb graphic tag = true -> forallb graphic name = true -> Forall (fun a => LF ∉ a) args ->
  LF ∉ (tag ++ " " ++ name ++ match args with [] => [] | _ => " " ++ Join args " " end : bytes).
Proof.
  intros Ht Hn HA. assert (forall s, forallb graphic s = true -> LF ∉ s) as Hg by (intros; by apply graphic_not).
  rewrite !elem_of_app. intros [H|[H|[H|H]]]; [by apply (Hg tag)|by apply list_elem_of_singleton in H|by apply (Hg name)|].
  assert (LF ∉ Join args " ") as HJ by by apply Join_notin.
  destruct args; [by apply elem_of_nil in H|]. apply elem_of_app in H as [H|H]; [by apply list_elem_of_singleton in H|done].
Qed.
Lemma line_parse tag name args :
  tag <> [] -> name <> [] -> forallb graphic tag = true -> forallb graphic name = true ->
  parseLine (tag ++ " " ++ name ++ match args with [] => [] | _ => " " ++ Join args " " end)
  = Ok (tag, name, Join args " ").
Proof.
  intros H1 H2 H3 H4. pose proof (parseLine_command tag name match args with [] => None | _ => Some (Join args " ") end) as H.
  by destruct args; apply H.
Qed.

(** ** The last line *)
Definition reply (status code text : bytes) : bytes :=
  status ++ (if code =s [] then [] else " [" ++ code ++ "]") ++ (if text =s [] then [] else " " ++ text).
Lemma StatusResponse_reply tag status code text :
  tag <> [] -> tag <> "*" ->
  Enc.StatusResponse tag status code text [] = tag ++ " " ++ reply status code text ++ crlf.
Proof.
  intros H1 H2. unfold Enc.StatusResponse, reply.
  rewrite (bool_decide_false (tag = [])), (bool_decide_false (tag = "*")) by done. cbn [orb].
  unfold Enc.Tag, Enc.SP, Enc.Atom, Enc.CRLF. rewrite app_nil_l.
  destruct (code =s []), (text =s []); by rewrite ?app_nil_l, ?app_nil_r, <- !app_assoc.
Qed.

Definition clean_reply (code text : bytes) : Prop :=
  LF ∉ code /\ LF ∉ text /\ "]"%char ∉ code /\ (code = [] -> HasPrefix text "[" = false).
Lemma parse_reply status code text :
  " "%char ∉ status -> clean_reply code text ->
  parseStatusResponse (reply status code text) = (status, code, text).
Proof.
  intros Hs (_ & _ & Hc & Ht). unfold parseStatusResponse, reply.
  assert (forall s r, " "%char ∉ s -> take (length s) (s ++ " "%char :: r) = s /\
    drop (S (length s)) (s ++ " "%char :: r) = r) as Hcut.
  { intros s r _. split; [apply take_app_length|]. replace (S (length s)) with (length s + 1)%nat by lia.
    by rewrite <- drop_drop, drop_app_length. }
  destruct (code =s []) eqn:Ec; to_prop; subst; cbn [app].
  - destruct (text =s []) eqn:Et; to_prop; subst.
    { rewrite app_nil_r. by rewrite (proj2 (IndexByte_None status _)). }
    change (" " ++ text) with (" "%char :: text). rewrite IndexByte_app by done.
    destruct (Hcut status text Hs) as [-> ->]. unfold bracketed. by rewrite Ht.
  - change ((" [" ++ code ++ "]") ++ ?x) with (" "%char :: ("[" ++ code ++ "]") ++ x).
    rewrite IndexByte_app by done. set (tail := if text =s [] then [] else " " ++ text).
    destruct (Hcut status (("[" ++ code ++ "]") ++ tail) Hs) as [-> ->]. unfold bracketed.
    replace (("[" ++ code ++ "]") ++ tail) with ("[" ++ code ++ "]"%char :: tail) by (by rewrite <- !app_assoc).
    rewrite HasPrefix_app. change ("[" ++ code ++ "]"%char :: tail) with (("["%char :: code) ++ "]"%char :: tail).
    rewrite IndexByte_app by (apply not_elem_of_cons; by split).
    cbn [length]. rewrite Nat.sub_succ, Nat.sub_0_r.
    change (drop 1 (("["%char :: code) ++ "]"%char :: tail)) with (code ++ "]"%char :: tail). rewrite take_app_length.
    replace (S (S (length code))) with (length ("["%char :: code) + 1)%nat by (cbn; lia).
    rewrite <- drop_drop, drop_app_length. change (drop 1 ("]"%char :: tail)) with tail.
    subst tail. destruct (text =s []) eqn:Et; to_prop; by subst.
Qed.


(** ** Exchanges *)
Section EndToEnd.
Context {U : Unicode} {Sess : Type} {B : Backend Sess}.
Context (opts : Options) (ord : nat -> list bytes -> list bytes) (handler : UnilateralDataHandler).
Abbreviation table := (RegisterAll (builtins opts ord)).

Definition feed (line : bytes) (s : CState Sess) : CState Sess := mkCS (set_in line (cs_conn s)) (cs_sess s).

(** The operation [op] of the client [c] against the connection [s]: everything
    either side writes is read by the other. *)
Definition exchange {A} (op : St Client A) (c : Client) (s : CState Sess) (r : res A) (c' : Client)
    (s' : CState Sess) : Prop :=
  exists line ws,
    readAndHandle table (feed line s) = (Ok tt, s') /\
    c_out (cs_conn s') = c_out (cs_conn s) ++ ws /\ c_in (cs_conn s') = [] /\
    op (receiving (concat ws) c) = (r, c') /\
    w_out (cl_wire c') = w_out (cl_wire c) ++ line /\ w_in (cl_wire c') = [].

Lemma dispatch_run tag name (h : Handler Sess) rest (s : CState Sess) :
  (name, h) ∈ builtins opts ord -> permitted (conn_State (cs_conn s)) name = true ->
  dispatch table tag name rest s =
  let '(r, h') := h (mkContext tag name NumKindSeq (negb (rest =s []))) (mkH rest (cs_conn s) (cs_sess s)) in
  finish tag r h'.
Proof.
  intros Hin Hp. pose proof (builtin_names opts ord) as HF. rewrite list.Forall_forall in HF.
  pose proof (HF _ Hin) as Hup. cbn in Hup.
  assert (name <> "UID") as Hne.
  { intros ->. assert (forallb (fun p => negb (p.1 =s "UID")) (builtins opts ord : list (bytes * Handler Sess)) = true)
      as HU by by vm_compute. rewrite forallb_forall in HU. apply list_elem_of_In, HU in Hin. done. }
  unfold dispatch, uid_prefix. rewrite Hup, bool_decide_false by done.
  unfold mbind at 1, st_bind at 1. cbn [st_get]. unfold permitted in Hp.
  destruct (CommandAllowedStates name) as [allowed|]; [|done]. apply bool_decide_eq_true in Hp.
  rewrite (proj2 (RequireState_spec _ allowed)) by done. cbn [fmap option_fmap option_map].
  rewrite (builtin_get opts ord _ _ Hin). unfold mbind, st_bind, attempt, run_handler.
  destruct (h _ _) as [[] h']; done.
Qed.

Lemma Next_tag c : exists n, (Next c).1 = tag_of n /\ tag_of n <> [] /\ tag_of n <> "*".
Proof. destruct c. eexists. split; [reflexivity|]. done. Qed.

Lemma tag_name_graphic name (h : Handler Sess) :
  (name, h) ∈ builtins opts ord -> name <> [] /\ forallb graphic name = true.
Proof.
  assert (forallb (fun p => negb (p.1 =s []) && forallb graphic p.1)
    (builtins opts ord : list (bytes * Handler Sess)) = true) as HF by by vm_compute.
  rewrite forallb_forall in HF. intros Hin%list_elem_of_In%HF. to_prop. done.
Qed.

(** A built-in command, run by the client's [execute]. *)
Lemma exchange_execute name (h : Handler Sess) args c s s' ls status code text :
  let tag := (Next c).1 in
  let rest := Join args " " in
  (name, h) ∈ builtins opts ord -> permitted (conn_State (cs_conn s)) name = true -> ready c ->
  Forall (fun a => LF ∉ a) args ->
  (let '(r, h') := h (mkContext tag name NumKindSeq (negb (rest =s [])))
                     (mkH rest (set_in [] (cs_conn s)) (cs_sess s)) in finish tag r h') = (Ok tt, s') ->
  c_out (cs_conn s') = c_out (cs_conn s) ++ (untagged_line <$> ls)
                       ++ [Enc.StatusResponse tag status code text []] ->
  c_in (cs_conn s') = [] ->
  Forall (fun l => LF ∉ l) ls -> LF ∉ status -> " "%char ∉ status -> clean_reply code text ->
  exchange (execute handler name args) c s (Ok (mkResult status code text None))
    (absorb handler ls (sent (command_line tag name args) c)) s'.
Proof.
  intros tag rest Hin Hp Hready HA Hrun Hout Hc Hls Hst Hsp Hcl.
  destruct (Next_tag c) as (n & Ht & Hne & Hns). fold tag in Ht.
  destruct (tag_name_graphic _ _ Hin) as [Hnn Hng].
  exists (command_line tag name args), ((untagged_line <$> ls) ++ [Enc.StatusResponse tag status code text []]).
  assert (LF ∉ reply status code text) as Hlf.
  { destruct Hcl as (H1 & H2 & _). unfold reply. rewrite !elem_of_app. intros [H|[H|H]]; [done|..].
    - destruct (code =s []); [by apply elem_of_nil in H|]. rewrite !elem_of_app in H.
      destruct H as [H|[H|H]]; [by vm_compute in H; set_solver|done|by vm_compute in H; set_solver].
    - destruct (text =s []); [by apply elem_of_nil in H|]. apply elem_of_app in H as [H|H]; [|done].
      by vm_compute in H; set_solver. }
  split_and!; [|exact Hout|exact Hc|..].
  - unfold readAndHandle, mbind, st_bind, st_get, feed. cbn [cs_conn c_in set_in].
    rewrite command_line_join, ReadLine_crlf by (by apply line_no_LF; [rewrite Ht; apply tag_graphic|..]).
    unfold conn_do. cbn [cs_conn cs_sess].
    rewrite (line_parse tag name args) by (done || rewrite Ht; done || apply tag_graphic).
    by rewrite (dispatch_run tag name h).
  - rewrite concat_app. cbn [concat]. rewrite app_nil_r, StatusResponse_reply by congruence.
    apply execute_reply; [done..|]. by apply parse_reply.
  - destruct (absorb_view handler ls (sent (command_line tag name args) c)) as (f & u & k & ->). by destruct c.
  - destruct (absorb_view handler ls (sent (command_line tag name args) c)) as (f & u & k & ->). by destruct c.
Qed.

(** ** Operations without data *)
Inductive op :=
| OpLogin (username password : bytes)
| OpCreate (mailbox : bytes)
| OpDelete (mailbox : bytes)
| OpSubscribe (mailbox : bytes)
| OpUnsubscribe (mailbox : bytes)
| OpRename (oldName newName : bytes).

Definition client_op (o : op) : St Client unit :=
  match o with
  | OpLogin u p => Client.Login handler u p
  | OpCreate m => Client.Create handler m
  | OpDelete m => Client.Delete handler m
  | OpSubscribe m => Client.Subscribe handler m
  | OpUnsubscribe m => Client.Unsubscribe handler m
  | OpRename a b => Client.Rename handler a b
  end.
Definition backend_op (o : op) : St Sess unit :=
  match o with
  | OpLogin u p => bk_Login u p
  | OpCreate m => bk_Create m (mkCreateOptions [])
  | OpDelete m => bk_Delete m
  | OpSubscribe m => bk_Subscribe m
  | OpUnsubscribe m => bk_Unsubscribe m
  | OpRename a b => bk_Rename a b
  end.
Definition op_args (o : op) : list bytes :=
  match o with
  | OpLogin a b | OpRename a b => [a; b]
  | OpCreate m | OpDelete m | OpSubscribe m | OpUnsubscribe m => [m]
  end.
Definition op_name (o : op) : bytes :=
  match o with
  | OpLogin _ _ => "LOGIN" | OpCreate _ => "CREATE" | OpDelete _ => "DELETE"
  | OpSubscribe _ => "SUBSCRIBE" | OpUnsubscribe _ => "UNSUBSCRIBE" | OpRename _ _ => "RENAME"
  end.
Definition op_handler (o : op) : Handler Sess :=
  match o with
  | OpLogin _ _ => Commands.Login opts
  | OpCreate _ => Commands.Create
  | OpDelete _ => Commands.Delete
  | OpSubscribe _ => Commands.Subscribe
  | OpUnsubscribe _ => Commands.Unsubscribe
  | OpRename _ _ => Commands.Rename
  end.
(** The state a connection needs: LOGIN is for a connection as it was created,
    encrypted or where the options allow it in clear. *)
Definition op_allowed (o : op) (c : Conn) : Prop :=
  match o with
  | OpLogin _ _ => c_state c = ConnState.New ConnStateNotAuthenticated /\
                   c_isTLS c || op_AllowInsecureAuth opts = true
  | _ => conn_State c ∈ auth_states
  end.
(** The state after a success. *)
Definition op_state (o : op) (ok : bool) (before : ConnState) : ConnState :=
  match o with OpLogin _ _ => if ok then ConnStateAuthenticated else before | _ => before end.

(** The last line of the answer to what the backend returned; a BYE and a
    panic have none. *)
Definition answer (done : bytes) (r : res unit) : option (bytes * bytes * bytes) :=
  match r with
  | Ok _ => Some ("OK" : bytes, [], done)
  | Err (IMAPError StatusNO code _ text) => Some ("NO" : bytes, code, text)
  | Err (IMAPError StatusBAD code _ text) => Some ("BAD" : bytes, code, text)
  | Err (IMAPError StatusBYE _ _ _) => None
  | Err (IMAPError _ _ _ _ as e) => Some ("NO" : bytes, [], Error e)
  | Err _ => Some ("NO" : bytes, [], "internal server error" : bytes)
  | _ => None
  end.
Definition as_result (status code text : bytes) : res unit :=
  if status =s "OK" then Ok tt else Err (IMAPError (status_of status) code None text).

Lemma answer_status done r status code text :
  answer done r = Some (status, code, text) ->
  LF ∉ status /\ " "%char ∉ status /\ is_ok r = bool_decide (status = "OK").
Proof.
  unfold answer. destruct r as [|e| |]; [|destruct e as [| | | |[]|]|..]; intros [= <- <- <-];
    (split_and!; [by apply (bool_decide_unpack _)..|done]).
Qed.

Lemma finish_answer tag done e h status code text :
  answer done (Err e) = Some (status, code, text) ->
  finish tag (Err e) h = (Ok tt, mkCS (Encode (Enc.StatusResponse tag status code text) (h_conn h)) (h_sess h : Sess)).
Proof.
  unfold answer, finish, reply_error. destruct e as [| | | |[]|]; intros [= <- <- <-]; done.
Qed.

Lemma quoteArg_ne a : quoteArg a <> [].
Proof. destruct (quoteArg_cases a) as [[_ ->]|(? & _ & ->)]; done. Qed.
Lemma read_last a e (c : Conn) (s : Sess) :
  readable_arg a = true -> (arg ReadAString ?> e) (mkH (quoteArg a) c s) = (Ok a, mkH [] c s).
Proof.
  intros Ha. pose proof (arg_read a [] Ha I) as H. rewrite app_nil_r in H. unfold on_err, arg. cbn [h_args]. by rewrite H.
Qed.
Lemma read_first a rest e (c : Conn) (s : Sess) :
  readable_arg a = true ->
  (arg ReadAString ?> e) (mkH (quoteArg a ++ " " ++ rest) c s) = (Ok a, mkH (" " ++ rest) c s).
Proof.
  intros Ha. pose proof (arg_read a (" " ++ rest) Ha eq_refl) as H. unfold on_err, arg. cbn [h_args]. by rewrite H.
Qed.
Lemma read_space rest e (c : Conn) (s : Sess) :
  (arg ReadSP ?> e) (mkH (" " ++ rest) c s) = (Ok tt, mkH rest c s).
Proof. done. Qed.
Lemma have_args tag name k text (h : HState Sess) :
  h_args h <> [] -> need_args (mkContext tag name k (negb (h_args h =s []))) text h = (Ok tt, h).
Proof. intros H. unfold need_args. cbn [x_decoder]. by rewrite bool_decide_false. Qed.
Lemma asked {A} (m : St Sess A) args c s r s' :
  m s = (r, s') -> session m (mkH args c s) = (r, mkH args c s').
Proof. intros H. unfold session. cbn [h_sess h_args h_conn]. by rewrite H. Qed.

Lemma login_transition :
  Transition ConnStateAuthenticated (ConnState.New ConnStateNotAuthenticated) =
  (Ok tt, set_state (ConnState.New ConnStateNotAuthenticated) ConnStateAuthenticated).
Proof. reflexivity. Qed.

(** The handler of an operation reads the arguments and asks the backend. *)
Lemma op_handler_run o (h : HState Sess) tag r sess' :
  op_allowed o (h_conn h) -> Forall (fun a => readable_arg a = true) (op_args o) ->
  h_args h = Join (quoteArg <$> op_args o) " " -> backend_op o (h_sess h) = (r, sess') ->
  let '(r', h') := op_handler o (mkContext tag (op_name o) NumKindSeq (negb (h_args h =s []))) h in
  h_sess h' = sess' /\ r' = r /\
  match r with
  | Ok _ => exists m, State m = op_state o true (conn_State (h_conn h)) /\
      h_conn h' = WriteOK tag (op_name o ++ " completed") (set_machine m (h_conn h))
  | _ => h_conn h' = h_conn h
  end.
Proof.
  destruct h as [args conn sess]. cbn [h_args h_conn h_sess]. intros Hal HF -> Hb.
  assert (forall name text, need_args (mkContext tag name NumKindSeq (negb (Join (quoteArg <$> op_args o) " " =s []))) text
    (mkH (Join (quoteArg <$> op_args o) " ") conn sess) = (Ok tt, mkH (Join (quoteArg <$> op_args o) " ") conn sess)) as Hneed.
  { intros. apply (have_args _ _ _ _ (mkH _ _ _)). destruct o; cbn [h_args op_args fmap list_fmap Join];
      first [apply quoteArg_ne | intros [H _]%app_nil; by apply quoteArg_ne in H]. }
  destruct o; cbn [op_args op_handler op_name backend_op op_state fmap list_fmap Join] in *;
    apply list.Forall_cons in HF as [H1 HF]; try (apply list.Forall_cons in HF as [H2 _]).
  1: { destruct Hal as [Hm Htls]. unfold Commands.Login. rewrite (st_bind_ok _ _ _ (mkH _ conn sess) conn) by done.
       assert (negb (c_isTLS conn) && negb (op_AllowInsecureAuth opts) = false) as ->.
       { by destruct (c_isTLS conn), (op_AllowInsecureAuth opts). }
       rewrite (st_bind_ok _ _ _ _ _ (Hneed _ _)), (st_bind_ok _ _ _ _ _ (read_first _ _ _ _ _ H1)),
         (st_bind_ok _ _ _ _ _ (read_space _ _ _ _)), (st_bind_ok _ _ _ _ _ (read_last _ _ _ _ H2)).
       unfold mbind, st_bind. rewrite (asked _ _ _ _ _ _ Hb). destruct r as [[]| | |]; [|by split_and!..].
       unfold SetState. cbn [h_conn]. rewrite Hm, login_transition. cbn. split_and!; [done..|].
       eexists. split; [|reflexivity]. done. }
  5: { unfold Commands.Rename.
       rewrite (st_bind_ok _ _ _ _ _ (Hneed _ _)), (st_bind_ok _ _ _ _ _ (read_first _ _ _ _ _ H1)),
         (st_bind_ok _ _ _ _ _ (read_space _ _ _ _)), (st_bind_ok _ _ _ _ _ (read_last _ _ _ _ H2)).
       unfold mbind, st_bind. rewrite (asked _ _ _ _ _ _ Hb). destruct r as [[]| | |]; cbn; split_and!; try done.
       exists (c_state conn). by destruct conn. }
  all: unfold Commands.Create, Commands.Delete, Commands.Subscribe, Commands.Unsubscribe.
  all: rewrite (st_bind_ok _ _ _ _ _ (Hneed _ _)), (st_bind_ok _ _ _ _ _ (read_last _ _ _ _ H1)).
  all: unfold mbind, st_bind; rewrite (asked _ _ _ _ _ _ Hb); destruct r as [[]| | |]; cbn; split_and!; try done.
  all: exists (c_state conn); by destruct conn.
Qed.

Lemma op_builtin o : (op_name o, op_handler o) ∈ (builtins opts ord : list (bytes * Handler Sess)).
Proof. unfold builtins. destruct o; repeat ((by left) || right). Qed.
Lemma op_permitted o c : op_allowed o c -> permitted (conn_State c) (op_name o) = true.
Proof.
  destruct o; cbn [op_allowed op_name]; [intros [H _]; unfold conn_State; by rewrite H|..];
    intros H; unfold permitted; by apply bool_decide_eq_true.
Qed.

(** The client once the operation has returned. *)
Definition op_client (o : op) (ok : bool) (c : Client) : Client :=
  match o with
  | OpLogin _ _ => if ok then on_view (set_vstate ConnStateAuthenticated) c else c
  | _ => c
  end.

Lemma client_op_execute o :
  exists k, (forall r c, cr_err r = None ->
     k r c = (as_result (cr_status r) (cr_code r) (cr_text r), op_client o (bool_decide (cr_status r = "OK")) c)) /\
  client_op o = execute handler (op_name o) (quoteArg <$> op_args o) ≫= k.
Proof.
  assert (forall r c, cr_err r = None -> check_result r c = (as_result (cr_status r) (cr_code r) (cr_text r), c)) as Hc.
  { intros r c Hr. unfold check_result, commandResultError, as_result. rewrite Hr. by case_if. }
  destruct o; (eexists; split; [|reflexivity]); intros r c Hr; cbn [op_client].
  1: { unfold mbind, st_bind. rewrite Hc by done. unfold as_result. by case_if. }
  all: by rewrite Hc.
Qed.

(** A command of the client and what it does with the result. *)
Lemma exchange_bind {A B'} (m : St Client A) (k : A -> St Client B') c s a c1 s' r c2 :
  exchange m c s (Ok a) c1 s' -> k a c1 = (r, c2) -> cl_wire c2 = cl_wire c1 ->
  exchange (m ≫= k) c s r c2 s'.
Proof.
  intros (line & ws & H1 & H2 & H3 & H4 & H5 & H6) Hk Hw. exists line, ws. rewrite Hw.
  split_and!; [done..| |done|done]. by rewrite (st_bind_ok _ _ _ _ _ H4).
Qed.

End EndToEnd.
