(* ===== verification/EndToEnd.v ===== *)
(** * Commands with data, end to end

    SELECT, STATUS, SEARCH and LIST through the client against the handlers of
    the server, over an arbitrary backend. *)

From S2P Require Import Prelude Utf8 GoStrings GoTime NumSet Imap Decoder Encoder Wire Writers.
From S2P Require Import ConnState Conn Commands Dispatch Replies Gate.
From S2P Require Import ClientParse Client ClientFacts Exchange.

Section Lines.
Context {U : Unicode} (handler : UnilateralDataHandler).

(** ** What the client makes of a line *)
Lemma processUntagged_word w x c :
  w <> [] -> " "%char ∉ w -> ParseUint w 32 = Err (NumError "ParseUint" w ErrSyntax) ->
  processUntagged handler (w ++ " " ++ x) c = named_response (w ++ " " ++ x) c.
Proof.
  intros Hne Hw Hp. unfold processUntagged. change (" " ++ x) with (" "%char :: x).
  rewrite IndexByte_app by done. destruct w as [|b w]; [done|]. cbn [length].
  change (S (length w)) with (length (b :: w)). by rewrite take_app_length, Hp.
Qed.

Lemma processUntagged_number n x c :
  0 <= n < 2 ^ 32 ->
  processUntagged handler (FormatUint n ++ " " ++ x) c = processNumericResponse handler n x c.
Proof.
  intros Hn. unfold processUntagged. change (" " ++ x) with (" "%char :: x).
  rewrite IndexByte_app by (by apply graphic_not; [apply FormatUint_graphic; lia|]).
  pose proof (FormatUint_ne n). destruct (length (FormatUint n)) as [|k] eqn:Ek; [by apply length_zero_iff_nil in Ek|].
  rewrite <- Ek, take_app_length, ParseUint_FormatUint by lia.
  replace (S (length (FormatUint n))) with (length (FormatUint n) + 1)%nat by lia.
  by rewrite <- drop_drop, drop_app_length.
Qed.

Lemma first_cut (c : ascii) (x rest : bytes) :
  exists y z, x ++ c :: rest = y ++ c :: z /\ c ∉ y /\ (c ∉ x -> y = x).
Proof.
  destruct (IndexByte x c) as [i|] eqn:E.
  - apply IndexByte_cut in E as [Hx Hn]. exists (take i x), (drop (S i) x ++ c :: rest). split_and!; [|done|].
    + rewrite Hx at 1. by rewrite <- app_assoc.
    + intros Hc. exfalso. apply Hc. rewrite Hx. set_solver.
  - apply IndexByte_None in E. by exists x, rest.
Qed.

(** A response code [name] with arguments: the client sees them up to the first
    closing bracket. *)
Lemma code_line name x c :
  forallb graphic name = true -> "]"%char ∉ name ->
  exists y, ("]"%char ∉ x -> y = x) /\
  processUntagged handler ("OK [" ++ name ++ " " ++ x ++ "] ") c = handleResponseCode (name ++ " " ++ y) c.
Proof.
  intros Hg Hb.
  change ("OK [" ++ name ++ " " ++ x ++ "] ") with ("OK" ++ " " ++ "[" ++ name ++ " " ++ x ++ "] ").
  rewrite processUntagged_word by (done || by apply (bool_decide_unpack _)).
  unfold named_response. set (tail := "[" ++ name ++ " " ++ x ++ "] ").
  change ("OK" ++ " " ++ tail) with (("OK " : bytes) ++ tail).
  rewrite ToUpper_app, (ToUpper_ascii "OK ") by done. change (upper_char <$> _) with ("OK " : bytes).
  rewrite HasPrefix_app. change (drop 3 (("OK " : bytes) ++ tail)) with tail. subst tail.
  unfold handleStatusResponse, bracketed. rewrite HasPrefix_app.
  destruct (first_cut "]" x " ") as (y & z & Hx & Hy & Heq). exists y. split; [done|].
  change (x ++ "] ") with (x ++ "]"%char :: " "). rewrite Hx.
  replace ("[" ++ name ++ " " ++ y ++ "]"%char :: z) with (("["%char :: name ++ " " ++ y) ++ "]"%char :: z).
  2: { cbn [app]. by rewrite <- !app_assoc. }
  rewrite IndexByte_app.
  2: { rewrite not_elem_of_cons, !not_elem_of_app. split_and!; [done..| |done]. by apply (bool_decide_unpack _). }
  cbn [length]. rewrite Nat.sub_succ, Nat.sub_0_r.
  change (drop 1 (("["%char :: name ++ " " ++ y) ++ "]"%char :: z)) with ((name ++ " " ++ y) ++ "]"%char :: z).
  by rewrite take_app_length.
Qed.

Lemma handle_code name y c :
  " "%char ∉ name -> ascii_string name = true ->
  handleResponseCode (name ++ " " ++ y) c =
  let name := upper_char <$> name in
  if name =s "UIDVALIDITY" then parse_into y set_uidValidity c
  else if name =s "UIDNEXT" then parse_into y set_uidNext c
  else if name =s "UNSEEN" then parse_into y set_unseen c
  else if name =s "PERMANENTFLAGS" then storeUntagged ("PERMANENTFLAGS " ++ y) c
  else if name =s "CAPABILITY" then handleCapability y c
  else if name =s "READ-ONLY" then on_view (set_readOnly true) c
  else if name =s "READ-WRITE" then on_view (set_readOnly false) c
  else c.
Proof.
  intros Hsp Ha. unfold handleResponseCode. change (name ++ " " ++ y) with (name ++ " "%char :: y).
  change (" " : bytes) with [" "%char]. rewrite SplitN1_field by done. cbn [SplitN].
  by rewrite ToUpper_ascii.
Qed.

Lemma number_code name n c :
  0 <= n < 2 ^ 32 -> name ∈ ["UIDVALIDITY" : bytes; "UIDNEXT" : bytes; "UNSEEN" : bytes] ->
  processUntagged handler ("OK [" ++ name ++ " " ++ FormatUint n ++ "] ") c =
  on_view (if name =s "UIDVALIDITY" then set_uidValidity n
           else if name =s "UIDNEXT" then set_uidNext n else set_unseen n) c.
Proof.
  intros Hn Hin. assert ("]"%char ∉ FormatUint n) as Hb.
  { intros H. pose proof (FormatUint_digits n ltac:(lia)) as HF. rewrite forallb_Forall, list.Forall_forall in HF.
    by specialize (HF _ H). }
  assert (forallb graphic name = true /\ "]"%char ∉ name /\ " "%char ∉ name /\ ascii_string name = true) as (H1 & H2 & H3 & H4).
  { repeat (apply elem_of_cons in Hin as [->|Hin]; [by split_and!; try done; apply (bool_decide_unpack _)|]).
    by apply elem_of_nil in Hin. }
  destruct (code_line name (FormatUint n) c H1 H2) as (y & Hy & ->). rewrite (Hy Hb), handle_code by done.
  unfold parse_into. rewrite ParseUint_FormatUint by lia.
  repeat (apply elem_of_cons in Hin as [->|Hin]; [cbv zeta; by eval_words|]). by apply elem_of_nil in Hin.
Qed.
(** The other codes of SELECT do not touch the data of the mailbox. *)
Lemma other_code name x c :
  name ∈ ["PERMANENTFLAGS" : bytes; "HIGHESTMODSEQ" : bytes; "MAILBOXID" : bytes] ->
  cl_view (processUntagged handler ("OK [" ++ name ++ " " ++ x ++ "] ") c) = cl_view c.
Proof.
  intros Hin.
  assert (forallb graphic name = true /\ "]"%char ∉ name /\ " "%char ∉ name /\ ascii_string name = true) as (H1 & H2 & H3 & H4).
  { repeat (apply elem_of_cons in Hin as [->|Hin]; [by split_and!; try done; apply (bool_decide_unpack _)|]).
    by apply elem_of_nil in Hin. }
  destruct (code_line name x c H1 H2) as (y & _ & ->). rewrite handle_code by done. destruct c.
  repeat (apply elem_of_cons in Hin as [->|Hin]; [cbv zeta; by eval_words|]). by apply elem_of_nil in Hin.
Qed.

Lemma view_on_view f c : cl_view (on_view f c) = f (cl_view c).
Proof. by destruct c. Qed.
Lemma flags_line x c : cl_view (processUntagged handler ("FLAGS " ++ x) c) = cl_view c.
Proof.
  change ("FLAGS " ++ x) with ("FLAGS" ++ " " ++ x).
  rewrite processUntagged_word by (done || by apply (bool_decide_unpack _)). unfold named_response.
  change ("FLAGS" ++ " " ++ x) with (("FLAGS " : bytes) ++ x).
  rewrite ToUpper_app, (ToUpper_ascii "FLAGS ") by done. by destruct c, (ToUpper x).
Qed.
Lemma exists_line n c :
  0 <= n < 2 ^ 32 -> cl_view (processUntagged handler (FormatUint n ++ " EXISTS") c) = set_messages n (cl_view c).
Proof.
  intros Hn. change (" EXISTS" : bytes) with (" " ++ "EXISTS" : bytes). rewrite processUntagged_number by done.
  unfold processNumericResponse. rewrite ToUpper_ascii by done. destruct c. by destruct (uh_Exists handler).
Qed.
Lemma recent_line n c :
  0 <= n < 2 ^ 32 -> cl_view (processUntagged handler (FormatUint n ++ " RECENT") c) = set_recent n (cl_view c).
Proof.
  intros Hn. change (" RECENT" : bytes) with (" " ++ "RECENT" : bytes). rewrite processUntagged_number by done.
  unfold processNumericResponse. rewrite ToUpper_ascii by done. destruct c. by destruct (uh_Recent handler).
Qed.
End Lines.

Section EndToEnd.
Context {U : Unicode} {Sess : Type} {B : Backend Sess}.
Context (opts : Options) (ord : nat -> list bytes -> list bytes) (handler : UnilateralDataHandler).
Abbreviation exchange := (exchange opts ord).

(** ** SELECT *)
Definition flag_list (flags : list bytes) : bytes := Enc.EncList flags [].
Definition select_lines (d : SelectData) : list bytes :=
  let code (name n : bytes) := "OK [" ++ name ++ " " ++ n ++ "] " in
  [ "FLAGS " ++ flag_list (sel_Flags d);
    FormatUint (sel_NumMessages d) ++ " EXISTS";
    FormatUint (sel_NumRecent d) ++ " RECENT";
    code "UIDVALIDITY" (FormatUint (sel_UIDValidity d));
    code "UIDNEXT" (FormatUint (sel_UIDNext d)) ]
  ++ (if bool_decide (sel_PermanentFlags d <> []) then [code "PERMANENTFLAGS" (flag_list (sel_PermanentFlags d))] else [])
  ++ (if 0 <? sel_FirstUnseen d then [code "UNSEEN" (FormatUint (sel_FirstUnseen d))] else [])
  ++ (if 0 <? sel_HighestModSeq d then [code "HIGHESTMODSEQ" (FormatUint (sel_HighestModSeq d))] else [])
  ++ (if nonempty (sel_MailboxID d) then [code "MAILBOXID" ("(" ++ sel_MailboxID d ++ ")")] else []).

Lemma select_written d : (fun fn => fn []) <$> select_writes d = untagged_line <$> select_lines d.
Proof.
  assert (forall p l q, (Enc.Flags l (p ++ q) : bytes) = p ++ q ++ flag_list l) as HL.
  { intros. unfold Enc.Flags. by rewrite Wire.EncList_app, <- app_assoc. }
  unfold select_writes, select_lines, when. rewrite !fmap_app.
  f_equal; [|f_equal; [|f_equal; [|f_equal]]]; try case_if; rewrite ?fmap_cons, ?fmap_nil; try done.
  all: repeat match goal with |- _ :: _ = _ :: _ => apply f_equal2 end; try done.
  all: unfold untagged_line, Enc.NumResponse, Enc.ResponseCode, Enc.RawString, Enc.CRLF, Enc.SP, Enc.Atom, Enc.Star, Enc.Number.
  all: cbn [fmap list_fmap concat]; rewrite ?HL, ?app_nil_l, ?app_nil_r, <- ?app_assoc; try done.
  change (" "%char :: ?x) with (" " ++ x). by rewrite <- !app_assoc.
Qed.

Definition select_view (d : SelectData) (v : View) : View :=
  mkView (v_state v) (v_caps v) (v_mailboxName v) (sel_NumMessages d) (sel_NumRecent d) (sel_UIDValidity d)
    (sel_UIDNext d) (if 0 <? sel_FirstUnseen d then sel_FirstUnseen d else v_unseen v) (v_readOnly v).

(** The numbers of a SELECT are 32 bits wide. *)
Definition select_numbers (d : SelectData) : Prop :=
  Forall (fun n => 0 <= n < 2 ^ 32)
    [sel_NumMessages d; sel_NumRecent d; sel_UIDValidity d; sel_UIDNext d; sel_FirstUnseen d].
(** Flags go without literals, and an identifier without line feeds. *)
Definition select_texts (d : SelectData) : Prop :=
  Forall (fun f => NeedsLiteral f = false) (sel_Flags d ++ sel_PermanentFlags d) /\ LF ∉ sel_MailboxID d /\
  0 <= sel_HighestModSeq d.

Lemma select_absorbed d c :
  select_numbers d -> cl_view (absorb handler (select_lines d) c) = select_view d (cl_view c).
Proof.
  intros HF. unfold select_numbers in HF. rewrite !list.Forall_cons in HF.
  destruct HF as (H1 & H2 & H3 & H4 & H5 & _). unfold absorb, select_lines. rewrite !foldl_app. cbn [foldl].
  rewrite !number_code by (done || set_solver). set (c0 := on_view _ (on_view _ _)).
  assert (cl_view c0 = set_uidNext (sel_UIDNext d) (set_uidValidity (sel_UIDValidity d)
    (set_recent (sel_NumRecent d) (set_messages (sel_NumMessages d) (cl_view c))))) as Hv.
  { subst c0. by rewrite !view_on_view, recent_line, exists_line, flags_line. }
  assert (forall (b : bool) name x c1, name ∈ ["PERMANENTFLAGS" : bytes; "HIGHESTMODSEQ" : bytes; "MAILBOXID" : bytes] ->
    cl_view (foldl (fun c l => processUntagged handler l c) c1 (if b then ["OK [" ++ name ++ " " ++ x ++ "] "] else []))
    = cl_view c1) as Hother.
  { intros [] name x c1 Hin; [by apply other_code|done]. }
  rewrite !Hother by set_solver. unfold select_view. destruct (0 <? sel_FirstUnseen d).
  - cbn [foldl]. rewrite number_code by (done || set_solver). rewrite view_on_view, Hother, Hv by set_solver. by destruct (cl_view c).
  - cbn [foldl]. rewrite Hother, Hv by set_solver. by destruct (cl_view c).
Qed.

Lemma literal_free_LF s : NeedsLiteral s = false -> LF ∉ s.
Proof.
  intros H Hin. apply not_true_iff_false in H. apply H, existsb_exists. exists LF.
  split; [by apply list_elem_of_In|done].
Qed.
Lemma EncString_LF s : NeedsLiteral s = false -> LF ∉ Enc.EncString s [].
Proof.
  intros H. pose proof (literal_free_LF s H) as Hs. unfold Enc.EncString. rewrite H. case_if; [|done].
  unfold Enc.QuotedString. rewrite !elem_of_app, !list_elem_of_singleton. intros [[]%elem_of_nil|[?|[H1|?]]]; [done| |done].
  by apply escape_notin in H1.
Qed.
Lemma flag_list_LF l : Forall (fun f => NeedsLiteral f = false) l -> LF ∉ flag_list l.
Proof.
  intros HF. unfold flag_list, Enc.EncList. rewrite elem_of_app, list_elem_of_singleton. intros [H|]; [|done].
  assert (forall b e, LF ∉ e -> LF ∉ Enc.items b l e) as Hi.
  { clear H. induction HF as [|f l Hf _ IH]; intros b e He; [done|]. cbn [Enc.items]. apply IH.
    rewrite Wire.EncString_app, elem_of_app. intros [H|H]; [|by apply EncString_LF in H].
    destruct b; [done|]. unfold Enc.SP in H. apply elem_of_app in H as [H|H]; [done|by apply list_elem_of_singleton in H]. }
  revert H. apply Hi. by apply (bool_decide_unpack _).
Qed.
Lemma FormatUint_LF n : 0 <= n -> LF ∉ FormatUint n.
Proof. intros. by apply graphic_not; [apply FormatUint_graphic|]. Qed.

Lemma select_lines_LF d : select_numbers d -> select_texts d -> Forall (fun l => LF ∉ l) (select_lines d).
Proof.
  intros HF (Hfl & Hid & Hmod). unfold select_numbers in HF. rewrite !list.Forall_cons in HF.
  destruct HF as (H1 & H2 & H3 & H4 & H5 & _). apply list.Forall_app in Hfl as [Hfl Hpf].
  assert (forall name x, LF ∉ name -> LF ∉ x -> LF ∉ ("OK [" ++ name ++ " " ++ x ++ "] " : bytes)) as Hcode.
  { intros name x Hn Hx. rewrite !not_elem_of_app. split_and!; try done; by apply (bool_decide_unpack _). }
  assert (forall x y : bytes, LF ∉ x -> LF ∉ y -> LF ∉ x ++ y) as Happ by (intros; by rewrite not_elem_of_app).
  unfold select_lines. rewrite !list.Forall_app, !list.Forall_cons.
  split_and!; try case_if; rewrite ?list.Forall_singleton; try constructor.
  all: repeat first [apply Hcode | by apply flag_list_LF | apply Happ | apply FormatUint_LF; lia | done
                    | by apply (bool_decide_unpack _)].
Qed.

Lemma written fns (c : Conn) :
  foldl (fun c fn => Encode fn c) c fns =
  mkConn (c_in c) (c_tls c) (c_out c ++ ((fun fn => fn []) <$> fns)) (c_state c) (c_enabled c) (c_isTLS c)
    (c_mailbox c) (c_readOnly c) (c_closed c) (c_ticks c).
Proof.
  revert c. induction fns as [|fn fns IH]; intros c; [destruct c; cbn; by rewrite app_nil_r|].
  cbn [foldl]. rewrite IH. cbn. by rewrite <- app_assoc.
Qed.

(** Dropping what was kept from before. *)
Lemma exchange_collect {A} (k : list bytes -> St Client A) c s r c' s' :
  exchange (k (cl_untagged c)) (set_untagged [] c) s r c' s' -> exchange (collectUntagged ≫= k) c s r c' s'.
Proof.
  intros (line & ws & H1 & H2 & H3 & H4 & H5 & H6). exists line, ws. split_and!; try done.
  - destruct c. exact H4.
  - destruct c. exact H5.
Qed.

(** A command that keeps the untagged lines it gets, and what it does with them. *)
Lemma exchange_data {A} name (h : Handler Sess) args c s s' ls code text (k : commandResult -> St Client A) r c' :
  let tag := (Next c).1 in
  let rest := Join args " " in
  (name, h) ∈ builtins opts ord -> permitted (conn_State (cs_conn s)) name = true -> ready c ->
  Forall (fun a => LF ∉ a) args ->
  (let '(r, h') := h (mkContext tag name NumKindSeq (negb (rest =s [])))
                     (mkH rest (set_in [] (cs_conn s)) (cs_sess s)) in finish tag r h') = (Ok tt, s') ->
  c_out (cs_conn s') = c_out (cs_conn s) ++ (untagged_line <$> ls) ++ [Enc.StatusResponse tag "OK" code text []] ->
  c_in (cs_conn s') = [] -> Forall (fun l => LF ∉ l) ls -> clean_reply code text ->
  (let c1 := absorb handler ls (sent (command_line tag name args) (set_untagged [] c)) in
   k (mkResult "OK" code text None) c1 = (r, c') /\ cl_wire c' = cl_wire c1) ->
  exchange (_ ← collectUntagged; result ← execute_ok handler name args; k result) c s r c' s'.
Proof.
  intros tag rest Hin Hp Hready HA Hrun Hout Hc Hls Hcl [Hk Hw].
  apply exchange_collect. eapply exchange_bind; [|exact Hk|exact Hw]. unfold execute_ok.
  assert ((Next (set_untagged [] c)).1 = tag) as Ht by by destruct c.
  eapply exchange_bind.
  - eapply (exchange_execute opts ord handler name h args (set_untagged [] c) s s' ls "OK" code text); try done.
    all: rewrite ?Ht; first [done | by destruct c | by apply (bool_decide_unpack _)].
  - cbn [cr_status]. by rewrite Ht.
  - by rewrite Ht.
Qed.

(** A connection that is authenticated, with or without a mailbox, and has the
    state machine connections are created with. *)
Definition authenticated (c : Conn) : Prop :=
  exists st, st ∈ auth_states /\ c_state c = set_state (ConnState.New ConnStateNotAuthenticated) st.

Lemma select_transition st :
  st ∈ auth_states ->
  Transition ConnStateSelected (set_state (ConnState.New ConnStateNotAuthenticated) st) =
  (Ok tt, set_state (ConnState.New ConnStateNotAuthenticated) ConnStateSelected).
Proof. unfold auth_states. intros [->|[->|[]%elem_of_nil]%elem_of_cons]%elem_of_cons; reflexivity. Qed.

Definition select_name (ro : bool) : bytes := if ro then "EXAMINE" else "SELECT".

(** [C3] Selecting or examining a mailbox through the client, over any backend
    and from any authenticated connection: the backend gets the name and the mode
    of the call, both sides end up with that mailbox selected and with nothing
    left unread, and the client reports the numbers of the backend.  Two fields
    it reports are not those of the mailbox: without unseen messages [FirstUnseen]
    is the one of the mailbox selected before, and [ReadOnly] is whatever it was
    before, because the client does not look at the code of the tagged reply. *)
Theorem select_end_to_end (ro : bool) (mb : bytes) (c : Client) (s : CState Sess) (d : SelectData) (sess' : Sess) :
  ready c -> authenticated (cs_conn s) -> readable_arg mb = true -> LF ∉ mb ->
  bk_Select mb (Some (select_options ro)) (cs_sess s) = (Ok d, sess') ->
  select_numbers d -> select_texts d ->
  let v := cl_view c in
  exists c' s', exchange (Client.Select handler mb (Some (select_options ro))) c s
    (Ok (mkSelectData [] [] (sel_NumMessages d) (sel_NumRecent d) (sel_UIDNext d) (sel_UIDValidity d)
           (if 0 <? sel_FirstUnseen d then sel_FirstUnseen d else v_unseen v) 0 (v_readOnly v) [] None))
    c' s' /\
  v_state (cl_view c') = ConnStateSelected /\ v_mailboxName (cl_view c') = mb /\
  conn_State (cs_conn s') = ConnStateSelected /\ c_mailbox (cs_conn s') = mb /\
  c_readOnly (cs_conn s') = sel_ReadOnly d /\ cs_sess s' = sess'.
Proof.
  intros Hready (st & Hst & Hm) Hmb Hlf Hb Hnum Htxt v. set (tag := (Next c).1).
  set (ctx := mkContext tag (select_name ro) NumKindSeq true).
  destruct (handleSelect ro ctx (mkH (quoteArg mb) (set_in [] (cs_conn s)) (cs_sess s))) as [r h'] eqn:Eh.
  assert (r = Ok tt /\ h_sess h' = sess' /\ c_in (h_conn h') = [] /\ conn_State (h_conn h') = ConnStateSelected /\
    c_mailbox (h_conn h') = mb /\ c_readOnly (h_conn h') = sel_ReadOnly d /\
    c_out (h_conn h') = c_out (cs_conn s) ++ (untagged_line <$> select_lines d) ++
      [Enc.StatusResponse tag "OK" (if sel_ReadOnly d then "READ-ONLY" else "READ-WRITE" : bytes) "SELECT completed" []])
    as (-> & H1 & H2 & H3 & H4 & H5 & H6).
  { unfold handleSelect in Eh.
    assert (forall text (h : HState Sess), need_args ctx text h = (Ok tt, h)) as Hneed by done.
    rewrite (st_bind_ok _ _ _ _ _ (Hneed _ _)) in Eh.
    rewrite (st_bind_ok _ _ _ _ _ (read_last mb _ (set_in [] (cs_conn s)) (cs_sess s) Hmb)) in Eh.
    rewrite (st_bind_ok _ _ _ _ _ (asked _ _ _ _ _ _ Hb)) in Eh.
    pose proof (select_written d) as Hw. set (ws := select_writes d) in *. clearbody ws.
    unfold write_all, on_conn, SetState, write, mbind, st_bind in Eh. rewrite written, Hw in Eh.
    cbn [h_conn h_args h_sess SetMailbox c_state set_in] in Eh. rewrite Hm, select_transition in Eh by done.
    cbn in Eh. injection Eh as <- <-. cbn. split_and!; try done. by rewrite <- app_assoc. }
  set (c1 := absorb handler (select_lines d) (sent (command_line tag (select_name ro) [quoteArg mb]) (set_untagged [] c))).
  assert (cl_view c1 = select_view d v) as Hv by (subst c1; rewrite select_absorbed by done; by destruct c).
  exists (on_view (fun v => set_box mb (set_vstate ConnStateSelected v)) c1), (mkCS (h_conn h') (h_sess h')).
  split; [|split_and!; [by rewrite view_on_view, Hv..|exact H3|exact H4|exact H5|exact H1]].
  apply (exchange_data (select_name ro) (handleSelect ro) [quoteArg mb] c s _ (select_lines d)
    (if sel_ReadOnly d then "READ-ONLY" else "READ-WRITE" : bytes) "SELECT completed").
  - unfold builtins. destruct ro; repeat ((by left) || right).
  - unfold permitted, conn_State. rewrite Hm. by destruct ro; apply bool_decide_eq_true.
  - done.
  - by apply list.Forall_singleton, quoteArg_notin.
  - cbn [Join]. rewrite (bool_decide_false (quoteArg mb = [])) by apply quoteArg_ne.
    cbn [negb]. fold tag ctx. by rewrite Eh.
  - exact H6.
  - exact H2.
  - by apply select_lines_LF.
  - destruct (sel_ReadOnly d); split_and!; by apply (bool_decide_unpack _).
  - fold tag c1. split; [|by destruct c1]. unfold modify, mbind, st_bind, st_get. by rewrite view_on_view, Hv.
Qed.
End EndToEnd.
