(* ===== verification/DataExchange.v ===== *)
(** * SEARCH, STATUS and LIST end to end

    The lines of data the server writes for these commands and what the client
    makes of them. *)

From S2P Require Import Prelude Utf8 GoStrings GoTime NumSet Imap Decoder Encoder Wire Writers.
From S2P Require Import ConnState Conn Commands Dispatch Replies Gate.
From S2P Require Import ClientParse Client ClientFacts Exchange EndToEnd.

(** ** Fields *)
Definition word (w : bytes) : Prop := w <> [] /\ forallb graphic w = true.

Lemma trim_graphic c s : graphic c = true -> trim_left1 spaces (c :: s) = None.
Proof.
  intros Hc. unfold trim_left1. destruct (List.find (HasPrefix (c :: s)) spaces) as [w|] eqn:E; [|done].
  apply List.find_some in E as [Hin Hp].
  assert (forallb ws_ok spaces = true) as HF by by vm_compute. rewrite forallb_forall in HF.
  specialize (HF w Hin). destruct w as [|d w]; [done|]. cbn in HF, Hp. to_prop. congruence.
Qed.
Lemma trim_space s : trim_left1 spaces (" "%char :: s) = Some s.
Proof. by destruct s. Qed.

Lemma fields_word fuel w cur rest :
  forallb graphic w = true -> fields_go (length w + fuel) cur (w ++ rest) = fields_go fuel (cur ++ w) rest.
Proof.
  revert cur. induction w as [|c w IH]; intros cur Hw; [by rewrite app_nil_r|].
  cbn [forallb] in Hw. to_prop. cbn [length app Nat.add fields_go]. rewrite trim_graphic by done.
  rewrite IH by done. by rewrite <- app_assoc.
Qed.
Lemma Fields_join ws : Forall word ws -> Fields (Join ws " ") = ws.
Proof.
  intros HF. unfold Fields. induction HF as [|w ws [Hne Hw] HF IH]; [done|].
  assert (flush_field w = [w]) as Hfl by (unfold flush_field; by rewrite bool_decide_false).
  cbn [Join]. destruct ws as [|w' ws].
  - pose proof (fields_word 0 w [] [] Hw) as H. rewrite app_nil_r, Nat.add_0_r in H. rewrite H. exact Hfl.
  - rewrite length_app, fields_word by done. cbn [app length]. change (" " ++ ?x) with (" "%char :: x).
    cbn [length fields_go app]. rewrite trim_space. by rewrite IH, Hfl.
Qed.

Section Data.
Context {U : Unicode} {Sess : Type} {B : Backend Sess}.
Context (opts : Options) (ord : nat -> list bytes -> list bytes) (handler : UnilateralDataHandler).
Abbreviation exchange := (exchange opts ord).

(** ** SEARCH *)
Definition search_words (d : SearchData) : list bytes :=
  ("SEARCH" : bytes) :: (FormatUint <$> sd_AllSeqNums d)
  ++ (if 0 <? sd_ModSeq d then ["(MODSEQ" : bytes; FormatUint (sd_ModSeq d) ++ ")"] else []).

(** A word and the space before it. *)
Definition led (w : bytes) : bytes := " "%char :: w.
Lemma Join_cons w ws : Join (w :: ws) " " = w ++ concat (led <$> ws).
Proof.
  revert w. induction ws as [|x ws IH]; intros w; [cbn; by rewrite app_nil_r|].
  cbn [Join]. cbn [Join] in IH. rewrite IH, fmap_cons. cbn [concat]. done.
Qed.

Lemma search_written tag d :
  search_response (mkContext tag "SEARCH" NumKindSeq true) d [] = untagged_line (Join (search_words d) " ").
Proof.
  unfold search_response, search_words, untagged_line. cbn [x_NumKind]. rewrite Join_cons, fmap_app, concat_app.
  assert (forall l e, foldl (fun e n => Enc.Number n (Enc.SP e)) e l =
    e ++ concat (led <$> (FormatUint <$> l))) as Hf.
  { induction l as [|n l IH]; intros e; [cbn; by rewrite app_nil_r|]. cbn [foldl]. rewrite IH.
    rewrite !fmap_cons. cbn [concat]. unfold Enc.Number, Enc.SP. by rewrite <- !app_assoc. }
  rewrite Hf. unfold Enc.Star, Enc.Atom, Enc.CRLF, Enc.SP, Enc.BeginList, Enc.EndList, Enc.Number64.
  destruct (0 <? sd_ModSeq d); cbn [fmap list_fmap concat]; rewrite ?app_nil_l, ?app_nil_r, <- ?app_assoc; [|done].
  do 3 f_equal. cbn. by rewrite <- app_assoc.
Qed.

Definition search_numbers (d : SearchData) : Prop :=
  Forall (fun n => 0 <= n < 2 ^ 32) (sd_AllSeqNums d) /\ 0 <= sd_ModSeq d < 2 ^ 64.

Lemma number_word n : 0 <= n -> word (FormatUint n).
Proof. intros. split; [apply FormatUint_ne|by apply FormatUint_graphic]. Qed.
Lemma search_words_ok d : search_numbers d -> Forall word (search_words d).
Proof.
  intros [HF Hm]. unfold search_words. constructor; [done|]. apply list.Forall_app. split.
  - apply list.Forall_fmap. eapply list.Forall_impl; [exact HF|]. intros n [Hn _]. by apply number_word.
  - case_if; repeat constructor; try done; [by destruct (FormatUint (sd_ModSeq d))|].
    rewrite forallb_app, FormatUint_graphic by lia. done.
Qed.

Lemma numbers_app l k : numbers (l ++ k) = numbers l ++ numbers k.
Proof. unfold numbers. apply omap_app. Qed.
Lemma numbers_format l : Forall (fun n => 0 <= n < 2 ^ 32) l -> numbers (FormatUint <$> l) = l.
Proof.
  induction 1 as [|n l Hn _ IH]; [done|]. rewrite fmap_cons. unfold numbers in *. cbn [omap list_omap].
  rewrite ParseUint_FormatUint by lia. by rewrite IH.
Qed.
Lemma parse_go_suffix mv n s c : digit_val c = None -> exists e, parse_go mv n (s ++ [c]) = inl e.
Proof.
  intros Hc. rewrite parse_go_app. destruct (parse_go mv n s); [by eauto|]. cbn. rewrite Hc. eauto.
Qed.
Lemma search_numbers_read d :
  search_numbers d -> numbers (search_words d) = sd_AllSeqNums d.
Proof.
  intros [HF Hm]. unfold search_words. rewrite (numbers_app [_] _ : numbers (_ :: _) = _), numbers_app, numbers_format by done.
  change (numbers ["SEARCH" : bytes]) with (@nil Z). cbn [app]. rewrite <- (app_nil_r (sd_AllSeqNums d)) at 2. f_equal.
  case_if; [|done]. rewrite (numbers_app [_] [_] : numbers [_; _] = _). change (numbers ["(MODSEQ" : bytes]) with (@nil Z).
  cbn [app]. unfold numbers. cbn [omap list_omap]. unfold ParseUint, parse_uint.
  destruct (parse_go_suffix (2 ^ 32 - 1) 0 (FormatUint (sd_ModSeq d)) ")") as [e He]; [done|].
  change (FormatUint (sd_ModSeq d) ++ ")") with (FormatUint (sd_ModSeq d) ++ [")"%char]). rewrite He. by destruct (FormatUint _ ++ _).
Qed.

(** What SEARCH leaves with the client. *)
Lemma search_line d c :
  processUntagged handler (Join (search_words d) " ") c = storeUntagged ("SEARCH " ++ Join (search_words d) " ") c.
Proof.
  unfold search_words. cbn [Join]. set (ws := _ ++ _). destruct ws as [|w ws].
  - unfold processUntagged. change (IndexByte "SEARCH" " ") with (@None nat). cbn iota.
    unfold named_response. rewrite ToUpper_ascii by done. done.
  - rewrite processUntagged_word by (done || by apply (bool_decide_unpack _)). set (x := Join (w :: ws) " ").
    unfold named_response. change ("SEARCH" ++ " " ++ x) with (("SEARCH " : bytes) ++ x).
    rewrite ToUpper_app, (ToUpper_ascii "SEARCH ") by done. by destruct (ToUpper x).
Qed.

Lemma stored_line line rest c :
  (forall c, processUntagged handler line c = storeUntagged rest c) ->
  cl_untagged (absorb handler [line] (set_untagged [] c)) = [rest] /\
  cl_view (absorb handler [line] (set_untagged [] c)) = cl_view c.
Proof. intros H. cbn [absorb foldl]. rewrite H. by destruct c. Qed.
Lemma sent_collected line c : sent line (set_untagged [] c) = set_untagged [] (sent line c).
Proof. by destruct c. Qed.

(** A command whose answer is data the client keeps and then parses. *)
Lemma exchange_stored {A} name (h : Handler Sess) args c s r' h' lines kept done (k : list bytes -> res A) :
  let tag := (Next c).1 in
  (name, h) ∈ builtins opts ord -> permitted (conn_State (cs_conn s)) name = true -> ready c ->
  Forall (fun a => LF ∉ a) args -> Join args " " <> [] ->
  h (mkContext tag name NumKindSeq true) (mkH (Join args " ") (set_in [] (cs_conn s)) (cs_sess s)) = (Ok r', h') ->
  c_out (h_conn h') = c_out (cs_conn s) ++ (untagged_line <$> lines) ++ [Enc.StatusResponse tag "OK" [] done []] ->
  c_in (h_conn h') = [] -> Forall (fun l => LF ∉ l) lines -> clean_reply [] done ->
  (forall c, absorb handler lines c = set_untagged (cl_untagged c ++ kept) c) ->
  exists c', exchange (_ ← collectUntagged; _ ← execute_ok handler name args; untagged ← collectUntagged; of_res (k untagged))
    c s (k kept) c' (mkCS (h_conn h') (h_sess h')) /\ cl_view c' = cl_view c.
Proof.
  intros tag Hin Hp Hready HA Hne Hrun Hout Hc Hls Hcl Hkept.
  exists (sent (command_line tag name args) (set_untagged [] c)). split; [|by destruct c].
  eapply (exchange_data opts ord handler name h args c s _ lines [] done); try done.
  - rewrite (bool_decide_false (Join args " " = [])) by done. cbn [negb]. fold tag. by rewrite Hrun.
  - rewrite Hkept. by destruct c.
Qed.

(** [C18] A search through the client, over any backend: for criteria the server
    parses, the backend is asked for exactly those, and the client returns exactly
    the sequence numbers the backend found, with or without a modification
    sequence after them. *)
Theorem search_end_to_end (criteria rest : bytes) (crit : SearchCriteria) (c : Client) (s : CState Sess)
    (d : SearchData) (sess' : Sess) :
  ready c -> conn_State (cs_conn s) = ConnStateSelected -> criteria <> [] -> LF ∉ criteria ->
  parseSearchCriteria criteria0 criteria = (Ok crit, rest) ->
  bk_Search NumKindSeq (Some crit) (Some search_options0) (cs_sess s) = (Ok d, sess') ->
  search_numbers d ->
  exists c' s', exchange (Client.Search handler criteria) c s (Ok (sd_AllSeqNums d)) c' s' /\
    cs_sess s' = sess' /\ cl_view c' = cl_view c.
Proof.
  intros Hready Hst Hne Hlf Hparse Hb Hnum. set (tag := (Next c).1).
  set (ctx := mkContext tag "SEARCH" NumKindSeq true).
  destruct (Commands.Search ctx (mkH criteria (set_in [] (cs_conn s)) (cs_sess s))) as [r h'] eqn:Eh.
  assert (r = Ok tt /\ h_sess h' = sess' /\ c_in (h_conn h') = [] /\
    c_out (h_conn h') = c_out (cs_conn s) ++ [untagged_line (Join (search_words d) " ")] ++
      [Enc.StatusResponse tag "OK" [] "SEARCH completed" []]) as (-> & H1 & H2 & H3).
  { unfold Commands.Search in Eh.
    assert (forall text (h : HState Sess), need_args ctx text h = (Ok tt, h)) as Hneed by done.
    rewrite (st_bind_ok _ _ _ _ _ (Hneed _ _)) in Eh.
    assert (forall f, on_err (arg (parseSearchCriteria criteria0)) f (mkH criteria (set_in [] (cs_conn s)) (cs_sess s))
      = (Ok crit, mkH rest (set_in [] (cs_conn s)) (cs_sess s))) as Hread.
    { intros f. unfold on_err, arg. cbn [h_args]. by rewrite Hparse. }
    rewrite (st_bind_ok _ _ _ _ _ (Hread _)), (st_bind_ok _ _ _ _ _ (asked _ _ _ _ _ _ Hb)) in Eh.
    unfold write, ok, on_conn, mbind, st_bind in Eh. injection Eh as <- <-. cbn -[search_response Enc.StatusResponse].
    rewrite (search_written tag d : search_response ctx d [] = _), <- app_assoc. done. }
  destruct (exchange_stored "SEARCH" Commands.Search [criteria] c s tt h' [Join (search_words d) " "]
    ["SEARCH " ++ Join (search_words d) " "] "SEARCH completed" (fun l => Ok (parseSearchResults l))) as (c' & Hx & Hv); try done.
  - unfold builtins. repeat ((by left) || right).
  - by rewrite Hst.
  - by apply list.Forall_singleton.
  - apply list.Forall_singleton, Join_notin; [done|]. eapply list.Forall_impl; [by apply search_words_ok|].
    intros w [_ Hw]. by apply graphic_not.
  - by split_and!; apply (bool_decide_unpack _).
  - intros c0. cbn [absorb foldl]. rewrite search_line. by destruct c0.
  - exists c', (mkCS (h_conn h') (h_sess h')). split_and!; [|done..].
    unfold parseSearchResults in Hx. cbn [with_prefix omap list_omap] in Hx. rewrite HasPrefix_app in Hx.
    change (drop (length ("SEARCH " : bytes)) ("SEARCH " ++ ?x)) with x in Hx. cbn [fmap list_fmap concat] in Hx.
    rewrite Fields_join, app_nil_r, search_numbers_read in Hx by (done || by apply search_words_ok). exact Hx.
Qed.

(** ** STATUS *)

(** Lists of atoms, as the client writes and the server reads them. *)
Lemma atoms_loop atoms acc fuel rest :
  Forall (fun a => a <> [] /\ forallb isAtomChar a = true) atoms -> (length atoms < fuel)%nat ->
  list_loop fuel false ReadAtom acc (concat (led <$> atoms) ++ ")"%char :: rest)
  = (Ok (acc ++ atoms), rest).
Proof.
  intros HF. revert acc fuel. induction HF as [|a atoms [Hne Ha] _ IH]; intros acc fuel Hfuel;
    (destruct fuel as [|fuel]; [cbn in Hfuel; lia|]); cbn [list_loop].
  - unfold mbind, st_bind. cbn. by rewrite app_nil_r.
  - rewrite fmap_cons. cbn [concat app]. rewrite <- app_assoc. set (tail := concat _ ++ _).
    rewrite (st_bind_ok _ _ _ (" "%char :: a ++ tail) " "%char) by done. eval_beq. cbn iota.
    rewrite (st_bind_ok _ _ _ (a ++ tail) tt) by done.
    rewrite (st_bind_ok _ _ _ tail a); [|apply ReadAtom_app; [done..|]].
    + rewrite IH by (cbn in Hfuel; lia). by rewrite <- app_assoc.
    + subst tail. destruct atoms; [done|]. by rewrite fmap_cons.
Qed.
Lemma atoms_read atoms rest :
  Forall (fun a => a <> [] /\ forallb isAtomChar a = true) atoms -> atoms <> [] ->
  ReadList ReadAtom (parens atoms ++ rest) = (Ok atoms, rest).
Proof.
  intros HF Hne. destruct HF as [|a atoms [Ha Hac] HF]; [done|]. unfold parens. rewrite Join_cons.
  set (tail := concat _). replace (("(" ++ (a ++ tail) ++ ")") ++ rest) with ("("%char :: a ++ tail ++ ")"%char :: rest)
    by (cbn [app]; by rewrite <- !app_assoc).
  unfold ReadList. rewrite (st_bind_ok _ _ _ (a ++ tail ++ ")"%char :: rest) tt) by done.
  rewrite (st_bind_ok _ _ _ (a ++ tail ++ ")"%char :: rest) (a ++ tail ++ ")"%char :: rest)) by done.
  set (fuel := (length (a ++ tail ++ ")"%char :: rest) + 1)%nat).
  replace (_ + 2)%nat with (S fuel) by (subst fuel; lia). cbn [list_loop]. destruct a as [|b a]; [done|]. cbn [forallb] in Hac. to_prop.
  cbn [app]. rewrite (st_bind_ok _ _ _ (b :: a ++ tail ++ ")"%char :: rest) b) by done.
  rewrite (proj2 (beqb_false b ")"%char)) by (by intros ->).
  rewrite (st_bind_ok _ _ _ (b :: a ++ tail ++ ")"%char :: rest) tt) by done.
  change (b :: a ++ ?x) with ((b :: a) ++ x).
  rewrite (st_bind_ok _ _ _ (tail ++ ")"%char :: rest) (b :: a)).
  2: { apply ReadAtom_app; [done|cbn [forallb]; by rewrite H|]. subst tail. by destruct HF. }
  subst tail. change ([] ++ [b :: a]) with [b :: a]. rewrite atoms_loop; [done|done|].
  assert (length atoms <= length (concat (led <$> atoms)))%nat as Hl.
  { clear. induction atoms as [|a l IH]; [done|]. rewrite fmap_cons. cbn [concat length]. rewrite length_app. cbn. lia. }
  subst fuel. rewrite !length_app. cbn. lia.
Qed.

(** The items of a STATUS response. *)
Definition status_item_list (d : StatusData) : list (bytes * Z) :=
  let item (name : bytes) (o : option Z) := match o with Some n => [(name, n)] | None => [] end in
  item "MESSAGES" (sa_NumMessages d) ++ item "UIDNEXT" (sa_UIDNext d) ++ item "UIDVALIDITY" (sa_UIDValidity d)
  ++ item "UNSEEN" (sa_NumUnseen d) ++ item "RECENT" (sa_NumRecent d) ++ item "SIZE" (u64 <$> sa_Size d)
  ++ item "APPENDLIMIT" (sa_AppendLimit d) ++ item "DELETED" (sa_NumDeleted d)
  ++ item "HIGHESTMODSEQ" (sa_HighestModSeq d).
Definition item_words (items : list (bytes * Z)) : list bytes :=
  concat ((fun '(name, n) => [name; FormatUint n]) <$> items).
Definition status_name (name : bytes) : bytes := if EqualFold name "INBOX" then "INBOX" else name.
Definition status_line (d : StatusData) : bytes :=
  status_name (sa_Mailbox d) ++ " " ++ parens (item_words (status_item_list d)).

Lemma spaced_items items first e :
  spaced first ((fun '(name, n) e => e |> Enc.Atom name |> Enc.SP |> Enc.Number n) <$> items) e =
  e ++ (if first then Join (item_words items) " " else concat (led <$> item_words items)).
Proof.
  revert first e. induction items as [|[name n] items IH]; intros first e.
  - destruct first; cbn; by rewrite app_nil_r.
  - rewrite fmap_cons. cbn [spaced]. rewrite IH. unfold item_words. rewrite fmap_cons. cbn [concat app].
    fold (item_words items). rewrite Join_cons, !fmap_cons. cbn [concat].
    unfold Enc.Atom, Enc.SP, Enc.Number. destruct first; rewrite <- ?app_assoc; done.
Qed.

Lemma status_written d :
  as_atom (status_name (sa_Mailbox d)) = true -> sa_MailboxID d = [] ->
  status_response d [] = untagged_line ("STATUS " ++ status_line d).
Proof.
  intros Hname Hid. unfold status_response, status_line, parens, untagged_line. rewrite Hid.
  assert (Enc.MailboxName (sa_Mailbox d) (("* " ++ "STATUS") ++ [" "%char]) =
    "* STATUS " ++ status_name (sa_Mailbox d)) as Hm.
  { unfold Enc.MailboxName, status_name in *. destruct (EqualFold _ _); [done|]. unfold Enc.AString, Enc.EncString.
    unfold as_atom in Hname. to_prop. by rewrite H, H0. }
  set (items := _ ++ _).
  assert (items = (fun '(name, n) e => e |> Enc.Atom name |> Enc.SP |> Enc.Number n) <$> status_item_list d) as ->.
  { subst items. unfold status_item_list, when_some. rewrite !fmap_app. cbn [when nonempty negb].
    repeat f_equal; by case_match. }
  rewrite spaced_items. unfold Enc.Star, Enc.Atom, Enc.SP, Enc.BeginList, Enc.EndList, Enc.CRLF. rewrite app_nil_l, Hm.
  rewrite <- !app_assoc. done.
Qed.

Definition within (b : Z) (o : option Z) : Prop := match o with Some n => 0 <= n < b | None => True end.
Definition status_range (d : StatusData) : Prop :=
  within (2 ^ 32) (sa_NumMessages d) /\ within (2 ^ 32) (sa_UIDNext d) /\ within (2 ^ 32) (sa_UIDValidity d) /\
  within (2 ^ 32) (sa_NumUnseen d) /\ within (2 ^ 32) (sa_NumRecent d) /\ within (2 ^ 63) (sa_Size d) /\
  within (2 ^ 32) (sa_AppendLimit d) /\ within (2 ^ 32) (sa_NumDeleted d) /\ within (2 ^ 64) (sa_HighestModSeq d).
(** What the client keeps of a STATUS response. *)
Definition status_seen (d : StatusData) : StatusData :=
  mkStatusData (status_name (sa_Mailbox d)) (sa_NumMessages d) (sa_UIDNext d) (sa_UIDValidity d) (sa_NumUnseen d)
    (sa_NumRecent d) (sa_Size d) None None (sa_HighestModSeq d) [].

Definition status_word (p : bytes * Z) : Prop := word p.1 /\ ToUpper p.1 = p.1 /\ 0 <= p.2 < 2 ^ 64.
Lemma status_items_ok d : status_range d -> Forall status_word (status_item_list d).
Proof.
  intros (H1 & H2 & H3 & H4 & H5 & H6 & H7 & H8 & H9). unfold status_item_list.
  assert (forall name o, word name -> ascii_string name = true -> upper_char <$> name = name ->
    within (2 ^ 64) o ->
    Forall status_word match o with Some n => [(name, n)] | None => [] end) as Hitem.
  { intros name [n|] Hw Ha Hu Hn; [|constructor]. apply list.Forall_singleton. split_and!; [done| |apply Hn..].
    cbn [fst]. by rewrite ToUpper_ascii. }
  rewrite !list.Forall_app. split_and!; apply Hitem; try done.
  all: assert (forall b o, b <= 2 ^ 64 -> within b o -> within (2 ^ 64) o) as Hmono
    by (intros ? [] ?; unfold within; lia).
  all: first [destruct (sa_Size d); [apply Z.mod_pos_bound; lia|done] | by eapply Hmono; [|eassumption]].
Qed.

Lemma pairs_read items d0 :
  Forall status_word items ->
  status_pairs d0 (item_words items) = foldl (fun d '(name, n) => status_value d name n) d0 items.
Proof.
  intros HF. revert d0. induction HF as [|[name n] items (_ & Hu & Hn) _ IH]; intros d0; [done|].
  unfold item_words. rewrite fmap_cons. cbn [concat app]. fold (item_words items). cbn [status_pairs foldl].
  rewrite ParseUint_FormatUint by (cbn in Hn; lia). cbn [fst] in Hu. by rewrite Hu, IH.
Qed.

Lemma item_step name o d d1 :
  (o = None -> d1 = d) -> (forall n, o = Some n -> status_value d name n = d1) ->
  foldl (fun d '(name, n) => status_value d name n) d match o with Some n => [(name, n)] | None => [] end = d1.
Proof. intros H1 H2. destruct o as [n|]; cbn [foldl]; [by apply H2|by rewrite H1]. Qed.
Lemma size_value o n : within (2 ^ 63) o -> u64 <$> o = Some n -> o = Some (i64 n).
Proof. destruct o as [m|]; [|done]. intros Hm [= <-]. unfold within in Hm. rewrite u64_small, i64_small by lia. done. Qed.

(** The side conditions of [item_step]. *)
#[local] Ltac value :=
  match goal with
  | |- _ = None -> _ => intros H; first [done | by rewrite H | by apply fmap_None in H; rewrite H]
  | |- forall n, u64 <$> _ = Some n -> _ => intros n H; apply size_value in H; [by rewrite H|done]
  | |- forall n, _ = Some n -> _ =>
    intros n H; rewrite ?H in *; first [done | unfold within in *; cbn; by rewrite u32_small by lia]
  end.

Lemma status_values d name :
  status_range d ->
  foldl (fun d '(name, n) => status_value d name n) (status_data name) (status_item_list d) =
  mkStatusData name (sa_NumMessages d) (sa_UIDNext d) (sa_UIDValidity d) (sa_NumUnseen d)
    (sa_NumRecent d) (sa_Size d) None None (sa_HighestModSeq d) [].
Proof.
  intros (H1 & H2 & H3 & H4 & H5 & H6 & H7 & H8 & H9). unfold status_item_list, status_data. rewrite !foldl_app.
  rewrite (item_step "MESSAGES" (sa_NumMessages d) _ (mkStatusData name (sa_NumMessages d) None None None None None None None None [])) by value.
  rewrite (item_step "UIDNEXT" (sa_UIDNext d) _ (mkStatusData name (sa_NumMessages d) (sa_UIDNext d) None None None None None None None [])) by value.
  rewrite (item_step "UIDVALIDITY" (sa_UIDValidity d) _ (mkStatusData name (sa_NumMessages d) (sa_UIDNext d) (sa_UIDValidity d) None None None None None None [])) by value.
  rewrite (item_step "UNSEEN" (sa_NumUnseen d) _ (mkStatusData name (sa_NumMessages d) (sa_UIDNext d) (sa_UIDValidity d) (sa_NumUnseen d) None None None None None [])) by value.
  rewrite (item_step "RECENT" (sa_NumRecent d) _ (mkStatusData name (sa_NumMessages d) (sa_UIDNext d) (sa_UIDValidity d) (sa_NumUnseen d) (sa_NumRecent d) None None None None [])) by value.
  rewrite (item_step "SIZE" (u64 <$> sa_Size d) _ (mkStatusData name (sa_NumMessages d) (sa_UIDNext d) (sa_UIDValidity d) (sa_NumUnseen d) (sa_NumRecent d) (sa_Size d) None None None [])) by value.
  rewrite (item_step "APPENDLIMIT" _ _ (mkStatusData name (sa_NumMessages d) (sa_UIDNext d) (sa_UIDValidity d) (sa_NumUnseen d) (sa_NumRecent d) (sa_Size d) None None None [])) by value.
  rewrite (item_step "DELETED" _ _ (mkStatusData name (sa_NumMessages d) (sa_UIDNext d) (sa_UIDValidity d) (sa_NumUnseen d) (sa_NumRecent d) (sa_Size d) None None None [])) by value.
  by rewrite (item_step "HIGHESTMODSEQ" (sa_HighestModSeq d) _ (mkStatusData name (sa_NumMessages d) (sa_UIDNext d) (sa_UIDValidity d) (sa_NumUnseen d) (sa_NumRecent d) (sa_Size d) None None (sa_HighestModSeq d) [])) by value.
Qed.

Lemma Trim1_id c s : c ∉ s -> Trim1 s c = s.
Proof.
  intros Hs. assert (forall s, c ∉ s -> trim_left [[c]] s = s) as Ht.
  { clear. intros s Hs. unfold trim_left. destruct s as [|d s]; [done|]. cbn [length trim_left_go].
    unfold trim_left1. cbn [List.find]. rewrite HasPrefix1. assert ((c =c d) = false) as ->; [|done].
    apply beqb_false. intros ->. apply Hs. left. }
  unfold Trim1, trim_right. rewrite (Ht s) by done. change (reverse <$> [[c]]) with [[c]].
  rewrite Ht; [apply reverse_involutive|]. by rewrite elem_of_reverse.
Qed.

Lemma atom_graphic s : as_atom s = true -> s <> [] /\ forallb graphic s = true /\ DQ ∉ s.
Proof.
  intros [Hne Ha]%as_atom_spec. split; [done|]. rewrite forallb_Forall, list.Forall_forall in Ha. split.
  - apply forallb_Forall, list.Forall_forall. intros c Hc. specialize (Ha c Hc). pose proof (atom_char_ascii c Ha) as [_ Hr].
    unfold graphic. apply in_range_true. destruct (decide (bval c = 32)) as [E|]; [|lia].
    assert (c = " "%char) as -> by by apply bval_inj. done.
  - intros H. by specialize (Ha _ H).
Qed.

Lemma words_of_items items : Forall status_word items -> Forall word (item_words items).
Proof.
  induction 1 as [|[name n] items (Hw & _ & Hn) _ IH]; [constructor|]. unfold item_words. rewrite fmap_cons.
  cbn [concat app]. fold (item_words items). constructor; [exact Hw|]. constructor; [|done]. apply number_word. cbn in Hn. lia.
Qed.

Lemma status_read d :
  as_atom (status_name (sa_Mailbox d)) = true -> status_range d ->
  parseStatusResponse2 (status_line d) = status_seen d.
Proof.
  intros Hname Hr. destruct (atom_graphic _ Hname) as (Hne & Hg & Hq).
  unfold parseStatusResponse2, status_line. set (name := status_name (sa_Mailbox d)) in *.
  set (items := item_words (status_item_list d)). change (" " ++ parens items) with (" "%char :: parens items).
  rewrite IndexByte_app by by apply graphic_not. rewrite take_app_length, Trim1_id by done.
  replace (S (length name)) with (length name + 1)%nat by lia. rewrite <- drop_drop, drop_app_length.
  change (TrimLeftSP (drop 1 (" "%char :: parens items))) with (parens items).
  unfold parens. unfold TrimPrefix. rewrite !HasPrefix_app.
  change (drop (length ("(" : bytes)) ("(" ++ Join items " " ++ ")")) with (Join items " " ++ ")").
  assert (TrimSuffix (Join items " " ++ ")") ")" = Join items " ") as ->.
  { unfold TrimSuffix, HasSuffix. rewrite length_app. change (length (")" : bytes)) with 1%nat.
    rewrite bool_decide_true by lia. replace (length (Join items " ") + 1 - 1)%nat with (length (Join items " ")) by lia.
    rewrite drop_app_length, bool_decide_true by done. cbn [andb]. by rewrite take_app_length. }
  pose proof (status_items_ok d Hr) as Hok.
  subst items. rewrite Fields_join by by apply words_of_items. rewrite pairs_read by done. by apply status_values.
Qed.

Lemma status_store rest c :
  processUntagged handler ("STATUS " ++ rest) c = storeUntagged ("STATUS " ++ rest) c.
Proof.
  change ("STATUS " ++ rest) with ("STATUS" ++ " " ++ rest).
  rewrite processUntagged_word by (done || by apply (bool_decide_unpack _)). unfold named_response.
  change ("STATUS" ++ " " ++ rest) with (("STATUS " : bytes) ++ rest).
  rewrite ToUpper_app, (ToUpper_ascii "STATUS ") by done. by destruct (ToUpper rest).
Qed.

(** What the server asks the backend for: the seven items the client knows, and
    four of them if none is wanted. *)
Definition asked_status (o : option StatusOptions) : StatusOptions :=
  let usual := mkStatusOptions true true true true false false false false false false in
  match o with
  | None => usual
  | Some o =>
    if st_NumMessages o || st_UIDNext o || st_UIDValidity o || st_NumUnseen o || st_NumRecent o || st_Size o
       || st_HighestModSeq o
    then mkStatusOptions (st_NumMessages o) (st_UIDNext o) (st_UIDValidity o) (st_NumUnseen o) (st_NumRecent o)
           (st_Size o) false false (st_HighestModSeq o) false
    else usual
  end.
Lemma status_items_cases o :
  Forall (fun a => a <> [] /\ forallb isAtomChar a = true /\ ToUpper a = a /\ LF ∉ a) (buildStatusItems o) /\
  buildStatusItems o <> [] /\
  foldl status_item status_options0 (buildStatusItems o) = asked_status o.
Proof.
  assert (forall l, Forall (fun a => bool_decide (a ∈ ["MESSAGES" : bytes; "UIDNEXT" : bytes; "UIDVALIDITY" : bytes;
    "UNSEEN" : bytes; "RECENT" : bytes; "SIZE" : bytes; "HIGHESTMODSEQ" : bytes]) = true) l ->
    Forall (fun a => a <> [] /\ forallb isAtomChar a = true /\ ToUpper a = a /\ LF ∉ a) l) as Hl.
  { intros l HF. eapply list.Forall_impl; [exact HF|]. intros a Ha%bool_decide_eq_true.
    repeat (apply elem_of_cons in Ha as [->|Ha]; [by rewrite ToUpper_ascii by done; split_and!; try done; apply (bool_decide_unpack _)|]).
    by apply elem_of_nil in Ha. }
  destruct o as [[[] [] [] [] [] [] a d [] i]|].
  all: (split; [apply Hl; repeat (constructor; [done|]); constructor|by split]).
Qed.

Lemma status_asked mb o e (c : Conn) (s : Sess) :
  readable_arg mb = true ->
  (arg ReadAString ?> e) (mkH (Join [quoteArg mb; parens (buildStatusItems o)] " ") c s) =
    (Ok mb, mkH (" " ++ parens (buildStatusItems o)) c s) /\
  (forall e', (arg (ReadList ReadAtom) ?> e') (mkH (parens (buildStatusItems o)) c s) =
    (Ok (buildStatusItems o), mkH [] c s)).
Proof.
  intros Hmb. split; [exact (read_first mb _ e c s Hmb)|]. intros e'.
  destruct (status_items_cases o) as (HF & Hne & _).
  pose proof (atoms_read (buildStatusItems o) []) as Hr. rewrite app_nil_r in Hr. unfold on_err, arg. cbn [h_args].
  rewrite Hr; [done| |done]. eapply list.Forall_impl; [exact HF|]. naive_solver.
Qed.

Lemma status_handled tag mb o d (c : Conn) (s sess' : Sess) :
  readable_arg mb = true -> bk_Status mb (asked_status o) s = (Ok d, sess') ->
  as_atom (status_name (sa_Mailbox d)) = true -> sa_MailboxID d = [] ->
  exists h', Commands.Status (mkContext tag "STATUS" NumKindSeq true)
    (mkH (Join [quoteArg mb; parens (buildStatusItems o)] " ") c s) = (Ok tt, h') /\
  h_sess h' = sess' /\ c_in (h_conn h') = c_in c /\
  c_out (h_conn h') = c_out c ++ [untagged_line ("STATUS " ++ status_line d)] ++
    [Enc.StatusResponse tag "OK" [] "STATUS completed" []].
Proof.
  intros Hmb Hb Hname Hid. set (ctx := mkContext _ _ _ _).
  assert (forall text (h : HState Sess), need_args ctx text h = (Ok tt, h)) as Hneed by done.
  destruct (status_asked mb o (ErrBad "invalid mailbox name") c s Hmb) as [Hr1 Hr2].
  destruct (status_items_cases o) as (HF & _ & Hask). set (items := buildStatusItems o) in *.
  assert (ToUpper <$> items = items) as Hup.
  { clear - HF. induction HF as [|a l (_ & _ & Ha & _) _ IH]; [done|]. rewrite fmap_cons. congruence. }
  unfold Commands.Status.
  rewrite (st_bind_ok _ _ _ _ _ (Hneed _ _)), (st_bind_ok _ _ _ _ _ Hr1),
    (st_bind_ok _ _ _ _ _ (read_space (parens items) _ c s)), (st_bind_ok _ _ _ _ _ (Hr2 _)), Hup, Hask,
    (st_bind_ok _ _ _ _ _ (asked _ _ _ _ _ _ Hb)).
  unfold write, ok, on_conn, mbind, st_bind. eexists. split; [reflexivity|]. cbn -[status_response Enc.StatusResponse].
  rewrite status_written, <- app_assoc by done. done.
Qed.
Lemma status_line_LF d :
  as_atom (status_name (sa_Mailbox d)) = true -> status_range d -> LF ∉ ("STATUS " ++ status_line d : bytes).
Proof.
  intros Hname Hr. destruct (atom_graphic _ Hname) as (_ & Hg & _). unfold status_line, parens. rewrite !not_elem_of_app.
  split_and!; try (by apply (bool_decide_unpack _)); [by apply graphic_not|]. apply Join_notin; [done|].
  eapply list.Forall_impl; [by apply words_of_items, status_items_ok|]. intros w [_ Hw]. by apply graphic_not.
Qed.

(** Asking for the status of a mailbox through the client, over any
    backend: the backend gets the name and the seven items the client knows of,
    and the client returns what the backend answered, provided the name in the
    answer is an atom.  Items the client does not know are dropped. *)
Theorem status_end_to_end (mb : bytes) (o : option StatusOptions) (c : Client) (s : CState Sess)
    (d : StatusData) (sess' : Sess) :
  ready c -> authenticated (cs_conn s) -> readable_arg mb = true -> LF ∉ mb ->
  bk_Status mb (asked_status o) (cs_sess s) = (Ok d, sess') ->
  as_atom (status_name (sa_Mailbox d)) = true -> sa_MailboxID d = [] -> status_range d ->
  exists c' s', exchange (Client.Status handler mb o) c s (Ok (status_seen d)) c' s' /\
    cs_sess s' = sess' /\ cl_view c' = cl_view c.
Proof.
  intros Hready (st & Hst & Hm) Hmb Hlf Hb Hname Hid Hr. set (args := [quoteArg mb; parens (buildStatusItems o)]).
  destruct (status_handled (Next c).1 mb o d (set_in [] (cs_conn s)) _ _ Hmb Hb Hname Hid) as (h' & Eh & H1 & H2 & H3).
  destruct (status_items_cases o) as (HF & _ & _).
  destruct (exchange_stored "STATUS" Commands.Status args c s tt h' ["STATUS " ++ status_line d]
    ["STATUS " ++ status_line d] "STATUS completed"
    (fun l => Ok match with_prefix "STATUS " l with line :: _ => parseStatusResponse2 line | [] => status_data mb end))
    as (c' & Hx & Hv); try done.
  - unfold builtins. repeat ((by left) || right).
  - unfold conn_State, permitted. rewrite Hm. by apply bool_decide_eq_true.
  - repeat constructor; [by apply quoteArg_notin|]. unfold parens. rewrite !not_elem_of_app.
    split_and!; try (by apply (bool_decide_unpack _)). apply Join_notin; [done|].
    eapply list.Forall_impl; [exact HF|]. naive_solver.
  - intros [H _]%app_nil. by apply quoteArg_ne in H.
  - apply list.Forall_singleton. by apply status_line_LF.
  - by split_and!; apply (bool_decide_unpack _).
  - intros c0. cbn [absorb foldl]. rewrite status_store. by destruct c0.
  - exists c', (mkCS (h_conn h') (h_sess h')). split_and!; [|done..].
    cbn [with_prefix omap list_omap] in Hx. rewrite HasPrefix_app in Hx.
    change (drop (length ("STATUS " : bytes)) ("STATUS " ++ ?x)) with x in Hx. rewrite status_read in Hx by done. exact Hx.
Qed.

(** ** LIST *)
Definition delim_text (d : Z) : bytes := if d =? 0 then "NIL" else [DQ; byte_of d; DQ].
Definition name_text (name : bytes) : bytes := if EqualFold name "INBOX" then "INBOX" else Enc.EncString name [].
Definition list_line (d : ListData) : bytes :=
  parens (ld_Attrs d) ++ " " ++ delim_text (ld_Delim d) ++ " " ++ name_text (ld_Mailbox d).

(** An entry without extended data whose parts fit on one line. *)
Record plain_entry (d : ListData) : Prop := {
  pe_status : ld_Status d = None;
  pe_ext : hasExtendedData d = false;
  pe_attrs : Forall (fun a => word a /\ ")"%char ∉ a) (ld_Attrs d);
  pe_delim : ld_Delim d = 0 \/ (0x21 <= ld_Delim d <= 0x7e /\ ld_Delim d <> 34 /\ ld_Delim d <> 92);
  pe_name : NeedsLiteral (ld_Mailbox d) = false;
}.
(** The name the client gets: what is quoted keeps its backslashes. *)
Definition list_name (name : bytes) : bytes :=
  if EqualFold name "INBOX" then "INBOX"
  else if NeedsQuoting name then Enc.escape_quoted name else name.
Definition list_seen (d : ListData) : ListData := list_data (ld_Attrs d) (ld_Delim d) (list_name (ld_Mailbox d)).

Lemma spaced_atoms l first e :
  spaced first (Enc.Atom <$> l) e = e ++ (if first then Join l " " else concat (led <$> l)).
Proof.
  revert first e. induction l as [|a l IH]; intros first e; [destruct first; cbn; by rewrite app_nil_r|].
  rewrite fmap_cons. cbn [spaced]. rewrite IH, Join_cons, fmap_cons. cbn [concat]. unfold Enc.Atom, Enc.SP.
  destruct first; by rewrite <- ?app_assoc.
Qed.
Lemma list_written d : plain_entry d -> (fun fn => fn []) <$> WriteList d = [untagged_line ("LIST " ++ list_line d)].
Proof.
  intros [Hst Hext Ha Hd Hn]. unfold WriteList, when_some. rewrite Hst. cbn [fmap list_fmap]. f_equal.
  unfold write_list, list_line, untagged_line, parens. rewrite Hext, spaced_atoms.
  assert (forall e, Enc.MailboxName (ld_Mailbox d) e = e ++ name_text (ld_Mailbox d)) as Hm.
  { intros e. unfold Enc.MailboxName, name_text. destruct (EqualFold _ _); [done|]. apply EncString_app. }
  assert (forall e, (if ld_Delim d =? 0 then e |> Enc.Nil else e |> Enc.QuotedString (encode_runes [ld_Delim d])) =
    e ++ delim_text (ld_Delim d)) as Hdt.
  { intros e. unfold delim_text. destruct (Z.eqb_spec (ld_Delim d) 0) as [|Hne]; [done|].
    destruct Hd as [?|(Hr & H1 & H2)]; [done|].
    assert (encode_runes [ld_Delim d] = [byte_of (ld_Delim d)]) as ->.
    { unfold encode_runes. cbn [fmap list_fmap concat]. rewrite app_nil_r. unfold encode_rune, valid_rune, surrogate, in_range. by decide_tests. }
    unfold Enc.QuotedString, Enc.escape_quoted. cbn [fmap list_fmap concat].
    assert (IsQuotedSpecial (byte_of (ld_Delim d)) = false) as ->; [|done].
    unfold IsQuotedSpecial. rewrite !(proj2 (beqb_false _ _)); [done|..]; intros E%(f_equal bval);
      rewrite bval_byte_of_small in E by lia; [by apply H1|by apply H2]. }
  rewrite Hdt, Hm. unfold Enc.Star, Enc.Atom, Enc.SP, Enc.BeginList, Enc.EndList, Enc.CRLF.
  rewrite ?app_nil_l, <- !app_assoc. done.
Qed.

Lemma quoted_end_escape s acc rest :
  quoted_end acc (Enc.escape_quoted s ++ DQ :: rest) = Some (acc ++ Enc.escape_quoted s, rest).
Proof.
  revert acc. induction s as [|c s IH]; intros acc.
  - cbn. rewrite app_nil_r. by destruct rest.
  - unfold Enc.escape_quoted. rewrite fmap_cons. cbn [concat]. fold (Enc.escape_quoted s). rewrite <- app_assoc.
    destruct (IsQuotedSpecial c) eqn:Ec.
    + cbn [app quoted_end]. eval_beq. cbn iota. rewrite IH, <- app_assoc. done.
    + unfold IsQuotedSpecial in Ec. apply orb_false_iff in Ec as [E1 E2]. cbn [app quoted_end].
      rewrite E1, E2. destruct (Enc.escape_quoted s ++ DQ :: rest) as [|d t] eqn:E; [by destruct (Enc.escape_quoted s)|].
      rewrite IH, <- app_assoc. done.
Qed.

Lemma name_read name :
  NeedsLiteral name = false -> parseMailboxName (name_text name) = (list_name name, []) /\
  TrimLeftSP (name_text name) = name_text name.
Proof.
  intros Hn. unfold name_text, list_name. destruct (EqualFold name "INBOX"); [done|].
  unfold Enc.EncString. rewrite Hn. destruct (NeedsQuoting name) eqn:Eq.
  - unfold Enc.QuotedString. cbn [app]. split; [|done]. unfold parseMailboxName.
    change (DQ :: Enc.escape_quoted name ++ [DQ]) with ([DQ] ++ Enc.escape_quoted name ++ [DQ]).
    rewrite HasPrefix_app. change (drop 1 ([DQ] ++ ?x)) with x. by rewrite quoted_end_escape.
  - assert (as_atom name = true) as Ha by (unfold as_atom; by rewrite Hn, Eq).
    destruct (atom_graphic _ Ha) as (Hne & Hg & Hq). unfold Enc.Atom. cbn [app].
    destruct name as [|b name]; [done|]. cbn [forallb] in Hg. to_prop. split.
    + unfold parseMailboxName. rewrite HasPrefix1, (proj2 (beqb_false DQ b)) by (intros <-; apply Hq; left).
      rewrite (proj2 (IndexByte_None (b :: name) " "%char)); [done|].
      apply (graphic_not _ (b :: name)); [cbn [forallb]; by rewrite H|done].
    + unfold TrimLeftSP. cbn [drop_while]. rewrite (proj2 (beqb_false b " "%char)); [done|]. by intros ->.
Qed.

Lemma list_read_back d : plain_entry d -> parseListResponse (list_line d) = Ok (Some (list_seen d)).
Proof.
  intros [_ _ Ha Hd Hn]. destruct (name_read _ Hn) as [Hname Htrim].
  assert (")"%char ∉ Join (ld_Attrs d) " ") as Hp.
  { apply Join_notin; [done|]. eapply list.Forall_impl; [exact Ha|]. naive_solver. }
  unfold parseListResponse, list_line, parens. set (tail := delim_text (ld_Delim d) ++ " " ++ name_text (ld_Mailbox d)).
  replace (("(" ++ Join (ld_Attrs d) " " ++ ")") ++ " " ++ tail) with
    (("("%char :: Join (ld_Attrs d) " ") ++ ")"%char :: " " ++ tail) by (cbn [app]; by rewrite <- !app_assoc).
  unfold parse_attrs.
  assert (HasPrefix (("("%char :: Join (ld_Attrs d) " ") ++ ")"%char :: " " ++ tail) "(" = true) as ->
    by (apply HasPrefix_spec; by eexists).
  rewrite IndexByte_app by (apply not_elem_of_cons; by split). cbn [length].
  rewrite Nat.sub_succ, Nat.sub_0_r.
  change (drop 1 (("("%char :: Join (ld_Attrs d) " ") ++ ")"%char :: " " ++ tail)) with
    (Join (ld_Attrs d) " " ++ ")"%char :: " " ++ tail). rewrite take_app_length.
  replace (S (S (length (Join (ld_Attrs d) " ")))) with (length ("("%char :: Join (ld_Attrs d) " ") + 1)%nat by (cbn; lia).
  rewrite <- drop_drop, drop_app_length. change (drop 1 (")"%char :: " " ++ tail)) with (" " ++ tail).
  rewrite Fields_join by (eapply list.Forall_impl; [exact Ha|]; naive_solver).
  assert (TrimLeftSP (" " ++ tail) = tail /\ parse_delim tail = (ld_Delim d, name_text (ld_Mailbox d))) as [-> ->].
  { subst tail. unfold delim_text. destruct (Z.eqb_spec (ld_Delim d) 0) as [->|Hne].
    - split; [done|]. unfold parse_delim. rewrite HasPrefix_app.
      change (drop 3 ("NIL" ++ " " ++ ?x)) with (" "%char :: x). by change (TrimLeftSP (" "%char :: ?x)) with (TrimLeftSP x); rewrite Htrim.
    - destruct Hd as [?|(Hr & _)]; [done|]. split; [done|]. unfold parse_delim. cbn [app HasPrefix].
      eval_beq. cbn [andb]. rewrite bval_byte_of_small by lia.
      change (TrimLeftSP (" " ++ ?x)) with (TrimLeftSP x). by rewrite Htrim. }
  rewrite Hname. done.
Qed.

Lemma list_store rest c : processUntagged handler ("LIST " ++ rest) c = storeUntagged ("LIST " ++ rest) c.
Proof.
  change ("LIST " ++ rest) with ("LIST" ++ " " ++ rest).
  rewrite processUntagged_word by (done || by apply (bool_decide_unpack _)). unfold named_response.
  change ("LIST" ++ " " ++ rest) with (("LIST " : bytes) ++ rest).
  rewrite ToUpper_app, (ToUpper_ascii "LIST ") by done. by destruct (ToUpper rest).
Qed.
Lemma list_line_LF d : plain_entry d -> LF ∉ ("LIST " ++ list_line d : bytes).
Proof.
  intros [_ _ Ha Hd Hn]. unfold list_line, parens. rewrite !not_elem_of_app.
  split_and!; try (by apply (bool_decide_unpack _)).
  - apply Join_notin; [done|]. eapply list.Forall_impl; [exact Ha|]. intros w [[_ Hw] _]. by apply graphic_not.
  - unfold delim_text. case_if; [by apply (bool_decide_unpack _)|]. to_prop. destruct Hd as [?|(Hr & _)]; [done|].
    rewrite !not_elem_of_cons. split_and!; try done; [|by apply not_elem_of_nil].
    intros E%(f_equal bval). rewrite bval_byte_of_small in E by lia. change (bval LF) with 10 in E. lia.
  - unfold name_text. case_if; [by apply (bool_decide_unpack _)|by apply EncString_LF].
Qed.

Lemma lists_written ds :
  Forall plain_entry ds ->
  (fun fn => fn []) <$> concat (WriteList <$> ds) = untagged_line <$> ((fun d => "LIST " ++ list_line d) <$> ds).
Proof.
  induction 1 as [|d ds Hd _ IH]; [done|]. rewrite !fmap_cons. cbn [concat]. rewrite fmap_app, IH, list_written by done.
  done.
Qed.
Lemma list_handled tag ref pattern ds (c : Conn) (s sess' : Sess) :
  readable_arg ref = true -> readable_arg pattern = true ->
  bk_List ref [pattern] (Some list_options0) s = ((Ok tt, sess'), ds) -> Forall plain_entry ds ->
  exists h', Commands.List_ (mkContext tag "LIST" NumKindSeq true)
    (mkH (Join [quoteArg ref; quoteArg pattern] " ") c s) = (Ok tt, h') /\
  h_sess h' = sess' /\ c_in (h_conn h') = c_in c /\
  c_out (h_conn h') = c_out c ++ (untagged_line <$> ((fun d => "LIST " ++ list_line d) <$> ds)) ++
    [Enc.StatusResponse tag "OK" [] "LIST completed" []].
Proof.
  intros Href Hpat Hb HF. set (ctx := mkContext _ _ _ _).
  assert (forall text (h : HState Sess), need_args ctx text h = (Ok tt, h)) as Hneed by done.
  unfold Commands.List_, list_with. cbn [Join].
  rewrite (st_bind_ok _ _ _ _ _ (Hneed _ _)), (st_bind_ok _ _ _ _ _ (read_first ref (quoteArg pattern) _ c s Href)),
    (st_bind_ok _ _ _ _ _ (read_space (quoteArg pattern) _ c s)), (st_bind_ok _ _ _ _ _ (read_last pattern _ c s Hpat)).
  unfold session_writing, ok, on_conn, mbind, st_bind. cbn [h_sess h_args h_conn]. rewrite Hb, written, lists_written by done.
  eexists. split; [reflexivity|]. cbn -[Enc.StatusResponse untagged_line]. by rewrite <- app_assoc.
Qed.

Lemma lists_absorbed ds c :
  absorb handler ((fun d => "LIST " ++ list_line d) <$> ds) c =
  set_untagged (cl_untagged c ++ ((fun d => "LIST " ++ list_line d) <$> ds)) c.
Proof.
  revert c. induction ds as [|d ds IH]; intros c; [destruct c; cbn; by rewrite app_nil_r|].
  rewrite fmap_cons. cbn [absorb foldl]. rewrite list_store. unfold absorb in IH. rewrite IH. destruct c. cbn.
  by rewrite <- app_assoc.
Qed.
Lemma lists_read_back ds :
  Forall plain_entry ds ->
  parse_lists (with_prefix "LIST " ((fun d => "LIST " ++ list_line d) <$> ds)) = Ok (list_seen <$> ds).
Proof.
  induction 1 as [|d ds Hd _ IH]; [done|]. rewrite !fmap_cons. unfold with_prefix in *. cbn [omap list_omap].
  rewrite HasPrefix_app. change (drop (length ("LIST " : bytes)) ("LIST " ++ ?x)) with x. cbn [parse_lists].
  rewrite list_read_back by done. cbn [mbind res_bind]. rewrite IH. done.
Qed.

End Data.
