(* ===== verification/Limits.v ===== *)
(** * Commands of the client the server does not carry out

    STORE with system flags and APPEND, end to end. *)

From S2P Require Import Prelude Utf8 GoStrings GoTime NumSet Imap Decoder Encoder Wire Writers.
From S2P Require Import ConnState Conn Commands Dispatch Replies Gate.
From S2P Require Import ClientParse Client ClientFacts Exchange EndToEnd DataExchange.

(** ** Lists of atoms have no backslash *)
Definition atom_or_space (c : ascii) : bool := isAtomChar c || (c =c " ").

Lemma atoms_consumed fuel first acc s l rest :
  list_loop fuel first ReadAtom acc s = (Ok l, rest) ->
  exists p, s = p ++ ")"%char :: rest /\ forallb atom_or_space p = true.
Proof.
  revert first acc s. induction fuel as [|fuel IH]; intros first acc s; [done|]. cbn [list_loop].
  unfold mbind, st_bind. destruct s as [|b s]; [done|]. cbn [PeekByte]. destruct (b =c ")") eqn:Eb.
  { cbn. intros [= <- <-]. to_prop. subst. by exists []. }
  assert (forall t, (let (r, s') := ReadAtom t in match r with
    | Ok a => list_loop fuel false ReadAtom (acc ++ [a]) s'
    | Err e => (Err e, s') | Panic => (Panic, s') | Hang => (Hang, s') end) = (Ok l, rest) ->
    exists p, t = p ++ ")"%char :: rest /\ forallb atom_or_space p = true) as Hatom.
  { intros t. pose proof (take_drop_while isAtomChar t) as Ht. pose proof (take_while_all isAtomChar t) as Ha.
    unfold ReadAtom. destruct (take_while isAtomChar t) as [|a0 a] eqn:E; [by destruct t|].
    intros (p & Hp & HF)%IH. exists ((a0 :: a) ++ p). rewrite <- app_assoc, <- Hp. split; [by rewrite Ht|].
    rewrite forallb_app, HF, andb_true_r. rewrite forallb_Forall in *. eapply list.Forall_impl; [exact Ha|].
    intros x Hx. unfold atom_or_space. by rewrite Hx. }
  destruct first; [apply Hatom|]. unfold ReadSP, mbind, st_bind. cbn [ReadByte].
  destruct (b =c " ") eqn:Es; [|done]. cbn. intros (p & -> & HF)%Hatom. to_prop. subst. by exists (" "%char :: p).
Qed.

Lemma first_paren (x y u v : bytes) :
  ")"%char ∉ x -> x ++ ")"%char :: y = u ++ ")"%char :: v -> exists w, u = x ++ w.
Proof.
  revert u. induction x as [|c x IH]; intros u Hx Heq; [by exists u|]. apply not_elem_of_cons in Hx as [Hc Hx].
  destruct u as [|d u]; cbn in Heq; injection Heq as Hd Heq; [by subst|]. destruct (IH u Hx Heq) as [w ->].
  exists w. by subst.
Qed.

Lemma loop_no_panic fuel first acc s : (list_loop fuel first ReadAtom acc s).1 <> Panic.
Proof.
  revert first acc s. induction fuel as [|fuel IH]; intros first acc s; [done|]. cbn [list_loop].
  unfold mbind, st_bind. destruct s as [|b s]; [done|]. cbn [PeekByte]. destruct (b =c ")"); [done|].
  assert (forall t, (let (r, s') := ReadAtom t in match r with
    | Ok a => list_loop fuel false ReadAtom (acc ++ [a]) s'
    | Err e => (Err e, s') | Panic => (Panic, s') | Hang => (Hang, s') end).1 <> Panic) as Hatom.
  { intros t. unfold ReadAtom. destruct (take_while isAtomChar t), t; done || apply IH. }
  destruct first; [apply Hatom|]. unfold ReadSP, mbind, st_bind. cbn [ReadByte].
  destruct (b =c " "); [apply Hatom|done].
Qed.

Lemma flags_unreadable flags :
  Forall (fun f => ")"%char ∉ f) flags -> "\"%char ∈ Join flags " " ->
  exists e rest, ReadFlags (parens flags) = (Err e, rest).
Proof.
  intros HF Hb. assert (")"%char ∉ Join flags " ") as Hp by by apply Join_notin.
  destruct (ReadFlags (parens flags)) as [r rest] eqn:E. destruct r as [l|e| |]; [exfalso|by eauto|exfalso..].
  - unfold ReadFlags, ReadList, parens in E. change ("(" ++ ?x) with ("("%char :: x) in E.
    rewrite (st_bind_ok _ _ _ (Join flags " " ++ ")") tt) in E by done.
    rewrite (st_bind_ok _ _ _ (Join flags " " ++ ")") (Join flags " " ++ ")")) in E by done.
    apply atoms_consumed in E as (p & Heq & Hall). change (")" : bytes) with (")"%char :: []) in Heq.
    destruct (first_paren _ _ _ _ Hp Heq) as [w ->].
    rewrite forallb_Forall, list.Forall_forall in Hall. specialize (Hall "\"%char ltac:(set_solver)). done.
  - unfold ReadFlags, ReadList, parens in E. change ("(" ++ ?x) with ("("%char :: x) in E.
    rewrite (st_bind_ok _ _ _ (Join flags " " ++ ")") tt) in E by done.
    rewrite (st_bind_ok _ _ _ (Join flags " " ++ ")") (Join flags " " ++ ")")) in E by done.
    apply (f_equal fst) in E. by apply loop_no_panic in E.
  - apply (f_equal fst) in E. revert E. apply (halts (m := ReadFlags)).
Qed.

Section Limits.
Context {U : Unicode} {Sess : Type} {B : Backend Sess}.
Context (opts : Options) (ord : nat -> list bytes -> list bytes) (handler : UnilateralDataHandler).
Abbreviation exchange := (exchange opts ord).
Abbreviation table := (RegisterAll (builtins opts ord)).

(** ** STORE *)
Definition store_item (action : StoreAction) (silent : bool) : bytes :=
  StoreAction_String action ++ (if silent then ".SILENT" else []).

Lemma store_item_ok action silent :
  store_item action silent <> [] /\ forallb isAtomChar (store_item action silent) = true /\
  LF ∉ store_item action silent /\ ToUpper (store_item action silent) = store_item action silent /\
  store_action (store_item action silent) = Some action.
Proof.
  destruct action, silent; (split_and!; [done|done|by apply (bool_decide_unpack _)| |done]); by rewrite ToUpper_ascii.
Qed.

(** The handler gives up at the flags. *)
Lemma store_refused tag set ss action flags silent (c : Conn) (s : Sess) :
  set <> [] -> forallb isAtomChar set = true -> ParseSeqSet set = Ok ss ->
  Forall (fun f => ")"%char ∉ f) flags -> "\"%char ∈ Join flags " " ->
  exists h', Commands.Store (mkContext tag "STORE" NumKindSeq true)
    (mkH (Join [set; store_item action silent; parens flags] " ") c s) = (Err (ErrBad "invalid flags"), h') /\
  h_sess h' = s /\ h_conn h' = c.
Proof.
  intros Hne Ha Hset HF Hb. set (ctx := mkContext _ _ _ _).
  destruct (store_item_ok action silent) as (Hi & Hia & _ & Hiu & Hact). set (item := store_item action silent) in *.
  assert (forall text (h : HState Sess), need_args ctx text h = (Ok tt, h)) as Hneed by done.
  assert (forall a rest e, a <> [] -> forallb isAtomChar a = true ->
    (arg ReadAtom ?> e) (mkH (a ++ " " ++ rest) c s) = (Ok a, mkH (" " ++ rest) c s)) as Hatom.
  { intros a rest e H1 H2. unfold on_err, arg. cbn [h_args]. by rewrite ReadAtom_app. }
  assert (read_numset ctx (mkH (set ++ " " ++ item ++ " " ++ parens flags) c s) =
    (Ok (NumSeq ss), mkH (" " ++ item ++ " " ++ parens flags) c s)) as Hnum.
  { unfold read_numset. rewrite (st_bind_ok _ _ _ _ _ (Hatom set _ _ Hne Ha)). cbn [x_NumKind ctx].
    unfold mbind, st_bind, on_err, arg, lift_res. cbn [h_args]. by rewrite Hset. }
  destruct (flags_unreadable flags HF Hb) as (e & rest & Hf).
  unfold Commands.Store. cbn [Join].
  rewrite (st_bind_ok _ _ _ _ _ (Hneed _ _)), (st_bind_ok _ _ _ _ _ Hnum),
    (st_bind_ok _ _ _ _ _ (read_space (item ++ " " ++ parens flags) _ c s)), (st_bind_ok _ _ _ _ _ (Hatom item _ _ Hi Hia)).
  cbv zeta. rewrite Hiu, Hact. rewrite (st_bind_ok _ _ _ _ _ (read_space (parens flags) _ c s)).
  unfold mbind, st_bind, on_err, arg. cbn [h_args h_conn h_sess]. rewrite Hf. by eexists.
Qed.

(** [C21] The client cannot change a system flag on this server: whatever the
    backend, a STORE of flags among which one has a backslash, as all system
    flags have, is answered with BAD, and the backend is not asked. *)
Theorem store_rejected (set : bytes) (ss : SeqSet) (action : StoreAction) (flags : list bytes) (silent : bool)
    (c : Client) (s : CState Sess) :
  ready c -> conn_State (cs_conn s) = ConnStateSelected ->
  set <> [] -> forallb isAtomChar set = true -> ParseSeqSet set = Ok ss ->
  Forall (fun f => ")"%char ∉ f /\ LF ∉ f) flags -> "\"%char ∈ Join flags " " ->
  exists c' s', exchange (Client.Store handler set action flags silent) c s
      (Err (IMAPError StatusBAD [] None "invalid flags")) c' s' /\
    cs_sess s' = cs_sess s /\ cl_view c' = cl_view c.
Proof.
  intros Hready Hst Hne Ha Hset HF Hb. set (tag := (Next c).1). set (item := store_item action silent).
  destruct (store_refused tag set ss action flags silent (set_in [] (cs_conn s)) (cs_sess s)) as (h' & Eh & H1 & H2); try done.
  { eapply list.Forall_impl; [exact HF|]. naive_solver. }
  destruct (store_item_ok action silent) as (_ & _ & Hil & _ & _).
  exists (sent (command_line tag "STORE" [set; item; parens flags]) c),
    (mkCS (Encode (Enc.StatusResponse tag "BAD" [] "invalid flags") (set_in [] (cs_conn s))) (cs_sess s)).
  split; [|split; [done|by destruct c]].
  unfold Client.Store, store_as, executeCheck. eapply exchange_bind.
  - eapply (exchange_execute opts ord handler "STORE" Commands.Store [set; item; parens flags] c s _ [] "BAD" [] "invalid flags").
    + unfold builtins. repeat ((by left) || right).
    + by rewrite Hst.
    + done.
    + repeat constructor; [|exact Hil|].
      * intros H. rewrite forallb_Forall, list.Forall_forall in Ha. by specialize (Ha _ H).
      * unfold parens. rewrite !not_elem_of_app. split_and!; try (by apply (bool_decide_unpack _)).
        apply Join_notin; [done|]. eapply list.Forall_impl; [exact HF|]. naive_solver.
    + rewrite (bool_decide_false (Join _ _ = [])) by (by destruct set). cbn [negb].
      fold tag. unfold item. rewrite Eh. cbn. by rewrite H1, H2.
    + done.
    + done.
    + constructor.
    + by apply (bool_decide_unpack _).
    + by apply (bool_decide_unpack _).
    + split_and!; by apply (bool_decide_unpack _).
  - done.
  - done.
Qed.

(** ** APPEND *)
Definition append_args (mb literal : bytes) : list bytes := [quoteArg mb; "{" ++ Itoa (len literal) ++ "}"].

(** Without a continuation request or a reply the client only learns that the
    connection is gone. *)
Lemma no_continuation tag ls c fuel :
  cl_disconnect c = None -> cl_continuation c = None -> cl_done c !! tag = None ->
  w_in (cl_wire c) = concat (untagged_line <$> ls) -> Forall (fun l => LF ∉ l) ls -> (length ls < fuel)%nat ->
  exists e c', wait_loop handler fuel (fun c => let '(r, c) := poll_either tag c in (fun a => (a, c)) <$> r) c
    = (Ok (inl (inl e)), c') /\ w_out (cl_wire c') = w_out (cl_wire c).
Proof.
  intros Hd Hk Hn Hin HF. revert c fuel Hd Hk Hn Hin.
  induction HF as [|l ls Hl HF IH]; intros c fuel Hd Hk Hn Hin Hfuel; (destruct fuel as [|fuel]; [cbn in Hfuel; lia|]);
    cbn [wait_loop]; unfold poll_either at 1, poll_done at 1; rewrite Hk, Hn; cbn [fmap option_fmap option_map].
  - unfold reader_step. rewrite Hd, Hin. cbn [fmap list_fmap concat ReadLine].
    destruct c as [w n p d v t k x e l]. cbn in Hd, Hk, Hn. subst.
    unfold handleDisconnect. cbn. destruct fuel; cbn; by eexists _, _.
  - rewrite fmap_cons in Hin. cbn [concat] in Hin. rewrite (reader_untagged handler l _ c Hd Hin Hl).
    destruct (patch_untagged handler l) as (f & u & k & Hp). rewrite Hp.
    destruct (IH (patched f u k (on_wire (set_input (concat (untagged_line <$> ls))) c)) fuel) as (e & c' & -> & Hout);
      [by destruct c..|cbn in Hfuel; lia|]. eexists _, _. split; [done|]. rewrite Hout. by destruct c.
Qed.

Lemma literal_size (literal : bytes) :
  len literal < 2 ^ 63 -> parse_literal_size ("{" ++ Itoa (len literal) ++ "}") = Ok (len literal, false).
Proof.
  intros Hlen. pose proof (len_nonneg literal) as Hpos. set (n := len literal) in *.
  assert (Itoa n = FormatUint n) as -> by (unfold Itoa, FormatInt; by destruct (Z.ltb_spec n 0); [lia|]).
  pose proof (FormatUint_digits n Hpos) as Hdig. pose proof (digits_graphic _ Hdig) as Hg.
  unfold parse_literal_size. set (s := "{" ++ FormatUint n ++ "}").
  assert (TrimSpace s = s) as ->.
  { apply TrimSpace_id. subst s. change (forallb graphic (FormatUint n ++ "}") = true). by rewrite forallb_app, Hg. }
  assert (HasPrefix s "~" = false /\ HasPrefix s "{" = true) as [-> ->].
  { split; [done|]. subst s. apply HasPrefix_app. }
  set (inner := FormatUint n) in *.
  assert (length s = S (S (length inner))) as Hl.
  { change (length s) with (S (length (inner ++ "}"))). rewrite length_app.
    change (length ("}" : bytes)) with 1%nat. lia. }
  assert (HasSuffix s "}" = true) as ->.
  { unfold HasSuffix. rewrite Hl. change (length ("}" : bytes)) with 1%nat. rewrite bool_decide_true by lia.
    cbn [Nat.sub].
    change (drop (S (length inner)) s) with (drop (length inner) (inner ++ "}")). by rewrite drop_app_length. }
  cbn [negb orb]. rewrite Hl. change (drop 1 s) with (inner ++ "}"). cbn [Nat.sub].
  rewrite Nat.sub_0_r, take_app_length.
  assert (TrimSuffix inner "+" = inner) as ->.
  { unfold TrimSuffix. destruct (HasSuffix inner "+") eqn:E; [|done]. exfalso.
    unfold HasSuffix in E. to_prop. rewrite forallb_Forall, list.Forall_forall in Hdig.
    specialize (Hdig "+"%char). rewrite <- (take_drop (length inner - length ("+" : bytes)) inner) in Hdig.
    rewrite H0 in Hdig. discriminate Hdig. apply elem_of_app. right. left. }
  unfold ParseInt. subst inner. by rewrite parse_int_FormatInt by lia.
Qed.

Lemma append_handled tag mb literal p data (c : Conn) (s sess' : Sess) :
  readable_arg mb = true -> len literal < 2 ^ 63 ->
  bk_Append mb (take (length literal) p) (Some (mkAppendOptions [] time_zero false false)) s = (Ok data, sess') ->
  exists h', Commands.Append (mkContext tag "APPEND" NumKindSeq true)
    (mkH (Join (append_args mb literal) " ") (set_in p c) s) = (Ok tt, h') /\
  h_sess h' = sess' /\ c_in (h_conn h') = drop (length literal) p.
Proof.
  intros Hmb Hlen Hb. set (ctx := mkContext _ _ _ _). set (lit := "{" ++ Itoa (len literal) ++ "}").
  assert (forall text (h : HState Sess), need_args ctx text h = (Ok tt, h)) as Hneed by done.
  unfold Commands.Append, append_args. cbn [Join]. fold lit.
  rewrite (st_bind_ok _ _ _ _ _ (Hneed _ _)), (st_bind_ok _ _ _ _ _ (read_first mb lit _ (set_in p c) s Hmb)),
    (st_bind_ok _ _ _ _ _ (read_space lit _ (set_in p c) s)).
  assert (forall e, (arg PeekByte ?> e) (mkH lit (set_in p c) s) = (Ok "{"%char, mkH lit (set_in p c) s)) as Hpeek by done.
  rewrite (st_bind_ok _ _ _ _ _ (Hpeek _)).
  assert (append_flags "{" (mkH lit (set_in p c) s) = (Ok ([], "{"%char), mkH lit (set_in p c) s)) as Hfl by done.
  rewrite (st_bind_ok _ _ _ _ _ Hfl).
  assert (append_datetime "{" (mkH lit (set_in p c) s) = (Ok time_zero, mkH lit (set_in p c) s)) as Hdt by done.
  rewrite (st_bind_ok _ _ _ _ _ Hdt).
  assert (forall f, on_err (arg readLiteralSize) f (mkH lit (set_in p c) s) = (Ok (len literal, false), mkH [] (set_in p c) s)) as Hsz.
  { intros f. unfold on_err, arg, readLiteralSize. cbn [h_args].
    pose proof (literal_size literal Hlen) as Hs. fold lit in Hs. by rewrite Hs. }
  rewrite (st_bind_ok _ _ _ _ _ (Hsz _)).
  assert (conn_read (ReadLiteral (len literal)) (mkH [] (set_in p c) s) =
    (Ok (take (length literal) p), mkH [] (set_in (drop (length literal) p) c) s)) as Hbody.
  { unfold conn_read, ReadLiteral. cbn. unfold len. by rewrite Nat2Z.id. }
  rewrite (st_bind_ok _ _ _ _ _ Hbody), (st_bind_ok _ _ _ _ _ (asked _ _ _ _ _ _ Hb)).
  destruct data as [d|]; [|by eexists]. case_if; by eexists.
Qed.

End Limits.

(** ** Extended LIST data *)
Section ListLoop.
Context {U : Unicode}.

Definition no_paren (s : bytes) : Prop := "("%char ∉ s /\ ")"%char ∉ s.

Lemma no_paren_suffix r s : r `suffix_of` s -> no_paren s -> no_paren r.
Proof. intros [p ->] [H1 H2]. split; set_solver. Qed.

Lemma quoted_end_suffix s : forall acc v r, quoted_end acc s = Some (v, r) -> r `suffix_of` s.
Proof.
  induction s as [s IH] using (induction_ltof1 _ (@length ascii)). unfold ltof in IH.
  intros acc v r. destruct s as [|c [|d s]]; cbn [quoted_end]; [done|case_if; [|done]|].
  - intros [= _ <-]. by exists [c].
  - case_if; [|case_if].
    + intros H%IH; [|cbn; lia]. by apply suffix_cons_r, suffix_cons_r.
    + intros [= _ <-]. by exists [c].
    + intros H. apply suffix_cons_r. eapply (IH (d :: s)); [cbn; lia|exact H].
Qed.

Lemma TrimLeftSP_suffix s : TrimLeftSP s `suffix_of` s.
Proof. exists (take_while (fun c => c =c " ") s). unfold TrimLeftSP. by rewrite take_drop_while. Qed.

Lemma readQuotedOrAtom_suffix s : (readQuotedOrAtom s).2 `suffix_of` s.
Proof.
  destruct s as [|c s]; [done|]. cbn [readQuotedOrAtom]. destruct (c =c DQ).
  - destruct (quoted_end [] s) as [[v r]|] eqn:E; cbn [snd].
    + apply suffix_cons_r. by eapply quoted_end_suffix.
    + apply suffix_nil.
  - cbn [snd]. eexists. symmetry. apply take_drop_while.
Qed.

(** A value that does not start with a space or a parenthesis takes a byte. *)
Lemma readQuotedOrAtom_short c s :
  c <> " "%char -> no_paren (c :: s) -> (length (readQuotedOrAtom (c :: s)).2 <= length s)%nat.
Proof.
  intros Hsp [Ho Hc]. cbn [readQuotedOrAtom]. destruct (c =c DQ).
  - destruct (quoted_end [] s) as [[v r]|] eqn:E; cbn [snd length]; [|lia].
    by eapply suffix_length, quoted_end_suffix.
  - cbn [snd drop_while]. rewrite !(proj2 (beqb_false c _)) by set_solver. cbn [negb andb].
    apply suffix_length. eexists. symmetry. apply take_drop_while.
Qed.

Lemma extended_item_flat key inner data :
  no_paren inner -> exists data' rest, extended_item key inner data = Ok (data', rest) /\ rest `suffix_of` inner.
Proof.
  intros [Ho _]. assert (HasPrefix inner "(" = false) as Hp.
  { destruct inner as [|c t]; [done|]. change ("(" : bytes) with ["("%char]. rewrite HasPrefix1.
    apply beqb_false. set_solver. }
  unfold extended_item. rewrite Hp. repeat case_if; try by eexists _, _.
  pose proof (readQuotedOrAtom_suffix inner) as Hs. destruct (readQuotedOrAtom inner) as [v r]. cbn [snd] in Hs.
  eexists _, _. split; [done|]. etrans; [apply TrimLeftSP_suffix|done].
Qed.

Lemma extended_flat fuel inner data :
  (length inner <= fuel)%nat -> no_paren inner -> exists data', extended_loop fuel inner data = Ok data'.
Proof.
  revert inner data. induction fuel as [|fuel IH]; intros inner data Hlen Hn;
    pose proof (TrimLeftSP_suffix inner) as Ht; cbn [extended_loop].
  { destruct inner; [by eexists|cbn in Hlen; lia]. }
  destruct (TrimLeftSP inner) as [|c t] eqn:E; [by eexists|]. cbn [bool_decide].
  assert (c <> " "%char) as Hc.
  { pose proof (drop_while_stops (fun c => c =c " ") inner) as Hs. unfold TrimLeftSP in E. rewrite E in Hs.
    by apply beqb_false in Hs. }
  pose proof (no_paren_suffix _ _ Ht Hn) as Hn1. apply suffix_length in Ht. cbn in Ht.
  pose proof (readQuotedOrAtom_short c t Hc Hn1) as Hr.
  pose proof (no_paren_suffix _ _ (readQuotedOrAtom_suffix (c :: t)) Hn1) as Hn2.
  rewrite bool_decide_false by done. destruct (readQuotedOrAtom (c :: t)) as [key rest]. cbn [snd] in *.
  pose proof (TrimLeftSP_suffix rest) as Hs3.
  destruct (extended_item_flat (ToUpper key) (TrimLeftSP rest) data) as (d & r & -> & Hs4); [by eapply no_paren_suffix|].
  assert (r `suffix_of` rest) as Hs5 by (by etrans).
  cbn [mbind res_bind]. apply IH; [|by eapply no_paren_suffix]. apply suffix_length in Hs5. lia.
Qed.

(** Once an unnamed parenthesis is at the head, nothing is read any more. *)
Lemma extended_stuck fuel v data : extended_loop fuel ("(" ++ v) data = Hang.
Proof.
  induction fuel as [|fuel IH]; [done|]. cbn [extended_loop]. change (TrimLeftSP ("(" ++ v)) with ("(" ++ v).
  rewrite bool_decide_false by done. change (readQuotedOrAtom ("(" ++ v)) with ([] : bytes, ("(" : bytes) ++ v).
  cbv beta iota zeta. change (TrimLeftSP ("(" ++ v)) with ("(" ++ v). exact IH.
Qed.

Definition known_keys : list bytes := bytes_of <$> ["CHILDINFO"; "OLDNAME"; "MYRIGHTS"; "METADATA"].
(** A key the loop reads as one atom and does not know. *)
Definition unknown_key (key : bytes) : Prop :=
  word key /\ no_paren key /\ HasPrefix key [DQ] = false /\ ToUpper key ∉ known_keys.

Lemma TrimLeftSP_word w s : word w -> TrimLeftSP (w ++ s) = w ++ s.
Proof.
  intros [Hne Hg]. destruct w as [|c w]; [done|]. cbn in Hg. apply andb_prop in Hg as [Hc _].
  unfold TrimLeftSP. cbn. destruct (c =c " ") eqn:E; [|done]. to_prop. by subst.
Qed.

Lemma unknown_stuck key v fuel data : unknown_key key -> extended_loop fuel (key ++ " (" ++ v) data = Hang.
Proof.
  intros (Hw & [Ho Hc] & Hq & Hk). destruct fuel as [|fuel]; cbn [extended_loop];
    rewrite (TrimLeftSP_word key) by done; rewrite bool_decide_false; try done.
  1,3: intros [-> _]%app_nil; by destruct Hw.
  assert (readQuotedOrAtom (key ++ " (" ++ v) = (key, " (" ++ v)) as ->.
  { destruct Hw as [Hne Hg]. destruct key as [|c key]; [done|]. rewrite HasPrefix1 in Hq. cbn [app readQuotedOrAtom].
    rewrite (proj2 (beqb_false c DQ)) by (apply beqb_false in Hq; by intros ->).
    rewrite (app_comm_cons key (" (" ++ v) c). set (atom := fun b => negb (b =c " ") && _ && _).
    assert (forallb atom (c :: key) = true) as Ha.
    { rewrite forallb_Forall in Hg |- *. rewrite list.Forall_forall in Hg |- *. intros x Hx. unfold atom.
      rewrite !(proj2 (beqb_false x _)); [done|..]; intros ->; [done|done|].
      by apply Hg in Hx. }
    by rewrite take_while_app, drop_while_app. }
  cbv beta iota zeta. change (TrimLeftSP (" (" ++ v)) with ("(" ++ v).
  unfold extended_item. unfold known_keys in Hk. cbn [fmap list_fmap] in Hk.
  rewrite !bool_decide_false by set_solver. cbn [mret res_ret mbind res_bind]. apply extended_stuck.
Qed.

Lemma close_paren_flat p : forall depth acc s,
  no_paren p -> close_paren depth acc (p ++ s) = close_paren depth (acc ++ p) s.
Proof.
  induction p as [|c p IH]; intros depth acc s [Ho Hc]; [by rewrite app_nil_r|]. cbn [app close_paren].
  rewrite !(proj2 (beqb_false c _)) by set_solver. rewrite IH by (split; set_solver). by rewrite <- app_assoc.
Qed.

Lemma close_paren_item key v :
  no_paren key -> no_paren v ->
  close_paren 1 [] (key ++ " (" ++ v ++ "))") = Some (key ++ " (" ++ v ++ ")", []).
Proof.
  intros Hk Hv. rewrite close_paren_flat by done.
  change (close_paren 1 ?a (" (" ++ ?x)) with (close_paren 2 ((a ++ [" "%char]) ++ ["("%char]) x).
  rewrite close_paren_flat by done. change (close_paren 2 ?a "))") with (Some (a ++ [")"%char], [] : bytes)).
  by rewrite <- !app_assoc.
Qed.

(** [C22] The extended data of a LIST response.  Data without inner parentheses
    is read in full.  But a key the client does not know, followed by a
    parenthesised value (as RFC 5258 lets a server send), is never got past: no
    number of rounds of the loop is enough, so the call that parses the
    response does not return. *)
Theorem list_hang (data : ListData) :
  (forall inner tail, no_paren inner -> exists data', parseExtendedData ("(" ++ inner ++ ")" ++ tail) data = Ok data') /\
  (forall key v fuel, unknown_key key -> extended_loop fuel (key ++ " (" ++ v) data = Hang) /\
  (forall name key v, word name -> HasPrefix name [DQ] = false -> unknown_key key -> no_paren v ->
     parseListResponse ("() NIL " ++ name ++ " (" ++ key ++ " (" ++ v ++ "))") = Hang).
Proof.
  split_and!.
  - intros inner tail Hn. unfold parseExtendedData. rewrite HasPrefix_app.
    change (drop 1 ("(" ++ ?x)) with x. rewrite close_paren_flat by done. cbn. by apply extended_flat.
  - intros. by apply unknown_stuck.
  - intros name key v Hname Hq Hkey Hv. unfold parseListResponse.
    change (parse_attrs ("() NIL " ++ ?x)) with (Some ([] : list bytes, "NIL " ++ x)). cbv beta iota.
    change (parse_delim ("NIL " ++ ?x)) with (0, TrimLeftSP (" " ++ x)). cbv beta iota.
    change (TrimLeftSP (" " ++ ?x)) with (TrimLeftSP x). rewrite TrimLeftSP_word by done.
    assert (parseMailboxName (name ++ " (" ++ key ++ " (" ++ v ++ "))") = (name, " (" ++ key ++ " (" ++ v ++ "))")) as ->.
    { destruct Hname as [Hne Hg]. unfold parseMailboxName. destruct name as [|c name]; [done|]. rewrite HasPrefix1 in Hq.
      cbn [app]. rewrite HasPrefix1, Hq. rewrite (app_comm_cons name _ c).
      change (" (" ++ ?x) with (" "%char :: "("%char :: x).
      rewrite IndexByte_app by (by apply graphic_not). by rewrite take_app_length, drop_app_length. }
    cbv beta iota. change (TrimLeftSP (" (" ++ ?x)) with ("(" ++ x).
    rewrite HasPrefix_app. unfold parseExtendedData. rewrite HasPrefix_app.
    change (drop 1 ("(" ++ ?x)) with x. rewrite close_paren_item by (done || apply Hkey).
    by rewrite (unknown_stuck key (v ++ ")")).
Qed.
End ListLoop.
