(* ===== verification/ClientConc.v ===== *)
(** * Concurrent commands of one client

    Goroutines that execute commands, the reader and [Close] take turns; each
    step is one critical section of the source.  Every command gets its own
    result, once; a command that registers after the disconnect never gets
    one. *)

From S2P Require Import Prelude Utf8 GoStrings GoTime NumSet Imap Decoder Encoder ConnState.
From S2P Require Import ClientParse Client ClientFacts.

(** ** The system *)

(** A goroutine in [execute]: before [tags.Next], between it and [pending.Add],
    before the write, receiving from its channel, and returned. *)
Inductive cthread :=
| TNew
| TTagged (tag : bytes)
| TAdded (tag : bytes)
| TWaiting (tag : bytes)
| TReturned (tag : bytes) (r : commandResult).

Record Conf := mkConf { cf_client : Client; cf_threads : gmap nat cthread }.

Definition write_line (line : bytes) (c : Client) : Client :=
  on_wire (fun w => mkWire (w_in w) (w_out w ++ line) (w_err w)) c.

Section Conc.
Context {U : Unicode} (handler : UnilateralDataHandler).

(** The counter does not reach its last value.  The reader of a client that was
    closed still works off the lines it has buffered ([st_drain]). *)
Inductive conf_step : Conf -> Conf -> Prop :=
| st_next c ts i :
    ts !! i = Some TNew -> cl_counter c < 2 ^ 63 - 1 ->
    conf_step (mkConf c ts) (mkConf (Next c).2 (<[i := TTagged (Next c).1]> ts))
| st_add c ts i tag :
    ts !! i = Some (TTagged tag) -> conf_step (mkConf c ts) (mkConf (Add tag c) (<[i := TAdded tag]> ts))
| st_write c ts i tag line :
    ts !! i = Some (TAdded tag) -> w_err (cl_wire c) = None ->
    conf_step (mkConf c ts) (mkConf (write_line line c) (<[i := TWaiting tag]> ts))
| st_write_error c ts i tag e :
    ts !! i = Some (TAdded tag) -> w_err (cl_wire c) = Some e ->
    conf_step (mkConf c ts) (mkConf (Complete tag (failed e) c) (<[i := TReturned tag (failed e)]> ts))
| st_receive c ts i tag r c' :
    ts !! i = Some (TWaiting tag) -> poll_done tag c = Some (r, c') ->
    conf_step (mkConf c ts) (mkConf c' (<[i := TReturned tag r]> ts))
| st_read c ts c' : reader_step handler c = Some c' -> conf_step (mkConf c ts) (mkConf c' ts)
| st_drain c ts line rest :
    cl_closed c = true -> ReadLine (w_in (cl_wire c)) = (Ok line, rest) ->
    conf_step (mkConf c ts) (mkConf (processLine handler line (on_wire (set_input rest) c)) ts)
| st_close c ts : conf_step (mkConf c ts) (mkConf (Close c).2 ts).

Definition held (t : cthread) : option bytes :=
  match t with
  | TNew => None
  | TTagged tag | TAdded tag | TWaiting tag | TReturned tag _ => Some tag
  end.
Definition registered (t : cthread) : option bytes :=
  match t with TAdded tag | TWaiting tag => Some tag | _ => None end.

(** A client as [New] makes it, and goroutines that have not started. *)
Definition fresh (cf : Conf) : Prop :=
  let c := cf_client cf in
  cl_counter c = 0 /\ cl_pending c = ∅ /\ cl_done c = ∅ /\ cl_disconnect c = None /\ w_err (cl_wire c) = None /\
  cl_closed c = false /\ forall i t, cf_threads cf !! i = Some t -> t = TNew.

(** ** The invariant *)
Record delivery (n : Z) (P : gset bytes) (D : gmap bytes commandResult) (ts : gmap nat cthread) : Prop := {
  dl_counter : 0 <= n < 2 ^ 63;
  dl_tags i t tag : ts !! i = Some t -> held t = Some tag -> exists k, tag = tag_of k /\ 1 <= k <= n;
  dl_own i j t u tag : ts !! i = Some t -> ts !! j = Some u -> held t = Some tag -> held u = Some tag -> i = j;
  dl_registered i t tag : ts !! i = Some t -> registered t = Some tag ->
    (tag ∈ P /\ D !! tag = None) \/ (tag ∉ P /\ is_Some (D !! tag));
  dl_tagged i tag : ts !! i = Some (TTagged tag) -> tag ∉ P /\ D !! tag = None;
  dl_pending tag : tag ∈ P -> exists i t, ts !! i = Some t /\ registered t = Some tag;
  dl_done tag : is_Some (D !! tag) -> exists i t, ts !! i = Some t /\ held t = Some tag;
}.

Lemma tag_of_inj k m : 0 <= k < 2 ^ 63 -> 0 <= m < 2 ^ 63 -> tag_of k = tag_of m -> k = m.
Proof.
  intros Hk Hm H. unfold tag_of, FormatInt in H. apply app_inj_1 in H as [_ H]; [|done].
  destruct (Z.ltb_spec k 0), (Z.ltb_spec m 0); try lia. apply FormatUint_inj in H; lia.
Qed.

(** What the reader and [Close] do to the results. *)
Definition completes (P : gset bytes) (D : gmap bytes commandResult) (P' : gset bytes) (D' : gmap bytes commandResult) : Prop :=
  (P' = P /\ D' = D) \/ (exists tag r, tag ∈ P /\ P' = P ∖ {[tag]} /\ D' = <[tag := r]> D) \/
  (exists r, P' = ∅ /\ D' = gset_to_gmap r P ∪ D).
Definition moved (c c' : Client) : Prop :=
  cl_counter c' = cl_counter c /\ completes (cl_pending c) (cl_done c) (cl_pending c') (cl_done c').

Lemma moved_patch g c : patch g -> moved c (g c).
Proof. intros (f & u & k & Hg). rewrite Hg. destruct c. by split; [|left]. Qed.
Lemma moved_Complete tag r c : moved c (Complete tag r c).
Proof.
  unfold Complete. case_bool_decide; [|by split; [|left]]. destruct c. split; [done|]. right. left. eexists _, _. by split.
Qed.
Lemma moved_disconnect e c : moved c (handleDisconnect e c).
Proof.
  unfold handleDisconnect. destruct (cl_disconnect c); [by split; [|left]|]. destruct c as [w n p d v u [k|] x e' l]; cbn;
    (split; [done|]; right; right; by eexists).
Qed.
Lemma moved_wire f c c' : moved (on_wire f c) c' -> moved c c'.
Proof. by destruct c. Qed.
Lemma moved_line line c : moved c (processLine handler line c).
Proof.
  unfold processLine. destruct line as [|b line]; [by split; [|left]|]. case_if.
  { unfold handleContinuation, offer_continuation. destruct c as [w n p d v u [k|] x e l]; by split; [|left]. }
  case_if; [apply moved_patch, patch_untagged|]. unfold processTagged.
  destruct (IndexByte _ _); [|by split; [|left]]. destruct (parseStatusResponse _) as [[] ]. apply moved_Complete.
Qed.
Lemma moved_read c c' : reader_step handler c = Some c' -> moved c c'.
Proof.
  unfold reader_step. destruct (cl_disconnect c); [done|]. destruct (ReadLine _) as [[line|e| |] rest]; intros [= <-].
  - eapply moved_wire, moved_line.
  - eapply moved_wire, moved_disconnect.
Qed.
Lemma moved_close c : moved c (Close c).2.
Proof.
  unfold Close. destruct (cl_closed c); [by split; [|left]|]. destruct c as [w n p d v u k x e l]. cbn [snd].
  match goal with |- moved _ (handleDisconnect ?e ?c1) => exact (moved_disconnect e c1) end.
Qed.

Lemma completes_delivery n P D P' D' ts :
  completes P D P' D' -> delivery n P D ts -> delivery n P' D' ts.
Proof.
  intros Hc [H1 H2 H3 H4 H5 H6 H7].
  assert (forall tag, tag ∈ P' -> tag ∈ P /\ D' !! tag = D !! tag) as Hp.
  { destruct Hc as [[-> ->]|[(t & r & _ & -> & ->)|(r & -> & ->)]]; [done| |set_solver].
    intros tag Ht. split; [set_solver|]. rewrite lookup_insert_ne by set_solver. done. }
  assert (forall tag, tag ∉ P -> tag ∉ P' /\ D' !! tag = D !! tag) as Hn.
  { intros tag Ht. split; [intros Hin; by apply Ht, Hp|].
    destruct Hc as [[-> ->]|[(t & r & Hin & -> & ->)|(r & -> & ->)]]; [done| |].
    - rewrite lookup_insert_ne; [done|]. by intros ->.
    - rewrite lookup_union_r; [done|]. by rewrite lookup_gset_to_gmap_None. }
  assert (forall tag, tag ∈ P -> tag ∉ P' -> is_Some (D' !! tag)) as Hd.
  { intros tag Hin Hnot. destruct Hc as [[-> ->]|[(t & r & _ & -> & ->)|(r & -> & ->)]]; [done| |].
    - destruct (decide (t = tag)) as [->|]; [rewrite lookup_insert_eq; by eexists|set_solver].
    - exists r. apply lookup_union_Some_l. by apply lookup_gset_to_gmap_Some. }
  split; try done.
  - intros i t tag Ht Hr. destruct (H4 i t tag Ht Hr) as [[Hin HD]|[Hnot HD]].
    + destruct (decide (tag ∈ P')) as [Hin'|]; [left|right; by split; [|apply Hd]].
      split; [done|]. by rewrite (proj2 (Hp tag Hin')).
    + right. destruct (Hn tag Hnot) as [Hnot' ->]. done.
  - intros i tag Ht. destruct (H5 i tag Ht) as [Hnot HD]. destruct (Hn tag Hnot) as [Hnot' ->]. done.
  - intros tag Hin. by apply H6, Hp.
  - intros tag HD. destruct (decide (tag ∈ P)) as [Hin|Hnot].
    + destruct (H6 tag Hin) as (i & t & Ht & Hr). exists i, t. split; [done|]. by destruct t.
    + destruct (Hn tag Hnot) as [_ He]. rewrite He in HD. by apply H7.
Qed.

(** Goroutine [i] moves on with the tag it holds, or a new one: what has to be
    shown is only about that tag. *)
Lemma delivery_move n n' P D P' D' ts i t u tag :
  ts !! i = Some t -> held u = Some tag ->
  (held t = Some tag \/ (held t = None /\ forall j v, ts !! j = Some v -> held v <> Some tag)) ->
  n <= n' -> 0 <= n' < 2 ^ 63 -> (exists k, tag = tag_of k /\ 1 <= k <= n') ->
  (forall tag', tag' <> tag -> (tag' ∈ P' <-> tag' ∈ P) /\ D' !! tag' = D !! tag') ->
  (registered u = Some tag -> (tag ∈ P' /\ D' !! tag = None) \/ (tag ∉ P' /\ is_Some (D' !! tag))) ->
  (registered u = None -> tag ∉ P') -> (u = TTagged tag -> tag ∉ P' /\ D' !! tag = None) ->
  delivery n P D ts -> delivery n' P' D' (<[i := u]> ts).
Proof.
  intros Hi Hu Ht Hn Hn' Hk Hother Hreg Hunreg Htag [H1 H2 H3 H4 H5 H6 H7].
  assert (forall j v tg, j <> i -> ts !! j = Some v -> held v = Some tg -> tg <> tag) as Hne.
  { intros j v tg Hj Hv Htg ->. destruct Ht as [Ht|[_ Ht]]; [|by eapply Ht]. by eapply Hj, H3. }
  assert (forall v tg, registered v = Some tg -> held v = Some tg) as Hrh by (by intros []).
  split; [done|..].
  - intros j v tg [[<- <-]|[_ Hj]]%lookup_insert_Some Hv; [by replace tg with tag by congruence|].
    destruct (H2 j v tg Hj Hv) as (k & -> & ?). exists k. split; [done|lia].
  - intros j k v w tg Hj Hkk Hv Hw.
    apply lookup_insert_Some in Hj as [[<- <-]|[Hij Hj]]; apply lookup_insert_Some in Hkk as [[<- <-]|[Hik Hkk]]; [done|..].
    + exfalso. eapply (Hne k w tg); congruence.
    + exfalso. eapply (Hne j v tg); congruence.
    + by eapply (H3 j k v w).
  - intros j v tg [[<- <-]|[Hij Hj]]%lookup_insert_Some Hv.
    + apply Hrh in Hv as Hh. replace tg with tag in * by congruence. by apply Hreg.
    + destruct (Hother tg) as [HP ->]; [by eapply (Hne j v); [|done|apply Hrh]|]. rewrite HP. by eapply H4.
  - intros j tg [[<- ->]|[Hij Hj]]%lookup_insert_Some.
    + cbn in Hu. injection Hu as ->. by apply Htag.
    + destruct (Hother tg) as [HP ->]; [by eapply (Hne j (TTagged tg))|]. rewrite HP. by eapply H5.
  - intros tg Hin. destruct (decide (tg = tag)) as [->|Hd].
    + exists i, u. rewrite lookup_insert_eq. split; [done|]. destruct (registered u) as [tg|] eqn:E; [|by apply Hunreg in Hin].
      apply Hrh in E. congruence.
    + apply (proj1 (Hother tg Hd)), H6 in Hin as (j & v & Hj & Hv). exists j, v.
      rewrite lookup_insert_ne; [done|]. intros <-. apply Hrh in Hv. destruct Ht as [Ht|[Ht _]]; congruence.
  - intros tg HD. destruct (decide (tg = tag)) as [->|Hd]; [exists i, u; by rewrite lookup_insert_eq|].
    rewrite (proj2 (Hother tg Hd)) in HD. apply H7 in HD as (j & v & Hj & Hv). exists j, v.
    rewrite lookup_insert_ne; [done|]. intros <-. destruct Ht as [Ht|[Ht _]]; congruence.
Qed.

Definition conf_inv (cf : Conf) : Prop :=
  delivery (cl_counter (cf_client cf)) (cl_pending (cf_client cf)) (cl_done (cf_client cf)) (cf_threads cf).

Lemma fresh_inv cf : fresh cf -> conf_inv cf.
Proof.
  intros (H1 & H2 & H3 & _ & _ & _ & HT). unfold conf_inv. rewrite H1, H2, H3.
  split; [done|..].
  - intros i t tag ->%HT. done.
  - intros i j t u tag ->%HT. done.
  - intros i t tag ->%HT. done.
  - intros i tag [=]%HT.
  - intros tag Hin. set_solver.
  - intros tag [r Hr]. by rewrite lookup_empty in Hr.
Qed.

Lemma conf_step_inv cf cf' : conf_step cf cf' -> conf_inv cf -> conf_inv cf'.
Proof.
  intros Hs Hinv. destruct Hs as [c ts i Hi Hc|c ts i tag Hi|c ts i tag line Hi _|c ts i tag e Hi He|
    c ts i tag r c' Hi Hpoll|c ts c' Hread|c ts line rest _ _|c ts]; unfold conf_inv in *; cbn [cf_client cf_threads] in *.
  - destruct c as [w n p d v u k x e l]. cbn in *. destruct Hinv as [H1 H2 H3 H4 H5 H6 H7] eqn:E. clear E.
    assert (i64 (n + 1) = n + 1) as Hn by (apply i64_small; lia). rewrite Hn.
    assert (forall j v, ts !! j = Some v -> held v <> Some (tag_of (n + 1))) as Hfresh.
    { intros j t Hj Hh. destruct (H2 j t _ Hj Hh) as (k' & Hk & ?). apply tag_of_inj in Hk; lia. }
    assert (tag_of (n + 1) ∉ p /\ d !! tag_of (n + 1) = None) as [Hp Hd].
    { split.
      - intros (j & t & Hj & Hr)%H6. by eapply (Hfresh j t); [|destruct t].
      - apply eq_None_not_Some. intros (j & t & Hj & Hr)%H7. by eapply (Hfresh j t). }
    eapply (delivery_move n (n + 1) p d p d ts i TNew); try done; [by right|lia|lia|exists (n + 1); split; [done|lia]].
  - destruct (dl_tagged _ _ _ _ Hinv i tag Hi) as [Hp Hd]. destruct c as [w n p d v u k x e l]. cbn in *.
    eapply (delivery_move n n p d _ d ts i (TTagged tag) (TAdded tag) tag); try done; [by left|apply Hinv| | |].
    + destruct (dl_tags _ _ _ _ Hinv i _ tag Hi eq_refl) as (k' & -> & ?). by exists k'.
    + set_solver.
    + intros _. left. split; [set_solver|done].
  - destruct c as [w n p d v u k x e l]. cbn in *.
    eapply (delivery_move n n p d p d ts i (TAdded tag) (TWaiting tag) tag); try done; [by left|apply Hinv| |].
    + by eapply (dl_tags _ _ _ _ Hinv i _ tag Hi).
    + intros _. by eapply (dl_registered _ _ _ _ Hinv i _ tag Hi).
  - assert (delivery (cl_counter c) (cl_pending (Complete tag (failed e) c)) (cl_done (Complete tag (failed e) c)) ts) as Hinv'.
    { destruct (moved_Complete tag (failed e) c) as [_ Hm]. by eapply completes_delivery. }
    rewrite (proj1 (moved_Complete tag (failed e) c)).
    eapply (delivery_move _ _ _ _ _ _ ts i (TAdded tag) _ tag); try exact Hinv'; try done; [by left|apply Hinv| |].
    + by eapply (dl_tags _ _ _ _ Hinv i _ tag Hi).
    + intros _. unfold Complete. case_bool_decide; [destruct c; set_solver|done].
  - unfold poll_done in Hpoll. destruct (cl_done c !! tag) as [r'|] eqn:Ed; [|done]. injection Hpoll as -> <-.
    destruct (dl_registered _ _ _ _ Hinv i _ tag Hi eq_refl) as [[_ ?]|[Hp _]]; [congruence|].
    destruct c as [w n p d v u k x e l]. cbn in *.
    eapply (delivery_move n n p d p _ ts i (TWaiting tag) _ tag); try done; [by left|apply Hinv| |].
    + by eapply (dl_tags _ _ _ _ Hinv i _ tag Hi).
    + intros tag' Hne. split; [done|]. by rewrite lookup_delete_ne.
  - destruct (moved_read _ _ Hread) as [-> Hm]. by eapply completes_delivery.
  - destruct (moved_wire _ _ _ (moved_line line (on_wire (set_input rest) c))) as [-> Hm]. by eapply completes_delivery.
  - destruct (moved_close c) as [-> Hm]. by eapply completes_delivery.
Qed.

Lemma conf_reachable cf0 cf : fresh cf0 -> rtc conf_step cf0 cf -> conf_inv cf.
Proof. intros Hf%fresh_inv Hr. induction Hr; eauto using conf_step_inv. Qed.

(** ** Where a result comes from *)

(** The tagged line [tag SP ...] at the head of the input, as a result. *)
Definition answers (tag : bytes) (r : commandResult) (c : Client) : Prop :=
  exists text rest, ReadLine (w_in (cl_wire c)) = (Ok (tag ++ " " ++ text), rest) /\
    let '(status, code, text) := parseStatusResponse text in r = mkResult status code text None.

Lemma done_line line c tag r :
  cl_done c !! tag = None -> cl_done (processLine handler line c) !! tag = Some r ->
  exists text, line = tag ++ " " ++ text /\
    let '(status, code, text) := parseStatusResponse text in r = mkResult status code text None.
Proof.
  intros Hn. unfold processLine. destruct line as [|b line]; [congruence|]. case_if.
  { unfold handleContinuation, offer_continuation. destruct c as [w n p d v u [k|] x e l]; cbn in *; congruence. }
  case_if.
  { destruct (patch_untagged handler (drop 2 (b :: line))) as (f & u & k & Hg). rewrite Hg. destruct c. cbn in *. congruence. }
  unfold processTagged. destruct (IndexByte _ _) as [i|] eqn:Ei; [|congruence].
  apply IndexByte_cut in Ei as [Hline _]. destruct (parseStatusResponse _) as [[st co] te] eqn:Ep.
  unfold Complete. case_bool_decide; [|congruence]. destruct c as [w n p d v u k x e l]. cbn [cl_done with_done] in *.
  intros [[Ht <-]|[_ ?]]%lookup_insert_Some; [|congruence].
  exists (drop (S i) (b :: line)). rewrite <- Ht, Ep. by split.
Qed.

Lemma done_disconnect e c tag r :
  cl_done c !! tag = None -> cl_done (handleDisconnect e c) !! tag = Some r -> cr_err r <> None.
Proof.
  intros Hn. unfold handleDisconnect. destruct (cl_disconnect c); [congruence|].
  destruct c as [w n p d v u [k|] x e' l]; cbn in *;
    (intros [[_ <-]%lookup_gset_to_gmap_Some|[_ ?]]%lookup_union_Some_raw; [done|congruence]).
Qed.

Lemma step_result cf cf' tag r :
  conf_step cf cf' -> cl_done (cf_client cf) !! tag = None -> cl_done (cf_client cf') !! tag = Some r ->
  cr_err r <> None \/ answers tag r (cf_client cf).
Proof.
  intros Hs Hn. destruct Hs as [c ts i Hi Hc|c ts i tg Hi|c ts i tg line Hi _|c ts i tg e Hi He|
    c ts i tg r' c' Hi Hpoll|c ts c' Hread|c ts line rest _ Hread|c ts]; cbn [cf_client] in *.
  - destruct c. cbn in *. congruence.
  - destruct c. cbn in *. congruence.
  - destruct c. cbn in *. congruence.
  - unfold Complete. case_bool_decide; [|congruence]. destruct c. cbn in *.
    intros [[_ <-]|[_ ?]]%lookup_insert_Some; [by left|congruence].
  - unfold poll_done in Hpoll. destruct (cl_done c !! tg); [|done]. injection Hpoll as -> <-.
    destruct c. cbn in *. intros [_ ?]%lookup_delete_Some. congruence.
  - unfold reader_step in Hread. destruct (cl_disconnect c); [done|].
    destruct (ReadLine _) as [[line|e| |] rest] eqn:Er; try done; injection Hread as <-; intros Hd.
    + right. destruct (done_line line (on_wire (set_input rest) c) tag r) as (text & -> & Hp); [by destruct c|done|].
      by exists text, rest.
    + left. eapply done_disconnect, Hd. by destruct c.
  - intros Hd. right. destruct (done_line line (on_wire (set_input rest) c) tag r) as (text & -> & Hp); [by destruct c|done|].
    by exists text, rest.
  - unfold Close. destruct (cl_closed c); [cbn; congruence|]. destruct c as [w n p d v u k x e l]. cbn [snd].
    intros Hd. left. by eapply done_disconnect, Hd.
Qed.

(** ** The end of the connection *)

Lemma disconnect_pending e c :
  cl_disconnect c = None -> cl_pending (handleDisconnect e c) = ∅.
Proof. intros Hn. unfold handleDisconnect. rewrite Hn. by destruct c as [w n p d v u [k|] x e' l]. Qed.

Lemma line_disconnect line c : cl_disconnect (processLine handler line c) = cl_disconnect c.
Proof.
  unfold processLine. destruct line as [|b line]; [done|]. case_if.
  { unfold handleContinuation, offer_continuation. by destruct c as [w n p d v u [k|] x e l]. }
  case_if.
  { destruct (patch_untagged handler (drop 2 (b :: line))) as (f & u & k & Hg). rewrite Hg. by destruct c. }
  unfold processTagged. destruct (IndexByte _ _); [|done]. destruct (parseStatusResponse _) as [[] ].
  unfold Complete. case_bool_decide; by destruct c.
Qed.

(** The step that ends the connection completes every command. *)
Lemma step_disconnect cf cf' :
  conf_step cf cf' -> cl_disconnect (cf_client cf) = None -> cl_disconnect (cf_client cf') <> None ->
  cl_pending (cf_client cf') = ∅.
Proof.
  intros Hs Hn. destruct Hs as [c ts i Hi Hc|c ts i tg Hi|c ts i tg line Hi _|c ts i tg e Hi He|
    c ts i tg r' c' Hi Hpoll|c ts c' Hread|c ts line rest _ Hread|c ts]; cbn [cf_client] in *.
  1-3: by destruct c.
  - unfold Complete. case_bool_decide; [|done]. by destruct c.
  - unfold poll_done in Hpoll. destruct (cl_done c !! tg); [|done]. injection Hpoll as -> <-. by destruct c.
  - unfold reader_step in Hread. rewrite Hn in Hread.
    destruct (ReadLine _) as [[line|e| |] rest] eqn:Er; try done; injection Hread as <-.
    + rewrite line_disconnect. by destruct c.
    + intros _. apply disconnect_pending. by destruct c.
  - rewrite line_disconnect. by destruct c.
  - unfold Close. destruct (cl_closed c); [done|]. destruct c as [w n p d v u k x e l]. cbn [snd].
    intros _. by apply disconnect_pending.
Qed.

(** The reader has returned: there was nothing more to read. *)
Definition reader_gone (c : Client) : Prop := cl_disconnect c <> None /\ w_in (cl_wire c) = [].
Definition stranded (i : nat) (tag : bytes) (cf : Conf) : Prop :=
  reader_gone (cf_client cf) /\ cf_threads cf !! i = Some (TWaiting tag) /\ tag ∈ cl_pending (cf_client cf) /\
  conf_inv cf.

Lemma stranded_step i tag cf cf' : stranded i tag cf -> conf_step cf cf' -> stranded i tag cf'.
Proof.
  intros ([Hd Hw] & Hi & Hp & Hinv) Hs. pose proof (conf_step_inv _ _ Hs Hinv) as Hinv'. unfold stranded, reader_gone.
  destruct (dl_registered _ _ _ _ Hinv i _ tag Hi eq_refl) as [[_ Hdone]|[? _]]; [|done].
  destruct Hs as [c ts j Hj Hc|c ts j tg Hj|c ts j tg line Hj _|c ts j tg e Hj He|
    c ts j tg r' c' Hj Hpoll|c ts c' Hread|c ts line rest _ Hread|c ts]; cbn [cf_client cf_threads] in *.
  1-5: rewrite lookup_insert_ne by (intros ->; congruence || (unfold poll_done in Hpoll; simplify_eq; by rewrite Hdone in Hpoll)).
  - destruct c. by split_and!.
  - destruct c. split_and!; try done. cbn in *. set_solver.
  - destruct c. by split_and!.
  - assert (tg <> tag) as Hne.
    { intros ->. assert (j = i) as -> by (by eapply (dl_own _ _ _ _ Hinv)). congruence. }
    unfold Complete in *. case_bool_decide; [|by split_and!]. destruct c. split_and!; try done. cbn in *. set_solver.
  - unfold poll_done in Hpoll. destruct (cl_done c !! tg); [|done]. injection Hpoll as -> <-. destruct c. by split_and!.
  - unfold reader_step in Hread. by destruct (cl_disconnect c).
  - rewrite Hw in Hread. done.
  - unfold Close in *. destruct (cl_closed c); [by split_and!|]. destruct c as [w n p d v u k x e l]. cbn [snd] in *.
    unfold handleDisconnect in *. cbn in *. destruct e as [e|]; [by split_and!|done].
Qed.

Definition idle_client (input : bytes) : Client :=
  mkClient (mkWire input [] None) 0 ∅ ∅ view0 [] None false None [].

Definition late_start : Conf := mkConf (idle_client []) {[0%nat := TNew]}.

Lemma late_start_fresh : fresh late_start.
Proof. split_and!; try done. cbn. by intros i t [_ <-]%lookup_singleton_Some. Qed.

(** The server hangs up, then a command starts. *)
Lemma stranded_reachable : exists cf, rtc conf_step late_start cf /\ stranded 0 (tag_of 1) cf.
Proof.
  assert (exists cf, rtc conf_step late_start cf /\ reader_gone (cf_client cf) /\
    cf_threads cf !! 0%nat = Some (TWaiting (tag_of 1)) /\ tag_of 1 ∈ cl_pending (cf_client cf)) as (cf & Hr & H).
  { eexists. split.
    - eapply rtc_l; [by eapply st_read|]. eapply rtc_l; [by eapply (st_next _ _ 0)|]. rewrite insert_singleton_eq.
      eapply rtc_l; [eapply (st_add _ _ 0); apply lookup_singleton_eq|]. rewrite insert_singleton_eq.
      eapply rtc_l; [eapply (st_write _ _ 0 _ []); [apply lookup_singleton_eq|done]|]. rewrite insert_singleton_eq.
      apply rtc_refl.
    - unfold reader_gone. cbn [cf_client cf_threads]. split_and!; [by vm_compute|done|apply lookup_singleton_eq|].
      cbn. set_solver. }
  exists cf. split; [done|]. destruct H as (H1 & H2 & H3). split_and!; try done.
  by eapply conf_reachable; [apply late_start_fresh|].
Qed.

(** [C4] Commands of one client in any interleaving of the goroutines that
    execute them with the reader and with [Close].  Two goroutines never hold
    one tag.  A registered command either is pending and has no result, or is
    not pending and its result is in its channel.  A result is an error or
    comes from a line that carries the command's tag.  When the connection
    ends every registered command has its result, and a command with a result
    returns it.  But a command that registers after the reader has returned
    (with the connection still open for writing) is never completed: whatever
    happens next it waits, and a run gets there. *)
Theorem client_delivery cf0 cf :
  fresh cf0 -> rtc conf_step cf0 cf ->
  (forall i j t u tag, cf_threads cf !! i = Some t -> cf_threads cf !! j = Some u ->
     held t = Some tag -> held u = Some tag -> i = j) /\
  (forall i t tag, cf_threads cf !! i = Some t -> registered t = Some tag ->
     (tag ∈ cl_pending (cf_client cf) /\ cl_done (cf_client cf) !! tag = None) \/
     (tag ∉ cl_pending (cf_client cf) /\ is_Some (cl_done (cf_client cf) !! tag))) /\
  (forall cf' tag r, conf_step cf cf' ->
     cl_done (cf_client cf) !! tag = None -> cl_done (cf_client cf') !! tag = Some r ->
     cr_err r <> None \/ answers tag r (cf_client cf)) /\
  (forall cf' i t tag, conf_step cf cf' ->
     cl_disconnect (cf_client cf) = None -> cl_disconnect (cf_client cf') <> None ->
     cf_threads cf' !! i = Some t -> registered t = Some tag -> is_Some (cl_done (cf_client cf') !! tag)) /\
  (forall i tag r, cf_threads cf !! i = Some (TWaiting tag) -> cl_done (cf_client cf) !! tag = Some r ->
     exists cf', conf_step cf cf' /\ cf_threads cf' !! i = Some (TReturned tag r)) /\
  (forall cf' i tag, reader_gone (cf_client cf) -> cf_threads cf !! i = Some (TWaiting tag) ->
     tag ∈ cl_pending (cf_client cf) -> rtc conf_step cf cf' -> cf_threads cf' !! i = Some (TWaiting tag)) /\
  (exists cf', rtc conf_step late_start cf' /\ reader_gone (cf_client cf') /\
     cf_threads cf' !! 0%nat = Some (TWaiting (tag_of 1)) /\ tag_of 1 ∈ cl_pending (cf_client cf')).
Proof.
  intros Hf Hr. pose proof (conf_reachable _ _ Hf Hr) as Hinv. split_and!.
  - apply Hinv.
  - apply Hinv.
  - intros cf' tag r. apply step_result.
  - intros cf' i t tag Hs Hn Hd Hi Ht. pose proof (conf_step_inv _ _ Hs Hinv) as Hinv'.
    destruct (dl_registered _ _ _ _ Hinv' i t tag Hi Ht) as [[Hp _]|[_ ?]]; [|done].
    rewrite (step_disconnect _ _ Hs Hn Hd) in Hp. set_solver.
  - intros i tag r Hi Hd. destruct cf as [c ts]. cbn in *. eexists. split.
    + eapply (st_receive c ts i tag r); [done|]. unfold poll_done. by rewrite Hd.
    + cbn. by rewrite lookup_insert_eq.
  - intros cf' i tag Hg Hi Hp Hs. assert (stranded i tag cf) as Hst by done. clear - Hs Hst.
    induction Hs as [cf|cf cf1 cf' H1 _ IH]; [apply Hst|]. eapply IH, stranded_step; [exact Hst|done].
  - destruct stranded_reachable as (cf' & Hs & H1 & H2 & H3 & _). by exists cf'.
Qed.
End Conc.

(** The command that starts after the hang-up waits in every continuation. *)
Lemma client_delivery_witness :
  let U := basic_unicode in let handler := mkHandler true true true in
  exists cf, rtc (conf_step handler) late_start cf /\
    forall cf', rtc (conf_step handler) cf cf' -> cf_threads cf' !! 0%nat = Some (TWaiting (tag_of 1)).
Proof.
  intros U handler. destruct (stranded_reachable handler) as (cf & Hr & Hg & Hi & Hp & _).
  exists cf. split; [exact Hr|]. intros cf' Hs.
  destruct (client_delivery handler late_start cf late_start_fresh Hr) as (_ & _ & _ & _ & _ & Hwait & _).
  exact (Hwait cf' 0%nat _ Hg Hi Hp Hs).
Defined.
