(* ===== verification/ClientWitness.v ===== *)
(** * The end-to-end theorems on a concrete client and server

    A client fresh from [New] talks to the in-memory server with the user
    [alice] and one unread message in the INBOX. *)

From S2P Require Import Prelude Utf8 GoStrings GoTime NumSet Imap Decoder Encoder ConnState Registry.
From S2P Require Import Message Mailbox MemStore MemSession MemFacts MemWorld MemProps Conn Commands Dispatch MemServer.
From S2P Require Import ClientParse Client ClientFacts Exchange EndToEnd DataExchange Limits ClientConc.

#[local] Existing Instance demo_backend.
#[local] Existing Instance basic_unicode.

Definition demo_handler : UnilateralDataHandler := mkHandler true true true.
Definition demo_idle : Client := idle_client [].
Definition demo_append_options : option AppendOptions := Some (mkAppendOptions [] time_zero false false).
Definition demo_start : CState Mem := feed [] demo_client.
(** Logged in, with one message; and with the INBOX selected. *)
Definition demo_authenticated : CState Mem :=
  let s := (demo_login demo_start).2 in
  mkCS (cs_conn s) (bk_Append "INBOX" "Subject: x" demo_append_options (cs_sess s)).2.
Definition demo_selected : CState Mem := (dispatch demo_table "a2" "SELECT" "INBOX" demo_authenticated).2.

Lemma demo_ready : ready demo_idle.
Proof. by repeat split. Qed.
Lemma demo_is_authenticated : authenticated (cs_conn demo_authenticated).
Proof. exists ConnStateAuthenticated. split; [set_solver|]. by vm_compute. Qed.

Abbreviation demo_exchange := (exchange (U := basic_unicode) (B := demo_backend) demo_options demo_ord).


Definition demo_op : op := OpLogin "alice" "a".

Definition demo_select_options : SelectOptions := select_options false.
Definition demo_system : list bytes := bytes_of <$> ["\Seen"; "\Answered"; "\Flagged"; "\Deleted"; "\Draft"].
Definition demo_select : SelectData :=
  mkSelectData demo_system (demo_system ++ [bytes_of "\*"]) 1 0 2 1 1 0 false [] None.

Lemma select_end_to_end_witness :
  exists c' s', demo_exchange (Client.Select demo_handler "INBOX" (Some demo_select_options)) demo_idle demo_authenticated
    (Ok (mkSelectData [] [] 1 0 2 1 1 0 false [] None)) c' s' /\ v_mailboxName (cl_view c') = "INBOX".
Proof.
  destruct (select_end_to_end (U := basic_unicode) (B := demo_backend) demo_options demo_ord demo_handler false "INBOX"
    demo_idle demo_authenticated demo_select
    (bk_Select "INBOX" (Some demo_select_options) (cs_sess demo_authenticated)).2 demo_ready demo_is_authenticated)
    as (c' & s' & He & _ & Hm & _).
  - reflexivity.
  - by apply (bool_decide_unpack _).
  - apply outcome. by vm_compute.
  - repeat constructor; by vm_compute.
  - split_and!; [by repeat constructor|by apply (bool_decide_unpack _)|done].
  - exists c', s'. split; [exact He|exact Hm].
Defined.

Definition demo_search : SearchData := mkSearchData [1] [] 0 0 None 0 0 search_data_ext0.
Lemma search_end_to_end_witness :
  exists c' s', demo_exchange (Client.Search demo_handler "UNSEEN") demo_idle demo_selected (Ok [1]) c' s'.
Proof.
  pose (crit := match (parseSearchCriteria criteria0 "UNSEEN").1 with Ok c => c | _ => criteria0 end).
  destruct (search_end_to_end (U := basic_unicode) (B := demo_backend) demo_options demo_ord demo_handler "UNSEEN" [] crit
    demo_idle demo_selected demo_search
    (bk_Search NumKindSeq (Some crit) (Some search_options0) (cs_sess demo_selected)).2 demo_ready)
    as (c' & s' & He & _).
  - by vm_compute.
  - done.
  - by apply (bool_decide_unpack _).
  - by vm_compute.
  - apply outcome. by vm_compute.
  - split; [by repeat constructor|by vm_compute].
  - exists c', s'. exact He.
Defined.

Definition demo_status : StatusData :=
  mkStatusData "INBOX" (Some 1) (Some 2) (Some 1) (Some 1) None None None None None [].
Lemma status_end_to_end_witness :
  exists c' s', demo_exchange (Client.Status demo_handler "INBOX" None) demo_idle demo_authenticated (Ok demo_status) c' s'.
Proof.
  destruct (status_end_to_end (U := basic_unicode) (B := demo_backend) demo_options demo_ord demo_handler "INBOX" None
    demo_idle demo_authenticated demo_status (bk_Status "INBOX" (asked_status None) (cs_sess demo_authenticated)).2
    demo_ready demo_is_authenticated) as (c' & s' & He & _).
  - reflexivity.
  - by apply (bool_decide_unpack _).
  - apply outcome. by vm_compute.
  - by vm_compute.
  - reflexivity.
  - by repeat split.
  - exists c', s'. exact He.
Defined.

Definition demo_entry : ListData := mkListData [] 47 "INBOX" [] [] None [] None.

Lemma store_rejected_witness :
  exists c' s', demo_exchange (Client.Store demo_handler "1" StoreFlagsAdd [bytes_of "\Seen"] false) demo_idle demo_selected
    (Err (IMAPError StatusBAD [] None "invalid flags")) c' s'.
Proof.
  destruct (store_rejected (U := basic_unicode) (B := demo_backend) demo_options demo_ord demo_handler "1"
    (match ParseSeqSet "1" with Ok s => s | _ => mkSeqSet [] end) StoreFlagsAdd [bytes_of "\Seen"] false demo_idle demo_selected demo_ready)
    as (c' & s' & He & _).
  - by vm_compute.
  - done.
  - reflexivity.
  - by vm_compute.
  - repeat constructor; by apply (bool_decide_unpack _).
  - by apply (bool_decide_unpack _).
  - exists c', s'. exact He.
Defined.


Lemma list_hang_witness : parseListResponse ("() NIL " ++ "box" ++ " (" ++ "X-KEY" ++ " (" ++ "a" ++ "))") = Hang.
Proof.
  destruct (list_hang (list_data [] 0 [])) as (_ & _ & H).
  apply H; [by split|reflexivity| |by apply (bool_decide_unpack _)].
  split_and!; [by split|by apply (bool_decide_unpack _)|reflexivity|by apply (bool_decide_unpack _)].
Defined.
