(* ===== verification/ExtBase.v ===== *)
(** * What extensions need of a backend (extensions/, server/session.go)

    The data of the extension commands, and the optional interfaces a session
    may implement.  A handler asks for an interface with a type assertion; which
    ones succeed depends on the type of the session only. *)

From S2P Require Import Prelude Utf8 GoStrings GoTime NumSet Imap Decoder Encoder Writers.
From S2P Require Import ConnState Conn Commands Dispatch.

(** ** Data (namespace.go, quota.go, acl.go, metadata.go, sort.go, thread.go) *)
Record NamespaceDescriptor := mkNamespace { ns_Prefix : bytes; ns_Delim : Z }.
Record NamespaceData := mkNamespaceData {
  ns_Personal : list NamespaceDescriptor;
  ns_Other : list NamespaceDescriptor;
  ns_Shared : list NamespaceDescriptor;
}.

Record QuotaResourceData := mkQuotaResource { q_Name : bytes; q_Usage : Z; q_Limit : Z }.
Record QuotaData := mkQuotaData { q_Root : bytes; q_Resources : list QuotaResourceData }.
Record QuotaRootData := mkQuotaRoot { qr_Mailbox : bytes; qr_Roots : list bytes }.

(** Maps that a handler writes out are listed in the order they are ranged over. *)
Record ACLData := mkACLData { acl_Mailbox : bytes; acl_Rights : list (bytes * bytes) }.
Record ACLListRightsData := mkListRights {
  lr_Mailbox : bytes;
  lr_Identifier : bytes;
  lr_Required : bytes;
  lr_Optional : list bytes;
}.
Record ACLMyRightsData := mkMyRights { mr_Mailbox : bytes; mr_Rights : bytes }.

Record MetadataEntry := mkMetadataEntry { me_Name : bytes; me_Value : option bytes }.
Record MetadataOptions := mkMetadataOptions { mo_MaxSize : option Z; mo_Depth : bytes }.
Record MetadataData := mkMetadataData { md_Mailbox : bytes; md_Entries : list (bytes * option bytes) }.

Record SortCriterion := mkSortCriterion { sk_Key : bytes; sk_Reverse : bool }.
Record SortData := mkSortData { so_AllNums : list Z }.

Inductive Thread := mkThread { th_Num : Z; th_Children : list Thread }.
Record ThreadData := mkThreadData { Threads : list Thread }.

Record NotifySpec := mkNotifySpec { nf_Mailbox : bytes; nf_Events : list bytes }.
Record URLAuthRequest := mkURLAuth { ua_URL : bytes; ua_Mechanism : bytes }.
Record URLFetchResponse := mkURLFetch { uf_URL : bytes; uf_Data : option bytes }.

(** A source has [Filter] and [Mailboxes]; a mailbox may come without data. *)
Record MultiSearchSource := mkSource { ms_Filter : bytes; ms_Mailboxes : list bytes }.
Record MultiSearchResult := mkMultiResult {
  mu_Mailbox : bytes;
  mu_UIDValidity : Z;
  mu_Data : option SearchData;
}.

Record MultiAppendMessage := mkMultiAppend {
  ma_Flags : list bytes;
  ma_InternalDate : Time;
  ma_Literal : bytes;
}.
Inductive CatenatePart := PartURL (url : bytes) | PartText (text : bytes).

(** ** The interfaces *)
(** A writer argument is the list of calls made on it. *)
Definition writing (S W : Type) : Type := S -> (res unit * S) * list W.

Record SessionQuota (S : Type) := mkSessionQuota {
  GetQuota : bytes -> St S QuotaData;
  GetQuotaRoot : bytes -> St S (QuotaRootData * list QuotaData);
  SetQuota : bytes -> list QuotaResourceData -> St S QuotaData;
}.
Record SessionACL (S : Type) := mkSessionACL {
  SetACL : bytes -> bytes -> bytes -> bytes -> St S unit;
  DeleteACL : bytes -> bytes -> St S unit;
  GetACL : bytes -> St S ACLData;
  ListRights : bytes -> bytes -> St S ACLListRightsData;
  MyRights : bytes -> St S ACLMyRightsData;
}.
Record SessionMetadata (S : Type) := mkSessionMetadata {
  GetMetadata : bytes -> list bytes -> MetadataOptions -> St S MetadataData;
  SetMetadata : bytes -> list MetadataEntry -> St S unit;
}.
Record SessionFilters (S : Type) := mkSessionFilters {
  GetFilter : bytes -> St S bytes;
  SetFilter : bytes -> bytes -> St S unit;
}.
Record SessionNotify (S : Type) := mkSessionNotify {
  Notify : list NotifySpec -> St S unit;
  CancelNotify : St S unit;
}.
Record SessionURLAuth (S : Type) := mkSessionURLAuth {
  GenURLAuth : list URLAuthRequest -> St S (list bytes);
  ResetKey : bytes -> list bytes -> St S unit;
  URLFetch : list bytes -> St S (list URLFetchResponse);
}.
(** A message is given by the bytes its reader yields. *)
Record SessionUIDPlus (S : Type) := mkSessionUIDPlus {
  CopyUIDs : NumSet -> bytes -> St S (option CopyData);
  ExpungeUIDs : UIDSet -> writing S Z;
}.
Record SessionSpecialUse (S : Type) := mkSessionSpecialUse {
  ListSpecialUse : bytes -> list bytes -> ListOptions -> writing S ListData;
  CreateSpecialUse : bytes -> CreateOptions -> St S unit;
}.

Record SessionSearchRes (S : Type) := mkSessionSearchRes {
  SaveSearchResult : SearchData -> St S unit;
  GetSearchResult : St S (option SeqSet);
}.
Record SessionContext (S : Type) := mkSessionContext {
  SearchContext : bytes -> NumKind -> SearchCriteria -> SearchOptions -> St S SearchData;
  CancelSearchContext : list bytes -> St S unit;
}.
Definition SearchMethod (S : Type) : Type := NumKind -> SearchCriteria -> SearchOptions -> St S SearchData.

(** Which interfaces the session type has; those with one method are given by
    the method. *)
Class Extended (S : Type) := {
  as_Move : option (NumSet -> bytes -> writing S Z);
  as_Namespace : option (St S NamespaceData);
  as_ID : option (option (gmap bytes (option bytes)) -> St S (option (list (bytes * option bytes))));
  as_Sort : option (NumKind -> list SortCriterion -> SearchCriteria -> SearchOptions -> St S SortData);
  as_Thread : option (NumKind -> bytes -> SearchCriteria -> SearchOptions -> St S ThreadData);
  as_Unauthenticate : option (St S unit);
  as_Compress : option (bytes -> St S unit);
  as_Language : option (list bytes -> St S (bytes * list bytes));
  as_Convert : option (Z -> bytes -> bytes -> gmap bytes bytes -> St S bytes);
  as_Replace : option (NumSet -> bytes -> bytes -> AppendOptions -> St S (option AppendData));
  as_Quota : option (SessionQuota S);
  as_ACL : option (SessionACL S);
  as_Metadata : option (SessionMetadata S);
  as_Filters : option (SessionFilters S);
  as_Notify : option (SessionNotify S);
  as_URLAuth : option (SessionURLAuth S);
  as_UIDPlus : option (SessionUIDPlus S);
  as_SpecialUse : option (SessionSpecialUse S);
  as_ESearch : option (SearchMethod S);
  as_SearchRes : option (SessionSearchRes S);
  as_SearchFuzzy : option (SearchMethod S);
  as_Context : option (SessionContext S);
  as_Partial : option (SearchMethod S);
  as_MultiSearch : option (NumKind -> MultiSearchSource -> SearchCriteria -> SearchOptions ->
                           St S (list MultiSearchResult));
  as_ESort : option (NumKind -> list SortCriterion -> SearchCriteria -> SearchOptions -> St S SearchData);
  as_CondStore : option (NumSet -> StoreFlags -> StoreOptions -> writing S fetch_call);
  as_QResync : option (bytes -> SelectOptions -> St S SelectData);
  as_UIDOnly : option (St S unit);
  as_UTF8Accept : option (St S unit);
  as_Binary : option (bytes -> bytes -> AppendOptions -> St S (option AppendData));
  as_MultiAppend : option (bytes -> list MultiAppendMessage -> St S (list (option AppendData)));
  as_Catenate : option (bytes -> list CatenatePart -> AppendOptions -> St S (option AppendData));
  as_ListExtended : option (bytes -> list bytes -> ListOptions -> writing S ListData);
}.

Arguments SaveSearchResult {S}.
Arguments GetSearchResult {S}.
Arguments SearchContext {S}.
Arguments CancelSearchContext {S}.
Arguments GetQuota {S}.
Arguments GetQuotaRoot {S}.
Arguments SetQuota {S}.
Arguments SetACL {S}.
Arguments DeleteACL {S}.
Arguments GetACL {S}.
Arguments ListRights {S}.
Arguments MyRights {S}.
Arguments GetMetadata {S}.
Arguments SetMetadata {S}.
Arguments GetFilter {S}.
Arguments SetFilter {S}.
Arguments Notify {S}.
Arguments CancelNotify {S}.
Arguments GenURLAuth {S}.
Arguments ResetKey {S}.
Arguments URLFetch {S}.
Arguments CopyUIDs {S}.
Arguments ExpungeUIDs {S}.
Arguments ListSpecialUse {S}.
Arguments CreateSpecialUse {S}.

(** ** Handlers that write their own refusals *)
Section Refuse.
Context {U : Unicode} {Sess : Type}.

(** [if x, err := m; err != nil { f; return nil }] *)
Definition or_else {A} (m : H Sess A) (f : error -> H Sess unit) (k : A -> H Sess unit) : H Sess unit :=
  r ← attempt m;
  match r with inl e => f e | inr a => k a end.

Definition bad (ctx : CommandContext) (text : bytes) : H Sess unit := on_conn (WriteBAD (x_Tag ctx) text).
Definition no (ctx : CommandContext) (text : bytes) : H Sess unit := on_conn (WriteNO (x_Tag ctx) text).
(** [fmt.Sprintf("... failed: %v", err)] *)
Definition no_failed (ctx : CommandContext) (what : bytes) (e : error) : H Sess unit :=
  no ctx (what ++ " failed: " ++ Error e).

(** [ctx.Session.(I)] *)
Definition asserting {I} (i : option I) (missing : H Sess unit) (k : I -> H Sess unit) : H Sess unit :=
  match i with Some i => k i | None => missing end.
(** The guard of the handlers that check the state themselves. *)
Definition in_states (allowed : list ConnState) (refused k : H Sess unit) : H Sess unit :=
  c ← get_conn;
  if bool_decide (conn_State c ∈ allowed) then k else refused.
(** A method of a nil decoder panics. *)
Definition use_decoder (ctx : CommandContext) : H Sess unit :=
  if x_decoder ctx then mret tt else st_panic.
End Refuse.

Notation "'let?' x := m 'else' f 'in' k" := (or_else m (fun _ => f) (fun x => k))
  (at level 200, x name, m at level 100, f at level 100, k at level 200, right associativity) : imap_scope.
