(* ===== verification/ExtCommands.v ===== *)
(** * Extensions that add commands (extensions/)

    The handlers of MOVE, UNSELECT, NAMESPACE, ID, UNAUTHENTICATE, COMPRESS,
    LANGUAGE, SORT, THREAD, CONVERT, NOTIFY, FILTERS, QUOTA, ACL, METADATA,
    URLAUTH and REPLACE.  Some refuse by returning an error, some write the
    refusal themselves. *)

From S2P Require Import Prelude Utf8 GoStrings GoTime NumSet Imap Decoder Encoder Writers.
From S2P Require Import ConnState Conn Commands Dispatch ExtBase.

Import Enc (SP, CRLF, Star, Atom, Number, Number64, BeginList, EndList, QuotedString, EncString, Literal, Nil,
  NString, MailboxName, AString, StatusResponse).

Section ExtCommands.
Context {U : Unicode} {Sess : Type} {B : Backend Sess} {X : Extended Sess}.
Abbreviation Cmd := (H Sess).

(** [for { x, err := m; if err != nil { break }; ...; if ReadSP fails { break } }];
    a round takes at least a byte. *)
Fixpoint each_sp {A} (fuel : nat) (m : Dec A) (acc : list A) : Dec (list A) :=
  match fuel with
  | O => st_hang
  | S f =>
    a ← attempt m;
    match a with
    | inl _ => mret acc
    | inr a =>
      sp ← attempt ReadSP;
      match sp with inl _ => mret (acc ++ [a]) | inr _ => each_sp f m (acc ++ [a]) end
    end
  end.
Definition spaced_values {A} (m : Dec A) : Dec (list A) :=
  s ← st_get; each_sp (length s + 1) m [].

(** The set of messages a command starts with; [invalid] is the text for a set
    that is no atom. *)
Definition read_set (ctx : CommandContext) (invalid : bytes) : Cmd NumSet :=
  setStr ← arg ReadAtom ?> ErrBad invalid;
  match x_NumKind ctx with
  | NumKindUID =>
    uidSet ← arg (lift_res (ParseUIDSet setStr)) ?> ErrBad "invalid UID set";
    mret (NumUID uidSet)
  | NumKindSeq =>
    seqSet ← arg (lift_res (ParseSeqSet setStr)) ?> ErrBad "invalid sequence set";
    mret (NumSeq seqSet)
  end.

(** ** MOVE, UNSELECT *)
Definition handleMove (ctx : CommandContext) : Cmd unit :=
  _ ← need_args ctx "missing arguments";
  numSet ← read_set ctx "invalid message set";
  _ ← arg ReadSP ?> ErrBad "missing destination mailbox";
  dest ← arg ReadAString ?> ErrBad "invalid destination mailbox";
  asserting as_Move (fail (ErrNo "MOVE not supported")) (fun move =>
    _ ← session_writing expunge_call (move numSet dest);
    write (StatusResponse (x_Tag ctx) "OK" [] "MOVE completed")).

Definition handleUnselect (ctx : CommandContext) : Cmd unit :=
  _ ← session bk_Unselect;
  _ ← on_conn (SetMailbox [] false);
  _ ← SetState ConnStateAuthenticated;
  ok ctx "UNSELECT completed".

(** ** NAMESPACE *)
Definition write_namespace (ns : NamespaceDescriptor) (e : Enc.Encoder) : Enc.Encoder :=
  let e := e |> BeginList |> QuotedString (ns_Prefix ns) |> SP in
  let e := if ns_Delim ns =? 0 then e |> Nil else e |> QuotedString (encode_runes [ns_Delim ns]) in
  e |> EndList.
Definition writeNamespaceList (l : list NamespaceDescriptor) (e : Enc.Encoder) : Enc.Encoder :=
  match l with
  | [] => e |> Nil
  | _ => e |> BeginList |> spaced true (write_namespace <$> l) |> EndList
  end.
Definition handleNamespace (ctx : CommandContext) : Cmd unit :=
  asserting as_Namespace (fail (ErrNo "NAMESPACE not supported")) (fun namespace =>
    data ← session namespace;
    _ ← write (fun e => e |> Star |> Atom "NAMESPACE" |> SP |> writeNamespaceList (ns_Personal data) |> SP
                          |> writeNamespaceList (ns_Other data) |> SP |> writeNamespaceList (ns_Shared data)
                          |> CRLF);
    ok ctx "NAMESPACE completed").

(** ** ID *)
Definition id_pair : Dec (bytes * option bytes) :=
  key ← ReadString;
  _ ← ReadSP;
  '(val, there) ← ReadNString;
  mret (key, if (there : bool) then Some val else None).
Definition readIDData : Dec (option (gmap bytes (option bytes))) :=
  b ← attempt PeekByte;
  match b with
  | inl _ => mret None
  | inr b =>
    if (b =c "N") || (b =c "n") then
      atom ← ReadAtom;
      if (atom =s "NIL") || (atom =s "nil") || (atom =s "Nil") then mret None
      else st_fail (ErrBad "expected NIL or list")
    else
      pairs ← ReadList id_pair;
      mret (Some (foldl (fun m '(k, v) => <[k := v]> m) ∅ pairs))
  end.
Definition writeIDData (data : option (list (bytes * option bytes))) (e : Enc.Encoder) : Enc.Encoder :=
  match data with
  | None | Some [] => e |> Nil
  | Some l => e |> BeginList
                |> spaced true ((fun '(k, v) e => e |> QuotedString k |> SP |> NString v) <$> l)
                |> EndList
  end.
Definition handleID (ctx : CommandContext) : Cmd unit :=
  asserting as_ID (fail (ErrNo "ID not supported")) (fun id =>
    clientID ← (if x_decoder ctx then arg readIDData ?> ErrBad "invalid ID arguments" else mret None);
    serverID ← session (id clientID);
    _ ← write (fun e => e |> Star |> Atom "ID" |> SP |> writeIDData serverID |> CRLF);
    ok ctx "ID completed").

(** ** UNAUTHENTICATE, COMPRESS, LANGUAGE *)
Definition handleUnauthenticate (ctx : CommandContext) : Cmd unit :=
  in_states auth_states (bad ctx "UNAUTHENTICATE not allowed in current state")
  (asserting as_Unauthenticate (no ctx "UNAUTHENTICATE not supported") (fun unauthenticate =>
   or_else (session unauthenticate) (no_failed ctx "UNAUTHENTICATE") (fun _ =>
   or_else (SetState ConnStateNotAuthenticated) (no_failed ctx "UNAUTHENTICATE") (fun _ =>
   ok ctx "UNAUTHENTICATE completed")))).

Definition handleCompress (ctx : CommandContext) : Cmd unit :=
  in_states auth_states (bad ctx "COMPRESS not allowed in current state")
  (asserting as_Compress (no ctx "COMPRESS not supported") (fun compress =>
   if negb (x_decoder ctx) then bad ctx "missing algorithm argument"
   else
     let? algorithm := arg ReadAtom else bad ctx "invalid algorithm" in
     if negb (EqualFold algorithm "DEFLATE")
     then no ctx ("unsupported compression algorithm: " ++ algorithm)
     else or_else (session (compress algorithm)) (no_failed ctx "COMPRESS") (fun _ =>
          ok ctx "COMPRESS completed"))).

Definition handleLanguage (ctx : CommandContext) : Cmd unit :=
  in_states auth_states (bad ctx "LANGUAGE not allowed in current state")
  (asserting as_Language (no ctx "LANGUAGE not supported") (fun language =>
   tags ← (if x_decoder ctx then arg (spaced_values ReadAtom) else mret []);
   or_else (session (language tags)) (no_failed ctx "LANGUAGE") (fun '(_, available) =>
   _ ← (match available with
        | [] => mret tt
        | _ => write (fun e => e |> Star |> Atom "LANGUAGE" |> SP |> BeginList
                                |> spaced true (AString <$> available) |> EndList |> CRLF)
        end);
   ok ctx "LANGUAGE completed"))).

(** ** SORT, THREAD *)
Definition sort_criterion : Dec SortCriterion :=
  atom ← ReadAtom;
  let upper := ToUpper atom in
  if upper =s "REVERSE" then
    _ ← ReadSP;
    keyAtom ← ReadAtom;
    mret (mkSortCriterion (ToUpper keyAtom) true)
  else mret (mkSortCriterion upper false).
Definition handleSort (ctx : CommandContext) : Cmd unit :=
  asserting as_Sort (no ctx "SORT not supported") (fun sort =>
  _ ← use_decoder ctx;
  let? criteria := arg (ReadList sort_criterion) else bad ctx "Invalid sort criteria" in
  match criteria with
  | [] => bad ctx "Empty sort criteria"
  | _ =>
    let? _ := arg ReadSP else bad ctx "Expected charset" in
    let? _ := arg ReadAtom else bad ctx "Invalid charset" in
    or_else (session (sort (x_NumKind ctx) criteria criteria0 search_options0)) (no_failed ctx "SORT") (fun data =>
    _ ← write (fun e => foldl (fun e n => e |> SP |> Number n) (e |> Star |> Atom "SORT") (so_AllNums data)
                        |> CRLF);
    ok ctx "SORT completed")
  end).

Fixpoint writeThread (t : Thread) (e : Enc.Encoder) : Enc.Encoder :=
  let 'mkThread num children := t in
  (fix go (ts : list Thread) (e : Enc.Encoder) : Enc.Encoder :=
     match ts with [] => e | t :: ts => go ts (writeThread t (e |> SP)) end)
    children (e |> BeginList |> Number num) |> EndList.
Definition thread_algorithms : list bytes := ["ORDEREDSUBJECT" : bytes; "REFERENCES" : bytes].
Definition handleThread (ctx : CommandContext) : Cmd unit :=
  asserting as_Thread (no ctx "THREAD not supported") (fun thread =>
  _ ← use_decoder ctx;
  let? algoStr := arg ReadAtom else bad ctx "Expected threading algorithm" in
  let algorithm := ToUpper algoStr in
  if negb (bool_decide (algorithm ∈ thread_algorithms))
  then bad ctx ("Unknown threading algorithm: " ++ algoStr)
  else
    let? _ := arg ReadSP else bad ctx "Expected charset" in
    let? _ := arg ReadAtom else bad ctx "Invalid charset" in
    or_else (session (thread (x_NumKind ctx) algorithm criteria0 search_options0)) (no_failed ctx "THREAD") (fun data =>
    _ ← write (fun e => foldl (fun e t => e |> SP |> writeThread t) (e |> Star |> Atom "THREAD") (Threads data)
                        |> CRLF);
    ok ctx "THREAD completed")).

(** ** CONVERT *)
Fixpoint convert_params (fuel : nat) (params : gmap bytes bytes) : Dec (bytes + gmap bytes bytes) :=
  match fuel with
  | O => st_hang
  | S f =>
    sp ← attempt ReadSP;
    b ← (match sp with inl e => mret (inl e) | inr _ => attempt PeekByte end);
    match b with
    | inl _ => mret (inr params)
    | inr b =>
      if negb (b =c "(") then mret (inr params)
      else
        _ ← attempt (ExpectByte "(");
        name ← attempt ReadAtom;
        match name with
        | inl _ => mret (inl ("invalid parameter name" : bytes))
        | inr name =>
          sp ← attempt ReadSP;
          match sp with
          | inl _ => mret (inl ("missing parameter value" : bytes))
          | inr _ =>
            value ← attempt ReadAString;
            match value with
            | inl _ => mret (inl ("invalid parameter value" : bytes))
            | inr value =>
              close ← attempt (ExpectByte ")");
              match close with
              | inl _ => mret (inl ("expected closing parenthesis" : bytes))
              | inr _ => convert_params f (<[name := value]> params)
              end
            end
          end
        end
    end
  end.
Definition handleConvert (ctx : CommandContext) : Cmd unit :=
  in_states [ConnStateSelected] (bad ctx "CONVERT requires selected state")
  (asserting as_Convert (no ctx "CONVERT not supported") (fun convert =>
   if negb (x_decoder ctx) then bad ctx "missing arguments"
   else
     let? seqNum := arg ReadNumber else bad ctx "invalid sequence number" in
     let? _ := arg ReadSP else bad ctx "missing section" in
     let? section := arg ReadAString else bad ctx "invalid section" in
     let? _ := arg ReadSP else bad ctx "missing media type" in
     let? mediaType := arg ReadAString else bad ctx "invalid media type" in
     params ← arg (s ← st_get; convert_params (length s + 1) ∅);
     match params with
     | inl text => bad ctx text
     | inr params =>
       or_else (session (convert seqNum section mediaType params)) (no_failed ctx "CONVERT") (fun data =>
       _ ← write (fun e => e |> Star |> Atom "CONVERTED" |> SP |> AString section |> SP |> Literal data |> CRLF);
       ok ctx "CONVERT completed")
     end)).

(** ** NOTIFY *)
Fixpoint notify_specs (fuel : nat) (specs : list NotifySpec) : Dec (option (list NotifySpec)) :=
  match fuel with
  | O => st_hang
  | S f =>
    mailbox ← attempt sp_astring;
    match mailbox with
    | inl _ => mret (Some specs)
    | inr mailbox =>
      b ← attempt (_ ← ReadSP; PeekByte);
      match b with
      | inr b =>
        if b =c "(" then
          events ← attempt (ReadList ReadAtom);
          match events with
          | inl _ => mret None
          | inr events => notify_specs f (specs ++ [mkNotifySpec mailbox events])
          end
        else notify_specs f (specs ++ [mkNotifySpec mailbox []])
      | inl _ => notify_specs f (specs ++ [mkNotifySpec mailbox []])
      end
    end
  end.
Definition handleNotify (ctx : CommandContext) : Cmd unit :=
  in_states auth_states (bad ctx "NOTIFY not allowed in current state")
  (asserting as_Notify (no ctx "NOTIFY not supported") (fun sess =>
   if negb (x_decoder ctx) then bad ctx "missing subcommand"
   else
     let? subcommand := arg ReadAtom else bad ctx "invalid subcommand" in
     if ToUpper subcommand =s "NONE" then
       or_else (session (CancelNotify sess)) (no_failed ctx "NOTIFY NONE") (fun _ => ok ctx "NOTIFY completed")
     else if ToUpper subcommand =s "SET" then
       specs ← arg (s ← st_get; notify_specs (length s + 1) []);
       match specs with
       | None => bad ctx "invalid event list"
       | Some [] => bad ctx "missing notification specifications"
       | Some specs =>
         or_else (session (Notify sess specs)) (no_failed ctx "NOTIFY SET") (fun _ => ok ctx "NOTIFY completed")
       end
     else bad ctx ("unknown NOTIFY subcommand: " ++ subcommand))).

(** ** FILTERS *)
Definition handleGetFilter (ctx : CommandContext) : Cmd unit :=
  in_states auth_states (bad ctx "GETFILTER not allowed in current state")
  (asserting as_Filters (no ctx "GETFILTER not supported") (fun sess =>
   if negb (x_decoder ctx) then bad ctx "missing filter name"
   else
     let? name := arg ReadAString else bad ctx "invalid filter name" in
     or_else (session (GetFilter sess name)) (no_failed ctx "GETFILTER") (fun criteria =>
     _ ← write (fun e => e |> Star |> Atom "FILTER" |> SP |> AString name |> SP |> AString criteria |> CRLF);
     ok ctx "GETFILTER completed"))).
Definition handleSetFilter (ctx : CommandContext) : Cmd unit :=
  in_states auth_states (bad ctx "SETFILTER not allowed in current state")
  (asserting as_Filters (no ctx "SETFILTER not supported") (fun sess =>
   if negb (x_decoder ctx) then bad ctx "missing arguments"
   else
     let? name := arg ReadAString else bad ctx "invalid filter name" in
     let? _ := arg ReadSP else bad ctx "missing filter criteria" in
     let? criteria := arg ReadAString else bad ctx "invalid filter criteria" in
     or_else (session (SetFilter sess name criteria)) (no_failed ctx "SETFILTER") (fun _ =>
     ok ctx "SETFILTER completed"))).

(** ** QUOTA *)
Definition quota_response (data : QuotaData) (e : Enc.Encoder) : Enc.Encoder :=
  let resource r e := e |> Atom (q_Name r) |> SP |> Number64 (u64 (q_Usage r)) |> SP |> Number64 (u64 (q_Limit r)) in
  e |> Star |> Atom "QUOTA" |> SP |> AString (q_Root data) |> SP |> BeginList
    |> spaced true (resource <$> q_Resources data) |> EndList |> CRLF.
Definition writeQuotaResponse (data : QuotaData) : Cmd unit := write (quota_response data).

Definition handleGetQuota (ctx : CommandContext) : Cmd unit :=
  asserting as_Quota (no ctx "GETQUOTA not supported") (fun sess =>
  _ ← use_decoder ctx;
  let? root := arg ReadAString else bad ctx "Expected quota root name" in
  or_else (session (GetQuota sess root)) (no_failed ctx "GETQUOTA") (fun data =>
  _ ← writeQuotaResponse data;
  ok ctx "GETQUOTA completed")).
Definition handleGetQuotaRoot (ctx : CommandContext) : Cmd unit :=
  asserting as_Quota (no ctx "GETQUOTAROOT not supported") (fun sess =>
  _ ← use_decoder ctx;
  let? mailbox := arg ReadAString else bad ctx "Expected mailbox name" in
  or_else (session (GetQuotaRoot sess mailbox)) (no_failed ctx "GETQUOTAROOT") (fun '(rootData, quotas) =>
  _ ← write (fun e => foldl (fun e root => e |> SP |> AString root)
                        (e |> Star |> Atom "QUOTAROOT" |> SP |> MailboxName (qr_Mailbox rootData))
                        (qr_Roots rootData) |> CRLF);
  _ ← write_all (quota_response <$> quotas);
  ok ctx "GETQUOTAROOT completed")).

Definition quota_limit : Dec QuotaResourceData :=
  resName ← ReadAtom;
  _ ← ReadSP;
  limit ← ReadNumber64;
  mret (mkQuotaResource resName 0 (i64 limit)).
Definition handleSetQuota (ctx : CommandContext) : Cmd unit :=
  asserting as_Quota (no ctx "SETQUOTA not supported") (fun sess =>
  _ ← use_decoder ctx;
  let? root := arg ReadAString else bad ctx "Expected quota root name" in
  let? _ := arg ReadSP else bad ctx "Expected resource list" in
  let? resources := arg (ReadList quota_limit) else bad ctx "Invalid resource list" in
  or_else (session (SetQuota sess root resources)) (no_failed ctx "SETQUOTA") (fun data =>
  _ ← writeQuotaResponse data;
  ok ctx "SETQUOTA completed")).

(** ** ACL *)
Definition acl_modifier (rightsStr : bytes) : bytes * bytes :=
  match rightsStr with
  | c :: rest => if (c =c "+") || (c =c "-") then ([c], rest) else ([], rightsStr)
  | [] => ([], rightsStr)
  end.
Definition handleSetACL (ctx : CommandContext) : Cmd unit :=
  asserting as_ACL (no ctx "SETACL not supported") (fun sess =>
  _ ← use_decoder ctx;
  let? mailbox := arg ReadAString else bad ctx "Expected mailbox name" in
  let? _ := arg ReadSP else bad ctx "Expected identifier" in
  let? identifier := arg ReadAString else bad ctx "Expected identifier" in
  let? _ := arg ReadSP else bad ctx "Expected rights" in
  let? rightsStr := arg ReadAString else bad ctx "Expected rights string" in
  let '(modifier, rights) := acl_modifier rightsStr in
  or_else (session (SetACL sess mailbox identifier modifier rights)) (no_failed ctx "SETACL") (fun _ =>
  ok ctx "SETACL completed")).
Definition handleDeleteACL (ctx : CommandContext) : Cmd unit :=
  asserting as_ACL (no ctx "DELETEACL not supported") (fun sess =>
  _ ← use_decoder ctx;
  let? mailbox := arg ReadAString else bad ctx "Expected mailbox name" in
  let? _ := arg ReadSP else bad ctx "Expected identifier" in
  let? identifier := arg ReadAString else bad ctx "Expected identifier" in
  or_else (session (DeleteACL sess mailbox identifier)) (no_failed ctx "DELETEACL") (fun _ =>
  ok ctx "DELETEACL completed")).
Definition handleGetACL (ctx : CommandContext) : Cmd unit :=
  asserting as_ACL (no ctx "GETACL not supported") (fun sess =>
  _ ← use_decoder ctx;
  let? mailbox := arg ReadAString else bad ctx "Expected mailbox name" in
  or_else (session (GetACL sess mailbox)) (no_failed ctx "GETACL") (fun data =>
  _ ← write (fun e => foldl (fun e '(id, rights) => e |> SP |> AString id |> SP |> AString rights)
                        (e |> Star |> Atom "ACL" |> SP |> MailboxName (acl_Mailbox data)) (acl_Rights data) |> CRLF);
  ok ctx "GETACL completed")).
Definition handleListRights (ctx : CommandContext) : Cmd unit :=
  asserting as_ACL (no ctx "LISTRIGHTS not supported") (fun sess =>
  _ ← use_decoder ctx;
  let? mailbox := arg ReadAString else bad ctx "Expected mailbox name" in
  let? _ := arg ReadSP else bad ctx "Expected identifier" in
  let? identifier := arg ReadAString else bad ctx "Expected identifier" in
  or_else (session (ListRights sess mailbox identifier)) (no_failed ctx "LISTRIGHTS") (fun data =>
  _ ← write (fun e => foldl (fun e opt => e |> SP |> AString opt)
                        (e |> Star |> Atom "LISTRIGHTS" |> SP |> MailboxName (lr_Mailbox data) |> SP
                           |> AString (lr_Identifier data) |> SP |> AString (lr_Required data))
                        (lr_Optional data) |> CRLF);
  ok ctx "LISTRIGHTS completed")).
Definition handleMyRights (ctx : CommandContext) : Cmd unit :=
  asserting as_ACL (no ctx "MYRIGHTS not supported") (fun sess =>
  _ ← use_decoder ctx;
  let? mailbox := arg ReadAString else bad ctx "Expected mailbox name" in
  or_else (session (MyRights sess mailbox)) (no_failed ctx "MYRIGHTS") (fun data =>
  _ ← write (fun e => e |> Star |> Atom "MYRIGHTS" |> SP |> MailboxName (mr_Mailbox data) |> SP
                        |> AString (mr_Rights data) |> CRLF);
  ok ctx "MYRIGHTS completed")).

(** ** METADATA *)
Definition metadata_opt : Dec (MetadataOptions -> MetadataOptions) :=
  optName ← ReadAtom;
  _ ← ReadSP;
  if optName =s "MAXSIZE" then
    n ← ReadNumber64;
    mret (fun o => mkMetadataOptions (Some (i64 n)) (mo_Depth o))
  else if optName =s "DEPTH" then
    depth ← ReadAString;
    mret (fun o => mkMetadataOptions (mo_MaxSize o) depth)
  else st_fail (Errorf [Txt "unknown GETMETADATA option: "; Txt optName]).
Definition metadata_response (data : MetadataData) (e : Enc.Encoder) : Enc.Encoder :=
  let e := e |> Star |> Atom "METADATA" |> SP in
  let e := if md_Mailbox data =s [] then e |> QuotedString [] else e |> MailboxName (md_Mailbox data) in
  let entry '(name, value) e :=
    let e := e |> AString name |> SP in
    match value with None => e |> Nil | Some v => e |> EncString v end in
  e |> SP |> BeginList |> spaced true (entry <$> md_Entries data) |> EndList |> CRLF.
Definition handleGetMetadata (ctx : CommandContext) : Cmd unit :=
  asserting as_Metadata (no ctx "GETMETADATA not supported") (fun sess =>
  _ ← use_decoder ctx;
  let? b := arg PeekByte else bad ctx "Expected arguments" in
  let read_names options :=
    let? mailbox := arg ReadAString else bad ctx "Expected mailbox name" in
    let? _ := arg ReadSP else bad ctx "Expected entry names" in
    let? b := arg PeekByte else bad ctx "Expected entry names" in
    let get entries :=
      or_else (session (GetMetadata sess mailbox entries options)) (no_failed ctx "GETMETADATA") (fun data =>
      _ ← write (metadata_response data);
      ok ctx "GETMETADATA completed") in
    if b =c "(" then
      let? entries := arg (ReadList ReadAString) else bad ctx "Invalid entry list" in get entries
    else
      let? entry := arg ReadAString else bad ctx "Expected entry name" in get [entry] in
  if b =c "(" then
    or_else (arg (ReadList metadata_opt)) (fun e => bad ctx ("Invalid options: " ++ Error e)) (fun upds =>
    let? _ := arg ReadSP else bad ctx "Expected mailbox name" in
    read_names (foldl (fun o u => u o) (mkMetadataOptions None []) upds))
  else read_names (mkMetadataOptions None [])).

Definition metadata_entry : Dec MetadataEntry :=
  name ← ReadAString;
  _ ← ReadSP;
  '(value, there) ← ReadNString;
  mret (mkMetadataEntry name (if (there : bool) then Some value else None)).
Definition handleSetMetadata (ctx : CommandContext) : Cmd unit :=
  asserting as_Metadata (no ctx "SETMETADATA not supported") (fun sess =>
  _ ← use_decoder ctx;
  let? mailbox := arg ReadAString else bad ctx "Expected mailbox name" in
  let? _ := arg ReadSP else bad ctx "Expected entry list" in
  let? entries := arg (ReadList metadata_entry) else bad ctx "Invalid entry list" in
  or_else (session (SetMetadata sess mailbox entries)) (no_failed ctx "SETMETADATA") (fun _ =>
  ok ctx "SETMETADATA completed")).

(** ** URLAUTH *)
Fixpoint url_requests (fuel : nat) (acc : list URLAuthRequest) : Dec (bytes + list URLAuthRequest) :=
  match fuel with
  | O => st_hang
  | S f =>
    url ← attempt ReadAString;
    match url with
    | inl _ => mret (inr acc)
    | inr url =>
      sp ← attempt ReadSP;
      match sp with
      | inl _ => mret (inl ("expected mechanism after URL" : bytes))
      | inr _ =>
        mechanism ← attempt ReadAtom;
        match mechanism with
        | inl _ => mret (inl ("invalid mechanism" : bytes))
        | inr mechanism =>
          let acc := acc ++ [mkURLAuth url mechanism] in
          sp ← attempt ReadSP;
          match sp with inl _ => mret (inr acc) | inr _ => url_requests f acc end
        end
      end
    end
  end.
Definition handleGenURLAuth (ctx : CommandContext) : Cmd unit :=
  in_states auth_states (bad ctx "GENURLAUTH not allowed in current state")
  (asserting as_URLAuth (no ctx "GENURLAUTH not supported") (fun sess =>
   if negb (x_decoder ctx) then bad ctx "missing arguments"
   else
     requests ← arg (s ← st_get; url_requests (length s + 1) []);
     match requests with
     | inl text => bad ctx text
     | inr [] => bad ctx "missing URL and mechanism arguments"
     | inr requests =>
       or_else (session (GenURLAuth sess requests)) (no_failed ctx "GENURLAUTH") (fun urls =>
       _ ← write (fun e => foldl (fun e u => e |> SP |> AString u) (e |> Star |> Atom "GENURLAUTH") urls |> CRLF);
       ok ctx "GENURLAUTH completed")
     end)).

(** The mechanisms after the mailbox, each behind a space. *)
Fixpoint sp_atoms (fuel : nat) (acc : list bytes) : Dec (list bytes) :=
  match fuel with
  | O => st_hang
  | S f =>
    a ← attempt sp_atom;
    match a with inl _ => mret acc | inr a => sp_atoms f (acc ++ [a]) end
  end.
Definition resetkey_args : Dec (bytes * list bytes) :=
  mb ← attempt ReadAString;
  match mb with
  | inl _ => mret ([], [])
  | inr mb => s ← st_get; mechanisms ← sp_atoms (length s + 1) []; mret (mb, mechanisms)
  end.
Definition handleResetKey (ctx : CommandContext) : Cmd unit :=
  in_states auth_states (bad ctx "RESETKEY not allowed in current state")
  (asserting as_URLAuth (no ctx "RESETKEY not supported") (fun sess =>
   '(mailbox, mechanisms) ← (if x_decoder ctx then arg resetkey_args else mret ([], []));
   or_else (session (ResetKey sess mailbox mechanisms)) (no_failed ctx "RESETKEY") (fun _ =>
   ok ctx "RESETKEY completed"))).

Definition urlfetch_response (resp : URLFetchResponse) (e : Enc.Encoder) : Enc.Encoder :=
  let e := e |> Star |> Atom "URLFETCH" |> SP |> AString (uf_URL resp) |> SP in
  match uf_Data resp with Some d => e |> Literal d | None => e |> Nil end |> CRLF.
Definition handleURLFetch (ctx : CommandContext) : Cmd unit :=
  in_states auth_states (bad ctx "URLFETCH not allowed in current state")
  (asserting as_URLAuth (no ctx "URLFETCH not supported") (fun sess =>
   if negb (x_decoder ctx) then bad ctx "missing URL arguments"
   else
     urls ← arg (spaced_values ReadAString);
     match urls with
     | [] => bad ctx "missing URL arguments"
     | _ =>
       or_else (session (URLFetch sess urls)) (no_failed ctx "URLFETCH") (fun responses =>
       _ ← write_all (urlfetch_response <$> responses);
       ok ctx "URLFETCH completed")
     end)).

(** ** REPLACE *)
Definition append_ok (ctx : CommandContext) (data : option AppendData) (text : bytes) : Cmd unit :=
  match data with
  | Some d =>
    if (0 <? ad_UIDValidity d) && (0 <? ad_UID d) then
      write (StatusResponse (x_Tag ctx) "OK"
        ("APPENDUID " ++ FormatUint (ad_UIDValidity d) ++ " " ++ FormatUint (ad_UID d)) text)
    else ok ctx text
  | None => ok ctx text
  end.
(** Without the binary form. *)
Definition parse_plain_literal (s : bytes) : res Z :=
  let s := TrimSpace s in
  if negb (HasPrefix s "{") || negb (HasSuffix s "}") then
    Err (Errorf [Txt "expected literal, got "; QStr s])
  else
    let inner := TrimSuffix (take (length s - 2) (drop 1 s)) "+" in
    match ParseInt inner with
    | Ok size => Ok size
    | Err e => Err (Errorf [Txt "invalid literal size "; QStr inner; Txt ": "; Wrap e])
    | Panic => Panic
    | Hang => Hang
    end.
Definition readPlainLiteralSize : Dec Z := fun s => (parse_plain_literal s, []).

(** Everything up to the literal; the text of an error is what is answered. *)
Definition replace_args (ctx : CommandContext) : Cmd (NumSet * bytes * AppendOptions * Z) :=
  numSet ← read_set ctx "invalid message set";
  _ ← arg ReadSP ?> ErrBad "missing destination mailbox";
  mailbox ← arg ReadAString ?> ErrBad "invalid mailbox name";
  _ ← arg ReadSP ?> ErrBad "missing message data";
  b ← arg PeekByte ?> ErrBad "unexpected end of command";
  '(flags, b) ← append_flags b;
  date ← append_datetime b;
  litSize ← on_err (arg readPlainLiteralSize) (fun e => ErrBad ("invalid literal: " ++ Error e));
  mret (numSet, mailbox, mkAppendOptions flags date false false, litSize).
Definition bad_text (e : error) : bytes := match e with IMAPError _ _ _ text => text | _ => [] end.
Definition handleReplace (ctx : CommandContext) : Cmd unit :=
  if negb (x_decoder ctx) then bad ctx "missing arguments"
  else
    asserting as_Replace (no ctx "REPLACE not supported") (fun replace =>
    or_else (replace_args ctx) (fun e => bad ctx (bad_text e)) (fun '(numSet, mailbox, options, litSize) =>
    body ← conn_read (ReadLiteral litSize);
    or_else (session (replace numSet mailbox body options)) (no_failed ctx "REPLACE") (fun data =>
    append_ok ctx data "REPLACE completed"))).

(** ** UIDPLUS: COPY and EXPUNGE *)
Definition handleUIDPlusCopy (ctx : CommandContext) : Cmd unit :=
  _ ← need_args ctx "missing arguments";
  numSet ← read_numset ctx;
  _ ← arg ReadSP ?> ErrBad "missing destination mailbox";
  dest ← arg ReadAString ?> ErrBad "invalid destination mailbox";
  data ← session (match as_UIDPlus with
                  | Some sess => CopyUIDs sess numSet dest
                  | None => bk_Copy numSet dest
                  end);
  match data with
  | Some d =>
    if 0 <? cd_UIDValidity d then
      let code := "COPYUID " ++ FormatUint (cd_UIDValidity d) ++ " " ++ UIDSet_String (cd_SourceUIDs d)
                  ++ " " ++ UIDSet_String (cd_DestUIDs d) in
      on_conn (WriteOKCode (x_Tag ctx) code "COPY completed")
    else ok ctx "COPY completed"
  | None => ok ctx "COPY completed"
  end.
Definition handleUIDPlusExpunge (ctx : CommandContext) : Cmd unit :=
  uids ← (match x_NumKind ctx with
          | NumKindUID =>
            if x_decoder ctx then
              uidStr ← arg ReadAtom ?> ErrBad "invalid UID set";
              uidSet ← arg (lift_res (ParseUIDSet uidStr)) ?> ErrBad "invalid UID set";
              mret (Some uidSet)
            else mret None
          | NumKindSeq => mret None
          end);
  _ ← session_writing expunge_call
        (match uids, as_UIDPlus with
         | Some uids, Some sess => ExpungeUIDs sess uids
         | _, _ => bk_Expunge uids
         end);
  ok ctx "EXPUNGE completed".

(** ** SPECIAL-USE: CREATE *)
Definition use_attribute : Cmd bytes :=
  _ ← arg (ExpectByte "(") ?> ErrBad "expected '(' after SP";
  atom ← arg ReadAtom ?> ErrBad "expected USE keyword";
  _ ← (if EqualFold atom "USE" then mret tt else fail (ErrBad "expected USE keyword"));
  _ ← arg ReadSP ?> ErrBad "expected SP after USE";
  _ ← arg (ExpectByte "(") ?> ErrBad "expected '(' before attribute";
  _ ← arg (ExpectByte "\") ?> ErrBad "expected '\' for special-use attribute";
  attrName ← arg ReadAtom ?> ErrBad "invalid special-use attribute";
  _ ← arg (ExpectByte ")") ?> ErrBad "expected ')' after attribute";
  _ ← arg (ExpectByte ")") ?> ErrBad "expected ')' after USE list";
  mret ("\" ++ attrName).
Definition handleSpecialUseCreate (ctx : CommandContext) : Cmd unit :=
  _ ← need_args ctx "missing mailbox name";
  mailbox ← arg ReadAString ?> ErrBad "invalid mailbox name";
  sp ← attempt (arg ReadSP);
  use ← (match sp with inr _ => use_attribute | inl _ => mret [] end);
  let options := mkCreateOptions use in
  _ ← session (match use, as_SpecialUse with
               | _ :: _, Some sess => CreateSpecialUse sess mailbox options
               | _, _ => bk_Create mailbox options
               end);
  ok ctx "CREATE completed".
End ExtCommands.
