(* ===== verification/ExtSearch.v ===== *)
(** * Extensions of SEARCH and SORT (extensions/)

    ESEARCH, SEARCHRES, SEARCH=FUZZY, CONTEXT=SEARCH, MULTISEARCH, PARTIAL and
    ESORT.  Each package has its own copy of the reader of RETURN options and of
    the writer of an ESEARCH response; they differ in the options they know. *)

From S2P Require Import Prelude Utf8 GoStrings GoTime NumSet Imap Decoder Encoder Writers.
From S2P Require Import ConnState Conn Commands Dispatch ExtBase ExtCommands.

Import Enc (SP, CRLF, Star, Atom, Number, Number64, BeginList, EndList, QuotedString, MailboxName, StatusResponse).

(** ** Search keys (extensions/esearch) *)
Section Keys.
Context {U : Unicode}.

(** The switch on a key that was read; [sub] reads what NOT negates. *)
Definition criterion_with (sub : Dec SearchCriteria) (key : bytes) (c : SearchCriteria) : Dec SearchCriteria :=
  let upper := ToUpper key in
  match flag_key upper with
  | Some set => mret (set c)
  | None =>
    match arg_key upper c with
    | Some m => m
    | None =>
      if upper =s "NOT" then
        _ ← ReadSP;
        s ← sub;
        mret (with_not s c)
      else
        match ParseSeqSet key with
        | Ok set => mret (with_seqnum set c)
        | _ => mret c
        end
    end
  end.
(** A round reads an atom, so the length of the input plus one bounds the
    rounds, nested ones included. *)
Fixpoint criteria_go (fuel : nat) (c : SearchCriteria) : Dec SearchCriteria :=
  match fuel with
  | O => st_hang
  | S f =>
    b ← attempt PeekByte;
    match b with
    | inl _ => mret c
    | inr b =>
      if b =c ")" then mret c
      else
        key ← attempt ReadAtom;
        match key with
        | inl _ => mret c
        | inr key =>
          c ← criterion_with (criteria_go f criteria0) key c;
          sp ← attempt ReadSP;
          match sp with inl _ => mret c | inr _ => criteria_go f c end
        end
    end
  end.
Definition ParseSearchCriteria (c : SearchCriteria) : Dec SearchCriteria :=
  s ← st_get; criteria_go (length s + 1) c.
Definition ParseSearchCriterion (key : bytes) (c : SearchCriteria) : Dec SearchCriteria :=
  criterion_with (ParseSearchCriteria criteria0) key c.

(** The copies in extensions/esort. *)
Definition parseSearchCriteria_esort : SearchCriteria -> Dec SearchCriteria := ParseSearchCriteria.
Definition criterion_with_esort : Dec SearchCriteria -> bytes -> SearchCriteria -> Dec SearchCriteria := criterion_with.
Definition parseSearchCriterion_esort (key : bytes) (c : SearchCriteria) : Dec SearchCriteria :=
  criterion_with_esort (parseSearchCriteria_esort criteria0) key c.
End Keys.

(** ** RETURN options *)
Definition set_min (o : SearchOptions) : SearchOptions :=
  let 'mkSearchOptions _ x a c s ct u p := o in mkSearchOptions true x a c s ct u p.
Definition set_max (o : SearchOptions) : SearchOptions :=
  let 'mkSearchOptions m _ a c s ct u p := o in mkSearchOptions m true a c s ct u p.
Definition set_all (o : SearchOptions) : SearchOptions :=
  let 'mkSearchOptions m x _ c s ct u p := o in mkSearchOptions m x true c s ct u p.
Definition set_count (o : SearchOptions) : SearchOptions :=
  let 'mkSearchOptions m x a _ s ct u p := o in mkSearchOptions m x a true s ct u p.
Definition set_save (o : SearchOptions) : SearchOptions :=
  let 'mkSearchOptions m x a c _ ct u p := o in mkSearchOptions m x a c true ct u p.
Definition set_context (b : bool) (o : SearchOptions) : SearchOptions :=
  let 'mkSearchOptions m x a c s _ u p := o in mkSearchOptions m x a c s b u p.
Definition set_update (b : bool) (o : SearchOptions) : SearchOptions :=
  let 'mkSearchOptions m x a c s ct _ p := o in mkSearchOptions m x a c s ct b p.
Definition set_partial (r : SearchReturnPartial) (o : SearchOptions) : SearchOptions :=
  let 'mkSearchOptions m x a c s ct u _ := o in mkSearchOptions m x a c s ct u (Some r).

Definition standard_option (upper : bytes) : option (SearchOptions -> SearchOptions) :=
  if upper =s "MIN" then Some set_min
  else if upper =s "MAX" then Some set_max
  else if upper =s "ALL" then Some set_all
  else if upper =s "COUNT" then Some set_count
  else if upper =s "SAVE" then Some set_save
  else None.

Section ExtSearch.
Context {U : Unicode} {Sess : Type} {B : Backend Sess} {X : Extended Sess}.
Abbreviation Cmd := (H Sess).

(** The loop over the options of a list; a round reads an atom.  [what] names
    the list in the error texts, [opt] is the switch on the option. *)
Section Options.
Context {T : Type} (what one : bytes) (opt : bytes -> T -> Cmd T).
Fixpoint option_loop (fuel : nat) (o : T) : Cmd T :=
  match fuel with
  | O => st_hang
  | S f =>
    atom ← arg ReadAtom ?> ErrBad ("invalid " ++ one);
    o ← opt atom o;
    b ← arg PeekByte ?> ErrBad ("unexpected end in " ++ what);
    if b =c ")" then
      _ ← arg (ExpectByte ")") ?> ErrBad ("expected ')' for " ++ what);
      mret o
    else
      _ ← arg ReadSP ?> ErrBad ("expected SP between " ++ what);
      option_loop f o
  end.
Definition option_list (o : T) : Cmd T :=
  _ ← arg (ExpectByte "(") ?> ErrBad ("expected '(' for " ++ what);
  b ← arg PeekByte ?> ErrBad ("unexpected end in " ++ what);
  if b =c ")" then
    _ ← arg (ExpectByte ")") ?> ErrBad ("expected ')' for " ++ what);
    mret o
  else
    h ← st_get;
    option_loop (length (h_args h) + 1) o.
End Options.

Definition return_options (opt : bytes -> SearchOptions -> Cmd SearchOptions) : Cmd SearchOptions :=
  option_list "RETURN options" "RETURN option" opt search_options0.
Definition standard_opt (atom : bytes) (o : SearchOptions) : Cmd SearchOptions :=
  match standard_option (ToUpper atom) with
  | Some set => mret (set o)
  | None => fail (ErrBad ("unknown RETURN option: " ++ atom))
  end.
Definition parseReturnOptions : Cmd SearchOptions := return_options standard_opt.
Definition hasAnyReturnOption (o : SearchOptions) : bool :=
  so_ReturnMin o || so_ReturnMax o || so_ReturnAll o || so_ReturnCount o || so_ReturnSave o.

(** ** Responses *)
Definition esearch_head (ctx : CommandContext) (e : Enc.Encoder) : Enc.Encoder :=
  let e := e |> Star |> Atom "ESEARCH" |> SP
             |> BeginList |> Atom "TAG" |> SP |> QuotedString (x_Tag ctx) |> EndList in
  match x_NumKind ctx with NumKindUID => e |> SP |> Atom "UID" | NumKindSeq => e end.
Definition has_results (data : SearchData) : bool :=
  (0 <? sd_Min data) || (0 <? sd_Max data) || bool_decide (sd_All data <> None) || (0 <? sd_Count data).
Definition result_items (data : SearchData) (o : SearchOptions) (e : Enc.Encoder) : Enc.Encoder :=
  if has_results data then
    let e := if so_ReturnMin o && (0 <? sd_Min data) then e |> SP |> Atom "MIN" |> SP |> Number (sd_Min data) else e in
    let e := if so_ReturnMax o && (0 <? sd_Max data) then e |> SP |> Atom "MAX" |> SP |> Number (sd_Max data) else e in
    let e := match sd_All data with
             | Some all => if so_ReturnAll o then e |> SP |> Atom "ALL" |> SP |> Atom (SeqSet_String all) else e
             | None => e
             end in
    if so_ReturnCount o then e |> SP |> Atom "COUNT" |> SP |> Number (sd_Count data) else e
  else e.
Definition modseq_item (data : SearchData) (e : Enc.Encoder) : Enc.Encoder :=
  if 0 <? sd_ModSeq data then e |> SP |> Atom "MODSEQ" |> SP |> Number64 (sd_ModSeq data) else e.
Definition writeESearchResponse (ctx : CommandContext) (data : SearchData) (o : SearchOptions)
    (e : Enc.Encoder) : Enc.Encoder :=
  e |> esearch_head ctx |> result_items data o |> modseq_item data |> CRLF.

(** The copies of the packages. *)
Definition parseReturnOptions_searchres : Cmd SearchOptions := return_options standard_opt.
Definition parseReturnOptions_fuzzy : Cmd SearchOptions := return_options standard_opt.
Definition parseReturnOptions_multi : Cmd SearchOptions := return_options standard_opt.
Definition parseReturnOptions_esort : Cmd SearchOptions := return_options standard_opt.
Definition writeESearchResponse_searchres := writeESearchResponse.
Definition writeESearchResponse_fuzzy := writeESearchResponse.
Definition writeESearchResponse_esort := writeESearchResponse.

(** ** The arguments of SEARCH *)
Definition invalid_search {A} (m : Cmd A) : Cmd A :=
  on_err m (fun e => ErrBad ("invalid search criteria: " ++ Error e)).
(** [return_opts] reads RETURN options, [all] keys to the end, [one] goes on
    after the key that was read. *)
Definition search_args (ctx : CommandContext) (return_opts : Cmd SearchOptions)
    (all : SearchCriteria -> Cmd SearchCriteria) (one : bytes -> SearchCriteria -> Cmd SearchCriteria)
    : Cmd (bool * SearchCriteria * SearchOptions) :=
  _ ← need_args ctx "missing search criteria";
  first ← arg ReadAtom ?> ErrBad "missing search criteria";
  if EqualFold first "RETURN" then
    _ ← arg ReadSP ?> ErrBad "missing RETURN options";
    options ← return_opts;
    _ ← arg ReadSP ?> ErrBad "missing search criteria after RETURN";
    criteria ← invalid_search (all criteria0);
    mret (true, criteria, options)
  else
    criteria ← invalid_search (one first criteria0);
    sp ← attempt (arg ReadSP);
    criteria ← (match sp with inr _ => invalid_search (all criteria) | inl _ => mret criteria end);
    mret (false, criteria, search_options0).

(** The keys of a package with a criterion of its own. *)
Fixpoint keys_loop (one : bytes -> SearchCriteria -> Cmd SearchCriteria) (fuel : nat) (c : SearchCriteria)
    : Cmd SearchCriteria :=
  match fuel with
  | O => st_hang
  | S f =>
    b ← attempt (arg PeekByte);
    match b with
    | inl _ => mret c
    | inr b =>
      if b =c ")" then mret c
      else
        key ← attempt (arg ReadAtom);
        match key with
        | inl _ => mret c
        | inr key =>
          c ← one key c;
          sp ← attempt (arg ReadSP);
          match sp with inl _ => mret c | inr _ => keys_loop one f c end
        end
    end
  end.
Definition keys_with (one : bytes -> SearchCriteria -> Cmd SearchCriteria) (c : SearchCriteria) : Cmd SearchCriteria :=
  h ← st_get; keys_loop one (length (h_args h) + 1) c.

(** [SearchExtended] if the session has it. *)
Definition search_extended (ctx : CommandContext) (criteria : SearchCriteria) (options : SearchOptions)
    : Cmd SearchData :=
  session (match as_ESearch with
           | Some SearchExtended => SearchExtended (x_NumKind ctx) criteria options
           | None => bk_Search (x_NumKind ctx) (Some criteria) (Some options)
           end).
Definition search_plain (ctx : CommandContext) (criteria : SearchCriteria) (options : SearchOptions)
    : Cmd SearchData :=
  session (bk_Search (x_NumKind ctx) (Some criteria) (Some options)).

Definition search_done (ctx : CommandContext) (extended : bool) (data : SearchData)
    (response : Enc.Encoder -> Enc.Encoder) : Cmd unit :=
  _ ← (if extended then write response else write (search_response ctx data));
  ok ctx "SEARCH completed".

(** ** ESEARCH *)
Definition esearch_all (c : SearchCriteria) : Cmd SearchCriteria := arg (ParseSearchCriteria c).
Definition esearch_one (key : bytes) (c : SearchCriteria) : Cmd SearchCriteria := arg (ParseSearchCriterion key c).
Definition handleESearch (ctx : CommandContext) : Cmd unit :=
  '(hasReturn, criteria, options) ← search_args ctx parseReturnOptions esearch_all esearch_one;
  data ← (if (hasReturn : bool) then search_extended ctx criteria options else search_plain ctx criteria options);
  search_done ctx (hasReturn && hasAnyReturnOption options) data (writeESearchResponse ctx data options).

(** ** SEARCHRES *)
Definition parseSearchCriterionWithDollar (key : bytes) (c : SearchCriteria) : Cmd SearchCriteria :=
  if key =s "$" then
    match as_SearchRes with
    | None => fail (emsg "no saved search result")
    | Some sess =>
      savedSet ← session (GetSearchResult sess);
      mret (match savedSet with Some s => with_seqnum s c | None => c end)
    end
  else arg (ParseSearchCriterion key c).
Definition parseSearchCriteriaWithDollar : SearchCriteria -> Cmd SearchCriteria :=
  keys_with parseSearchCriterionWithDollar.
Definition handleSearchRes (ctx : CommandContext) : Cmd unit :=
  '(hasReturn, criteria, options) ← search_args ctx parseReturnOptions_searchres
     parseSearchCriteriaWithDollar parseSearchCriterionWithDollar;
  data ← (if (hasReturn : bool) then search_extended ctx criteria options else search_plain ctx criteria options);
  _ ← (match so_ReturnSave options, as_SearchRes with
       | true, Some sess => session (SaveSearchResult sess data)
       | _, _ => mret tt
       end);
  search_done ctx (hasReturn && hasAnyReturnOption options) data (writeESearchResponse_searchres ctx data options).

Definition resolveDollar (ctx : CommandContext) : Cmd NumSet :=
  match as_SearchRes with
  | None => fail (ErrBad "no saved search result")
  | Some sess =>
    savedSet ← session (GetSearchResult sess);
    match savedSet with
    | None => fail (ErrBad "no saved search result")
    | Some s =>
      if SeqSet_IsEmpty s then fail (ErrBad "no saved search result")
      else mret (match x_NumKind ctx with
                 | NumKindUID => NumUID (mkUIDSet (SeqSet_Ranges s))
                 | NumKindSeq => NumSeq s
                 end)
    end
  end.
Definition isDollarCommand (ctx : CommandContext) : Cmd bool :=
  if x_decoder ctx then
    b ← attempt (arg PeekByte);
    mret (match b with inr b => b =c "$" | inl _ => false end)
  else mret false.
(** The original handler, on what is left of the arguments, unless the set is [$]. *)
Definition on_dollar (ctx : CommandContext) (original k : Cmd unit) : Cmd unit :=
  dollar ← isDollarCommand ctx;
  if (dollar : bool) then
    atom ← attempt (arg ReadAtom);
    match atom with
    | inr atom => if atom =s "$" then k else original
    | inl _ => original
    end
  else original.

(** ** SEARCH=FUZZY *)
Definition with_fuzzy (c : SearchCriteria) : SearchCriteria := ext_upd (set_fuzzy true) c.
Definition parseFuzzySearchCriterion (key : bytes) (c : SearchCriteria) : Cmd SearchCriteria :=
  if EqualFold key "FUZZY" then
    _ ← arg ReadSP ?> emsg "expected search key after FUZZY";
    next ← arg ReadAtom ?> emsg "expected search key after FUZZY";
    arg (ParseSearchCriterion next (with_fuzzy c))
  else arg (ParseSearchCriterion key c).
Definition parseFuzzySearchCriteria : SearchCriteria -> Cmd SearchCriteria := keys_with parseFuzzySearchCriterion.
Definition handleFuzzySearch (ctx : CommandContext) : Cmd unit :=
  '(hasReturn, criteria, options) ← search_args ctx parseReturnOptions_fuzzy
     parseFuzzySearchCriteria parseFuzzySearchCriterion;
  data ← (match se_Fuzzy (sc_Ext criteria), as_SearchFuzzy with
          | true, Some SearchFuzzy => session (SearchFuzzy (x_NumKind ctx) criteria options)
          | _, _ => if (hasReturn : bool) then search_extended ctx criteria options
                    else search_plain ctx criteria options
          end);
  search_done ctx (hasReturn && hasAnyReturnOption options) data (writeESearchResponse_fuzzy ctx data options).

(** ** CONTEXT=SEARCH *)
Definition handleCancelUpdate (ctx : CommandContext) : Cmd unit :=
  in_states [ConnStateSelected] (fail (ErrBad "CANCELUPDATE requires selected state"))
  (_ ← need_args ctx "missing CANCELUPDATE arguments";
   tags ← arg (spaced_values ReadQuotedString);
   match tags with
   | [] => fail (ErrBad "missing search context tag")
   | _ =>
     asserting as_Context (fail (ErrNo "CANCELUPDATE not supported")) (fun sess =>
     _ ← session (CancelSearchContext sess tags);
     ok ctx "CANCELUPDATE completed")
   end).

(** [hasContext] and [hasUpdate] are the two new options. *)
Definition context_opt (atom : bytes) (o : SearchOptions) : Cmd SearchOptions :=
  let upper := ToUpper atom in
  match standard_option upper with
  | Some set => mret (set o)
  | None =>
    if upper =s "UPDATE" then mret (set_update true o)
    else if upper =s "CONTEXT" then mret (set_context true o)
    else fail (ErrBad ("unknown RETURN option: " ++ atom))
  end.
Definition parseReturnOptions_context : Cmd SearchOptions := return_options context_opt.
Definition hasAnyStandardReturnOption (o : SearchOptions) : bool := hasAnyReturnOption o.
Definition hasAnyReturnOption_context (o : SearchOptions) : bool :=
  hasAnyStandardReturnOption o || so_ReturnContext o || so_ReturnUpdate o.
Definition writeNoUpdateResponse (ctx : CommandContext) : Cmd unit :=
  write (StatusResponse "*" "NO" ("NOUPDATE " ++ [DQ] ++ x_Tag ctx ++ [DQ]) "search context not supported").

(** One notification; a nil set has no string. *)
Definition write_update (ctx : CommandContext) (kind : bytes) (u : SearchContextUpdate) : Cmd unit :=
  match cu_SeqSet u with
  | None => st_panic
  | Some set => write (fun e => e |> esearch_head ctx |> SP |> Atom kind |> SP
                                  |> BeginList |> Number (cu_Position u) |> SP |> Atom (SeqSet_String set)
                                  |> EndList |> CRLF)
  end.
Fixpoint write_updates (ctx : CommandContext) (kind : bytes) (us : list SearchContextUpdate) : Cmd unit :=
  match us with
  | [] => mret tt
  | u :: us => _ ← write_update ctx kind u; write_updates ctx kind us
  end.
Definition writeContextESearchResponse (ctx : CommandContext) (data : SearchData) (o : SearchOptions) : Cmd unit :=
  _ ← write_updates ctx "ADDTO" (sx_AddTo (sd_Ext data));
  _ ← write_updates ctx "REMOVEFROM" (sx_RemoveFrom (sd_Ext data));
  write (writeESearchResponse ctx data o).
Definition writeTraditionalSearchResponse (ctx : CommandContext) (data : SearchData) : Cmd unit :=
  write (search_response ctx data).

(** Where the search goes, and the options that are left. *)
Definition context_route (ctx : CommandContext) (criteria : SearchCriteria) (options : SearchOptions)
    : Cmd (SearchData * SearchOptions) :=
  let standard options :=
    data ← (if hasAnyStandardReturnOption options then search_extended ctx criteria options
            else search_plain ctx criteria options);
    mret (data, options) in
  if so_ReturnContext options || so_ReturnUpdate options then
    match as_Context with
    | Some sess =>
      data ← session (SearchContext sess (x_Tag ctx) (x_NumKind ctx) criteria options);
      mret (data, options)
    | None =>
      _ ← writeNoUpdateResponse ctx;
      standard (set_update false (set_context false options))
    end
  else standard options.
Definition handleContextSearch (ctx : CommandContext) : Cmd unit :=
  '(hasReturn, criteria, options) ← search_args ctx parseReturnOptions_context esearch_all esearch_one;
  if (hasReturn : bool) then
    '(data, options) ← context_route ctx criteria options;
    _ ← (if hasAnyReturnOption_context options then writeContextESearchResponse ctx data options
         else writeTraditionalSearchResponse ctx data);
    ok ctx "SEARCH completed"
  else
    data ← search_plain ctx criteria options;
    _ ← writeTraditionalSearchResponse ctx data;
    ok ctx "SEARCH completed".

(** ** MULTISEARCH *)
Definition filter_types : list bytes := ["mailboxes" : bytes; "subtree" : bytes; "subtree-one" : bytes].
Definition source_mailboxes : Cmd (list bytes) :=
  b ← arg PeekByte ?> ErrBad "unexpected end in source specification";
  if b =c "(" then
    on_err (arg (ReadList ReadAString)) (fun e => ErrBad ("invalid mailbox list: " ++ Error e))
  else
    mbox ← on_err (arg ReadAString) (fun e => ErrBad ("invalid mailbox name: " ++ Error e));
    mret [mbox].
Definition search_source : Cmd MultiSearchSource :=
  inKeyword ← arg ReadAtom ?> ErrBad "missing IN keyword";
  _ ← (if EqualFold inKeyword "IN" then mret tt else fail (ErrBad ("expected IN keyword, got " ++ inKeyword)));
  _ ← arg ReadSP ?> ErrBad "missing source specification after IN";
  _ ← arg (ExpectByte "(") ?> ErrBad "expected '(' for source specification";
  filterType ← arg ReadAtom ?> ErrBad "missing filter type";
  let filterLower := ToLower filterType in
  _ ← (if bool_decide (filterLower ∈ filter_types) then mret tt
       else fail (ErrBad ("unknown filter type: " ++ filterType)));
  _ ← arg ReadSP ?> ErrBad "missing mailbox after filter type";
  mailboxes ← source_mailboxes;
  _ ← arg (ExpectByte ")") ?> ErrBad "expected ')' for source specification";
  mret (mkSource filterLower mailboxes).
Definition multi_args : Cmd (SearchCriteria * SearchOptions) :=
  _ ← arg ReadSP ?> ErrBad "missing search criteria";
  atom ← arg ReadAtom ?> ErrBad "missing search arguments";
  '(atom, options) ←
    (if EqualFold atom "RETURN" then
       _ ← arg ReadSP ?> ErrBad "missing RETURN options";
       options ← parseReturnOptions_multi;
       _ ← arg ReadSP ?> ErrBad "missing search criteria after RETURN";
       atom ← arg ReadAtom ?> ErrBad "missing search criteria";
       mret (atom, options)
     else mret (atom, search_options0));
  atom ←
    (if EqualFold atom "CHARSET" then
       _ ← arg ReadSP ?> ErrBad "missing charset name";
       _ ← arg ReadAString ?> ErrBad "invalid charset name";
       _ ← arg ReadSP ?> ErrBad "missing search criteria after CHARSET";
       arg ReadAtom ?> ErrBad "missing search criteria"
     else mret atom);
  criteria ← invalid_search (esearch_one atom criteria0);
  sp ← attempt (arg ReadSP);
  criteria ← (match sp with inr _ => invalid_search (esearch_all criteria) | inl _ => mret criteria end);
  mret (criteria, options).
Definition multi_response (ctx : CommandContext) (o : SearchOptions) (r : MultiSearchResult) (e : Enc.Encoder)
    : Enc.Encoder :=
  let e := e |> Star |> Atom "ESEARCH" |> SP
             |> BeginList |> Atom "TAG" |> SP |> QuotedString (x_Tag ctx) |> EndList
             |> SP |> Atom "MAILBOX" |> SP |> MailboxName (mu_Mailbox r)
             |> SP |> Atom "UIDVALIDITY" |> SP |> Number (mu_UIDValidity r)
             |> SP |> Atom "UID" in
  match mu_Data r with
  | Some data => e |> result_items data o |> modseq_item data
  | None => e
  end |> CRLF.
Definition writeMultiSearchResponse (ctx : CommandContext) (results : list MultiSearchResult) (o : SearchOptions)
    : Cmd unit :=
  write_all (multi_response ctx o <$> results).
Definition handleMultiSearch (ctx : CommandContext) : Cmd unit :=
  in_states auth_states (fail (ErrBad "ESEARCH requires authenticated or selected state"))
  (_ ← need_args ctx "missing ESEARCH arguments";
   source ← search_source;
   '(criteria, options) ← multi_args;
   asserting as_MultiSearch (fail (ErrNo "MULTISEARCH not supported")) (fun multiSearch =>
   results ← session (multiSearch (x_NumKind ctx) source criteria options);
   _ ← writeMultiSearchResponse ctx results options;
   ok ctx "ESEARCH completed")).

(** ** PARTIAL *)
Definition parsePartialRange (s : bytes) : res (Z * Z) :=
  match LastIndexByte s ":" with
  | None => Err (emsg "missing ':' separator")
  | Some idx =>
    let offsetStr := take idx s in
    let countStr := drop (idx + 1) s in
    match ParseInt32 offsetStr with
    | Ok offset64 =>
      if offset64 =? 0 then Err (emsg "offset must not be zero")
      else
        match ParseUint countStr 32 with
        | Ok count64 =>
          if count64 =? 0 then Err (emsg "count must be positive") else Ok (offset64, count64)
        | _ => Err (Errorf [Txt "invalid count: "; Txt countStr])
        end
    | _ => Err (Errorf [Txt "invalid offset: "; Txt offsetStr])
    end
  end.
Definition partial_opt (atom : bytes) (o : SearchOptions) : Cmd SearchOptions :=
  let upper := ToUpper atom in
  match standard_option upper with
  | Some set => mret (set o)
  | None =>
    if upper =s "PARTIAL" then
      _ ← arg ReadSP ?> ErrBad "missing PARTIAL range";
      rangeAtom ← arg ReadAtom ?> ErrBad "invalid PARTIAL range";
      '(offset, count) ← on_err (arg (lift_res (parsePartialRange rangeAtom)))
                           (fun e => ErrBad ("invalid PARTIAL range: " ++ Error e));
      mret (set_partial (mkReturnPartial offset count) o)
    else fail (ErrBad ("unknown RETURN option: " ++ atom))
  end.
Definition parseReturnOptions_partial : Cmd SearchOptions := return_options partial_opt.
Definition hasAnyReturnOption_partial (o : SearchOptions) : bool :=
  hasAnyReturnOption o || bool_decide (so_ReturnPartial o <> None).
Definition partial_item (data : SearchData) (p : SearchReturnPartial) (e : Enc.Encoder) : Enc.Encoder :=
  let e := e |> SP |> Atom "PARTIAL" |> SP |> BeginList
             |> Atom (FormatInt (rp_Offset p) ++ ":" ++ FormatUint (rp_Count p)) in
  match sx_Partial (sd_Ext data) with
  | Some d =>
    let e := e |> SP |> Number (sp_Total d) in
    match sp_UIDs d with
    | [] => e
    | uids => e |> SP |> Atom (UIDSet_String (UIDSet_AddNum (mkUIDSet []) uids))
    end
  | None => e |> SP |> Number 0
  end |> EndList.
Definition writeESearchResponse_partial (ctx : CommandContext) (data : SearchData) (o : SearchOptions)
    (e : Enc.Encoder) : Enc.Encoder :=
  let e := e |> esearch_head ctx |> result_items data o in
  match so_ReturnPartial o with
  | Some p => e |> partial_item data p
  | None => e
  end |> modseq_item data |> CRLF.
Definition handlePartialSearch (ctx : CommandContext) : Cmd unit :=
  '(hasReturn, criteria, options) ← search_args ctx parseReturnOptions_partial esearch_all esearch_one;
  data ← (if (hasReturn : bool) then
            match so_ReturnPartial options, as_Partial with
            | Some _, Some SearchPartial => session (SearchPartial (x_NumKind ctx) criteria options)
            | _, _ => search_extended ctx criteria options
            end
          else search_plain ctx criteria options);
  search_done ctx (hasReturn && hasAnyReturnOption_partial options) data
    (writeESearchResponse_partial ctx data options).

(** ** SORT with RETURN: PARTIAL and ESORT *)
Definition parseSortCriteria : Dec (list SortCriterion) := ReadList sort_criterion.
(** After the sort criteria: the charset, which is not used, and the search keys. *)
Definition sort_search (all : SearchCriteria -> Dec SearchCriteria) : Cmd SearchCriteria :=
  _ ← arg ReadSP ?> ErrBad "expected charset";
  _ ← arg ReadAtom ?> ErrBad "invalid charset";
  sp ← attempt (arg ReadSP);
  match sp with
  | inr _ => invalid_search (arg (all criteria0))
  | inl _ => mret criteria0
  end.
Definition nonempty_sort (criteria : list SortCriterion) : Cmd unit :=
  match criteria with [] => fail (ErrBad "empty sort criteria") | _ => mret tt end.

Definition handlePartialSort (original : Handler Sess) (ctx : CommandContext) : Cmd unit :=
  if negb (x_decoder ctx) then original ctx
  else
    b ← attempt (arg PeekByte);
    match b with
    | inl _ => original ctx
    | inr b =>
      if b =c "(" then original ctx
      else
        atom ← attempt (arg ReadAtom);
        match atom with
        | inl _ => original ctx
        | inr atom =>
          if negb (EqualFold atom "RETURN") then fail (ErrBad "expected RETURN or sort criteria list")
          else
            _ ← arg ReadSP ?> ErrBad "missing RETURN options";
            options ← parseReturnOptions_partial;
            _ ← arg ReadSP ?> ErrBad "missing sort criteria";
            sortCriteria ← on_err (arg parseSortCriteria) (fun e => ErrBad ("invalid sort criteria: " ++ Error e));
            _ ← nonempty_sort sortCriteria;
            searchCriteria ← sort_search ParseSearchCriteria;
            asserting as_ESort (fail (ErrNo "SORT with RETURN not supported")) (fun SortExtended =>
            data ← session (SortExtended (x_NumKind ctx) sortCriteria searchCriteria options);
            _ ← write (writeESearchResponse_partial ctx data options);
            ok ctx "SORT completed")
        end
    end.

Definition seq_string (nums : list Z) : bytes := Join (FormatUint <$> nums) ",".
Definition sortDataToSearchData (sd : SortData) : SearchData :=
  match so_AllNums sd with
  | [] => mkSearchData [] [] 0 0 None 0 0 search_data_ext0
  | n :: rest =>
    let min := foldl (fun m n => if n <? m then n else m) n rest in
    let max := foldl (fun m n => if m <? n then n else m) n rest in
    let all := match ParseSeqSet (seq_string (n :: rest)) with Ok set => Some set | _ => None end in
    mkSearchData (n :: rest) [] min max all (u32 (len (n :: rest))) 0 search_data_ext0
  end.
Definition handleESort (original : Handler Sess) (ctx : CommandContext) : Cmd unit :=
  _ ← need_args ctx "missing sort arguments";
  b ← arg PeekByte ?> ErrBad "missing sort arguments";
  if b =c "(" then original ctx
  else
    first ← arg ReadAtom ?> ErrBad "missing sort arguments";
    if negb (EqualFold first "RETURN") then fail (ErrBad "expected RETURN or sort criteria list")
    else
      _ ← arg ReadSP ?> ErrBad "missing RETURN options";
      options ← parseReturnOptions_esort;
      _ ← arg ReadSP ?> ErrBad "missing sort criteria after RETURN";
      criteria ← arg (ReadList sort_criterion) ?> ErrBad "invalid sort criteria";
      _ ← nonempty_sort criteria;
      searchCriteria ← sort_search parseSearchCriteria_esort;
      let respond data :=
        _ ← (if hasAnyReturnOption options then write (writeESearchResponse_esort ctx data options)
             else write (fun e => foldl (fun e n => e |> SP |> Number n) (e |> Star |> Atom "SORT")
                                    (sd_AllSeqNums data) |> CRLF));
        ok ctx "SORT completed" in
      match as_ESort, as_Sort with
      | Some SortExtended, _ =>
        data ← session (SortExtended (x_NumKind ctx) criteria searchCriteria options);
        respond data
      | None, Some sort =>
        sortData ← session (sort (x_NumKind ctx) criteria searchCriteria options);
        respond (sortDataToSearchData sortData)
      | None, None => no ctx "SORT not supported"
      end.
End ExtSearch.
