(* ===== verification/ExtMessages.v ===== *)
(** * Extensions of FETCH, STORE, SELECT, APPEND and LIST (extensions/)

    CONDSTORE, QRESYNC, PREVIEW, UIDONLY and the saved results of SEARCHRES;
    BINARY, UTF8=ACCEPT, MULTIAPPEND and CATENATE; LIST-EXTENDED.  A handler that
    takes [original] hands some commands on to the handler it wraps. *)

From S2P Require Import Prelude Utf8 GoStrings GoTime NumSet Imap Decoder Encoder Writers.
From S2P Require Import ConnState Conn Commands Dispatch ExtBase ExtCommands ExtSearch.

Import Enc (SP, CRLF, Star, Atom, StatusResponse).

(** ** Fetch options *)
Definition with_fetch_ext (f : FetchExt -> FetchExt) (o : FetchOptions) : FetchOptions :=
  let 'mkFetchOptions bs st e fl d z u x := o in mkFetchOptions bs st e fl d z u (f x).
Definition set_changed_since (n : Z) : FetchOptions -> FetchOptions := with_fetch_ext (fun x =>
  let 'mkFetchExt _ p sd em t b bz l _ v := x in mkFetchExt true p sd em t b bz l n v).
Definition set_vanished : FetchOptions -> FetchOptions := with_fetch_ext (fun x =>
  let 'mkFetchExt m p sd em t b bz l c _ := x in mkFetchExt m p sd em t b bz l c true).
Definition set_lazy : FetchOptions -> FetchOptions := with_fetch_ext (fun x =>
  let 'mkFetchExt m p sd em t b bz _ c v := x in mkFetchExt m p sd em t b bz true c v).
Definition fetch_uid : FetchOptions -> FetchOptions := upd_base false false false false false true.

(** ** Fetch items: the copies in extensions/condstore *)
Section Items.
Context {U : Unicode}.
Definition ReadFieldList : Dec (list bytes) := readFieldList.
Definition ParseBinaryPart : bytes -> list Z := parseBinaryPart.
Definition ConsumePartial : Dec (option SectionPartial) := consumePartial.
Definition ParseFetchBodySection : bool -> Dec FetchItemBodySection := parseFetchBodySection.
Definition parseFetchBodySectionFromAtom_condstore : bytes -> bool -> Dec FetchItemBodySection :=
  parseFetchBodySectionFromAtom.
Definition ParseSingleFetchItem : Dec fetch_upd := parseSingleFetchItem.
Definition ParseFetchItems : Dec FetchOptions := parseFetchItems.
End Items.

Section ExtMessages.
Context {U : Unicode} {Sess : Type} {B : Backend Sess} {X : Extended Sess}.
Abbreviation Cmd := (H Sess).

Definition enabled_has (cap : bytes) : Cmd bool :=
  c ← get_conn; mret (CapSet_Has (c_enabled c) cap).
Definition uid_for_uid (ctx : CommandContext) (o : FetchOptions) : FetchOptions :=
  match x_NumKind ctx with NumKindUID => fetch_uid o | NumKindSeq => o end.

(** ** FETCH with CHANGEDSINCE *)
(** The next byte, if there is one behind a space. *)
Definition after_sp : Cmd (option ascii) :=
  sp ← attempt (arg ReadSP);
  match sp with
  | inl _ => mret None
  | inr _ =>
    b ← attempt (arg PeekByte);
    mret (match b with inr b => Some b | inl _ => None end)
  end.
(** [(CHANGEDSINCE n ...)]; [extra] reads what may follow the number. *)
Definition changed_since (extra : FetchOptions -> Cmd FetchOptions) (o : FetchOptions) : Cmd FetchOptions :=
  b ← after_sp;
  match b with
  | Some b =>
    if b =c "(" then
      _ ← arg (ExpectByte "(") ?> ErrBad "invalid modifier";
      atom ← arg ReadAtom ?> ErrBad "invalid modifier name";
      if negb (EqualFold atom "CHANGEDSINCE") then fail (ErrBad ("unknown fetch modifier: " ++ atom))
      else
        _ ← arg ReadSP ?> ErrBad "missing CHANGEDSINCE value";
        modseq ← arg ReadNumber64 ?> ErrBad "invalid CHANGEDSINCE value";
        o ← extra (set_changed_since modseq o);
        _ ← arg (ExpectByte ")") ?> ErrBad "missing closing paren for modifier";
        mret o
    else mret o
  | None => mret o
  end.
Definition fetch_args (items : Dec FetchOptions) : Cmd FetchOptions :=
  _ ← arg ReadSP ?> ErrBad "missing fetch items";
  on_err (arg items) (fun e => ErrBad ("invalid fetch items: " ++ Error e)).
Definition run_fetch (ctx : CommandContext) (numSet : NumSet) (o : FetchOptions) : Cmd unit :=
  _ ← session_writing fetch_writes (bk_Fetch numSet o);
  ok ctx "FETCH completed".

Definition handleCondstoreFetch (ctx : CommandContext) : Cmd unit :=
  _ ← need_args ctx "missing arguments";
  numSet ← read_numset ctx;
  options ← fetch_args ParseFetchItems;
  options ← changed_since mret options;
  run_fetch ctx numSet (uid_for_uid ctx options).

(** The word after the number, if there is one. *)
Definition vanished_word : Cmd bool :=
  b ← attempt (arg PeekByte);
  match b with
  | inr b =>
    if b =c " " then
      vanAtom ← attempt (arg sp_atom);
      mret (match vanAtom with inr a => EqualFold a "VANISHED" | inl _ => false end)
    else mret false
  | inl _ => mret false
  end.
Definition vanished_qresync (ctx : CommandContext) (o : FetchOptions) : Cmd FetchOptions :=
  v ← vanished_word;
  if (v : bool) then
    q ← enabled_has "QRESYNC";
    if negb q then fail (ErrBad "QRESYNC not enabled; use ENABLE QRESYNC first")
    else
      match x_NumKind ctx with
      | NumKindSeq => fail (ErrBad "VANISHED requires UID FETCH")
      | NumKindUID => mret (set_vanished o)
      end
  else mret o.
Definition handleQResyncFetch (ctx : CommandContext) : Cmd unit :=
  _ ← need_args ctx "missing arguments";
  numSet ← read_numset ctx;
  options ← fetch_args ParseFetchItems;
  options ← changed_since (vanished_qresync ctx) options;
  run_fetch ctx numSet (uid_for_uid ctx options).

Definition handleDollarFetch (original : Handler Sess) (ctx : CommandContext) : Cmd unit :=
  on_dollar ctx (original ctx)
  (numSet ← resolveDollar ctx;
   options ← fetch_args ParseFetchItems;
   options ← changed_since mret options;
   run_fetch ctx numSet (uid_for_uid ctx options)).

(** ** PREVIEW *)
Fixpoint preview_modifiers (fuel : nat) (first : bool) (o : FetchOptions) : Dec FetchOptions :=
  match fuel with
  | O => st_hang
  | S f =>
    b ← PeekByte;
    if b =c ")" then _ ← ExpectByte ")"; mret o
    else
      _ ← (if first then mret tt else ReadSP);
      atom ← ReadAtom;
      if EqualFold atom "LAZY" then preview_modifiers f false (set_lazy o)
      else st_fail (ErrBad ("unknown preview modifier: " ++ atom))
  end.
Definition parsePreviewModifier (o : FetchOptions) : Dec FetchOptions :=
  _ ← ExpectByte "(";
  s ← st_get;
  preview_modifiers (length s + 1) true o.
Definition preview_single (o : FetchOptions) : Dec FetchOptions := u ← ParseSingleFetchItem; mret (u o).
Fixpoint preview_items (fuel : nat) (first : bool) (o : FetchOptions) : Dec FetchOptions :=
  match fuel with
  | O => st_hang
  | S f =>
    b ← PeekByte;
    if b =c ")" then _ ← ExpectByte ")"; mret o
    else
      if first then o ← preview_single o; preview_items f false o
      else
        _ ← ReadSP;
        b ← PeekByte;
        if (b =c "(") && fe_Preview (fo_Ext o) then o ← parsePreviewModifier o; preview_items f false o
        else o ← preview_single o; preview_items f false o
  end.
Definition parsePreviewFetchItems : Dec FetchOptions :=
  b ← PeekByte;
  if b =c "(" then
    _ ← ExpectByte "(";
    s ← st_get;
    preview_items (length s + 1) true fetch_options0
  else preview_single fetch_options0.
Fixpoint post_modifiers (fuel : nat) (o : FetchOptions) : Dec FetchOptions :=
  match fuel with
  | O => st_hang
  | S f =>
    sp ← attempt ReadSP;
    match sp with
    | inl _ => mret o
    | inr _ =>
      b ← attempt PeekByte;
      match b with
      | inl _ => mret o
      | inr b =>
        if negb (b =c "(") then st_fail (ErrBad "expected modifier")
        else
          _ ← ExpectByte "(" ?> ErrBad "invalid modifier";
          atom ← ReadAtom ?> ErrBad "invalid modifier name";
          if EqualFold atom "LAZY" && fe_Preview (fo_Ext o) then
            _ ← ExpectByte ")" ?> ErrBad "missing closing paren for LAZY modifier";
            post_modifiers f (set_lazy o)
          else if EqualFold atom "CHANGEDSINCE" then
            _ ← ReadSP ?> ErrBad "missing CHANGEDSINCE value";
            modseq ← ReadNumber64 ?> ErrBad "invalid CHANGEDSINCE value";
            _ ← ExpectByte ")" ?> ErrBad "missing closing paren for modifier";
            post_modifiers f (set_changed_since modseq o)
          else st_fail (ErrBad ("unknown fetch modifier: " ++ atom))
      end
    end
  end.
Definition parsePostItemModifiers (o : FetchOptions) : Dec FetchOptions :=
  s ← st_get; post_modifiers (length s + 1) o.
Definition handlePreviewFetch (ctx : CommandContext) : Cmd unit :=
  _ ← need_args ctx "missing arguments";
  numSet ← read_numset ctx;
  options ← fetch_args parsePreviewFetchItems;
  options ← arg (parsePostItemModifiers options);
  run_fetch ctx numSet (uid_for_uid ctx options).

(** ** STORE with UNCHANGEDSINCE *)
(** From the space before the action, or the modifier before it. *)
Definition unchanged_since : Cmd StoreOptions :=
  _ ← arg ReadSP ?> ErrBad "missing store action";
  b ← arg PeekByte ?> ErrBad "unexpected end of command";
  if b =c "(" then
    _ ← arg (ExpectByte "(") ?> ErrBad "invalid modifier";
    atom ← arg ReadAtom ?> ErrBad "invalid modifier name";
    if negb (EqualFold atom "UNCHANGEDSINCE") then fail (ErrBad ("unknown store modifier: " ++ atom))
    else
      _ ← arg ReadSP ?> ErrBad "missing UNCHANGEDSINCE value";
      modseq ← arg ReadNumber64 ?> ErrBad "invalid UNCHANGEDSINCE value";
      _ ← arg (ExpectByte ")") ?> ErrBad "missing closing paren for modifier";
      _ ← arg ReadSP ?> ErrBad "missing store action";
      mret (mkStoreOptions modseq)
  else mret (mkStoreOptions 0).
Definition store_flags : Cmd StoreFlags :=
  actionStr ← arg ReadAtom ?> ErrBad "invalid store action";
  let upper := ToUpper actionStr in
  match store_action upper with
  | None => fail (ErrBad ("invalid store action: " ++ actionStr))
  | Some action =>
    _ ← arg ReadSP ?> ErrBad "missing flags";
    flags ← arg ReadFlags ?> ErrBad "invalid flags";
    mret (mkStoreFlags action (HasSuffix upper ".SILENT") flags)
  end.

(** Without the interface, the result of the plain store is returned as it is:
    nothing is replied. *)
Definition handleCondstoreStore (ctx : CommandContext) : Cmd unit :=
  _ ← need_args ctx "missing arguments";
  numSet ← read_numset ctx;
  options ← unchanged_since;
  storeFlags ← store_flags;
  let plain := session_writing fetch_writes (bk_Store numSet storeFlags options) in
  if 0 <? UnchangedSince options then
    match as_CondStore with
    | None => plain
    | Some StoreConditional =>
      _ ← session_writing fetch_writes (StoreConditional numSet storeFlags options);
      ok ctx "STORE completed"
    end
  else
    _ ← plain;
    ok ctx "STORE completed".

Definition handleDollarStore (original : Handler Sess) (ctx : CommandContext) : Cmd unit :=
  on_dollar ctx (original ctx)
  (numSet ← resolveDollar ctx;
   storeOptions ← unchanged_since;
   storeFlags ← store_flags;
   _ ← session_writing fetch_writes (bk_Store numSet storeFlags storeOptions);
   ok ctx "STORE completed").

(** ** COPY and MOVE of a saved result *)
Definition dest_mailbox : Cmd bytes :=
  _ ← arg ReadSP ?> ErrBad "missing destination mailbox";
  arg ReadAString ?> ErrBad "invalid destination mailbox".
Definition handleDollarCopy (original : Handler Sess) (ctx : CommandContext) : Cmd unit :=
  on_dollar ctx (original ctx)
  (numSet ← resolveDollar ctx;
   dest ← dest_mailbox;
   data ← session (bk_Copy numSet dest);
   match data with
   | Some d =>
     if 0 <? cd_UIDValidity d then
       write (StatusResponse (x_Tag ctx) "OK"
         ("COPYUID " ++ FormatUint (cd_UIDValidity d) ++ " " ++ UIDSet_String (cd_SourceUIDs d)
          ++ " " ++ UIDSet_String (cd_DestUIDs d)) "COPY completed")
     else ok ctx "COPY completed"
   | None => ok ctx "COPY completed"
   end).
Definition handleDollarMove (original : Handler Sess) (ctx : CommandContext) : Cmd unit :=
  on_dollar ctx (original ctx)
  (numSet ← resolveDollar ctx;
   dest ← dest_mailbox;
   asserting as_Move (fail (ErrNo "MOVE not supported")) (fun move =>
   _ ← session_writing expunge_call (move numSet dest);
   write (StatusResponse (x_Tag ctx) "OK" [] "MOVE completed"))).

(** ** SELECT: CONDSTORE and QRESYNC *)
Definition select_done (ctx : CommandContext) (mailbox : bytes) (data : SelectData)
    (writes : list (Enc.Encoder -> Enc.Encoder)) : Cmd unit :=
  _ ← write_all writes;
  _ ← on_conn (SetMailbox mailbox (sel_ReadOnly data));
  _ ← SetState ConnStateSelected;
  let code : bytes := if sel_ReadOnly data then "READ-ONLY" else "READ-WRITE" in
  write (StatusResponse (x_Tag ctx) "OK" code "SELECT completed").
Definition handleCondstoreSelect (readOnly : bool) (ctx : CommandContext) : Cmd unit :=
  _ ← need_args ctx "missing mailbox name";
  mailbox ← arg ReadAString ?> ErrBad "invalid mailbox name";
  b ← after_sp;
  condStore ← (match b with
               | Some b =>
                 if b =c "(" then
                   atoms ← arg (ReadList ReadAtom) ?> ErrBad "invalid SELECT parameters";
                   mret (existsb (fun a => EqualFold a "CONDSTORE") atoms)
                 else mret false
               | None => mret false
               end);
  data ← session (bk_Select mailbox (Some (mkSelectOptions readOnly condStore None)));
  select_done ctx mailbox data (select_writes data).

(** The optional pair of sets, up to the end of the list. *)
Definition qresync_match (qr : SelectQResync) : Dec SelectQResync :=
  b ← PeekByte ?> ErrBad "unexpected end of QRESYNC parameters";
  qr ← (if b =c "(" then
          _ ← ExpectByte "(" ?> ErrBad "invalid QRESYNC seq-match";
          seqSetStr ← ReadAtom ?> ErrBad "invalid QRESYNC seq-match seq-set";
          seqSet ← on_err (lift_res (ParseSeqSet seqSetStr))
                     (fun e => ErrBad ("invalid QRESYNC seq-match seq-set: " ++ Error e));
          _ ← ReadSP ?> ErrBad "missing QRESYNC seq-match uid-set";
          uidSetStr ← ReadAtom ?> ErrBad "invalid QRESYNC seq-match uid-set";
          uidSet ← on_err (lift_res (ParseUIDSet uidSetStr))
                     (fun e => ErrBad ("invalid QRESYNC seq-match uid-set: " ++ Error e));
          _ ← ExpectByte ")" ?> ErrBad "missing closing paren for QRESYNC seq-match";
          mret (mkQResync (qr_UIDValidity qr) (qr_ModSeq qr) (qr_KnownUIDs qr)
                  (Some (mkSeqMatch (Some seqSet) (Some uidSet))))
        else mret qr);
  _ ← ExpectByte ")" ?> ErrBad "missing closing paren for QRESYNC parameters";
  mret qr.
(** After a required value: the end of the list, or a space and [k]. *)
Definition qresync_next (qr : SelectQResync) (k : Dec SelectQResync) : Dec SelectQResync :=
  b ← PeekByte ?> ErrBad "unexpected end of QRESYNC parameters";
  if b =c ")" then
    _ ← ExpectByte ")" ?> ErrBad "invalid QRESYNC parameters";
    mret qr
  else
    _ ← ReadSP ?> ErrBad "invalid QRESYNC parameters";
    k.
Definition parseQResyncParams : Dec SelectQResync :=
  _ ← ReadSP ?> ErrBad "missing QRESYNC parameters";
  _ ← ExpectByte "(" ?> ErrBad "expected '(' for QRESYNC parameters";
  uidvalidity ← ReadNumber ?> ErrBad "invalid QRESYNC uidvalidity";
  _ ← ReadSP ?> ErrBad "missing QRESYNC modseq";
  modseq ← ReadNumber64 ?> ErrBad "invalid QRESYNC modseq";
  let qr := mkQResync uidvalidity modseq None None in
  qresync_next qr
    (b ← PeekByte ?> ErrBad "unexpected end of QRESYNC parameters";
     if b =c "(" then qresync_match qr
     else
       knownUIDsStr ← ReadAtom ?> ErrBad "invalid QRESYNC known-uids";
       knownUIDs ← on_err (lift_res (ParseUIDSet knownUIDsStr))
                     (fun e => ErrBad ("invalid QRESYNC known-uids: " ++ Error e));
       let qr := mkQResync uidvalidity modseq (Some knownUIDs) None in
       qresync_next qr (qresync_match qr)).
Fixpoint select_params (fuel : nat) (o : SelectOptions) : Dec SelectOptions :=
  match fuel with
  | O => st_hang
  | S f =>
    b ← PeekByte ?> ErrBad "unexpected end of SELECT parameters";
    if b =c ")" then _ ← ExpectByte ")" ?> ErrBad "invalid SELECT parameters"; mret o
    else
      atom ← ReadAtom ?> ErrBad "invalid SELECT parameter";
      let upper := ToUpper atom in
      o ← (if upper =s "CONDSTORE" then mret (mkSelectOptions (sl_ReadOnly o) true (sl_QResync o))
           else if upper =s "QRESYNC" then
             qr ← parseQResyncParams;
             mret (mkSelectOptions (sl_ReadOnly o) (sl_CondStore o) (Some qr))
           else st_fail (ErrBad ("unknown SELECT parameter: " ++ atom)));
      b ← PeekByte ?> ErrBad "unexpected end of SELECT parameters";
      _ ← (if b =c " " then ReadSP ?> ErrBad "invalid SELECT parameters" else mret tt);
      select_params f o
  end.
Definition vanished_writes (data : SelectData) : list (Enc.Encoder -> Enc.Encoder) :=
  match sel_Vanished data with
  | Some v =>
    when (negb (UIDSet_IsEmpty v))
      (fun e => e |> Star |> Atom "VANISHED" |> SP |> Atom "(EARLIER)" |> SP |> Atom (UIDSet_String v) |> CRLF)
  | None => []
  end.
Definition writeSelectResponse (ctx : CommandContext) (mailbox : bytes) (data : SelectData) : Cmd unit :=
  select_done ctx mailbox data (select_writes data ++ vanished_writes data).
Definition handleQResyncSelect (readOnly : bool) (ctx : CommandContext) : Cmd unit :=
  _ ← need_args ctx "missing mailbox name";
  mailbox ← arg ReadAString ?> ErrBad "invalid mailbox name";
  b ← after_sp;
  let options := select_options readOnly in
  options ← (match b with
             | Some b =>
               if b =c "(" then
                 arg (_ ← ExpectByte "(" ?> ErrBad "invalid SELECT parameters";
                      s ← st_get;
                      select_params (length s + 1) options)
               else mret options
             | None => mret options
             end);
  data ← (match sl_QResync options with
          | Some qr =>
            q ← enabled_has "QRESYNC";
            if negb q then fail (ErrBad "QRESYNC not enabled; use ENABLE QRESYNC first")
            else
              let options := mkSelectOptions (sl_ReadOnly options) true (Some qr) in
              session (match as_QResync with
                       | Some SelectQResync => SelectQResync mailbox options
                       | None => bk_Select mailbox (Some options)
                       end)
          | None => session (bk_Select mailbox (Some options))
          end);
  writeSelectResponse ctx mailbox data.

(** ** UIDONLY *)
Definition uidOnlyEnabled : Cmd bool := enabled_has "UIDONLY".
Definition errUIDRequired : error :=
  ErrBadWithCode "UIDREQUIRED" "message sequence numbers are not allowed when UIDONLY is enabled".
(** What [ENABLE] is followed by when the capability is on. *)
Definition after_enable (cap : bytes) (hook : option (St Sess unit)) (original : Handler Sess)
    (ctx : CommandContext) : Cmd unit :=
  _ ← original ctx;
  on ← enabled_has cap;
  match (on : bool), hook with
  | true, Some m => session m
  | _, _ => mret tt
  end.
Definition handleUIDOnlyEnable : Handler Sess -> Handler Sess := after_enable "UIDONLY" as_UIDOnly.
Definition handleUIDOnlySeqReject (original : Handler Sess) (ctx : CommandContext) : Cmd unit :=
  on ← uidOnlyEnabled;
  match (on : bool), x_NumKind ctx with
  | true, NumKindSeq => fail errUIDRequired
  | _, _ => original ctx
  end.
(** The commands that take over when it is enabled. *)
Definition when_uidonly (original : Handler Sess) (ctx : CommandContext) (k : Cmd unit) : Cmd unit :=
  on ← uidOnlyEnabled;
  if negb on then original ctx
  else
    match x_NumKind ctx with
    | NumKindSeq => fail errUIDRequired
    | NumKindUID => k
    end.
Definition read_uids (invalid : bytes) : Cmd NumSet :=
  uidSetStr ← arg ReadAtom ?> ErrBad invalid;
  uidSet ← arg (lift_res (ParseUIDSet uidSetStr)) ?> ErrBad "invalid UID set";
  mret (NumUID uidSet).
Definition fetch_writes_uidonly (call : fetch_call) : list (Enc.Encoder -> Enc.Encoder) :=
  match call with
  | CallFlags n flags => [WriteFlags true n flags]
  | CallFetchData data => [WriteFetchData true data]
  end.
Definition expunge_call_uidonly (n : Z) : list (Enc.Encoder -> Enc.Encoder) := [WriteExpunge true n].

Definition vanished_uidonly (o : FetchOptions) : Cmd FetchOptions :=
  v ← vanished_word;
  if (v : bool) then
    q ← enabled_has "QRESYNC";
    mret (if (q : bool) then set_vanished o else o)
  else mret o.
Definition handleUIDOnlyFetch (original : Handler Sess) (ctx : CommandContext) : Cmd unit :=
  when_uidonly original ctx
  (_ ← need_args ctx "missing arguments";
   uidSet ← read_uids "invalid UID set";
   options ← fetch_args ParseFetchItems;
   options ← changed_since vanished_uidonly options;
   _ ← session_writing fetch_writes_uidonly (bk_Fetch uidSet (fetch_uid options));
   ok ctx "FETCH completed").
Definition handleUIDOnlyStore (original : Handler Sess) (ctx : CommandContext) : Cmd unit :=
  when_uidonly original ctx
  (_ ← need_args ctx "missing arguments";
   uidSet ← read_uids "invalid UID set";
   storeOptions ← unchanged_since;
   storeFlags ← store_flags;
   _ ← session_writing fetch_writes_uidonly
         (match 0 <? UnchangedSince storeOptions, as_CondStore with
          | true, Some StoreConditional => StoreConditional uidSet storeFlags storeOptions
          | _, _ => bk_Store uidSet storeFlags storeOptions
          end);
   ok ctx "STORE completed").
Definition handleUIDOnlyExpunge (original : Handler Sess) (ctx : CommandContext) : Cmd unit :=
  on ← uidOnlyEnabled;
  if negb on then original ctx
  else
    uids ← (match x_NumKind ctx with
            | NumKindUID =>
              if x_decoder ctx then
                uidStr ← arg ReadAtom ?> ErrBad "invalid UID set";
                uidSet ← arg (lift_res (ParseUIDSet uidStr)) ?> ErrBad "invalid UID set";
                mret (Some uidSet)
              else mret None
            | NumKindSeq => mret None
            end);
    _ ← session_writing expunge_call_uidonly (bk_Expunge uids);
    ok ctx "EXPUNGE completed".
Definition handleUIDOnlyMove (original : Handler Sess) (ctx : CommandContext) : Cmd unit :=
  when_uidonly original ctx
  (_ ← need_args ctx "missing arguments";
   uidSet ← read_uids "invalid message set";
   dest ← dest_mailbox;
   asserting as_Move (fail (ErrNo "MOVE not supported")) (fun move =>
   _ ← session_writing expunge_call_uidonly (move uidSet dest);
   write (StatusResponse (x_Tag ctx) "OK" [] "MOVE completed"))).

(** Whether an opening parenthesis comes before a closing one. *)
Fixpoint opens_again (inner : bytes) : bool :=
  match inner with
  | [] => false
  | c :: inner => if c =c "(" then true else if c =c ")" then false else opens_again inner
  end.
(** The index is one of the upper-case string; slicing past the end panics. *)
Definition hasQResyncSeqMatch (raw : bytes) : res bool :=
  match Index (ToUpper raw) "QRESYNC" with
  | None => Ok false
  | Some idx =>
    if (length raw <? idx + 7)%nat then Panic
    else
      let rest := drop (idx + 7) raw in
      match IndexByte rest "(" with
      | None => Ok false
      | Some parenStart => Ok (opens_again (drop (parenStart + 1) rest))
      end
  end.
(** The arguments are read to their end and given to the original again. *)
Definition handleUIDOnlySelect (original : Handler Sess) (ctx : CommandContext) : Cmd unit :=
  on ← uidOnlyEnabled;
  if negb on || negb (x_decoder ctx) then original ctx
  else
    h ← st_get;
    seqMatch ← arg (lift_res (hasQResyncSeqMatch (h_args h)));
    if (seqMatch : bool)
    then fail (ErrBadWithCode "UIDREQUIRED" "QRESYNC sequence-to-UID mapping not allowed when UIDONLY is enabled")
    else original ctx.

(** ** ENABLE UTF8=ACCEPT *)
Definition handleUTF8Enable : Handler Sess -> Handler Sess := after_enable "UTF8=ACCEPT" as_UTF8Accept.

(** ** APPEND

    Each package has a copy of the readers of a literal size and of a date. *)
Definition readLiteralSize_binary : Dec (Z * bool) := readLiteralSize.
Definition readLiteralSize_utf8 : Dec (Z * bool) := readLiteralSize.
Definition readLiteralSizeBinary : Dec (Z * bool) := readLiteralSize.
Definition readLiteralSize_catenate : Dec Z := readPlainLiteralSize.
Definition readLiteralSize_multiappend : Dec Z := readPlainLiteralSize.
Definition parseDate_multiappend : bytes -> error + Time := append_date.

Definition read_literal_size (reader : Dec (Z * bool)) : Cmd (Z * bool) :=
  on_err (arg reader) (fun e => ErrBad ("invalid literal: " ++ Error e)).
(** The body comes after the command line; what the backend leaves is drained. *)
Definition read_body (size : Z) : Cmd bytes := conn_read (ReadLiteral size).

(** BINARY *)
Definition handleBinaryAppend (original : Handler Sess) (ctx : CommandContext) : Cmd unit :=
  if negb (x_decoder ctx) then original ctx
  else
    mailbox ← arg ReadAString ?> ErrBad "invalid mailbox name";
    _ ← arg ReadSP ?> ErrBad "missing message data";
    b ← arg PeekByte ?> ErrBad "unexpected end of command";
    '(flags, b) ← append_flags b;
    date ← append_datetime b;
    '(litSize, isBinary) ← read_literal_size readLiteralSize_binary;
    body ← read_body litSize;
    let options := mkAppendOptions flags date isBinary false in
    data ← session (match (isBinary : bool), as_Binary with
                    | true, Some AppendBinary => AppendBinary mailbox body options
                    | _, _ => bk_Append mailbox body (Some options)
                    end);
    append_ok ctx data "APPEND completed".

(** UTF8=ACCEPT and CATENATE: dates in two forms, and a look at what follows. *)
Definition parse_date2 (s : bytes) : error + Time :=
  match Parse InternalDateLayout s with
  | inr t => inr t
  | inl _ => Parse InternalDateLayout1 s
  end.
Definition append_datetime2 (b : ascii) : Cmd (Time * ascii) :=
  if b =c DQ then
    dateStr ← arg ReadQuotedString ?> ErrBad "invalid date-time";
    match parse_date2 dateStr with
    | inl _ => fail (ErrBad "invalid date-time format")
    | inr t =>
      _ ← arg ReadSP ?> ErrBad "missing message data";
      b ← arg PeekByte ?> ErrBad "unexpected end of command";
      mret (t, b)
    end
  else mret (time_zero, b).
Definition append_head : Cmd (bytes * list bytes * Time * ascii) :=
  mailbox ← arg ReadAString ?> ErrBad "invalid mailbox name";
  _ ← arg ReadSP ?> ErrBad "missing message data";
  b ← arg PeekByte ?> ErrBad "unexpected end of command";
  '(flags, b) ← append_flags b;
  '(date, b) ← append_datetime2 b;
  mret (mailbox, flags, date, b).
Definition standard_append (reader : Dec (Z * bool)) (ctx : CommandContext) (mailbox : bytes) (flags : list bytes)
    (date : Time) : Cmd unit :=
  '(litSize, isBinary) ← read_literal_size reader;
  body ← read_body litSize;
  data ← session (bk_Append mailbox body (Some (mkAppendOptions flags date isBinary false)));
  append_ok ctx data "APPEND completed".
Definition handleStandardAppend : CommandContext -> bytes -> list bytes -> Time -> Cmd unit :=
  standard_append readLiteralSize_utf8.
(** The copy in extensions/catenate. *)
Definition handleStandardAppend_catenate : CommandContext -> bytes -> list bytes -> Time -> Cmd unit :=
  standard_append readLiteralSizeBinary.

Definition handleUTF8Append (original : Handler Sess) (ctx : CommandContext) : Cmd unit :=
  if negb (x_decoder ctx) then original ctx
  else
    '(mailbox, flags, date, b) ← append_head;
    if ((b : ascii) =c "{") || (b =c "~") then handleStandardAppend ctx mailbox flags date
    else
      atom ← arg ReadAtom ?> ErrBad "invalid APPEND arguments";
      if negb (EqualFold atom "UTF8") then fail (ErrBad "expected literal or UTF8")
      else
        on ← enabled_has "UTF8=ACCEPT";
        if negb on then fail (ErrBad "UTF8=ACCEPT not enabled")
        else
          _ ← arg ReadSP ?> ErrBad "missing UTF8 literal";
          _ ← arg (ExpectByte "(") ?> ErrBad "expected '(' after UTF8";
          '(litSize, _) ← on_err (arg readLiteralSize_utf8) (fun e => ErrBad ("invalid UTF8 literal: " ++ Error e));
          body ← read_body litSize;
          data ← session (bk_Append mailbox body (Some (mkAppendOptions flags date false true)));
          _ ← conn_read (ExpectByte ")") ?> ErrBad "expected ')' after UTF8 literal";
          append_ok ctx data "APPEND completed".

(** MULTIAPPEND *)
Definition readMessageMeta : Dec (list bytes * Time) :=
  b ← PeekByte ?> ErrBad "unexpected end of command";
  '(flags, b) ← (if b =c "(" then
                   flags ← ReadFlags ?> ErrBad "invalid flags";
                   _ ← ReadSP ?> ErrBad "missing message data";
                   b ← PeekByte ?> ErrBad "unexpected end of command";
                   mret (flags, b)
                 else mret ([], b));
  if (b : ascii) =c DQ then
    dateStr ← ReadQuotedString ?> ErrBad "invalid date-time";
    match parseDate_multiappend dateStr with
    | inl _ => st_fail (ErrBad "invalid date-time format")
    | inr t => _ ← ReadSP ?> ErrBad "missing message data"; mret (flags, t)
    end
  else mret (flags, time_zero).
Definition has_more : Cmd bool :=
  b ← attempt (conn_read PeekByte);
  mret (match b with inr b => b =c " " | inl _ => false end).
(** Every further message starts with a space on the connection. *)
Fixpoint more_messages (fuel : nat) (acc : list MultiAppendMessage) : Cmd (list MultiAppendMessage) :=
  match fuel with
  | O => st_hang
  | S f =>
    _ ← conn_read ReadSP ?> ErrBad "expected SP between messages";
    '(flags, date) ← conn_read readMessageMeta;
    litInfo ← on_err (conn_read ReadLiteralInfo) (fun e => ErrBad ("invalid literal: " ++ Error e));
    body ← read_body (Size litInfo);
    more ← has_more;
    let acc := acc ++ [mkMultiAppend flags date body] in
    if (more : bool) then more_messages f acc else mret acc
  end.
Definition writeMultiAppendOK (ctx : CommandContext) (results : list (option AppendData)) : Cmd unit :=
  let uid r := match r with Some d => if ad_UID d =? 0 then None else Some (FormatUint (ad_UID d)) | None => None end in
  match results with
  | Some first :: _ =>
    match mapM uid results with
    | Some uids =>
      if 0 <? ad_UIDValidity first then
        on_conn (WriteOKCode (x_Tag ctx)
          ("APPENDUID " ++ FormatUint (ad_UIDValidity first) ++ " " ++ Join uids ",") "APPEND completed")
      else ok ctx "APPEND completed"
    | None => ok ctx "APPEND completed"
    end
  | _ => ok ctx "APPEND completed"
  end.
Definition handleMultiAppend (original : Handler Sess) (ctx : CommandContext) : Cmd unit :=
  if negb (x_decoder ctx) then original ctx
  else
    mailbox ← arg ReadAString ?> ErrBad "invalid mailbox name";
    _ ← arg ReadSP ?> ErrBad "missing message data";
    '(flags, date) ← arg readMessageMeta;
    litSize ← on_err (arg readLiteralSize_multiappend) (fun e => ErrBad ("invalid literal: " ++ Error e));
    firstBody ← read_body litSize;
    more ← has_more;
    if negb more then
      data ← session (bk_Append mailbox firstBody (Some (mkAppendOptions flags date false false)));
      append_ok ctx data "APPEND completed"
    else
      c ← get_conn;
      messages ← more_messages (length (c_in c) + 1) [mkMultiAppend flags date firstBody];
      asserting as_MultiAppend (no ctx "MULTIAPPEND not supported by backend") (fun AppendMulti =>
      results ← session (AppendMulti mailbox messages);
      writeMultiAppendOK ctx results).

(** CATENATE *)
(** Reading from the arguments or, after a literal, from the connection. *)
Definition read_from {A} (conn : bool) (m : Dec A) : Cmd A := if conn then conn_read m else arg m.
Definition wrapping {A} (m : Cmd A) (text : bytes) : Cmd A :=
  on_err m (fun e => Errorf [Txt text; Txt ": "; Wrap e]).
(** The decoder to read on from, and its next byte. *)
Definition next_part (conn : bool) : Cmd (bool * ascii) :=
  b ← attempt (read_from conn PeekByte);
  match b with
  | inr b => mret (conn, b)
  | inl e =>
    if conn then fail (Errorf [Txt "unexpected end of CATENATE parts"; Txt ": "; Wrap e])
    else b ← wrapping (conn_read PeekByte) "unexpected end of CATENATE parts"; mret (true, b)
  end.
(** A round reads an atom from one of the two. *)
Fixpoint catenate_loop (fuel : nat) (conn first : bool) (parts : list CatenatePart) : Cmd (list CatenatePart) :=
  match fuel with
  | O => st_hang
  | S f =>
    '(conn, b) ← next_part conn;
    if (b : ascii) =c ")" then _ ← attempt (read_from conn (ExpectByte ")")); mret parts
    else
      _ ← (if first then mret tt else wrapping (read_from conn ReadSP) "expected SP between CATENATE parts");
      atom ← wrapping (read_from conn ReadAtom) "expected URL or TEXT";
      let upper := ToUpper atom in
      if upper =s "URL" then
        _ ← wrapping (read_from conn ReadSP) "expected SP after URL";
        url ← wrapping (read_from conn ReadAString) "invalid URL";
        catenate_loop f conn false (parts ++ [PartURL url])
      else if upper =s "TEXT" then
        _ ← wrapping (read_from conn ReadSP) "expected SP after TEXT";
        litSize ← wrapping (if (conn : bool) then litInfo ← conn_read ReadLiteralInfo; mret (Size litInfo)
                            else arg readLiteralSize_catenate) "invalid TEXT literal";
        text ← read_body litSize;
        catenate_loop f true false (parts ++ [PartText text])
      else fail (Errorf [Txt "unknown CATENATE part type: "; Txt atom])
  end.
Definition parseCatenateParts : Cmd (list CatenatePart) :=
  _ ← wrapping (arg (ExpectByte "(")) "expected opening paren";
  h ← st_get;
  parts ← catenate_loop (length (h_args h) + length (c_in (h_conn h)) + 1) false true [];
  match parts with
  | [] => fail (emsg "empty CATENATE parts list")
  | _ => mret parts
  end.
Definition handleCatenateAppend (original : Handler Sess) (ctx : CommandContext) : Cmd unit :=
  if negb (x_decoder ctx) then original ctx
  else
    '(mailbox, flags, date, b) ← append_head;
    if ((b : ascii) =c "{") || (b =c "~") then handleStandardAppend_catenate ctx mailbox flags date
    else
      atom ← arg ReadAtom ?> ErrBad "invalid APPEND arguments";
      if negb (EqualFold atom "CATENATE") then fail (ErrBad "expected literal or CATENATE")
      else
        asserting as_Catenate (no ctx "CATENATE not supported") (fun AppendCatenate =>
        _ ← arg ReadSP ?> ErrBad "missing CATENATE parts";
        parts ← on_err parseCatenateParts (fun e => ErrBad ("invalid CATENATE parts: " ++ Error e));
        data ← session (AppendCatenate mailbox parts (mkAppendOptions flags date false false));
        append_ok ctx data "APPEND completed").

(** ** LIST-EXTENDED *)
Definition selection_opt (atom : bytes) (o : ListOptions) : Cmd ListOptions :=
  let 'mkListOptions ss sr sm sp rs rc rp st my md := o in
  let upper := ToUpper atom in
  if upper =s "SUBSCRIBED" then mret (mkListOptions true sr sm sp rs rc rp st my md)
  else if upper =s "REMOTE" then mret (mkListOptions ss true sm sp rs rc rp st my md)
  else if upper =s "RECURSIVEMATCH" then mret (mkListOptions ss sr true sp rs rc rp st my md)
  else if upper =s "SPECIAL-USE" then mret (mkListOptions ss sr sm true rs rc rp st my md)
  else fail (ErrBad ("unknown selection option: " ++ atom)).
Definition parseSelectionOptions : ListOptions -> Cmd ListOptions :=
  option_list "selection options" "selection option" selection_opt.

(** The status items LIST knows. *)
Definition list_status_items : list bytes :=
  ["MESSAGES" : bytes; "UIDNEXT" : bytes; "UIDVALIDITY" : bytes; "UNSEEN" : bytes; "RECENT" : bytes;
   "SIZE" : bytes; "HIGHESTMODSEQ" : bytes].
Definition list_status (items : list bytes) : StatusOptions :=
  foldl (fun o item => if bool_decide (ToUpper item ∈ list_status_items) then status_item o (ToUpper item) else o)
    status_options0 items.
Definition metadata_return : Dec (ListReturnMetadata -> ListReturnMetadata) :=
  item ← ReadAString;
  let upper := ToUpper item in
  if upper =s "MAXSIZE" then
    _ ← ReadSP ?> ErrBad "missing MAXSIZE value";
    n ← ReadNumber64 ?> ErrBad "invalid MAXSIZE value";
    mret (fun m => mkReturnMetadata (rm_Options m) (i64 n) (rm_Depth m))
  else if upper =s "DEPTH" then
    _ ← ReadSP ?> ErrBad "missing DEPTH value";
    d ← ReadAtom ?> ErrBad "invalid DEPTH value";
    mret (fun m => mkReturnMetadata (rm_Options m) (rm_MaxSize m) d)
  else mret (fun m => mkReturnMetadata (rm_Options m ++ [item]) (rm_MaxSize m) (rm_Depth m)).
Definition list_return_opt (atom : bytes) (o : ListOptions) : Cmd ListOptions :=
  let 'mkListOptions ss sr sm sp rs rc rp st my md := o in
  let upper := ToUpper atom in
  if upper =s "SUBSCRIBED" then mret (mkListOptions ss sr sm sp true rc rp st my md)
  else if upper =s "CHILDREN" then mret (mkListOptions ss sr sm sp rs true rp st my md)
  else if upper =s "SPECIAL-USE" then mret (mkListOptions ss sr sm sp rs rc true st my md)
  else if upper =s "MYRIGHTS" then mret (mkListOptions ss sr sm sp rs rc rp st true md)
  else if upper =s "STATUS" then
    _ ← arg ReadSP ?> ErrBad "missing STATUS items";
    items ← arg (ReadList ReadAtom) ?> ErrBad "invalid STATUS items list";
    mret (mkListOptions ss sr sm sp rs rc rp (Some (list_status items)) my md)
  else if upper =s "METADATA" then
    _ ← arg ReadSP ?> ErrBad "missing METADATA options";
    upds ← arg (ReadList metadata_return) ?> ErrBad "invalid METADATA options list";
    mret (mkListOptions ss sr sm sp rs rc rp st my
            (Some (foldl (fun m u => u m) (mkReturnMetadata [] 0 []) upds)))
  else fail (ErrBad ("unknown RETURN option: " ++ atom)).
Definition parseReturnOptions_list : ListOptions -> Cmd ListOptions :=
  option_list "RETURN options" "RETURN option" list_return_opt.

Fixpoint patterns_loop (fuel : nat) (acc : list bytes) : Dec (list bytes) :=
  match fuel with
  | O => st_hang
  | S f =>
    b ← PeekByte ?> ErrBad "unexpected end in pattern list";
    if b =c ")" then _ ← attempt (ExpectByte ")"); mret acc
    else
      _ ← (match acc with [] => mret tt | _ => ReadSP ?> ErrBad "expected SP between patterns" end);
      p ← ReadAString ?> ErrBad "invalid pattern";
      patterns_loop f (acc ++ [p])
  end.
Definition readPatterns : Dec (list bytes) :=
  b ← PeekByte ?> ErrBad "missing mailbox pattern";
  if b =c "(" then
    _ ← ExpectByte "(" ?> ErrBad "expected '(' for pattern list";
    s ← st_get;
    patterns ← patterns_loop (length s + 1) [];
    match patterns with
    | [] => st_fail (ErrBad "empty pattern list")
    | _ => mret patterns
    end
  else
    p ← ReadAString ?> ErrBad "invalid mailbox pattern";
    mret [p].
Definition list_return (o : ListOptions) : Cmd (bool * ListOptions) :=
  sp ← attempt (arg ReadSP);
  match sp with
  | inl _ => mret (false, o)
  | inr _ =>
    atom ← arg ReadAtom ?> ErrBad "invalid argument after pattern";
    if negb (EqualFold atom "RETURN") then fail (ErrBad ("expected RETURN, got " ++ atom))
    else
      _ ← arg ReadSP ?> ErrBad "missing RETURN options";
      o ← parseReturnOptions_list o;
      mret (true, o)
  end.
Definition recursive_alone (o : ListOptions) : bool :=
  lo_SelectRecursiveMatch o && negb (lo_SelectSubscribed o) && negb (lo_SelectRemote o) && negb (lo_SelectSpecialUse o).
Definition handleListExtended (ctx : CommandContext) : Cmd unit :=
  _ ← need_args ctx "missing arguments";
  b ← arg PeekByte ?> ErrBad "missing arguments";
  '(selected, options) ←
    (if b =c "(" then
       options ← parseSelectionOptions list_options0;
       if recursive_alone options then fail (ErrBad "RECURSIVEMATCH requires another selection option")
       else
         _ ← arg ReadSP ?> ErrBad "missing reference name";
         mret (true, options)
     else mret (false, list_options0));
  ref ← arg ReadAString ?> ErrBad "invalid reference name";
  _ ← arg ReadSP ?> ErrBad "missing mailbox pattern";
  patterns ← arg readPatterns;
  '(returned, options) ← list_return options;
  _ ← session_writing WriteList
        (match (selected || returned : bool), as_ListExtended with
         | true, Some ListExtended => ListExtended ref patterns options
         | _, _ => bk_List ref patterns (Some options)
         end);
  ok ctx "LIST completed".
End ExtMessages.
