(* ===== verification/Extensions.v ===== *)
(** * The catalogue of extensions (extensions/, extension/extension.go)

    Every package of extensions/: what it is called, the capabilities and
    dependencies it declares, the commands it adds and the handlers it wraps. *)

From S2P Require Import Prelude Utf8 GoStrings GoTime NumSet Imap Decoder Encoder Writers Registry.
From S2P Require Import ConnState Conn Commands Dispatch ExtBase ExtCommands ExtSearch ExtMessages.

Section Catalogue.
Context {U : Unicode} {Sess : Type} {B : Backend Sess} {X : Extended Sess}.

(** [WrapHandler] gives a wrapper for the names listed and nil for others. *)
Record ServerExtension := mkServerExtension {
  se_Base : Extension;
  CommandHandlers : list (bytes * Handler Sess);
  se_Wraps : list (bytes * (Handler Sess -> Handler Sess));
}.
Definition WrapHandler (e : ServerExtension) (name : bytes) : option (Handler Sess -> Handler Sess) :=
  (fun p => p.2.2) <$> list_find (fun p => p.1 = name) (se_Wraps e).
Definition ext_acl : ServerExtension :=
  mkServerExtension (mkExt "ACL" ["ACL" : bytes] [])
    [("SETACL" : bytes, handleSetACL);
     ("DELETEACL" : bytes, handleDeleteACL);
     ("GETACL" : bytes, handleGetACL);
     ("LISTRIGHTS" : bytes, handleListRights);
     ("MYRIGHTS" : bytes, handleMyRights)] [].
Definition ext_appendlimit : ServerExtension :=
  mkServerExtension (mkExt "APPENDLIMIT" ["APPENDLIMIT" : bytes] []) [] [].
Definition ext_binary : ServerExtension :=
  mkServerExtension (mkExt "BINARY" ["BINARY" : bytes] []) []
    [("APPEND" : bytes, handleBinaryAppend)].
Definition ext_catenate : ServerExtension :=
  mkServerExtension (mkExt "CATENATE" ["CATENATE" : bytes] []) []
    [("APPEND" : bytes, handleCatenateAppend)].
Definition ext_children : ServerExtension :=
  mkServerExtension (mkExt "CHILDREN" ["CHILDREN" : bytes] []) [] [].
Definition ext_compress : ServerExtension :=
  mkServerExtension (mkExt "COMPRESS" ["COMPRESS=DEFLATE" : bytes] [])
    [("COMPRESS" : bytes, handleCompress)] [].
Definition ext_condstore : ServerExtension :=
  mkServerExtension (mkExt "CONDSTORE" ["CONDSTORE" : bytes] []) []
    [("STORE" : bytes, fun _ => handleCondstoreStore);
     ("FETCH" : bytes, fun _ => handleCondstoreFetch);
     ("SELECT" : bytes, fun _ => handleCondstoreSelect false);
     ("EXAMINE" : bytes, fun _ => handleCondstoreSelect true)].
Definition ext_contextsearch : ServerExtension :=
  mkServerExtension (mkExt "CONTEXT=SEARCH" ["CONTEXT=SEARCH" : bytes] ["ESEARCH" : bytes])
    [("CANCELUPDATE" : bytes, handleCancelUpdate)]
    [("SEARCH" : bytes, fun _ => handleContextSearch)].
Definition ext_convert : ServerExtension :=
  mkServerExtension (mkExt "CONVERT" ["CONVERT" : bytes] [])
    [("CONVERT" : bytes, handleConvert)] [].
Definition ext_enable : ServerExtension :=
  mkServerExtension (mkExt "ENABLE" ["ENABLE" : bytes] []) [] [].
Definition ext_esearch : ServerExtension :=
  mkServerExtension (mkExt "ESEARCH" ["ESEARCH" : bytes] []) []
    [("SEARCH" : bytes, fun _ => handleESearch)].
Definition ext_esort : ServerExtension :=
  mkServerExtension (mkExt "ESORT" ["ESORT" : bytes; "CONTEXT=SORT" : bytes] []) []
    [("SORT" : bytes, handleESort)].
Definition ext_filters : ServerExtension :=
  mkServerExtension (mkExt "FILTERS" ["FILTERS" : bytes] [])
    [("GETFILTER" : bytes, handleGetFilter);
     ("SETFILTER" : bytes, handleSetFilter)] [].
Definition ext_id : ServerExtension :=
  mkServerExtension (mkExt "ID" ["ID" : bytes] [])
    [("ID" : bytes, handleID)] [].
Definition ext_idle : ServerExtension :=
  mkServerExtension (mkExt "IDLE" ["IDLE" : bytes] []) [] [].
Definition ext_inprogress : ServerExtension :=
  mkServerExtension (mkExt "INPROGRESS" ["INPROGRESS" : bytes] []) [] [].
Definition ext_jmapaccess : ServerExtension :=
  mkServerExtension (mkExt "JMAPACCESS" ["JMAPACCESS" : bytes] []) [] [].
Definition ext_language : ServerExtension :=
  mkServerExtension (mkExt "LANGUAGE" ["LANGUAGE" : bytes] [])
    [("LANGUAGE" : bytes, handleLanguage)] [].
Definition ext_listextended : ServerExtension :=
  mkServerExtension (mkExt "LIST-EXTENDED" ["LIST-EXTENDED" : bytes] []) []
    [("LIST" : bytes, fun _ => handleListExtended)].
Definition ext_listmetadata : ServerExtension :=
  mkServerExtension (mkExt "LIST-METADATA" ["LIST-METADATA" : bytes] []) [] [].
Definition ext_listmyrights : ServerExtension :=
  mkServerExtension (mkExt "LIST-MYRIGHTS" ["LIST-MYRIGHTS" : bytes] []) [] [].
Definition ext_liststatus : ServerExtension :=
  mkServerExtension (mkExt "LIST-STATUS" ["LIST-STATUS" : bytes] ["LIST-EXTENDED" : bytes]) [] [].
Definition ext_literalplus : ServerExtension :=
  mkServerExtension (mkExt "LITERAL+" ["LITERAL+" : bytes] []) [] [].
Definition ext_messagelimit : ServerExtension :=
  mkServerExtension (mkExt "MESSAGELIMIT" ["MESSAGELIMIT" : bytes] []) [] [].
Definition ext_metadata : ServerExtension :=
  mkServerExtension (mkExt "METADATA" ["METADATA" : bytes; "METADATA-SERVER" : bytes] [])
    [("GETMETADATA" : bytes, handleGetMetadata);
     ("SETMETADATA" : bytes, handleSetMetadata)] [].
Definition ext_move : ServerExtension :=
  mkServerExtension (mkExt "MOVE" ["MOVE" : bytes] [])
    [("MOVE" : bytes, handleMove)] [].
Definition ext_multiappend : ServerExtension :=
  mkServerExtension (mkExt "MULTIAPPEND" ["MULTIAPPEND" : bytes] []) []
    [("APPEND" : bytes, handleMultiAppend)].
Definition ext_multisearch : ServerExtension :=
  mkServerExtension (mkExt "MULTISEARCH" ["MULTISEARCH" : bytes] ["ESEARCH" : bytes])
    [("ESEARCH" : bytes, handleMultiSearch)] [].
Definition ext_namespace : ServerExtension :=
  mkServerExtension (mkExt "NAMESPACE" ["NAMESPACE" : bytes] [])
    [("NAMESPACE" : bytes, handleNamespace)] [].
Definition ext_notify : ServerExtension :=
  mkServerExtension (mkExt "NOTIFY" ["NOTIFY" : bytes] [])
    [("NOTIFY" : bytes, handleNotify)] [].
Definition ext_objectid : ServerExtension :=
  mkServerExtension (mkExt "OBJECTID" ["OBJECTID" : bytes] []) [] [].
Definition ext_partial : ServerExtension :=
  mkServerExtension (mkExt "PARTIAL" ["PARTIAL" : bytes] ["ESEARCH" : bytes]) []
    [("SEARCH" : bytes, fun _ => handlePartialSearch);
     ("SORT" : bytes, handlePartialSort)].
Definition ext_preview : ServerExtension :=
  mkServerExtension (mkExt "PREVIEW" ["PREVIEW" : bytes] ["CONDSTORE" : bytes]) []
    [("FETCH" : bytes, fun _ => handlePreviewFetch)].
Definition ext_qresync : ServerExtension :=
  mkServerExtension (mkExt "QRESYNC" ["QRESYNC" : bytes] ["CONDSTORE" : bytes]) []
    [("SELECT" : bytes, fun _ => handleQResyncSelect false);
     ("EXAMINE" : bytes, fun _ => handleQResyncSelect true);
     ("FETCH" : bytes, fun _ => handleQResyncFetch)].
Definition ext_quota : ServerExtension :=
  mkServerExtension (mkExt "QUOTA" ["QUOTA" : bytes; "QUOTA=RES-STORAGE" : bytes; "QUOTA=RES-MESSAGE" : bytes] [])
    [("GETQUOTA" : bytes, handleGetQuota);
     ("GETQUOTAROOT" : bytes, handleGetQuotaRoot);
     ("SETQUOTA" : bytes, handleSetQuota)] [].
Definition ext_replace : ServerExtension :=
  mkServerExtension (mkExt "REPLACE" ["REPLACE" : bytes] [])
    [("REPLACE" : bytes, handleReplace)] [].
Definition ext_saslir : ServerExtension :=
  mkServerExtension (mkExt "SASL-IR" ["SASL-IR" : bytes] []) [] [].
Definition ext_savedate : ServerExtension :=
  mkServerExtension (mkExt "SAVEDATE" ["SAVEDATE" : bytes] []) [] [].
Definition ext_searchfuzzy : ServerExtension :=
  mkServerExtension (mkExt "SEARCH=FUZZY" ["SEARCH=FUZZY" : bytes] []) []
    [("SEARCH" : bytes, fun _ => handleFuzzySearch)].
Definition ext_searchres : ServerExtension :=
  mkServerExtension (mkExt "SEARCHRES" ["SEARCHRES" : bytes] ["ESEARCH" : bytes]) []
    [("SEARCH" : bytes, fun _ => handleSearchRes);
     ("FETCH" : bytes, handleDollarFetch);
     ("STORE" : bytes, handleDollarStore);
     ("COPY" : bytes, handleDollarCopy);
     ("MOVE" : bytes, handleDollarMove)].
Definition ext_sort : ServerExtension :=
  mkServerExtension (mkExt "SORT" ["SORT" : bytes] [])
    [("SORT" : bytes, handleSort)] [].
Definition ext_sortdisplay : ServerExtension :=
  mkServerExtension (mkExt "SORT=DISPLAY" ["SORT=DISPLAY" : bytes] ["SORT" : bytes]) [] [].
Definition ext_specialuse : ServerExtension :=
  mkServerExtension (mkExt "SPECIAL-USE" ["SPECIAL-USE" : bytes; "CREATE-SPECIAL-USE" : bytes] []) []
    [("CREATE" : bytes, fun _ => handleSpecialUseCreate)].
Definition ext_statussize : ServerExtension :=
  mkServerExtension (mkExt "STATUS=SIZE" ["STATUS=SIZE" : bytes] []) [] [].
Definition ext_thread : ServerExtension :=
  mkServerExtension (mkExt "THREAD" ["THREAD=ORDEREDSUBJECT" : bytes; "THREAD=REFERENCES" : bytes] [])
    [("THREAD" : bytes, handleThread)] [].
Definition ext_uidonly : ServerExtension :=
  mkServerExtension (mkExt "UIDONLY" ["UIDONLY" : bytes] ["CONDSTORE" : bytes]) []
    [("ENABLE" : bytes, handleUIDOnlyEnable);
     ("FETCH" : bytes, handleUIDOnlyFetch);
     ("STORE" : bytes, handleUIDOnlyStore);
     ("COPY" : bytes, handleUIDOnlySeqReject);
     ("SEARCH" : bytes, handleUIDOnlySeqReject);
     ("EXPUNGE" : bytes, handleUIDOnlyExpunge);
     ("MOVE" : bytes, handleUIDOnlyMove);
     ("SORT" : bytes, handleUIDOnlySeqReject);
     ("THREAD" : bytes, handleUIDOnlySeqReject);
     ("SELECT" : bytes, handleUIDOnlySelect);
     ("EXAMINE" : bytes, handleUIDOnlySelect)].
Definition ext_uidplus : ServerExtension :=
  mkServerExtension (mkExt "UIDPLUS" ["UIDPLUS" : bytes] []) []
    [("COPY" : bytes, fun _ => handleUIDPlusCopy);
     ("EXPUNGE" : bytes, fun _ => handleUIDPlusExpunge)].
Definition ext_unauthenticate : ServerExtension :=
  mkServerExtension (mkExt "UNAUTHENTICATE" ["UNAUTHENTICATE" : bytes] [])
    [("UNAUTHENTICATE" : bytes, handleUnauthenticate)] [].
Definition ext_unselect : ServerExtension :=
  mkServerExtension (mkExt "UNSELECT" ["UNSELECT" : bytes] [])
    [("UNSELECT" : bytes, handleUnselect)] [].
Definition ext_urlauth : ServerExtension :=
  mkServerExtension (mkExt "URLAUTH" ["URLAUTH" : bytes] [])
    [("GENURLAUTH" : bytes, handleGenURLAuth);
     ("RESETKEY" : bytes, handleResetKey);
     ("URLFETCH" : bytes, handleURLFetch)] [].
Definition ext_utf8accept : ServerExtension :=
  mkServerExtension (mkExt "UTF8=ACCEPT" ["UTF8=ACCEPT" : bytes] []) []
    [("ENABLE" : bytes, handleUTF8Enable);
     ("APPEND" : bytes, handleUTF8Append)].
Definition ext_within : ServerExtension :=
  mkServerExtension (mkExt "WITHIN" ["WITHIN" : bytes] []) [] [].

(** Every package of extensions/. *)
Definition catalogue : list ServerExtension :=
  [ext_acl; ext_appendlimit; ext_binary; ext_catenate; ext_children; ext_compress;
   ext_condstore; ext_contextsearch; ext_convert; ext_enable; ext_esearch; ext_esort;
   ext_filters; ext_id; ext_idle; ext_inprogress; ext_jmapaccess; ext_language;
   ext_listextended; ext_listmetadata; ext_listmyrights; ext_liststatus; ext_literalplus; ext_messagelimit;
   ext_metadata; ext_move; ext_multiappend; ext_multisearch; ext_namespace; ext_notify;
   ext_objectid; ext_partial; ext_preview; ext_qresync; ext_quota; ext_replace;
   ext_saslir; ext_savedate; ext_searchfuzzy; ext_searchres; ext_sort; ext_sortdisplay;
   ext_specialuse; ext_statussize; ext_thread; ext_uidonly; ext_uidplus; ext_unauthenticate;
   ext_unselect; ext_urlauth; ext_utf8accept; ext_within].


(** ** Installing *)
(** [Server.Handle] and [Server.WrapHandler] with what an extension offers, in
    any order. *)
Inductive installed (start : gmap bytes (Handler Sess)) : gmap bytes (Handler Sess) -> Prop :=
| inst_start : installed start start
| inst_command e name h d :
    e ∈ catalogue -> (name, h) ∈ CommandHandlers e -> installed start d ->
    installed start (disp_Register name h d)
| inst_wrap e name w d :
    e ∈ catalogue -> WrapHandler e name = Some w -> installed start d ->
    installed start (disp_Wrap name w d).

(** All that the extensions of the catalogue offer. *)
Definition all_commands : list (bytes * Handler Sess) :=
  concat (CommandHandlers <$> catalogue).
Definition all_wraps : list (bytes * (Handler Sess -> Handler Sess)) :=
  concat (se_Wraps <$> catalogue).

Lemma elem_of_concat_fmap {A C} (f : A -> list C) (l : list A) a c :
  a ∈ l -> c ∈ f a -> c ∈ concat (f <$> l).
Proof.
  intros Ha Hc. apply list_elem_of_In, in_concat. exists (f a).
  split; apply list_elem_of_In; [by apply list_elem_of_fmap_2|done].
Qed.
Lemma WrapHandler_in e name w : e ∈ catalogue -> WrapHandler e name = Some w -> (name, w) ∈ all_wraps.
Proof.
  intros He Hw. unfold WrapHandler in Hw. apply fmap_Some in Hw as ([i [n w']] & Hf & ->).
  apply list_find_Some in Hf as (Hl & Hn & _). cbn in Hl, Hn. cbn [snd fst]. subst n.
  eapply elem_of_concat_fmap; [done|]. by eapply list_elem_of_lookup_2.
Qed.
Lemma commands_in e name h : e ∈ catalogue -> (name, h) ∈ CommandHandlers e -> (name, h) ∈ all_commands.
Proof. intros He Hh. by eapply elem_of_concat_fmap. Qed.

(** ** Dependencies *)
Definition bases : list Extension := se_Base <$> catalogue.
(** No dependency has dependencies. *)
Definition flat_deps : bool :=
  forallb (fun e => forallb (fun d => forallb (fun e' =>
    negb (bool_decide (ExtName e' = d)) || bool_decide (ExtDependencies e' = [])) bases) (ExtDependencies e)) bases.
Lemma catalogue_flat : flat_deps = true.
Proof. by vm_compute. Qed.

Lemma flat_dep e d e' :
  e ∈ bases -> d ∈ ExtDependencies e -> e' ∈ bases -> ExtName e' = d -> ExtDependencies e' = [].
Proof.
  intros He Hd He' Hn. pose proof catalogue_flat as HF. unfold flat_deps in HF.
  rewrite forallb_Forall, list.Forall_forall in HF. specialize (HF e He).
  rewrite forallb_Forall, list.Forall_forall in HF. specialize (HF d Hd).
  rewrite forallb_Forall, list.Forall_forall in HF. specialize (HF e' He').
  rewrite (bool_decide_true (ExtName e' = d)) in HF by done. by apply bool_decide_eq_true in HF.
Qed.

(** Registered extensions are among those that were asked for. *)
Lemma registered_from exts n e :
  Get n (foldl apply_op NewRegistry (OpRegister <$> exts)) = Some e -> e ∈ exts /\ ExtName e = n.
Proof.
  unfold Get. assert (forall r : Registry, extensions (foldl apply_op r (OpRegister <$> exts)) !! n = Some e ->
    (e ∈ exts /\ ExtName e = n) \/ extensions r !! n = Some e) as Hgen.
  { induction exts as [|x exts IH]; intros r; cbn [fmap list_fmap foldl]; [by right|].
    intros [[Hin Hn]|Hr]%IH; [left; split; [by right|done]|]. revert Hr. cbn [apply_op]. unfold Register.
    destruct (extensions r !! ExtName x) eqn:E; cbn; [by right|].
    intros [[<- <-]|[_ H]]%lookup_insert_Some; [left; split; [left|done]|by right]. }
  intros [?|H]%Hgen; [done|]. unfold NewRegistry in H. cbn in H. by rewrite lookup_empty in H.
Qed.
Lemma registered_name exts e :
  e ∈ exts -> is_Some (Get (ExtName e) (foldl apply_op NewRegistry (OpRegister <$> exts))).
Proof.
  assert (forall x (r : Registry) n, is_Some (extensions r !! n) -> is_Some (extensions (Register x r).2 !! n)) as Hkeep.
  { intros x r n Hn. unfold Register. destruct (extensions r !! ExtName x); [done|]. cbn.
    destruct (decide (ExtName x = n)) as [->|]; [by rewrite lookup_insert_eq|by rewrite lookup_insert_ne]. }
  unfold Get. generalize NewRegistry. induction exts as [|x exts IH]; intros r; [by intros ?%elem_of_nil|].
  intros [->|Hin]%elem_of_cons; [|by apply IH]. cbn [fmap list_fmap foldl]. clear IH.
  assert (is_Some (extensions (apply_op r (OpRegister x)) !! ExtName x)) as H.
  { cbn [apply_op]. unfold Register. destruct (extensions r !! ExtName x) eqn:E; cbn; [by rewrite E|].
    by rewrite lookup_insert_eq. }
  revert H. generalize (apply_op r (OpRegister x)). induction exts as [|y exts IH]; intros r1 H; [done|].
  cbn [fmap list_fmap foldl]. apply IH. by apply Hkeep.
Qed.

(** Any choice of the extensions of the catalogue that contains what each
    of them depends on can be installed: for every order of the map loops, the
    registry sorts them without an error. *)
Theorem catalogue_resolves (exts : list Extension) (ord : nat -> list bytes -> list bytes) :
  (forall n l, ord n l ≡ₚ l) ->
  (forall e, e ∈ exts -> e ∈ bases) ->
  (forall e d, e ∈ exts -> d ∈ ExtDependencies e -> d ∈ ExtName <$> exts) ->
  exists sorted, Resolve ord (foldl apply_op NewRegistry (OpRegister <$> exts)) = Ok sorted.
Proof.
  intros Hord Hsub Hdeps. apply (proj1 (Resolve_iff (OpRegister <$> exts) ord Hord)).
  set (r := foldl apply_op NewRegistry (OpRegister <$> exts)).
  assert (forall n d, depends r n d -> exists e, e ∈ exts /\ ExtName e = n /\ d ∈ ExtDependencies e) as Hdep.
  { intros n d Hd. unfold depends, deps in Hd. destruct (extensions r !! n) as [e|] eqn:E;
      [|by apply elem_of_nil in Hd]. apply registered_from in E as [Hin <-]. by exists e. }
  split.
  - intros n d (e & Hin & _ & Hd)%Hdep. apply (Hdeps e d Hin), list_elem_of_fmap in Hd as (e' & -> & He').
    by apply registered_name.
  - assert (forall n d x, depends r n d -> ~ depends r d x) as Htwo.
    { intros n d x (e & He & _ & Hd)%Hdep (e' & He' & Hn & Hx)%Hdep.
      rewrite (flat_dep e d e') in Hx by auto. by apply elem_of_nil in Hx. }
    intros n Hn. inversion Hn as [? ? H1|? y ? H1 H2]; subst; [by apply (Htwo n n n)|].
    inversion H2; subst; eapply (Htwo n y); eassumption.
Qed.

Lemma bases_closed e d : e ∈ bases -> d ∈ ExtDependencies e -> d ∈ ExtName <$> bases.
Proof.
  assert (forallb (fun e => forallb (fun d => bool_decide (d ∈ ExtName <$> bases)) (ExtDependencies e)) bases = true)
    as HF by by vm_compute.
  intros He Hd. rewrite forallb_Forall, list.Forall_forall in HF. specialize (HF e He).
  rewrite forallb_Forall, list.Forall_forall in HF. specialize (HF d Hd). by apply bool_decide_eq_true in HF.
Qed.
End Catalogue.
