(* ===== verification/ExtReplies.v ===== *)
(** * The responses of extension commands

    A server with any of the extensions installed, in any order, still answers
    every command once. *)

From S2P Require Import Prelude Utf8 GoStrings GoTime NumSet Imap Decoder Encoder Writers.
From S2P Require Import ConnState Conn Commands Dispatch Replies ExtBase ExtCommands ExtSearch ExtMessages Extensions.

Section Quiet.
Context {U : Unicode} {Sess : Type} {B : Backend Sess} {X : Extended Sess}.

#[export] Instance quiet_panic {A} : Quiet (st_panic : H Sess A).
Proof. by apply quiet_same. Qed.
#[export] Instance replies_panic tag : Replies tag (st_panic : H Sess unit).
Proof. intros h r h' [= <- <-]. exists [], []. split; [apply said_refl|]. by split; [constructor|]. Qed.
#[export] Instance replies_hang tag : Replies tag (st_hang : H Sess unit).
Proof. intros h r h' [= <- <-]. exists [], []. split; [apply said_refl|]. by split; [constructor|]. Qed.

Lemma replies_status tag status code text :
  status ∈ ["OK" : bytes; "NO" : bytes; "BAD" : bytes] ->
  Replies tag (on_conn (Encode (Enc.StatusResponse tag status code text)) : H Sess unit).
Proof.
  intros Hst h r h' [= <- <-]. exists [], [Enc.StatusResponse tag status code text []].
  split; [done|]. split; [constructor|]. eexists. split; [done|]. by apply tagged_status.
Qed.
#[export] Instance replies_bad ctx text : Replies (x_Tag ctx) (bad ctx text : H Sess unit).
Proof. apply replies_status. set_solver. Qed.
#[export] Instance replies_no ctx text : Replies (x_Tag ctx) (no ctx text : H Sess unit).
Proof. apply replies_status. set_solver. Qed.
#[export] Instance replies_okcode ctx code text :
  Replies (x_Tag ctx) (on_conn (WriteOKCode (x_Tag ctx) code text) : H Sess unit).
Proof. apply replies_status. set_solver. Qed.

Lemma replies_or_else {A} tag (m : H Sess A) f k :
  Quiet m -> (forall e, Replies tag (f e)) -> (forall a, Replies tag (k a)) -> Replies tag (or_else m f k).
Proof. intros Hm Hf Hk. apply replies_bind; [apply _|]. intros [e|a]; [apply Hf|apply Hk]. Qed.
Lemma replies_asserting {I} tag (i : option I) (m : H Sess unit) k :
  Replies tag m -> (forall i, Replies tag (k i)) -> Replies tag (asserting i m k).
Proof. intros Hm Hk. destruct i; [apply Hk|apply Hm]. Qed.
Lemma replies_in_states tag allowed (m k : H Sess unit) :
  Replies tag m -> Replies tag k -> Replies tag (in_states allowed m k).
Proof. intros Hm Hk. apply replies_bind; [apply _|]. intros c. destruct (bool_decide _); [apply Hk|apply Hm]. Qed.
End Quiet.

(** ** What the extensions write *)
Section Untagged.
Context {U : Unicode} {Sess : Type}.
Lemma grows_NString v : grows (Enc.NString v).
Proof. unfold Enc.NString. intros e0 e He. destruct v; [by apply grows_EncString|grow]. Qed.
Lemma grows_writeNamespaceList l : grows (writeNamespaceList l).
Proof.
  intros e0 e He. unfold writeNamespaceList. destruct l as [|n l]; grow. unfold write_namespace. grow.
Qed.
Lemma grows_writeIDData d : grows (writeIDData d).
Proof.
  intros e0 e He. unfold writeIDData. destruct d as [[|p l]|]; grow. apply grows_NString. grow.
Qed.
Lemma grows_writeThread t : grows (writeThread t).
Proof.
  revert t. fix IH 1. intros [num children] e0 e He. cbn [writeThread]. apply grows_app.
  assert (e0 `prefix_of` (e |> Enc.BeginList |> Enc.Number num)) as H by grow. revert H.
  generalize (e |> Enc.BeginList |> Enc.Number num). clear He.
  induction children as [|t ts IHts]; intros e1 He1; [done|]. apply IHts, IH. grow.
Qed.
Lemma quiet_write_map {A} (f : A -> Enc.Encoder -> Enc.Encoder) l :
  (forall a, untagged (f a [])) -> Quiet (write_all (f <$> l) : H Sess _).
Proof. intros Hf. apply quiet_writes, Forall_fmap, list.Forall_forall. intros a _. apply Hf. Qed.

Lemma untagged_quota d : untagged (quota_response d []).
Proof. left. unfold quota_response. grow. Qed.
Lemma untagged_metadata d : untagged (metadata_response d []).
Proof.
  left. unfold metadata_response. grow. case_match; grow.
Qed.
Lemma untagged_urlfetch d : untagged (urlfetch_response d []).
Proof. left. unfold urlfetch_response. case_match; grow. Qed.

Lemma grows_result_items d o : grows (result_items d o).
Proof. intros e0 e He. unfold result_items. destruct (sd_All d); grow. Qed.
Lemma grows_modseq_item d : grows (modseq_item d).
Proof. intros e0 e He. unfold modseq_item. grow. Qed.
Lemma grows_partial_item d p : grows (partial_item d p).
Proof.
  intros e0 e He. unfold partial_item. destruct (sx_Partial _) as [q|]; [destruct (sp_UIDs q)|]; grow.
Qed.
Lemma esearch_head_star ctx : ("* " : bytes) `prefix_of` esearch_head ctx [].
Proof. unfold esearch_head. destruct (x_NumKind ctx); grow. Qed.
Lemma untagged_esearch ctx d o : untagged (writeESearchResponse ctx d o []).
Proof. left. apply grows_app, grows_modseq_item, grows_result_items, esearch_head_star. Qed.
Lemma untagged_partial ctx d o : untagged (writeESearchResponse_partial ctx d o []).
Proof.
  left. unfold writeESearchResponse_partial. apply grows_app, grows_modseq_item.
  destruct (so_ReturnPartial o); [apply grows_partial_item|]; apply grows_result_items, esearch_head_star.
Qed.
Lemma untagged_multi ctx o r : untagged (multi_response ctx o r []).
Proof.
  left. unfold multi_response. apply grows_app. destruct (mu_Data r) as [d|]; [|grow].
  apply grows_modseq_item, grows_result_items. grow.
Qed.
Lemma untagged_fetch_uidonly c : Forall (fun fn => untagged (fn [])) (fetch_writes_uidonly c).
Proof. destruct c; apply list.Forall_singleton; [apply untagged_WriteFlags|apply untagged_WriteFetchData]. Qed.
Lemma untagged_expunge_uidonly n : Forall (fun fn => untagged (fn [])) (expunge_call_uidonly n).
Proof. apply list.Forall_singleton. left. unfold WriteExpunge. grow. Qed.
Lemma untagged_select_vanished d : Forall (fun fn => untagged (fn [])) (select_writes d ++ vanished_writes d).
Proof.
  apply Forall_app_2; [apply untagged_select|]. unfold vanished_writes. destruct (sel_Vanished d) as [v|]; [|constructor].
  unfold when. case_if; [|constructor]. apply list.Forall_singleton. left. grow.
Qed.
End Untagged.

(** A chain of such writes starts with a star. *)
Ltac starred :=
  first [ apply untagged_quota | apply untagged_metadata | apply untagged_esearch | apply untagged_partial
        | apply untagged_search
        | left; repeat (grow; intros; first [ apply grows_writeNamespaceList | apply grows_writeIDData
                                    | apply grows_writeThread | apply esearch_head_star ]) ].

(** The structure of a reader, and of a handler. *)
Ltac quiet :=
  repeat lazymatch goal with
  | |- forall _, _ => intro
  | |- Quiet (match ?x with _ => _ end) => destruct x
  | |- Quiet (mbind _ _) => apply quiet_bind
  | |- Quiet (on_err _ _) => apply quiet_on_err
  | |- Quiet (attempt _) => apply quiet_attempt
  | |- Quiet _ => apply _
  end.
Ltac handler :=
  repeat lazymatch goal with
  | |- forall _, _ => intro
  | |- Replies _ (match ?x with _ => _ end) => destruct x
  | |- Replies _ (mbind _ _) => apply replies_bind
  | |- Replies _ (or_else _ _ _) => apply replies_or_else
  | |- Replies _ (asserting _ _ _) => apply replies_asserting
  | |- Replies _ (in_states _ _ _) => apply replies_in_states
  | |- Replies _ (no_failed _ _ _) => apply replies_no
  | |- Replies _ _ => apply _
  | |- Quiet (match ?x with _ => _ end) => destruct x
  | |- Quiet (mbind _ _) => apply quiet_bind
  | |- Quiet (on_err _ _) => apply quiet_on_err
  | |- Quiet (attempt _) => apply quiet_attempt
  | |- Quiet (write _) => apply quiet_write; starred
  | |- Quiet _ => apply _
  end.

(** ** Handlers of new commands *)
Create HintDb exts.
Section Commands.
Context {U : Unicode} {Sess : Type} {B : Backend Sess} {X : Extended Sess}.
Implicit Types ctx : CommandContext.

#[export] Instance quiet_read_set ctx t : Quiet (read_set ctx t : H Sess _).
Proof. unfold read_set. quiet. Qed.
#[export] Instance quiet_use_decoder ctx : Quiet (use_decoder ctx : H Sess _).
Proof. unfold use_decoder. quiet. Qed.
#[export] Instance quiet_quotas l : Quiet (write_all (quota_response <$> l) : H Sess _).
Proof. apply quiet_write_map, untagged_quota. Qed.
#[export] Instance quiet_urlfetch l : Quiet (write_all (urlfetch_response <$> l) : H Sess _).
Proof. apply quiet_write_map, untagged_urlfetch. Qed.
#[export] Instance quiet_multi ctx o l : Quiet (write_all (multi_response ctx o <$> l) : H Sess _).
Proof. apply quiet_write_map, untagged_multi. Qed.

(** Readers of the search family. *)
#[export] Instance quiet_option_list {T} w1 w2 (opt : bytes -> T -> H Sess T) o :
  (forall a o, Quiet (opt a o)) -> Quiet (option_list w1 w2 opt o).
Proof.
  intros Hopt. assert (forall fuel o, Quiet (option_loop w1 w2 opt fuel o)) as Hloop.
  { induction fuel as [|f IH]; intros o1; cbn [option_loop]; quiet. }
  unfold option_list. quiet.
Qed.
#[export] Instance quiet_standard_opt a o : Quiet (standard_opt a o : H Sess _).
Proof. unfold standard_opt. quiet. Qed.
#[export] Instance quiet_context_opt a o : Quiet (context_opt a o : H Sess _).
Proof. unfold context_opt. quiet. Qed.
#[export] Instance quiet_partial_opt a o : Quiet (partial_opt a o : H Sess _).
Proof. unfold partial_opt. quiet. Qed.
#[export] Instance quiet_return_options opt :
  (forall a o, Quiet (opt a o)) -> Quiet (return_options opt : H Sess _).
Proof. intros. unfold return_options. quiet. Qed.
#[export] Instance quiet_invalid_search {A} (m : H Sess A) : Quiet m -> Quiet (invalid_search m).
Proof. intros. unfold invalid_search. quiet. Qed.
#[export] Instance quiet_multi_args : Quiet (multi_args : H Sess _).
Proof. unfold multi_args, parseReturnOptions_multi, esearch_one, esearch_all. quiet. Qed.
#[export] Instance quiet_search_source : Quiet (search_source : H Sess _).
Proof. unfold search_source, source_mailboxes. quiet. Qed.

#[local] Hint Unfold handleMove handleUnselect handleNamespace handleID handleUnauthenticate handleCompress
  handleLanguage handleSort handleThread handleConvert handleNotify handleGetFilter handleSetFilter
  handleGetQuota handleGetQuotaRoot handleSetQuota handleSetACL handleDeleteACL handleGetACL handleListRights
  handleMyRights handleGetMetadata handleSetMetadata handleGenURLAuth handleResetKey handleURLFetch
  handleReplace append_ok writeQuotaResponse replace_args handleCancelUpdate handleMultiSearch
  writeMultiSearchResponse fail : exts.

Lemma all_commands_reply :
  Forall (fun p => forall ctx, Replies (x_Tag ctx) (p.2 ctx)) all_commands.
Proof.
  repeat (apply Forall_cons_2; [intros ctx; cbn [snd]; autounfold with exts; handler|]). apply Forall_nil_2.
Qed.
End Commands.

(** ** Wrapped handlers *)
Create HintDb wraps.
Section Wrappers.
Context {U : Unicode} {Sess : Type} {B : Backend Sess} {X : Extended Sess}.
Implicit Types ctx : CommandContext.

#[export] Instance quiet_enabled_has cap : Quiet (enabled_has cap : H Sess _).
Proof. unfold enabled_has. quiet. Qed.
#[export] Instance quiet_keys_with one c :
  (forall k c, Quiet (one k c)) -> Quiet (keys_with one c : H Sess _).
Proof.
  intros Hone. assert (forall fuel c, Quiet (keys_loop one fuel c : H Sess _)) as Hloop.
  { induction fuel as [|f IH]; intros c1; cbn [keys_loop]; quiet. }
  unfold keys_with. quiet.
Qed.
#[export] Instance quiet_search_args ctx ropts all one :
  Quiet ropts -> (forall c, Quiet (all c)) -> (forall k c, Quiet (one k c)) ->
  Quiet (search_args ctx ropts all one : H Sess _).
Proof. intros. unfold search_args. quiet. Qed.
#[export] Instance quiet_search_extended ctx c o : Quiet (search_extended ctx c o).
Proof. unfold search_extended. quiet. Qed.
#[export] Instance quiet_search_plain ctx c o : Quiet (search_plain ctx c o).
Proof. unfold search_plain. quiet. Qed.
#[export] Instance quiet_dollar_one k c : Quiet (parseSearchCriterionWithDollar k c).
Proof. unfold parseSearchCriterionWithDollar. quiet. Qed.
#[export] Instance quiet_fuzzy_one k c : Quiet (parseFuzzySearchCriterion k c : H Sess _).
Proof. unfold parseFuzzySearchCriterion. quiet. Qed.
#[export] Instance quiet_resolveDollar ctx : Quiet (resolveDollar ctx).
Proof. unfold resolveDollar. quiet. Qed.
#[export] Instance quiet_isDollar ctx : Quiet (isDollarCommand ctx : H Sess _).
Proof. unfold isDollarCommand. quiet. Qed.
#[export] Instance quiet_write_updates ctx kind us : Quiet (write_updates ctx kind us : H Sess _).
Proof.
  induction us as [|u us IH]; cbn [write_updates]; [apply _|]. apply quiet_bind; [|intros; apply IH].
  unfold write_update. destruct (cu_SeqSet u); [|apply _]. apply quiet_write. starred.
Qed.
#[export] Instance quiet_noupdate ctx : Quiet (writeNoUpdateResponse ctx : H Sess _).
Proof. apply quiet_write. left. unfold Enc.StatusResponse. cbn [orb]. grow. Qed.
#[export] Instance quiet_context_route ctx c o : Quiet (context_route ctx c o).
Proof. unfold context_route. quiet. Qed.
#[export] Instance quiet_sort_search all : Quiet (sort_search all : H Sess _).
Proof. unfold sort_search. quiet. Qed.
#[export] Instance quiet_nonempty_sort l : Quiet (nonempty_sort l : H Sess _).
Proof. unfold nonempty_sort. quiet. Qed.
#[export] Instance quiet_after_sp : Quiet (after_sp : H Sess _).
Proof. unfold after_sp. quiet. Qed.
#[export] Instance quiet_changed_since extra o :
  (forall o, Quiet (extra o)) -> Quiet (changed_since extra o : H Sess _).
Proof. intros. unfold changed_since. quiet. Qed.
#[export] Instance quiet_fetch_args items : Quiet (fetch_args items : H Sess _).
Proof. unfold fetch_args. quiet. Qed.
#[export] Instance quiet_vanished_word : Quiet (vanished_word : H Sess _).
Proof. unfold vanished_word. quiet. Qed.
#[export] Instance quiet_vanished_qresync ctx o : Quiet (vanished_qresync ctx o : H Sess _).
Proof. unfold vanished_qresync. quiet. Qed.
#[export] Instance quiet_vanished_uidonly o : Quiet (vanished_uidonly o : H Sess _).
Proof. unfold vanished_uidonly. quiet. Qed.
#[export] Instance quiet_unchanged_since : Quiet (unchanged_since : H Sess _).
Proof. unfold unchanged_since. quiet. Qed.
#[export] Instance quiet_store_flags : Quiet (store_flags : H Sess _).
Proof. unfold store_flags. quiet. Qed.
#[export] Instance quiet_dest_mailbox : Quiet (dest_mailbox : H Sess _).
Proof. unfold dest_mailbox. quiet. Qed.
#[export] Instance quiet_read_uids t : Quiet (read_uids t : H Sess _).
Proof. unfold read_uids. quiet. Qed.
#[export] Instance quiet_fetch_uidonly m : Quiet (session_writing fetch_writes_uidonly m : H Sess _).
Proof. apply quiet_writing, untagged_fetch_uidonly. Qed.
#[export] Instance quiet_expunge_uidonly m : Quiet (session_writing expunge_call_uidonly m : H Sess _).
Proof. apply quiet_writing, untagged_expunge_uidonly. Qed.
#[export] Instance quiet_vanished d : Quiet (write_all (select_writes d ++ vanished_writes d) : H Sess _).
Proof. apply quiet_writes, untagged_select_vanished. Qed.
#[export] Instance quiet_read_body n : Quiet (read_body n : H Sess _).
Proof. unfold read_body. quiet. Qed.
#[export] Instance quiet_append_head : Quiet (append_head : H Sess _).
Proof. unfold append_head, append_datetime2. quiet. Qed.
#[export] Instance quiet_has_more : Quiet (has_more : H Sess _).
Proof. unfold has_more. quiet. Qed.
#[export] Instance quiet_more_messages fuel acc : Quiet (more_messages fuel acc : H Sess _).
Proof. revert acc. induction fuel as [|f IH]; intros acc; cbn [more_messages]; quiet. Qed.
#[export] Instance quiet_read_from {A} conn (m : Dec A) : Quiet (read_from conn m : H Sess _).
Proof. unfold read_from. quiet. Qed.
#[export] Instance quiet_wrapping {A} (m : H Sess A) t : Quiet m -> Quiet (wrapping m t).
Proof. intros. unfold wrapping. quiet. Qed.
#[export] Instance quiet_next_part conn : Quiet (next_part conn : H Sess _).
Proof. unfold next_part. quiet. Qed.
#[export] Instance quiet_catenate fuel conn first parts : Quiet (catenate_loop fuel conn first parts : H Sess _).
Proof.
  revert conn first parts. induction fuel as [|f IH]; intros conn first parts; cbn [catenate_loop]; quiet.
  all: apply quiet_wrapping; quiet.
Qed.
#[export] Instance quiet_parts : Quiet (parseCatenateParts : H Sess _).
Proof. unfold parseCatenateParts. quiet. Qed.
#[export] Instance quiet_selection_opt a o : Quiet (selection_opt a o : H Sess _).
Proof. unfold selection_opt. quiet. Qed.
#[export] Instance quiet_list_return_opt a o : Quiet (list_return_opt a o : H Sess _).
Proof. unfold list_return_opt. quiet. Qed.
#[export] Instance quiet_list_return o : Quiet (list_return o : H Sess _).
Proof. unfold list_return, parseReturnOptions_list. quiet. Qed.
#[export] Instance quiet_use_attribute : Quiet (use_attribute : H Sess _).
Proof. unfold use_attribute. quiet. Qed.
#[export] Instance quiet_literal_size reader : Quiet (read_literal_size reader : H Sess _).
Proof. unfold read_literal_size. quiet. Qed.

#[local] Hint Unfold handleESearch handleSearchRes handleFuzzySearch handleContextSearch handlePartialSearch
  handlePartialSort handleESort handleCondstoreFetch handleQResyncFetch handlePreviewFetch handleCondstoreSelect
  handleQResyncSelect handleUIDPlusCopy handleUIDPlusExpunge handleSpecialUseCreate handleListExtended
  handleDollarFetch handleDollarStore handleDollarCopy handleDollarMove on_dollar run_fetch
  handleUIDOnlyFetch handleUIDOnlyStore handleUIDOnlyExpunge handleUIDOnlyMove handleUIDOnlySeqReject
  handleUIDOnlySelect when_uidonly uidOnlyEnabled handleUTF8Append handleBinaryAppend handleMultiAppend
  handleCatenateAppend handleStandardAppend handleStandardAppend_catenate standard_append append_ok writeMultiAppendOK
  writeSelectResponse select_done search_done writeContextESearchResponse writeTraditionalSearchResponse
  parseReturnOptions parseReturnOptions_searchres parseReturnOptions_fuzzy parseReturnOptions_context
  parseReturnOptions_partial parseReturnOptions_esort parseSearchCriteriaWithDollar parseFuzzySearchCriteria
  esearch_all esearch_one parseSelectionOptions fail : wraps.

(** What a session has to provide: the interface of CONDSTORE, without which a
    conditional store is not answered, and hooks of ENABLE, which run after the
    reply, that succeed. *)
Definition succeeds (m : St Sess unit) : Prop := forall s, (m s).1 = Ok tt.
Record well_provided : Prop := {
  wp_condstore : as_CondStore <> None;
  wp_uidonly m : as_UIDOnly = Some m -> succeeds m;
  wp_utf8 m : as_UTF8Accept = Some m -> succeeds m;
}.

Lemma replies_after_enable cap hook (original : Handler Sess) ctx :
  (forall m, hook = Some m -> succeeds m) ->
  Replies (x_Tag ctx) (original ctx) -> Replies (x_Tag ctx) (after_enable cap hook original ctx).
Proof.
  intros Hhook Ho h r h'. unfold after_enable, mbind, st_bind.
  destruct (original ctx h) as [r1 h1] eqn:E. apply Ho in E as (us & ts & Hs & Hu & Hr).
  destruct r1 as [[]|e| |]; [|intros [= <- <-]; by exists us, ts..].
  unfold enabled_has, mbind, st_bind, get_conn, mret, st_ret.
  destruct (CapSet_Has (c_enabled (h_conn h1)) cap), hook as [m|]; try (intros [= <- <-]; by exists us, ts).
  unfold session. specialize (Hhook m eq_refl (h_sess h1)). destruct (m (h_sess h1)) as [r2 s2].
  simpl in Hhook. subst r2. intros [= <- <-]. by exists us, ts.
Qed.
Lemma replies_condstore ctx : as_CondStore <> None -> Replies (x_Tag ctx) (handleCondstoreStore ctx).
Proof.
  intros Hc. unfold handleCondstoreStore. destruct as_CondStore as [sc|]; [|done]. handler.
Qed.

Lemma all_wraps_reply :
  well_provided ->
  Forall (fun p => forall original, (forall ctx, Replies (x_Tag ctx) (original ctx)) ->
    forall ctx, Replies (x_Tag ctx) (p.2 original ctx)) all_wraps.
Proof.
  intros [Hc Hu8 Hu].
  repeat (apply Forall_cons_2; [intros original Ho ctx; cbn [snd];
    first [ by apply replies_condstore | by apply replies_after_enable
          | autounfold with wraps; handler ]|]). apply Forall_nil_2.
Qed.
End Wrappers.

(** ** Servers with extensions *)
Section Installed.
Context {U : Unicode} {Sess : Type} {B : Backend Sess} {X : Extended Sess}.
Context (opts : Options) (ord : nat -> list bytes -> list bytes).
Abbreviation builtin_table := (RegisterAll (builtins opts ord)).

(** The names of the extensions are in upper case. *)
Lemma names_upper : forallb (fun n => ascii_string n && bool_decide (upper_char <$> n = n)
    && bool_decide (n <> ("STARTTLS" : bytes))) (all_commands.*1 ++ all_wraps.*1) = true.
Proof. by vm_compute. Qed.
Lemma name_upper n : n ∈ all_commands.*1 ++ all_wraps.*1 -> ToUpper n = n /\ n <> ("STARTTLS" : bytes).
Proof.
  intros Hn. pose proof names_upper as HF. rewrite forallb_Forall, list.Forall_forall in HF.
  specialize (HF n Hn). apply andb_true_iff in HF as [[Ha Hu]%andb_true_iff Hs].
  apply bool_decide_eq_true in Hu, Hs. split; [|done]. by rewrite ToUpper_ascii.
Qed.

Lemma installed_answering d :
  well_provided -> installed builtin_table d -> answering opts d.
Proof.
  intros Hwp. induction 1 as [|e name h d He Hh _ [Ht IH]|e name w d He Hw _ [Ht IH]].
  - apply builtins_answering.
  - apply (commands_in e) in Hh; [|done].
    assert (name ∈ all_commands.*1 ++ all_wraps.*1) as [Hup Hne]%name_upper.
    { apply elem_of_app. left. by apply (list_elem_of_fmap_2 fst) in Hh. }
    unfold disp_Register. rewrite Hup. split; [by rewrite lookup_insert_ne|].
    intros upper h' [[<- <-]|[_ Hl]]%lookup_insert_Some Hn; [|by eapply IH].
    pose proof all_commands_reply as HF. rewrite list.Forall_forall in HF. exact (HF _ Hh).
  - apply (WrapHandler_in e) in Hw; [|done].
    assert (name ∈ all_commands.*1 ++ all_wraps.*1) as [Hup Hne]%name_upper.
    { apply elem_of_app. right. by apply (list_elem_of_fmap_2 fst) in Hw. }
    unfold disp_Wrap. rewrite Hup. destruct (d !! name) as [h|] eqn:Eh; [|by split].
    split; [by rewrite lookup_insert_ne|].
    intros upper h' [[<- <-]|[_ Hl]]%lookup_insert_Some Hn; [|by eapply IH].
    pose proof (all_wraps_reply Hwp) as HF. rewrite list.Forall_forall in HF.
    apply (HF _ Hw). by apply (IH name).
Qed.

(** Whatever commands and wrappers of the extensions are installed on a
    server, and in whatever order, a command is still answered by untagged
    responses and exactly one tagged one (two for a STARTTLS whose handshake
    fails), provided the session has the interface of CONDSTORE and its hooks for
    ENABLE succeed. *)
Theorem extension_one_reply d (tag name rest : bytes) (s s' : CState Sess) (r : res unit) :
  well_provided -> installed builtin_table d ->
  dispatch d tag name rest s = (r, s') ->
  answered tag
    match uid_prefix name rest with
    | Some (_, upper, _) => if handshake_fails opts upper (cs_conn s) then 2 else 1
    | None => 1
    end (cs_conn s) (cs_conn s') r.
Proof. intros Hwp Hd. apply answered_dispatch. by apply installed_answering. Qed.

End Installed.
