(* ===== verification/Constants.v ===== *)
(** * The names the library declares (capability.go, command.go, response.go)

    The constants for capabilities, commands and response codes, and how they
    agree with the extensions and the handlers of a server. *)

From S2P Require Import Prelude Utf8 GoStrings Imap Encoder Writers ConnState Registry Conn Commands Dispatch Replies.
From S2P Require Import ClientParse Exchange ExtBase Extensions ExtReplies.

(** [CapIMAP4rev1] to [CapMessageLimit]; LITERAL- has two names. *)
Definition CapNames : list bytes := [
  "IMAP4rev1" : bytes; "IMAP4rev2" : bytes; "AUTH=PLAIN" : bytes; "AUTH=LOGIN" : bytes;
  "AUTH=CRAM-MD5" : bytes; "AUTH=SCRAM-SHA-1" : bytes; "AUTH=SCRAM-SHA-256" : bytes;
  "AUTH=SCRAM-SHA-1-PLUS" : bytes; "AUTH=SCRAM-SHA-256-PLUS" : bytes; "AUTH=XOAUTH2" : bytes;
  "AUTH=OAUTHBEARER" : bytes; "AUTH=EXTERNAL" : bytes; "AUTH=ANONYMOUS" : bytes; "SASL-IR" : bytes;
  "IDLE" : bytes; "NAMESPACE" : bytes; "ID" : bytes; "CHILDREN" : bytes; "STARTTLS" : bytes;
  "LOGINDISABLED" : bytes; "MULTIAPPEND" : bytes; "BINARY" : bytes; "UNSELECT" : bytes; "ACL" : bytes;
  "UIDPLUS" : bytes; "URLAUTH" : bytes; "CATENATE" : bytes; "ESEARCH" : bytes; "COMPRESS=DEFLATE" : bytes;
  "WITHIN" : bytes; "ENABLE" : bytes; "SEARCHRES" : bytes; "LANGUAGE" : bytes; "SORT" : bytes;
  "THREAD=ORDEREDSUBJECT" : bytes; "THREAD=REFERENCES" : bytes; "LIST-EXTENDED" : bytes; "CONVERT" : bytes;
  "CONTEXT=SEARCH" : bytes; "CONTEXT=SORT" : bytes; "ESORT" : bytes; "METADATA" : bytes;
  "METADATA-SERVER" : bytes; "NOTIFY" : bytes; "FILTERS" : bytes; "LIST-STATUS" : bytes;
  "SORT=DISPLAY" : bytes; "SPECIAL-USE" : bytes; "CREATE-SPECIAL-USE" : bytes; "SEARCH=FUZZY" : bytes;
  "MOVE" : bytes; "UTF8=ACCEPT" : bytes; "UTF8=ONLY" : bytes; "CONDSTORE" : bytes; "QRESYNC" : bytes;
  "MULTISEARCH" : bytes; "OAUTHBEARER" : bytes; "LITERAL+" : bytes; "LITERAL-" : bytes;
  "APPENDLIMIT" : bytes; "UNAUTHENTICATE" : bytes; "STATUS=SIZE" : bytes; "LIST-MYRIGHTS" : bytes;
  "OBJECTID" : bytes; "REPLACE" : bytes; "SAVEDATE" : bytes; "PREVIEW" : bytes; "LITERAL-" : bytes;
  "QUOTA" : bytes; "QUOTA=RES-STORAGE" : bytes; "QUOTA=RES-MESSAGE" : bytes; "QUOTA=RES-MAILBOX" : bytes;
  "QUOTA=RES-ANNOTATION-STORAGE" : bytes; "PARTIAL" : bytes; "INPROGRESS" : bytes; "UIDONLY" : bytes;
  "LIST-METADATA" : bytes; "JMAPACCESS" : bytes; "MESSAGELIMIT" : bytes].

(** [CommandCapability] to [CommandCancelNotify]. *)
Definition CommandNames : list bytes := [
  "CAPABILITY" : bytes; "NOOP" : bytes; "LOGOUT" : bytes; "STARTTLS" : bytes; "AUTHENTICATE" : bytes;
  "LOGIN" : bytes; "ENABLE" : bytes; "SELECT" : bytes; "EXAMINE" : bytes; "CREATE" : bytes; "DELETE" : bytes;
  "RENAME" : bytes; "SUBSCRIBE" : bytes; "UNSUBSCRIBE" : bytes; "LIST" : bytes; "LSUB" : bytes;
  "NAMESPACE" : bytes; "STATUS" : bytes; "APPEND" : bytes; "IDLE" : bytes; "CLOSE" : bytes;
  "UNSELECT" : bytes; "EXPUNGE" : bytes; "SEARCH" : bytes; "FETCH" : bytes; "STORE" : bytes; "COPY" : bytes;
  "MOVE" : bytes; "SORT" : bytes; "THREAD" : bytes; "UID" : bytes; "COMPRESS" : bytes; "GETQUOTA" : bytes;
  "GETQUOTAROOT" : bytes; "SETQUOTA" : bytes; "SETACL" : bytes; "DELETEACL" : bytes; "GETACL" : bytes;
  "LISTRIGHTS" : bytes; "MYRIGHTS" : bytes; "SETMETADATA" : bytes; "GETMETADATA" : bytes; "REPLACE" : bytes;
  "UNAUTHENTICATE" : bytes; "NOTIFY" : bytes; "GENURLAUTH" : bytes; "RESETKEY" : bytes; "URLFETCH" : bytes;
  "LANGUAGE" : bytes; "GETFILTER" : bytes; "SETFILTER" : bytes; "CONVERT" : bytes; "CANCELNOTIFY" : bytes].

(** [ResponseCodeAlert] to [ResponseCodeNoUpdate]. *)
Definition ResponseCodes : list bytes := [
  "ALERT" : bytes; "BADCHARSET" : bytes; "CAPABILITY" : bytes; "PARSE" : bytes; "PERMANENTFLAGS" : bytes;
  "READ-ONLY" : bytes; "READ-WRITE" : bytes; "TRYCREATE" : bytes; "UIDNEXT" : bytes; "UIDVALIDITY" : bytes;
  "UNSEEN" : bytes; "APPENDUID" : bytes; "COPYUID" : bytes; "UIDNOTSTICKY" : bytes; "HIGHESTMODSEQ" : bytes;
  "MODIFIED" : bytes; "NOMODSEQ" : bytes; "CLOSED" : bytes; "OVERQUOTA" : bytes; "ALREADYEXISTS" : bytes;
  "NONEXISTENT" : bytes; "CONTACTADMIN" : bytes; "NOPERM" : bytes; "INUSE" : bytes; "EXPUNGEISSUED" : bytes;
  "CORRUPTION" : bytes; "SERVERBUG" : bytes; "CLIENTBUG" : bytes; "CANNOT" : bytes; "LIMIT" : bytes;
  "HASCHILDREN" : bytes; "METADATA" : bytes; "NOTSAVED" : bytes; "MAILBOXID" : bytes; "OBJECTID" : bytes;
  "INPROGRESS" : bytes; "UIDREQUIRED" : bytes; "NOUPDATE" : bytes].

Section Names.
Context {U : Unicode} {Sess : Type} {B : Backend Sess} {X : Extended Sess}.
Context (opts : Options) (ord : nat -> list bytes -> list bytes).
Abbreviation builtin_table := (RegisterAll (builtins opts ord : list (bytes * Handler Sess))).

(** The commands a server can have, with every extension. *)
Definition handled : list bytes := (builtins opts ord : list (bytes * Handler Sess)).*1 ++ (all_commands (Sess := Sess)).*1.
Definition declared_caps : list bytes := concat (ExtCapabilities <$> bases (Sess := Sess)).

Lemma forallb_elem (p : bytes -> bool) l n : forallb p l = true -> n ∈ l -> p n = true.
Proof. rewrite forallb_Forall, list.Forall_forall. intros H. apply H. Qed.

(** The extensions declare capabilities of the library only.  Three commands
    with a handler have no constant, and three constants no handler:
    AUTHENTICATE, which the client sends, UID, which the dispatcher takes off,
    and CANCELNOTIFY. *)
Theorem vocabulary (n : bytes) :
  (n ∈ declared_caps -> n ∈ CapNames)
  /\ (n ∈ handled /\ n ∉ CommandNames <-> n ∈ ["CANCELUPDATE" : bytes; "ID" : bytes; "ESEARCH" : bytes])
  /\ (n ∈ CommandNames /\ n ∉ handled <-> n ∈ ["AUTHENTICATE" : bytes; "UID" : bytes; "CANCELNOTIFY" : bytes]).
Proof.
  split_and!.
  - assert (forallb (fun c => bool_decide (c ∈ CapNames)) declared_caps = true) as HF by by vm_compute.
    by intros Hn%(forallb_elem _ _ _ HF)%bool_decide_eq_true.
  - rewrite (and_comm (n ∈ handled)), <- (list_elem_of_filter (fun n => n ∉ CommandNames)).
    replace (filter _ _) with ["CANCELUPDATE" : bytes; "ID" : bytes; "ESEARCH" : bytes] by by vm_compute. done.
  - rewrite (and_comm (n ∈ CommandNames)), <- (list_elem_of_filter (fun n => n ∉ handled)).
    replace (filter _ _) with ["AUTHENTICATE" : bytes; "UID" : bytes; "CANCELNOTIFY" : bytes] by by vm_compute. done.
Qed.

(** What is installed has a name of the list. *)
Lemma installed_handled d n : installed builtin_table d -> is_Some (d !! n) -> n ∈ handled.
Proof.
  induction 1 as [|e name h d He Hh _ IH|e name w d He Hw _ IH]; intros [h' Hn].
  - apply Replies.builtin_table in Hn. apply elem_of_app. left. by apply (list_elem_of_fmap_2 fst) in Hn.
  - apply (commands_in e) in Hh; [|done]. apply (list_elem_of_fmap_2 fst) in Hh.
    assert (name ∈ all_commands.*1 ++ all_wraps.*1) as [Hup _]%name_upper by (apply elem_of_app; by left).
    unfold disp_Register in Hn. rewrite Hup in Hn. apply lookup_insert_Some in Hn as [[<- _]|[_ Hn]]; [|by apply IH].
    apply elem_of_app. by right.
  - apply IH. unfold disp_Wrap in Hn. destruct (d !! ToUpper name) as [h|] eqn:E; [|by eexists].
    unfold disp_Register in Hn. apply lookup_insert_Some in Hn as [[<- _]|[_ Hn]]; by eexists.
Qed.

(** The server has no AUTHENTICATE, whatever extensions are installed: the
    command of the client's [Authenticate] is refused, whatever the mechanism
    and the state of the connection, and changes nothing. *)
Theorem authenticate_refused d (tag rest : bytes) (s : CState Sess) :
  installed builtin_table d ->
  exists text, dispatch d tag "AUTHENTICATE" rest s
    = (Ok tt, mkCS (WriteBAD tag text (cs_conn s)) (cs_sess s)).
Proof.
  intros Hd. assert (ToUpper "AUTHENTICATE" = "AUTHENTICATE") as Hup by by apply ToUpper_ascii.
  assert (disp_Get d "AUTHENTICATE" = None) as Hg.
  { unfold disp_Get. rewrite Hup. destruct (d !! _) as [h|] eqn:E; [|done].
    assert (("AUTHENTICATE" : bytes) ∈ handled) as Hin by (eapply installed_handled; [done|by eexists]).
    apply (bool_decide_eq_true_2 (_ ∈ _)) in Hin. by vm_compute in Hin. }
  unfold dispatch, uid_prefix, mbind, st_bind, st_get. rewrite Hup, bool_decide_false by done. rewrite Hg.
  destruct (CommandAllowedStates _) as [allowed|]; [|by eexists]. by destruct (RequireState _ _); eexists.
Qed.
End Names.

(** The client reads back the code and the text of a tagged NO or BAD with a
    code of the library. *)
Theorem coded_reply_read (tag status code text : bytes) :
  tag <> [] -> tag <> "*" -> status ∈ ["NO" : bytes; "BAD" : bytes] -> code ∈ ResponseCodes -> LF ∉ text ->
  exists line, Enc.StatusResponse tag status code text [] = tag ++ " " ++ line ++ crlf
    /\ parseStatusResponse line = (status, code, text).
Proof.
  intros H1 H2 Hst Hc Ht. exists (reply status code text). split; [by apply StatusResponse_reply|].
  assert (forallb (fun code => bool_decide (LF ∉ code /\ "]"%char ∉ code /\ code <> [])) ResponseCodes = true) as HF
    by by vm_compute.
  apply (forallb_elem _ _ code) in HF as (Hlf & Hb & Hne)%bool_decide_eq_true; [|done].
  apply parse_reply.
  - assert (forallb (fun s => bool_decide (" "%char ∉ s)) ["NO" : bytes; "BAD" : bytes] = true) as HS by by vm_compute.
    by apply (forallb_elem _ _ status) in HS as ?%bool_decide_eq_true.
  - by split_and!.
Qed.
