(* ===== verification/ExtGate.v ===== *)
(** * Extensions before authentication

    Which extension commands a client can run before it has logged in, and
    where an extension leaves a client without the reply it should have. *)

From S2P Require Import Prelude Utf8 GoStrings GoTime NumSet Imap Decoder Encoder Wire Writers.
From S2P Require Import ConnState Conn Commands Dispatch Replies Gate.
From S2P Require Import ExtBase ExtCommands ExtSearch ExtMessages Extensions ExtReplies.

Section ExtGate.
Context {U : Unicode} {Sess : Type} {B : Backend Sess} {X : Extended Sess}.
Context (opts : Options) (ord : nat -> list bytes -> list bytes).

(** The dispatcher runs a handler in the states its command is allowed in; a
    command that is in no table is always allowed. *)
Definition admits (st : ConnState) (name : bytes) : bool :=
  match CommandAllowedStates name with Some allowed => bool_decide (st ∈ allowed) | None => true end.

Lemma dispatch_handler (d : gmap bytes (Handler Sess)) tag name h rest (s : CState Sess) :
  ToUpper name = name -> name <> ("UID" : bytes) -> d !! name = Some h ->
  admits (conn_State (cs_conn s)) name = true ->
  dispatch d tag name rest s =
  let '(r, h') := h (mkContext tag name NumKindSeq (negb (rest =s []))) (mkH rest (cs_conn s) (cs_sess s)) in
  finish tag r h'.
Proof.
  intros Hup Hne Hd Ha. assert (disp_Get d name = Some h) as Hg by (unfold disp_Get; by rewrite Hup).
  unfold dispatch, uid_prefix. rewrite Hup, bool_decide_false by done.
  unfold mbind at 1, st_bind at 1. cbn [st_get]. unfold admits in Ha. rewrite Hg.
  destruct (CommandAllowedStates name) as [allowed|].
  - apply bool_decide_eq_true in Ha. rewrite (proj2 (RequireState_spec _ allowed)) by done.
    cbn [fmap option_fmap option_map]. unfold mbind, st_bind, attempt, run_handler.
    destruct (h _ _) as [[[]|e| |] h1]; done.
  - cbn. unfold mbind, st_bind, attempt, run_handler. destruct (h _ _) as [[[]|e| |] h1]; done.
Qed.

(** What dispatch does with any table: a refusal, or a handler that is admitted. *)
Inductive dispatched_in (d : gmap bytes (Handler Sess)) (tag name rest : bytes) (s s' : CState Sess) (r : res unit) : Prop :=
| di_refused text : conn_do (WriteBAD tag text) s = (r, s') -> dispatched_in d tag name rest s s' r
| di_handled upper (h : Handler Sess) k rest' r1 h1 :
    uid_prefix name rest = Some (k, upper, rest') -> d !! upper = Some h ->
    admits (conn_State (cs_conn s)) upper = true ->
    h (mkContext tag upper k (negb (rest' =s []))) (mkH rest' (cs_conn s) (cs_sess s)) = (r1, h1) ->
    finish tag r1 h1 = (r, s') -> dispatched_in d tag name rest s s' r.

Lemma dispatch_in_inv d tag name rest (s s' : CState Sess) r :
  dispatch d tag name rest s = (r, s') -> dispatched_in d tag name rest s s' r.
Proof.
  unfold dispatch. destruct (uid_prefix name rest) as [[[k upper] rest']|] eqn:Ep; [|by intros; eapply di_refused].
  pose proof (uid_prefix_upper _ _ _ _ _ Ep) as Hup. unfold mbind at 1, st_bind at 1. cbn [st_get].
  unfold disp_Get. rewrite Hup. destruct (d !! upper) as [h|] eqn:Eg.
  2: { case_match; intros; by eapply di_refused. }
  assert ((x ← attempt (run_handler h (mkContext tag upper k (negb (rest' =s []))) rest');
    match x with inl err => reply_error tag err | inr _ => mret tt end) s = (r, s') ->
    admits (conn_State (cs_conn s)) upper = true -> dispatched_in d tag name rest s s' r) as Hrun.
  { intros H Ha. revert H. unfold mbind, st_bind, attempt, run_handler.
    destruct (h _ _) as [r1 h1] eqn:E. intros H. eapply di_handled; [done|exact Eg|done|exact E|]. by destruct r1. }
  unfold admits in Hrun. destruct (CommandAllowedStates upper) as [allowed|].
  - destruct (RequireState (c_state (cs_conn s)) allowed) as [e|] eqn:Er; cbn [fmap option_fmap option_map];
      [by intros; eapply di_refused|]. apply RequireState_spec in Er. intros H. apply Hrun; [exact H|].
    by apply bool_decide_eq_true.
  - cbn. intros H. by apply Hrun.
Qed.

(** ** Before authentication *)

(** The commands without a check of the state of the connection. *)
Definition open_commands : list bytes :=
  ["ID" : bytes; "GETQUOTA" : bytes; "GETQUOTAROOT" : bytes; "SETQUOTA" : bytes; "SETACL" : bytes;
   "DELETEACL" : bytes; "GETACL" : bytes; "LISTRIGHTS" : bytes; "MYRIGHTS" : bytes; "GETMETADATA" : bytes;
   "SETMETADATA" : bytes; "REPLACE" : bytes].

(** The handlers of an extended server that run on such a connection. *)
Inductive pre_auth (upper : bytes) (h : Handler Sess) : Prop :=
| pa_builtin : (upper, h) ∈ builtins opts ord -> permitted ConnStateNotAuthenticated upper = true -> pre_auth upper h
| pa_command : (upper, h) ∈ all_commands -> pre_auth upper h.

Lemma wraps_gated : forallb (fun n => negb (admits ConnStateNotAuthenticated n)) all_wraps.*1 = true.
Proof. by vm_compute. Qed.
Lemma wrap_gated n w : (n, w) ∈ all_wraps -> admits ConnStateNotAuthenticated n = false.
Proof.
  intros Hin. pose proof wraps_gated as HF. rewrite forallb_Forall, list.Forall_forall in HF.
  apply negb_true_iff, HF. by apply (list_elem_of_fmap_2 fst) in Hin.
Qed.

Lemma installed_pre_auth d upper h :
  installed (RegisterAll (builtins opts ord)) d -> d !! upper = Some h ->
  admits ConnStateNotAuthenticated upper = true -> pre_auth upper h.
Proof.
  intros Hi. revert upper h. induction Hi as [|e name h0 d He Hh _ IH|e name w d He Hw _ IH]; intros upper h Hl Ha.
  - apply builtin_table in Hl. apply pa_builtin; [done|]. pose proof (builtin_in_table _ _ _ _ Hl) as Ht.
    unfold admits in Ha. unfold permitted. by destruct (CommandAllowedStates upper).
  - apply (commands_in e) in Hh; [|done].
    assert (name ∈ all_commands.*1 ++ all_wraps.*1) as [Hup _]%name_upper.
    { apply elem_of_app. left. by apply (list_elem_of_fmap_2 fst) in Hh. }
    unfold disp_Register in Hl. rewrite Hup in Hl.
    apply lookup_insert_Some in Hl as [[<- <-]|[_ Hl]]; [by apply pa_command|by apply IH].
  - apply (WrapHandler_in e) in Hw; [|done].
    assert (name ∈ all_commands.*1 ++ all_wraps.*1) as [Hup _]%name_upper.
    { apply elem_of_app. right. by apply (list_elem_of_fmap_2 fst) in Hw. }
    apply wrap_gated in Hw. unfold disp_Wrap in Hl. rewrite Hup in Hl.
    destruct (d !! name) as [h1|]; [|by apply IH].
    apply lookup_insert_Some in Hl as [[<- _]|[_ Hl]]; [congruence|by apply IH].
Qed.

(** *** Commands that check the state *)
Lemma in_states_refused allowed (m k : H Sess unit) h :
  conn_State (h_conn h) ∉ allowed -> same_gate h (m h).2 -> same_gate h (in_states allowed m k h).2.
Proof. intros Hn Hm. unfold in_states, mbind, st_bind, get_conn. by rewrite bool_decide_false. Qed.

(** *** Commands that do not *)
Class Stays {A} (m : H Sess A) : Prop := stays h : c_state (h_conn (m h).2) = c_state (h_conn h).

#[local] Instance stays_bind {A C} (m : H Sess A) (k : A -> H Sess C) :
  Stays m -> (forall a, Stays (k a)) -> Stays (m ≫= k).
Proof.
  intros Hm Hk h. unfold mbind, st_bind. pose proof (Hm h).
  destruct (m h) as [[a|e| |] h1]; cbn in *; [by rewrite (Hk a h1)|done..].
Qed.
#[local] Instance stays_ret {A} (a : A) : Stays (mret a).
Proof. by intros h. Qed.
#[local] Instance stays_fail {A} e : Stays (st_fail e : H Sess A).
Proof. by intros h. Qed.
#[local] Instance stays_attempt {A} (m : H Sess A) : Stays m -> Stays (attempt m).
Proof. intros Hm h. unfold attempt. pose proof (Hm h). by destruct (m h) as [[] ?]. Qed.
#[local] Instance stays_on_err {A} (m : H Sess A) f : Stays m -> Stays (on_err m f).
Proof. intros Hm h. unfold on_err. pose proof (Hm h). by destruct (m h) as [[] ?]. Qed.
#[local] Instance stays_arg {A} (m : Dec A) : Stays (arg m).
Proof. intros h. unfold arg. by destruct (m (h_args h)). Qed.
#[local] Instance stays_conn_read {A} (m : Dec A) : Stays (conn_read m).
Proof. intros h. unfold conn_read. by destruct (m _). Qed.
#[local] Instance stays_session {A} (m : St Sess A) : Stays (session m).
Proof. intros h. unfold session. by destruct (m _). Qed.
#[local] Instance stays_write fn : Stays (write fn).
Proof. by intros h. Qed.
#[local] Instance stays_write_all fns : Stays (write_all fns).
Proof.
  intros h. unfold write_all, on_conn. cbn. generalize (h_conn h) as c.
  induction fns as [|fn fns IH]; intros c; [done|]. cbn. by rewrite IH.
Qed.
#[local] Instance stays_ok ctx t : Stays (ok ctx t).
Proof. by intros h. Qed.
#[local] Instance stays_bad ctx t : Stays (bad ctx t).
Proof. by intros h. Qed.
#[local] Instance stays_no ctx t : Stays (no ctx t).
Proof. by intros h. Qed.
#[local] Instance stays_use ctx : Stays (use_decoder ctx).
Proof. intros h. unfold use_decoder. by case_if. Qed.
#[local] Instance stays_or_else {A} (m : H Sess A) f k :
  Stays m -> (forall e, Stays (f e)) -> (forall a, Stays (k a)) -> Stays (or_else m f k).
Proof. intros Hm Hf Hk. apply stays_bind; [apply _|]. by intros []. Qed.

Ltac stay :=
  repeat (cbv beta iota zeta;
          match goal with
          | |- Stays _ => typeclasses eauto
          | |- forall _, _ => intros ?
          | |- Stays (asserting ?i _ _) => destruct i; cbn [asserting]
          | |- Stays (or_else _ _ _) => apply stays_or_else
          | |- Stays (mbind _ _) => apply stays_bind
          | |- Stays (on_err _ _) => apply stays_on_err
          | |- Stays (no_failed _ _ _) => unfold no_failed
          | |- Stays (writeQuotaResponse _) => unfold writeQuotaResponse
          | |- Stays (match ?x with _ => _ end) => destruct x
          end).

#[local] Instance stays_append_ok ctx d t : Stays (append_ok ctx d t).
Proof. unfold append_ok. stay. Qed.
#[local] Instance stays_replace_args ctx : Stays (replace_args ctx).
Proof. unfold replace_args, read_set, append_flags, append_datetime. stay. Qed.

Lemma open_stays name h ctx : (name, h) ∈ all_commands -> name ∈ open_commands -> Stays (h ctx).
Proof.
  intros Hin Ho.
  assert (Forall (fun p : bytes * Handler Sess => p.1 ∉ open_commands \/ forall ctx, Stays (p.2 ctx)) all_commands) as HF.
  { clear. repeat (apply Forall_cons_2; [cbn [fst snd];
      first [ left; apply (bool_decide_unpack _); by vm_compute
            | right; intros ctx; unfold handleID, handleGetQuota, handleGetQuotaRoot, handleSetQuota, handleSetACL,
                handleDeleteACL, handleGetACL, handleListRights, handleMyRights, handleGetMetadata,
                handleSetMetadata, handleReplace; by stay ]|]).
    apply Forall_nil_2. }
  rewrite list.Forall_forall in HF. by destruct (HF _ Hin) as [H|H].
Qed.

Lemma command_gate name h ctx st :
  (name, h) ∈ all_commands -> conn_State (h_conn st) = ConnStateNotAuthenticated ->
  admits ConnStateNotAuthenticated name = true ->
  gate opts st (h ctx st).2 \/ name ∈ open_commands.
Proof.
  intros Hin Hst Ha.
  assert (Forall (fun p : bytes * Handler Sess => admits ConnStateNotAuthenticated p.1 = false \/ p.1 ∈ open_commands \/
    forall ctx st, conn_State (h_conn st) = ConnStateNotAuthenticated -> same_gate st (p.2 ctx st).2)
    all_commands) as HF.
  { clear. repeat (apply Forall_cons_2; [cbn [fst snd];
      first [ left; by vm_compute | right; left; apply (bool_decide_unpack _); by vm_compute
            | right; right; intros ctx st Hst; apply in_states_refused; [rewrite Hst; set_solver|done] ]|]).
    apply Forall_nil_2. }
  rewrite list.Forall_forall in HF. destruct (HF _ Hin) as [H|[H|H]]; [cbn in H; congruence|by right|left].
  apply gate_same; [by apply H|done].
Qed.

Lemma installed_gate d upper h ctx st :
  installed (RegisterAll (builtins opts ord)) d -> d !! upper = Some h ->
  admits ConnStateNotAuthenticated upper = true -> conn_State (h_conn st) = ConnStateNotAuthenticated ->
  gate opts st (h ctx st).2 \/
  (upper ∈ open_commands /\ conn_State (h_conn (h ctx st).2) = ConnStateNotAuthenticated).
Proof.
  intros Hi Hl Ha Hn. destruct (installed_pre_auth _ _ _ Hi Hl Ha) as [Hin Hper|Hin].
  - left. by eapply builtin_gate.
  - destruct (command_gate _ _ ctx _ Hin Hn Ha) as [H|H]; [by left|right]. split; [done|].
    unfold conn_State in *. by rewrite (open_stays _ _ ctx Hin H st).
Qed.

(** [C12] Extensions open the server only where they declare no state: on a
    connection that is not authenticated, whatever extensions are installed, a
    command leaves the session alone, or is a LOGIN the built-in rules allow, or
    is one of the twelve commands without a state check, and those leave the
    connection not authenticated. *)
Theorem extension_gate d (tag name rest : bytes) (s s' : CState Sess) (r : res unit) :
  installed (RegisterAll (builtins opts ord)) d ->
  conn_State (cs_conn s) = ConnStateNotAuthenticated ->
  dispatch d tag name rest s = (r, s') ->
  (cs_sess s' = cs_sess s /\
     conn_State (cs_conn s') ∈ [ConnStateNotAuthenticated; ConnStateLogout]) \/
  ((c_isTLS (cs_conn s) = true \/ op_AllowInsecureAuth opts = true) /\
   exists username password r1, bk_Login username password (cs_sess s) = (r1, cs_sess s') /\
     (conn_State (cs_conn s') = ConnStateNotAuthenticated \/
      (conn_State (cs_conn s') = ConnStateAuthenticated /\ r1 = Ok tt))) \/
  (exists k upper rest', uid_prefix name rest = Some (k, upper, rest') /\ upper ∈ open_commands /\
     conn_State (cs_conn s') = ConnStateNotAuthenticated).
Proof.
  intros Hi Hn [text Ht|upper h k rest' r1 h1 Hp Hl Ha Hrun [Hs Hc]%finish_conn]%dispatch_in_inv.
  { injection Ht as <- <-. left. split; [done|].
    change (conn_State (cs_conn s) ∈ [ConnStateNotAuthenticated; ConnStateLogout]). rewrite Hn. left. }
  assert (conn_State (cs_conn s') = conn_State (h_conn h1)) as -> by by destruct Hc as [->|[fn ->]].
  rewrite Hs. rewrite Hn in Ha. set (h0 := mkH rest' (cs_conn s) (cs_sess s)) in *.
  pose proof (installed_gate d upper h (mkContext tag upper k (negb (rest' =s []))) h0 Hi Hl Ha Hn) as Hg.
  rewrite Hrun in Hg. cbn [snd] in Hg.
  destruct Hg as [[? ?|u p r0 Hg Hlo Hst]|[Ho Hst]]; [by left|right; left; split; [done|]; by eauto|right; right].
  by eauto 6.
Qed.

(** ** Where extensions go wrong *)
Section Cases.
Variables (tag : bytes) (d : gmap bytes (Handler Sess)).

Lemma arg_ok {A} (m : Dec A) args a rest c (s : Sess) :
  m args = (Ok a, rest) -> arg m (mkH args c s) = (Ok a, mkH rest c s).
Proof. intros E. unfold arg. cbn [h_args]. by rewrite E. Qed.
Lemma checked_read {A} (m : Dec A) args a rest e c (s : Sess) :
  m args = (Ok a, rest) -> (arg m ?> e) (mkH args c s) = (Ok a, mkH rest c s).
Proof. intros E. unfold on_err. by rewrite (arg_ok _ _ _ _ _ _ E). Qed.
Lemma or_else_ok {A} (m : H Sess A) f k st a st' :
  m st = (Ok a, st') -> or_else m f k st = k a st'.
Proof. intros E. unfold or_else, attempt, mbind, st_bind. by rewrite E. Qed.

(** SETACL is open to anyone: in whatever state the connection is, also
    before any login, the command with its three arguments written as strings
    sets the rights in the backend and is answered with OK. *)
Theorem setacl_unchecked acl (mailbox identifier rights : bytes) (s : CState Sess) (sess' : Sess) :
  d !! ("SETACL" : bytes) = Some (handleSetACL : Handler Sess) -> as_ACL = Some acl ->
  readable mailbox -> readable identifier -> readable rights ->
  SetACL acl mailbox identifier (acl_modifier rights).1 (acl_modifier rights).2 (cs_sess s) = (Ok tt, sess') ->
  dispatch d tag "SETACL"
    (Enc.AString mailbox [] ++ " " ++ Enc.AString identifier [] ++ " " ++ Enc.AString rights []) s
  = (Ok tt, mkCS (WriteOK tag "SETACL completed" (cs_conn s)) sess').
Proof.
  intros Hd Hacl [Hm1 Hm2] [Hi1 Hi2] [Hr1 Hr2] Hset.
  rewrite (dispatch_handler d tag "SETACL" handleSetACL) by (done || by rewrite ToUpper_ascii).
  set (args := Enc.AString mailbox [] ++ _). assert (args <> []) as Hne.
  { unfold args, Enc.AString. destruct (EncString_head mailbox) as (c & t & -> & _). done. }
  rewrite bool_decide_false by done. cbn [negb]. set (ctx := mkContext _ _ _ _).
  assert (forall st : HState Sess, use_decoder ctx st = (Ok tt, st)) as Huse by done.
  unfold handleSetACL. rewrite Hacl. cbn [asserting]. rewrite (st_bind_ok _ _ _ _ _ (Huse _)).
  assert (forall x t, tilde_atom x = false -> len x <= maxAlloc ->
    ReadAString (Enc.AString x [] ++ " " ++ t) = (Ok x, " " ++ t)) as Hread by (intros; by apply string_read).
  assert (forall x, tilde_atom x = false -> len x <= maxAlloc -> ReadAString (Enc.AString x []) = (Ok x, [])) as Hlast.
  { intros x H1 H2. rewrite <- (app_nil_r (Enc.AString x [])) at 1. by apply string_read. }
  assert (forall t, ReadSP (" " ++ t) = (Ok tt, t)) as Hsp by done.
  unfold args. rewrite (or_else_ok _ _ _ _ _ _ (arg_ok _ _ _ _ _ _ (Hread mailbox _ Hm1 Hm2))),
    (or_else_ok _ _ _ _ _ _ (arg_ok _ _ _ _ _ _ (Hsp _))),
    (or_else_ok _ _ _ _ _ _ (arg_ok _ _ _ _ _ _ (Hread identifier _ Hi1 Hi2))),
    (or_else_ok _ _ _ _ _ _ (arg_ok _ _ _ _ _ _ (Hsp _))),
    (or_else_ok _ _ _ _ _ _ (arg_ok _ _ _ _ _ _ (Hlast rights Hr1 Hr2))).
  destruct (acl_modifier rights) as [modifier plain]. cbn [fst snd] in Hset.
  unfold or_else, attempt, session, mbind, st_bind. cbn [h_sess]. by rewrite Hset.
Qed.

(** UNAUTHENTICATE with a mailbox selected: the backend has forgotten the
    user, but the connection may not go back from there, so the answer is NO and
    the connection stays selected. *)
Theorem unauthenticate_selected (m : St Sess unit) (s : CState Sess) (sess' : Sess) :
  d !! ("UNAUTHENTICATE" : bytes) = Some (handleUnauthenticate : Handler Sess) -> as_Unauthenticate = Some m ->
  transitions (c_state (cs_conn s)) = Some DefaultTransitions -> conn_State (cs_conn s) = ConnStateSelected ->
  m (cs_sess s) = (Ok tt, sess') ->
  exists text, dispatch d tag "UNAUTHENTICATE" [] s = (Ok tt, mkCS (WriteNO tag text (cs_conn s)) sess').
Proof.
  intros Hd Hm Ht Hst Hrun.
  rewrite (dispatch_handler d tag "UNAUTHENTICATE" handleUnauthenticate) by (done || by rewrite ToUpper_ascii).
  set (ctx := mkContext _ _ _ _). assert (forall st : HState Sess, get_conn st = (Ok (h_conn st), st)) as Hget by done.
  unfold handleUnauthenticate, in_states. rewrite (st_bind_ok _ _ _ _ _ (Hget _)). cbn [h_conn].
  rewrite bool_decide_true by (rewrite Hst; set_solver). rewrite Hm. cbn [asserting].
  rewrite (or_else_ok _ _ _ _ tt (mkH [] (cs_conn s) sess')) by (unfold session; cbn; by rewrite Hrun).
  unfold or_else, SetState, attempt, mbind, st_bind. cbn [h_conn]. unfold Transition, canTransition.
  rewrite Ht. unfold conn_State, State in Hst. rewrite Hst. cbn. by eexists.
Qed.

Lemma numset_read name set ss rest c (s : Sess) :
  set <> [] -> forallb isAtomChar set = true -> ParseSeqSet set = Ok ss -> stops isAtomChar rest ->
  read_numset (mkContext tag name NumKindSeq true) (mkH (set ++ rest) c s) = (Ok (NumSeq ss), mkH rest c s).
Proof.
  intros Hne Ha Hset Hr. unfold read_numset.
  rewrite (st_bind_ok _ _ _ _ _ (checked_read _ _ _ _ _ _ _ (ReadAtom_app set rest Hne Ha Hr))). cbn [x_NumKind].
  assert (lift_res (ParseSeqSet set) rest = (Ok ss, rest)) as E by (unfold lift_res; by rewrite Hset).
  by rewrite (st_bind_ok _ _ _ _ _ (checked_read _ _ _ _ _ _ _ E)).
Qed.
Lemma unchanged_since_read n rest c (s : Sess) :
  0 <= n < 2 ^ 64 ->
  unchanged_since (mkH (" (UNCHANGEDSINCE " ++ FormatUint n ++ ") " ++ rest) c s) = (Ok (mkStoreOptions n), mkH rest c s).
Proof.
  intros Hn. unfold unchanged_since.
  assert (ReadNumber64 (FormatUint n ++ ") " ++ rest) = (Ok n, ") " ++ rest)) as E by by apply number_read.
  assert (ReadAtom ("UNCHANGEDSINCE" ++ " " ++ FormatUint n ++ ") " ++ rest)
    = (Ok ("UNCHANGEDSINCE" : bytes), " " ++ FormatUint n ++ ") " ++ rest)) as Ea by by apply ReadAtom_app.
  rewrite (st_bind_ok _ _ _ (mkH ("(UNCHANGEDSINCE " ++ FormatUint n ++ ") " ++ rest) c s) tt) by done.
  rewrite (st_bind_ok _ _ _ (mkH ("(UNCHANGEDSINCE " ++ FormatUint n ++ ") " ++ rest) c s) "("%char) by done.
  change ("("%char =c "(") with true. cbv iota.
  rewrite (st_bind_ok _ _ _ (mkH ("UNCHANGEDSINCE" ++ " " ++ FormatUint n ++ ") " ++ rest) c s) tt) by done.
  rewrite (st_bind_ok _ _ _ _ _ (checked_read _ _ _ _ _ _ _ Ea)). rewrite EqualFold_refl. cbn [negb].
  rewrite (st_bind_ok _ _ _ (mkH (FormatUint n ++ ") " ++ rest) c s) tt) by done.
  by rewrite (st_bind_ok _ _ _ _ _ (checked_read _ _ _ _ _ _ _ E)).
Qed.
Lemma one_flag_read flag c (s : Sess) :
  flag <> [] -> forallb isAtomChar flag = true ->
  store_flags (mkH ("+FLAGS (" ++ flag ++ ")") c s) = (Ok (mkStoreFlags StoreFlagsAdd false [flag]), mkH [] c s).
Proof.
  intros Hne Ha. unfold store_flags.
  assert (ReadAtom ("+FLAGS" ++ " (" ++ flag ++ ")") = (Ok ("+FLAGS" : bytes), " (" ++ flag ++ ")")) as Ea by by apply ReadAtom_app.
  rewrite (st_bind_ok _ _ _ _ _ (checked_read _ _ _ _ _ _ _ Ea)). cbv zeta. rewrite ToUpper_ascii by done.
  change (store_action _) with (Some StoreFlagsAdd). cbv iota.
  assert (ReadFlags ("(" ++ flag ++ ")") = (Ok [flag], [])) as Ef.
  { destruct flag as [|x flag]; [done|]. unfold ReadFlags, ReadList.
    rewrite (st_bind_ok _ _ _ ((x :: flag) ++ ")") tt) by done.
    rewrite (st_bind_ok _ _ _ ((x :: flag) ++ ")") ((x :: flag) ++ ")")) by done.
    replace (length ((x :: flag) ++ ")") + 2)%nat with (S (S (length flag + 2))) 
      by (rewrite length_app; change (length (bytes_of ")")) with 1%nat; cbn [length]; lia).
    cbn [list_loop]. rewrite (st_bind_ok _ _ _ ((x :: flag) ++ ")") x) by done.
    assert ((x =c ")") = false) as ->.
    { apply beqb_false. intros ->. by vm_compute in Ha. }
    rewrite (st_bind_ok _ _ _ ((x :: flag) ++ ")") tt) by done.
    by rewrite (st_bind_ok _ _ _ _ _ (ReadAtom_app (x :: flag) ")" Hne Ha eq_refl)). }
  rewrite (st_bind_ok _ _ _ (mkH ("(" ++ flag ++ ")") c s) tt) by done.
  by rewrite (st_bind_ok _ _ _ _ _ (checked_read _ _ _ _ _ _ _ Ef)).
Qed.

(** [C24] CONDSTORE can leave a command without its tagged reply: a STORE with
    UNCHANGEDSINCE on a session without the conditional interface is carried out
    as a plain one, and all the client receives are the untagged responses of the
    backend. *)
Theorem condstore_unanswered (set : bytes) (ss : SeqSet) (n : Z) (flag : bytes) (s : CState Sess) (sess' : Sess) ws :
  d !! ("STORE" : bytes) = Some (handleCondstoreStore : Handler Sess) -> as_CondStore = None ->
  conn_State (cs_conn s) = ConnStateSelected ->
  set <> [] -> forallb isAtomChar set = true -> ParseSeqSet set = Ok ss -> 0 < n < 2 ^ 64 ->
  flag <> [] -> forallb isAtomChar flag = true ->
  bk_Store (NumSeq ss) (mkStoreFlags StoreFlagsAdd false [flag]) (mkStoreOptions n) (cs_sess s) = ((Ok tt, sess'), ws) ->
  dispatch d tag "STORE" (set ++ " (UNCHANGEDSINCE " ++ FormatUint n ++ ") +FLAGS (" ++ flag ++ ")") s
  = (Ok tt, mkCS (foldl (fun c fn => Encode fn c) (cs_conn s) (concat (fetch_writes <$> ws))) sess').
Proof.
  intros Hd Hc Hst Hne Ha Hset Hn Hfne Hfa Hrun.
  rewrite (dispatch_handler d tag "STORE" handleCondstoreStore) by (done || (by rewrite ToUpper_ascii) || by rewrite Hst).
  set (args := set ++ _). assert (args <> []) as Hane by (unfold args; by destruct set).
  rewrite bool_decide_false by done. cbn [negb].
  set (rest := " (UNCHANGEDSINCE " ++ FormatUint n ++ ") " ++ "+FLAGS (" ++ flag ++ ")"). change args with (set ++ rest).
  assert (forall text (st : HState Sess), need_args (mkContext tag "STORE" NumKindSeq true) text st = (Ok tt, st)) as Hneed by done.
  unfold handleCondstoreStore. rewrite (st_bind_ok _ _ _ _ _ (Hneed _ _)).
  rewrite (st_bind_ok _ _ _ _ _ (numset_read "STORE" set ss rest _ _ Hne Ha Hset eq_refl)).
  unfold rest. rewrite (st_bind_ok _ _ _ _ _ (unchanged_since_read n _ _ _ ltac:(lia))).
  rewrite (st_bind_ok _ _ _ _ _ (one_flag_read flag _ _ Hfne Hfa)). cbn [UnchangedSince].
  rewrite (proj2 (Z.ltb_lt _ _)) by lia. rewrite Hc. unfold session_writing. cbn [h_sess]. by rewrite Hrun.
Qed.
End Cases.
End ExtGate.
