(* ===== verification/ExtWitness.v ===== *)
(** * Extended servers on concrete sessions

    The session of the in-memory server has none of the optional interfaces;
    a session with some of them serves the theorems that need them. *)

From S2P Require Import Prelude Utf8 GoStrings GoTime NumSet Imap Decoder Encoder Wire Writers ConnState Registry.
From S2P Require Import MemStore MemSession MemWorld Conn Commands Dispatch Replies Gate MemServer ClientWitness.
From S2P Require Import ExtBase ExtCommands ExtSearch ExtMessages Extensions ExtReplies ExtGate.

#[local] Existing Instance demo_backend.
#[local] Existing Instance basic_unicode.

(** [memserver.Session] has the methods of [server.Session] and no others. *)
Definition memory_extended : Extended Mem :=
  {| as_Move := None; as_Namespace := None; as_ID := None; as_Sort := None; as_Thread := None;
     as_Unauthenticate := None; as_Compress := None; as_Language := None; as_Convert := None; as_Replace := None;
     as_Quota := None; as_ACL := None; as_Metadata := None; as_Filters := None; as_Notify := None;
     as_URLAuth := None; as_UIDPlus := None; as_SpecialUse := None; as_ESearch := None; as_SearchRes := None;
     as_SearchFuzzy := None; as_Context := None; as_Partial := None; as_MultiSearch := None; as_ESort := None;
     as_CondStore := None; as_QResync := None; as_UIDOnly := None; as_UTF8Accept := None; as_Binary := None;
     as_MultiAppend := None; as_Catenate := None; as_ListExtended := None |}.

(** A session that accepts every change of rights, with conditional stores and a
    way to log out that closes the mailbox. *)
Definition demo_acl : SessionACL Mem :=
  mkSessionACL _ (fun _ _ _ _ => mret tt) (fun _ _ => mret tt)
    (fun m => mret (mkACLData m [])) (fun m i => mret (mkListRights m i [] [])) (fun m => mret (mkMyRights m [])).
Definition demo_extended : Extended Mem :=
  {| as_Move := None; as_Namespace := None; as_ID := None; as_Sort := None; as_Thread := None;
     as_Unauthenticate := Some bk_Unselect; as_Compress := None; as_Language := None; as_Convert := None;
     as_Replace := None; as_Quota := None; as_ACL := Some demo_acl; as_Metadata := None; as_Filters := None;
     as_Notify := None; as_URLAuth := None; as_UIDPlus := None; as_SpecialUse := None; as_ESearch := None;
     as_SearchRes := None; as_SearchFuzzy := None; as_Context := None; as_Partial := None; as_MultiSearch := None;
     as_ESort := None; as_CondStore := Some bk_Store; as_QResync := None; as_UIDOnly := None;
     as_UTF8Accept := None; as_Binary := None; as_MultiAppend := None; as_Catenate := None; as_ListExtended := None |}.

(** The in-memory server with CONDSTORE; the other one with that, ACL and
    UNAUTHENTICATE. *)
Definition condstore_table : gmap bytes (Handler Mem) :=
  disp_Wrap "STORE" (fun _ => handleCondstoreStore (X := memory_extended)) demo_table.
Definition extended_table : gmap bytes (Handler Mem) :=
  disp_Register "UNAUTHENTICATE" (handleUnauthenticate (X := demo_extended))
  (disp_Register "SETACL" (handleSetACL (X := demo_extended))
  (disp_Wrap "STORE" (fun _ => handleCondstoreStore (X := demo_extended)) demo_table)).

Lemma extended_installed : installed (X := demo_extended) demo_table extended_table.
Proof.
  apply (inst_command _ (ext_unauthenticate (X := demo_extended))); [apply list_elem_of_In; cbn; tauto|left|].
  apply (inst_command _ (ext_acl (X := demo_extended))); [left|left|].
  apply (inst_wrap _ (ext_condstore (X := demo_extended))); [apply list_elem_of_In; cbn; tauto|done|].
  apply inst_start.
Qed.

Lemma extension_one_reply_witness :
  let s' := (dispatch extended_table "a1" "SETACL" "INBOX bob lrs" demo_client).2 in
  exists n, n = 1%nat /\ answered "a1" n (cs_conn demo_client) (cs_conn s') (Ok tt).
Proof.
  intros s'. pose proof (extension_one_reply (X := demo_extended) demo_options demo_ord extended_table "a1" "SETACL"
    "INBOX bob lrs" demo_client s' (Ok tt)) as H.
  eexists. split; [|apply H; [by split|apply extended_installed|apply outcome; by vm_compute]]. by vm_compute.
Defined.

Lemma extension_gate_witness :
  let s' := (dispatch extended_table "a1" "SETACL" "INBOX bob lrs" demo_client).2 in
  conn_State (cs_conn s') <> ConnStateSelected.
Proof.
  intros s' Hsel. assert ((dispatch extended_table "a1" "SETACL" "INBOX bob lrs" demo_client).1 = Ok tt) as Ho by by vm_compute.
  destruct (extension_gate (X := demo_extended) demo_options demo_ord extended_table "a1" "SETACL" "INBOX bob lrs"
    demo_client s' (Ok tt) extended_installed eq_refl (outcome _ _ Ho))
    as [[_ H]|[(_ & u & p & r1 & _ & [H|[H _]])|(k & upper & rest' & _ & _ & H)]]; rewrite Hsel in H;
    [|discriminate H..]. apply (bool_decide_eq_true_2 (_ ∈ _)) in H. discriminate H.
Defined.

Lemma setacl_unchecked_witness :
  dispatch extended_table "a1" "SETACL" "INBOX bob lrs" demo_client
  = (Ok tt, mkCS (WriteOK "a1" "SETACL completed" (cs_conn demo_client)) (cs_sess demo_client)).
Proof.
  apply (setacl_unchecked (X := demo_extended) "a1" extended_table demo_acl "INBOX" "bob" "lrs" demo_client); [done|done|..].
  all: try (by split; vm_compute).
Defined.

Lemma unauthenticate_selected_witness :
  exists text, dispatch extended_table "a1" "UNAUTHENTICATE" [] demo_selected
  = (Ok tt, mkCS (WriteNO "a1" text (cs_conn demo_selected)) (bk_Unselect (cs_sess demo_selected)).2).
Proof.
  apply (unauthenticate_selected (X := demo_extended) "a1" extended_table bk_Unselect demo_selected
    (bk_Unselect (cs_sess demo_selected)).2); [reflexivity|reflexivity|by vm_compute|by vm_compute|].
  apply outcome. by vm_compute.
Defined.

Lemma outcome_writing {A C D} (p : (A * C) * D) a : p.1.1 = a -> p = ((a, p.1.2), p.2).
Proof. destruct p as [[]]. simpl. by intros ->. Qed.
Definition demo_set : SeqSet := mkSeqSet [mkRange 1 1].
Definition demo_store := bk_Store (NumSeq demo_set) (mkStoreFlags StoreFlagsAdd false ["Junk" : bytes]) (mkStoreOptions 5).
Lemma condstore_unanswered_witness :
  exists ws, dispatch condstore_table "a1" "STORE" "1 (UNCHANGEDSINCE 5) +FLAGS (Junk)" demo_selected
  = (Ok tt, mkCS (foldl (fun c fn => Encode fn c) (cs_conn demo_selected) (concat (fetch_writes <$> ws)))
                 (demo_store (cs_sess demo_selected)).1.2).
Proof.
  exists (demo_store (cs_sess demo_selected)).2.
  apply (condstore_unanswered (X := memory_extended) "a1" condstore_table "1" demo_set 5 "Junk" demo_selected
    (demo_store (cs_sess demo_selected)).1.2); [reflexivity|reflexivity|by vm_compute|done|by vm_compute..| |done|by vm_compute|].
  - lia.
  - apply outcome_writing. by vm_compute.
Defined.

Lemma catalogue_resolves_witness :
  exists sorted, Resolve demo_ord (foldl apply_op NewRegistry (OpRegister <$> bases (X := memory_extended))) = Ok sorted.
Proof.
  apply (catalogue_resolves (X := memory_extended) bases demo_ord); [|done|apply bases_closed].
  intros n l. by vm_compute.
Defined.
