(* ===== verification/GoFloat.v ===== *)
(** * Floating point and durations

    The part of float64 and of package time that the rate limiter computes
    with, and that the arithmetic on whole numbers is exact. *)

From Stdlib Require Import Floats.SpecFloat.
From S2P Require Import Prelude.

(** ** float64 and durations

    IEEE 754 double precision, rounded to nearest even.  A compiler may fuse
    [x*y + z] on some architectures; the model rounds each operation. *)
Abbreviation float64 := spec_float.
Definition to_float (z : Z) : float64 := binary_normalize 53 1024 z 0 false.
Definition fadd : float64 -> float64 -> float64 := SFadd 53 1024.
Definition fsub : float64 -> float64 -> float64 := SFsub 53 1024.
Definition fmul : float64 -> float64 -> float64 := SFmul 53 1024.
Definition fdiv : float64 -> float64 -> float64 := SFdiv 53 1024.

(** [time.Time.Sub] on readings of the monotonic clock, in nanoseconds: the
    difference, at the ends of the range of a Duration where it is outside. *)
Definition time_Sub (t u : Z) : Z := Z.max (- 2 ^ 63) (Z.min (2 ^ 63 - 1) (t - u)).
(** [time.Duration.Seconds] *)
Definition Seconds (d : Z) : float64 :=
  fadd (to_float (Z.quot d (10 ^ 9))) (fdiv (to_float (Z.rem d (10 ^ 9))) (to_float (10 ^ 9))).

(** ** Whole numbers are exact *)

(** The float of a whole number [0 < q < 2^53]: its digits, left aligned. *)
Definition whole (q : Z) : float64 :=
  S754_finite false (Z.to_pos (q * 2 ^ (52 - Z.log2 q))) (Z.log2 q - 52).

Lemma digits_log2 p : Zpos (digits2_pos p) = Z.log2 (Zpos p) + 1.
Proof.
  induction p as [p IH|p IH|]; simpl digits2_pos; [| |done]; rewrite Pos2Z.inj_succ, IH.
  - rewrite (Pos2Z.inj_xI p), Z.log2_succ_double by done. lia.
  - rewrite (Pos2Z.inj_xO p), Z.log2_double by done. lia.
Qed.

Lemma log2_scale q j : 0 < q -> 0 <= j -> Z.log2 (q * 2 ^ j) = Z.log2 q + j.
Proof. intros. rewrite Z.log2_mul_pow2 by lia. lia. Qed.

Lemma iter_pos_nat {A} (f : A -> A) n x : SpecFloat.iter_pos f n x = Nat.iter (Pos.to_nat n) f x.
Proof.
  revert x. induction n as [n IH|n IH|]; intros x; simpl SpecFloat.iter_pos; [| |done]; rewrite !IH, <- Nat.iter_add.
  - rewrite <- Nat.iter_succ_r, Pos2Nat.inj_xI. by replace (S (2 * Pos.to_nat n)) with (S (Pos.to_nat n + Pos.to_nat n)) by lia.
  - rewrite Pos2Nat.inj_xO. by replace (2 * Pos.to_nat n)%nat with (Pos.to_nat n + Pos.to_nat n)%nat by lia.
Qed.

Lemma shift_right n m :
  0 < m -> Nat.iter n shr_1 (Build_shr_record (m * 2 ^ Z.of_nat n) false false) = Build_shr_record m false false.
Proof.
  intros Hm. induction n as [|n IH]; [by rewrite Z.mul_1_r|].
  rewrite Nat.iter_succ_r, <- IH. f_equal.
  replace (m * 2 ^ Z.of_nat (S n)) with (2 * (m * 2 ^ Z.of_nat n))
    by (rewrite Nat2Z.inj_succ, Z.pow_succ_r by lia; ring).
  destruct (m * 2 ^ Z.of_nat n) as [|p|p] eqn:E; [done|done|].
  assert (0 < m * 2 ^ Z.of_nat n) by (apply Z.mul_pos_pos; [done|lia]). lia.
Qed.

Lemma shift_left p d : Zpos (Pos.iter xO p d) = Zpos p * 2 ^ Zpos d.
Proof.
  rewrite Pos2Nat.inj_iter, <- (positive_nat_Z d). induction (Pos.to_nat d) as [|n IH]; [by rewrite Z.mul_1_r|].
  simpl nat_rect. rewrite Pos2Z.inj_xO, IH, Nat2Z.inj_succ, Z.pow_succ_r by lia. ring.
Qed.

Lemma shr_none m e n : n <= 0 -> shr m e n = (m, e).
Proof. by destruct n. Qed.

Lemma fexp_normal e : - 1021 <= e -> fexp 53 1024 e = e - 53.
Proof. unfold fexp, emin. lia. Qed.

(** Rounding a number that has at most 53 significant digits. *)
Lemma round_exact p q j e :
  Zpos p = q * 2 ^ j -> 0 < q < 2 ^ 53 -> 0 <= j <= 52 -> - 52 <= e <= 0 ->
  binary_round 53 1024 false p e
  = S754_finite false (Z.to_pos (q * 2 ^ (52 - Z.log2 q))) (Z.log2 q + j + e - 52).
Proof.
  intros Hp Hq Hj He. set (l := Z.log2 q).
  assert (Hl : 0 <= l <= 52) by (split; [apply Z.log2_nonneg|]; apply Z.lt_succ_r, Z.log2_lt_pow2; lia).
  set (m := q * 2 ^ (52 - l)). assert (Hm : 0 < m) by (apply Z.mul_pos_pos; lia).
  assert (Hdp : Zpos (digits2_pos p) = l + j + 1) by (rewrite digits_log2, Hp, log2_scale; lia).
  assert (Hdm : Zpos (digits2_pos (Z.to_pos m)) = 53)
    by (rewrite digits_log2, Z2Pos.id by done; unfold m; rewrite log2_scale; lia).
  (* once aligned, rounding changes nothing *)
  assert (Haux : forall e', - 104 <= e' <= 52 ->
    shr_fexp 53 1024 m e' loc_Exact = (Build_shr_record m false false, e')).
  { intros e' He'. unfold shr_fexp. rewrite shr_none; [done|].
    replace (Zdigits2 m) with 53 by (rewrite <- Hdm; destruct m; [lia|done|lia]).
    rewrite fexp_normal; lia. }
  assert (Hfin : forall M E e', - 104 <= e' <= 52 ->
    shr_fexp 53 1024 M E loc_Exact = (Build_shr_record m false false, e') ->
    binary_round_aux 53 1024 false M E loc_Exact = S754_finite false (Z.to_pos m) e').
  { intros M E e' He' HM. unfold binary_round_aux. rewrite HM. cbn [shr_m loc_of_shr_record round_nearest_even].
    rewrite Haux by done. cbn [shr_m]. destruct m as [|m'|m'] eqn:Em; [done| |done].
    by rewrite (proj2 (Z.leb_le _ _)) by lia. }
  unfold binary_round. rewrite Hdp, fexp_normal by lia. unfold shl_align.
  replace (l + j + 1 + e - 53 - e) with (l + j - 52) by lia.
  destruct (l + j - 52) as [|n|n] eqn:En.
  - replace (Zpos p) with m by (rewrite Hp; unfold m; f_equal; f_equal; lia).
    rewrite (Hfin m e (l + j + e - 52)) by first [lia|replace (l + j + e - 52) with e by lia; apply Haux; lia].
    done.
  - apply Hfin; [lia|]. unfold shr_fexp. simpl Zdigits2. rewrite Hdp, fexp_normal by lia.
    replace (l + j + 1 + e - 53 - e) with (Zpos n) by lia. unfold shr. rewrite iter_pos_nat.
    replace (Zpos p) with (m * 2 ^ Z.of_nat (Pos.to_nat n))
      by (rewrite Hp, positive_nat_Z; unfold m; rewrite <- Z.mul_assoc, <- Z.pow_add_r by lia; f_equal; f_equal; lia).
    simpl shr_record_of_loc. rewrite shift_right by done. f_equal. lia.
  - rewrite shift_left. replace (Zpos p * 2 ^ Zpos n) with m
      by (rewrite Hp; unfold m; rewrite <- Z.mul_assoc, <- Z.pow_add_r by lia; f_equal; f_equal; lia).
    rewrite (Hfin m _ (l + j + e - 52)); [done|lia|].
    replace (l + j + 1 + e - 53) with (l + j + e - 52) by lia. apply Haux. lia.
Qed.

Lemma to_float_whole q : 0 < q < 2 ^ 53 -> to_float q = whole q.
Proof.
  intros Hq. unfold to_float, whole. destruct q as [|p|p]; [lia| |lia]. simpl binary_normalize.
  rewrite (round_exact p (Zpos p) 0 0) by lia. f_equal. lia.
Qed.

Lemma align_whole q : 0 < q < 2 ^ 53 ->
  Zpos (shl_align (Z.to_pos (q * 2 ^ (52 - Z.log2 q))) (Z.log2 q - 52) (- 52)).1 = q * 2 ^ 52.
Proof.
  intros Hq. assert (Hl : 0 <= Z.log2 q <= 52)
    by (split; [apply Z.log2_nonneg|]; apply Z.lt_succ_r, Z.log2_lt_pow2; lia).
  assert (Hm : 0 < q * 2 ^ (52 - Z.log2 q)) by (apply Z.mul_pos_pos; lia).
  unfold shl_align. replace (- 52 - (Z.log2 q - 52)) with (- Z.log2 q) by lia.
  destruct (Z.log2 q) as [|n|n] eqn:En.
  - change (- 0) with 0. cbn [fst]. by rewrite Z2Pos.id.
  - change (- Zpos n) with (Zneg n). cbn [fst]. rewrite shift_left, Z2Pos.id by done. rewrite <- Z.mul_assoc, <- Z.pow_add_r by lia. f_equal. f_equal. lia.
  - lia.
Qed.

(** Subtracting one is exact, and so is comparing. *)
Lemma fsub_one q : 0 < q < 2 ^ 53 -> fsub (to_float q) (to_float 1) = to_float (q - 1).
Proof.
  intros Hq. rewrite !(to_float_whole q) by done. rewrite (to_float_whole 1) by lia.
  unfold fsub, SFsub, whole.
  assert (Hl : 0 <= Z.log2 q) by apply Z.log2_nonneg.
  replace (Z.min (Z.log2 q - 52) (Z.log2 1 - 52)) with (- 52) by (change (Z.log2 1) with 0; lia).
  unfold cond_Zopp. rewrite !align_whole by lia.
  replace (q * 2 ^ 52 - 1 * 2 ^ 52) with ((q - 1) * 2 ^ 52) by lia.
  destruct (decide (q = 1)) as [->|Hq1]; [done|].
  destruct ((q - 1) * 2 ^ 52) as [|p|p] eqn:Ep; [lia| |lia]. simpl binary_normalize.
  rewrite (round_exact p (q - 1) 52 (- 52)) by lia. rewrite to_float_whole by lia. unfold whole. f_equal. lia.
Qed.

Lemma whole_compare a b : 0 < a <= b -> b < 2 ^ 53 -> SFltb (to_float b) (to_float a) = false.
Proof.
  intros Ha Hb. rewrite !to_float_whole by lia. unfold SFltb, SFcompare, whole.
  assert (Hl : Z.log2 a <= Z.log2 b) by (apply Z.log2_le_mono; lia).
  destruct (Z.compare_spec (Z.log2 b - 52) (Z.log2 a - 52)) as [E|E|E]; [|lia|done].
  replace (Z.log2 b) with (Z.log2 a) by lia.
  assert (Hm : 0 < 2 ^ (52 - Z.log2 a)) by (apply Z.pow_pos_nonneg; [lia|]; pose proof (Z.log2_lt_pow2 b 53); lia).
  change (Pos.compare_cont Eq) with Pos.compare.
  destruct (Pos.compare_spec (Z.to_pos (b * 2 ^ (52 - Z.log2 a))) (Z.to_pos (a * 2 ^ (52 - Z.log2 a)))) as [H|H|H];
    [done| |done].
  exfalso. apply Pos2Z.pos_lt_pos in H. rewrite !Z2Pos.id in H by nia. nia.
Qed.

(** No time has passed: nothing is added. *)
Lemma fadd_zero q sgn m e : 0 <= q < 2 ^ 53 ->
  fadd (to_float q) (fmul (Seconds 0) (S754_finite sgn m e)) = to_float q.
Proof.
  intros Hq. change (Seconds 0) with (S754_zero false).
  destruct (decide (q = 0)) as [->|Hq0]; [by destruct sgn|].
  rewrite to_float_whole by lia. done.
Qed.
