(* ===== verification/Middleware.v ===== *)
(** * Middleware (middleware/)

    What wraps a command handler: logging, metrics, rate limiting and panic
    recovery (timeouts are in Timeout), how they are chained and how they are
    put around every handler of a server.

    A middleware keeps state of its own, outside the connection and the
    session: the log, the counters, the rate limiters.  The handlers it wraps
    run on [Sess * Mid]; a handler that knows nothing of it is lifted. *)

From Stdlib Require Import Floats.SpecFloat.
From S2P Require Import Prelude GoFloat Utf8 GoStrings Imap Encoder Writers ConnState Conn Commands Dispatch.

(** ** The state of the middlewares *)
Inductive LogEntry :=
  | LogStart (tag command : bytes) (state : ConnState)
  | LogError (tag command : bytes) (duration : Z) (err : error)
  | LogDone (tag command : bytes) (duration : Z)
  | LogPanic (command : bytes).

Record Metrics := mkMetrics {
  CommandsTotal : Z;
  CommandErrors : Z;
  ActiveCommands : Z;
  commandCounts : gmap bytes Z;
  commandDuration : gmap bytes Z;
}.
Definition NewMetrics : Metrics := mkMetrics 0 0 0 ∅ ∅.
Definition CommandCount (m : Metrics) (name : bytes) : Z := default 0 (commandCounts m !! name).
Definition CommandDuration (m : Metrics) (name : bytes) : Z := default 0 (commandDuration m !! name).
(** [getCounter(name).Add(n)], [getDuration(name).Add(n)]: an absent counter
    starts at zero. *)
Definition counter_Add (name : bytes) (n : Z) (m : gmap bytes Z) : gmap bytes Z :=
  <[name := i64 (default 0 (m !! name) + n)]> m.

Record RateLimitConfig := mkRateLimitConfig { MaxCommandsPerSecond : float64; BurstSize : Z }.
Record limiterState := mkLimiter { lm_tokens : float64; lm_lastCheck : Z }.

(** [md_ticks] counts the readings of the clock.  A [Metrics] and the limiters
    of a [RateLimit] are known by the number of the object. *)
Record Mid := mkMid {
  md_ticks : nat;
  md_log : list LogEntry;
  md_metrics : nat -> Metrics;
  md_limiters : nat -> gmap bytes limiterState;
}.
Definition at_object {A} (p : nat) (f : A -> A) (heap : nat -> A) : nat -> A :=
  fun q => if (q =? p)%nat then f (heap q) else heap q.

Section Middleware.
Context {U : Unicode} {Sess : Type}.
(** The readings of the monotonic clock, and the address of the client. *)
Context (clock : nat -> Z) (remote : bytes).

Abbreviation World := (Sess * Mid)%type.
Definition Middleware := Handler World -> Handler World.

(** ** Running on the wider state *)
Definition inner (h : HState World) : HState Sess := mkH (h_args h) (h_conn h) (h_sess h).1.
Definition outer (h : HState Sess) (m : Mid) : HState World :=
  mkH (h_args h) (h_conn h) (h_sess h, m).
Definition lift (handler : Handler Sess) : Handler World := fun ctx h =>
  let '(r, h') := handler ctx (inner h) in (r, outer h' (h_sess h).2).
Definition mid {A} (f : Mid -> A * Mid) : H World A := fun h =>
  let '(a, m) := f (h_sess h).2 in (Ok a, outer (inner h) m).

Definition time_Now : H World Z := mid (fun m =>
  (clock (md_ticks m), mkMid (S (md_ticks m)) (md_log m) (md_metrics m) (md_limiters m))).
Definition logger (e : LogEntry) : H World unit := mid (fun m =>
  (tt, mkMid (md_ticks m) (md_log m ++ [e]) (md_metrics m) (md_limiters m))).
Definition on_metrics (p : nat) (f : Metrics -> Metrics) : H World unit := mid (fun m =>
  (tt, mkMid (md_ticks m) (md_log m) (at_object p f (md_metrics m)) (md_limiters m))).
Definition on_limiters (p : nat) (f : gmap bytes limiterState -> gmap bytes limiterState)
    : H World unit := mid (fun m =>
  (tt, mkMid (md_ticks m) (md_log m) (md_metrics m) (at_object p f (md_limiters m)))).

(** ** Composition *)
Definition Chain (middlewares : list Middleware) : Middleware := fun next =>
  foldr (fun mw next => mw next) next middlewares.

Definition Apply (order : list bytes -> list bytes) (mw : Middleware)
    (srv : gmap bytes (Handler World)) : gmap bytes (Handler World) :=
  foldl (fun srv name => disp_Wrap name mw srv) srv (disp_Names order srv).
Definition ApplyChain (order : list bytes -> list bytes) (middlewares : list Middleware)
    (srv : gmap bytes (Handler World)) : gmap bytes (Handler World) :=
  Apply order (Chain middlewares) srv.

(** ** The middlewares *)
Definition Logging : Middleware := fun next ctx =>
  start ← time_Now;
  c ← get_conn;
  _ ← logger (LogStart (x_Tag ctx) (x_Name ctx) (conn_State c));
  r ← attempt (next ctx);
  now ← time_Now;
  let duration := time_Sub now start in
  match r with
  | inl err => _ ← logger (LogError (x_Tag ctx) (x_Name ctx) duration err); st_fail err
  | inr _ => logger (LogDone (x_Tag ctx) (x_Name ctx) duration)
  end.

Definition count_start (name : bytes) (m : Metrics) : Metrics :=
  mkMetrics (i64 (CommandsTotal m + 1)) (CommandErrors m) (i64 (ActiveCommands m + 1))
    (counter_Add name 1 (commandCounts m)) (commandDuration m).
Definition count_end (name : bytes) (duration : Z) (failed : bool) (m : Metrics) : Metrics :=
  mkMetrics (CommandsTotal m) (if failed then i64 (CommandErrors m + 1) else CommandErrors m)
    (i64 (ActiveCommands m - 1)) (commandCounts m) (counter_Add name duration (commandDuration m)).
Definition MetricsMiddleware (metrics : nat) : Middleware := fun next ctx =>
  _ ← on_metrics metrics (count_start (x_Name ctx));
  start ← time_Now;
  r ← attempt (next ctx);
  now ← time_Now;
  let duration := time_Sub now start in
  match r with
  | inl err => _ ← on_metrics metrics (count_end (x_Name ctx) duration true); st_fail err
  | inr _ => on_metrics metrics (count_end (x_Name ctx) duration false)
  end.

Definition Recovery : Middleware := fun next ctx h =>
  match next ctx h with
  | (Panic, h') => (_ ← logger (LogPanic (x_Name ctx)); st_fail (ErrNo "internal server error")) h'
  | r => r
  end.

Definition rate_defaults (config : RateLimitConfig) : RateLimitConfig :=
  mkRateLimitConfig
    (if SFleb (MaxCommandsPerSecond config) (to_float 0) then to_float 100
     else MaxCommandsPerSecond config)
    (if BurstSize config <=? 0 then 10 else BurstSize config).

(** The limiter at time [now], refilled: whether a token is left, and the
    limiter without it. *)
Definition take_token (config : RateLimitConfig) (now : Z) (state : limiterState)
    : bool * limiterState :=
  let elapsed := Seconds (time_Sub now (lm_lastCheck state)) in
  let tokens := fadd (lm_tokens state) (fmul elapsed (MaxCommandsPerSecond config)) in
  let burst := to_float (BurstSize config) in
  let tokens := if SFltb burst tokens then burst else tokens in
  if SFltb tokens (to_float 1) then (false, mkLimiter tokens now)
  else (true, mkLimiter (fsub tokens (to_float 1)) now).

Definition RateLimit (limiters : nat) (config : RateLimitConfig) : Middleware :=
  let config := rate_defaults config in fun next ctx =>
  h ← st_get;
  state ← match md_limiters (h_sess h).2 limiters !! remote with
          | Some state => mret state
          | None => start ← time_Now; mret (mkLimiter (to_float (BurstSize config)) start)
          end;
  now ← time_Now;
  let '(allowed, state) := take_token config now state in
  _ ← on_limiters limiters (insert remote state);
  if (allowed : bool) then next ctx else st_fail (ErrBad "rate limit exceeded").

End Middleware.
