(* ===== verification/MiddlewareFacts.v ===== *)
(** * What a chain of middlewares does to a server

    A middleware never changes what a command does to the connection and the
    session, beyond turning a panic into a NO (recovery) and a command into a
    BAD (rate limiting). *)

From Stdlib Require Import Floats.SpecFloat.
From S2P Require Import Prelude Utf8 GoStrings Imap Encoder Writers ConnState Conn Commands Dispatch.
From S2P Require Import GoFloat Middleware.

(** The middlewares of the package that answer with what the handler answers
    ([Timeout] does not). *)
Inductive kind :=
  | KLogging
  | KMetrics (metrics : nat)
  | KRateLimit (limiters : nat) (config : RateLimitConfig)
  | KRecovery.

Section Facts.
Context {U : Unicode} {Sess : Type}.
Context (clock : nat -> Z) (remote : bytes).
Abbreviation World := (Sess * Mid)%type.

Definition middleware_of (k : kind) : Middleware (Sess := Sess) :=
  match k with
  | KLogging => Logging clock
  | KMetrics p => MetricsMiddleware clock p
  | KRateLimit p config => RateLimit clock remote p config
  | KRecovery => Recovery
  end.
Definition is_limit (k : kind) : bool := match k with KRateLimit _ _ => true | _ => false end.
Definition is_recovery (k : kind) : bool := match k with KRecovery => true | _ => false end.

(** ** One handler

    The three ways a wrapped command ends, seen without the middlewares' own
    state. *)
Inductive passed (ks : list kind) (handler : Handler Sess) (ctx : CommandContext) (i : HState Sess)
    : res unit -> HState Sess -> Prop :=
  | Ran r i' : handler ctx i = (r, i') -> (r = Panic -> existsb is_recovery ks = false) ->
      passed ks handler ctx i r i'
  | Recovered i' : handler ctx i = (Panic, i') -> existsb is_recovery ks = true ->
      passed ks handler ctx i (Err (ErrNo "internal server error")) i'
  | Limited : existsb is_limit ks = true ->
      passed ks handler ctx i (Err (ErrBad "rate limit exceeded")) i.

Definition passes (ks : list kind) (handler : Handler Sess) (h : Handler World) : Prop :=
  forall ctx st r st', h ctx st = (r, st') -> passed ks handler ctx (inner st) r (inner st').

(** A middleware that returns what the next one returns. *)
Definition transparent (mw : Middleware (Sess := Sess)) : Prop :=
  forall next ctx st r st', mw next ctx st = (r, st') ->
  exists st1 st2, inner st1 = inner st /\ next ctx st1 = (r, st2) /\ inner st2 = inner st'.

Lemma inner_outer (i : HState Sess) m : inner (outer i m) = i.
Proof. by destruct i. Qed.

Lemma transparent_logging : transparent (Logging clock).
Proof.
  intros next ctx st r st' Hrun. unfold Logging, attempt, mbind, st_bind in Hrun. simpl in Hrun.
  match type of Hrun with context [next ctx ?s] =>
    exists s; destruct (next ctx s) as [[[]|e| |] st2] eqn:En end;
    simpl in Hrun; injection Hrun as <- <-; eauto using inner_outer.
Qed.

Lemma transparent_metrics p : transparent (MetricsMiddleware clock p).
Proof.
  intros next ctx st r st' Hrun. unfold MetricsMiddleware, attempt, mbind, st_bind in Hrun. simpl in Hrun.
  match type of Hrun with context [next ctx ?s] =>
    exists s; destruct (next ctx s) as [[[]|e| |] st2] eqn:En end;
    simpl in Hrun; injection Hrun as <- <-; eauto using inner_outer.
Qed.

Lemma passes_transparent mw k ks handler next :
  transparent mw -> is_recovery k = false -> passes ks handler next -> passes (k :: ks) handler (mw next).
Proof.
  intros Hmw Hk Hnext ctx st r st' Hrun.
  destruct (Hmw _ _ _ _ _ Hrun) as (st1 & st2 & <- & Hn & <-).
  destruct (Hnext _ _ _ _ Hn); [eapply Ran|eapply Recovered|eapply Limited]; simpl; rewrite ?Hk; eauto.
  apply orb_true_iff; auto.
Qed.

Lemma passes_recovery ks handler next :
  passes ks handler next -> passes (KRecovery :: ks) handler (Recovery next).
Proof.
  intros Hnext ctx st r st' Hrun. unfold Recovery in Hrun.
  destruct (next ctx st) as [r1 st1] eqn:En. pose proof (Hnext _ _ _ _ En) as Hp.
  assert (Hcase : r1 = Panic /\ r = Err (ErrNo "internal server error") /\ inner st' = inner st1
                  \/ r1 <> Panic /\ (r, st') = (r1, st1)).
  { destruct r1; [right; by split|right; by split|left|right; by split].
    simpl in Hrun. injection Hrun as <- <-. by rewrite !inner_outer. }
  destruct Hcase as [(-> & -> & ->)|[Hr [= -> ->]]].
  - inversion Hp; subst. by apply Recovered.
  - destruct Hp; [by eapply Ran|by eapply Recovered|by eapply Limited].
Qed.

Lemma passes_limit p config ks handler next :
  passes ks handler next ->
  passes (KRateLimit p config :: ks) handler (RateLimit clock remote p config next).
Proof.
  intros Hnext ctx st r st' Hrun. unfold RateLimit in Hrun.
  unfold mbind, st_bind, st_get in Hrun. simpl in Hrun.
  destruct (md_limiters (h_sess st).2 p !! remote) as [state|]; simpl in Hrun;
    match type of Hrun with context [take_token ?c ?n ?s] => destruct (take_token c n s) as [[] l] end;
    simpl in Hrun.
  1,3: pose proof (Hnext _ _ _ _ Hrun) as Hp; rewrite !inner_outer in Hp;
       destruct Hp; [by eapply Ran|by eapply Recovered|by eapply Limited].
  all: injection Hrun as <- <-; rewrite !inner_outer; by apply Limited.
Qed.

Lemma passes_chain ks handler :
  passes ks handler (Chain (middleware_of <$> ks) (lift handler)).
Proof.
  induction ks as [|k ks IH].
  - intros ctx st r st' Hrun. simpl in Hrun. unfold lift in Hrun.
    destruct (handler ctx (inner st)) as [r1 i1] eqn:Eh. injection Hrun as <- <-.
    apply Ran; [|done]. by rewrite inner_outer.
  - change (passes (k :: ks) handler (middleware_of k (Chain (middleware_of <$> ks) (lift handler)))).
    destruct k; simpl middleware_of.
    + eapply passes_transparent; eauto using transparent_logging.
    + eapply passes_transparent; eauto using transparent_metrics.
    + by apply passes_limit.
    + by apply passes_recovery.
Qed.

(** ** Every handler of the table *)
Definition upper_keys {A} (d : gmap bytes A) : Prop := forall name, is_Some (d !! name) -> ToUpper name = name.

Lemma wrap_names (mw : Middleware (Sess := Sess)) (names : list bytes)
    (d : gmap bytes (Handler World)) k :
  NoDup names -> Forall (fun name => ToUpper name = name) names ->
  foldl (fun d name => disp_Wrap name mw d) d names !! k
  = if bool_decide (k ∈ names) then mw <$> d !! k else d !! k.
Proof.
  intros Hnd Hup. revert d. induction names as [|name names IH]; intros d; [done|]. simpl.
  apply list.NoDup_cons in Hnd as [Hn Hnd]. apply list.Forall_cons in Hup as [Hname Hup].
  rewrite IH by done. unfold disp_Wrap. rewrite Hname.
  destruct (decide (k = name)) as [->|Hk].
  - rewrite (bool_decide_eq_false_2 _ Hn), bool_decide_eq_true_2 by set_solver.
    destruct (d !! name) as [h|] eqn:E; simpl; [by rewrite lookup_insert_eq|done].
  - assert (Hd : (match d !! name with Some h => <[name := mw h]> d | None => d end) !! k = d !! k).
    { destruct (d !! name); [by rewrite lookup_insert_ne|done]. }
    rewrite Hd. destruct (decide (k ∈ names)).
    + by rewrite !bool_decide_eq_true_2 by set_solver.
    + by rewrite !bool_decide_eq_false_2 by set_solver.
Qed.

Lemma apply_lookup (order : list bytes -> list bytes) (mw : Middleware (Sess := Sess)) (d : gmap bytes (Handler World)) k :
  (forall l, order l ≡ₚ l) -> upper_keys d -> Apply order mw d !! k = mw <$> d !! k.
Proof.
  intros Hord Hup. unfold Apply, disp_Names.
  assert (Hkeys : forall name, name ∈ order (map_to_list d).*1 <-> is_Some (d !! name)).
  { intros name. rewrite (Hord _), list_elem_of_fmap. split.
    - intros ([k' h] & -> & Hin). apply elem_of_map_to_list in Hin. by exists h.
    - intros [h Hh]. exists (name, h). split; [done|]. by apply elem_of_map_to_list. }
  rewrite wrap_names.
  - case_bool_decide as Hin; [done|]. destruct (d !! k) eqn:E; [|done].
    destruct Hin. apply Hkeys. by rewrite E.
  - rewrite (Hord _). apply NoDup_fst_map_to_list.
  - apply list.Forall_forall. intros name Hin. by apply Hup, Hkeys.
Qed.

(** ** A command *)
Definition shed (s : CState World) : CState Sess := mkCS (cs_conn s) (cs_sess s).1.

Definition wrapped (order : list bytes -> list bytes) (ks : list kind) (d : gmap bytes (Handler Sess))
    : gmap bytes (Handler World) :=
  ApplyChain order (middleware_of <$> ks) (lift <$> d).

Lemma wrapped_lookup (order : list bytes -> list bytes) (ks : list kind) (d : gmap bytes (Handler Sess)) k :
  (forall l, order l ≡ₚ l) -> upper_keys d ->
  wrapped order ks d !! k = (fun h => Chain (middleware_of <$> ks) (lift h)) <$> d !! k.
Proof.
  intros Hord Hup. unfold wrapped, ApplyChain. rewrite apply_lookup; [|done|].
  - rewrite lookup_fmap. by destruct (d !! k).
  - intros name. rewrite lookup_fmap, fmap_is_Some. apply Hup.
Qed.

Lemma run_passed ks handler ctx rest s r s' :
  run_handler (Chain (middleware_of <$> ks) (lift handler)) ctx rest s = (r, s') ->
  exists i, passed ks handler ctx (mkH rest (cs_conn (shed s)) (cs_sess (shed s))) r i
  /\ shed s' = mkCS (h_conn i) (h_sess i).
Proof.
  unfold run_handler. destruct (Chain _ _ _ _) as [r1 h1] eqn:Ec. intros [= <- <-].
  exists (inner h1). split; [|done]. exact (passes_chain ks handler _ _ _ _ Ec).
Qed.

Lemma conn_do_shed f (s s' : CState World) r :
  conn_do f s = (r, s') -> conn_do f (shed s) = (r, shed s').
Proof. by intros [= <- <-]. Qed.

Lemma reply_error_shed tag e (s s' : CState World) r :
  reply_error tag e s = (r, s') -> reply_error tag e (shed s) = (r, shed s').
Proof.
  unfold reply_error. destruct e as [| | | |[] code ? text|]; try apply conn_do_shed.
  unfold mbind, st_bind. simpl. by intros [= <- <-].
Qed.

(** What the client of a wrapped server sees of a command that the server
    without middlewares handles as [d] does. *)
Inductive served (ks : list kind) (d : gmap bytes (Handler Sess)) (tag name rest : bytes)
    (s : CState Sess) : res unit -> CState Sess -> Prop :=
  | SameReply r s' : dispatch d tag name rest s = (r, s') ->
      (r = Panic -> existsb is_recovery ks = false) -> served ks d tag name rest s r s'
  | PanicReply s' : dispatch d tag name rest s = (Panic, s') -> existsb is_recovery ks = true ->
      served ks d tag name rest s (Ok tt)
        (mkCS (WriteNO tag "internal server error" (cs_conn s')) (cs_sess s'))
  | LimitReply : existsb is_limit ks = true ->
      served ks d tag name rest s (Ok tt)
        (mkCS (WriteBAD tag "rate limit exceeded" (cs_conn s)) (cs_sess s)).

Section Run.
Context (d : gmap bytes (Handler Sess)) (ks : list kind) (tag name rest : bytes).

(** The part of [dispatch] after the checks. *)
Definition handled {S} (handler : Handler S) ctx args : St (CState S) unit :=
  r ← attempt (run_handler handler ctx args);
  match r with
  | inl err => reply_error tag err
  | inr _ => mret tt
  end.

Lemma handled_shed handler ctx args s r s' :
  dispatch d tag name rest (shed s) = handled handler ctx args (shed s) ->
  handled (Chain (middleware_of <$> ks) (lift handler)) ctx args s = (r, s') ->
  served ks d tag name rest (shed s) r (shed s').
Proof.
  intros Hd Hrun. unfold handled, attempt, mbind, st_bind in Hrun, Hd.
  destruct (run_handler (Chain _ _) _ _ s) as [r1 s1] eqn:Er.
  destruct (run_passed _ _ _ _ _ _ _ Er) as (i & Hp & Hs1).
  assert (Hwr : forall r0 i0, handler ctx (mkH args (cs_conn (shed s)) (cs_sess (shed s))) = (r0, i0) ->
    run_handler handler ctx args (shed s) = (r0, mkCS (h_conn i0) (h_sess i0))).
  { intros r0 i0 Hh. unfold run_handler. by rewrite Hh. }
  destruct Hp as [r1 i Hh Hr|i Hh Hr|Hl].
  - apply SameReply.
    + rewrite Hd, (Hwr _ _ Hh), <- Hs1. destruct r1 as [[]|e| |]; simpl in Hrun |- *.
      1,3,4: by injection Hrun as <- <-.
      by apply reply_error_shed.
    + intros ->. apply Hr. destruct r1 as [[]|e| |]; [done| |done|done]. simpl in Hrun.
      exfalso. destruct e as [| | | |[] ? ? ?|]; discriminate Hrun.
  - simpl in Hrun. injection Hrun as <- <-.
    pose proof (PanicReply ks d tag name rest (shed s) (shed s1)) as Hgoal.
    apply Hgoal; [|done]. by rewrite Hd, (Hwr _ _ Hh), <- Hs1.
  - simpl in Hrun. injection Hrun as <- <-. destruct s1 as [c1 [x1 m1]]. injection Hs1 as -> ->.
    by apply (LimitReply ks d tag name rest (shed s)).
Qed.
End Run.

Lemma served_wrapped (order : list bytes -> list bytes) (ks : list kind)
    (d : gmap bytes (Handler Sess)) (tag name rest : bytes) (s s' : CState World) (r : res unit) :
  (forall l, order l ≡ₚ l) -> upper_keys d ->
  dispatch (wrapped order ks d) tag name rest s = (r, s') ->
  served ks d tag name rest (shed s) r (shed s').
Proof.
  intros Hord Hup Hrun.
  assert (Hget : forall upper, disp_Get (wrapped order ks d) upper
      = (fun h => Chain (middleware_of <$> ks) (lift h)) <$> disp_Get d upper)
    by (intros upper; by apply wrapped_lookup).
  assert (Hsame : dispatch d tag name rest (shed s) = (r, shed s') -> r <> Panic ->
    served ks d tag name rest (shed s) r (shed s')) by (intros; by apply SameReply).
  unfold dispatch in Hrun, Hsame. pose proof (handled_shed d ks tag name rest) as Hh. unfold dispatch in Hh.
  destruct (uid_prefix name rest) as [[[numKind upper] args]|]; [|injection Hrun as <- <-; by apply Hsame].
  unfold mbind at 1, st_bind at 1, st_get at 1 in Hrun.
  unfold mbind at 1, st_bind at 1, st_get at 1 in Hsame.
  rewrite Hget in Hrun. change (c_state (cs_conn (shed s))) with (c_state (cs_conn s)) in Hsame.
  destruct (disp_Get d upper) as [handler|] eqn:Eg; cbn [fmap option_fmap option_map] in Hrun;
    (destruct (CommandAllowedStates upper) as [allowed|] eqn:Ea;
     [destruct (RequireState (c_state (cs_conn s)) allowed) as [e|] eqn:Es|]);
    cbn [fmap option_fmap option_map] in Hrun, Hsame;
    try (injection Hrun as <- <-; by apply Hsame).
  all: eapply Hh; [|exact Hrun]; unfold mbind at 1, st_bind at 1, st_get at 1;
    change (c_state (cs_conn (shed s))) with (c_state (cs_conn s)); by rewrite ?Es, ?Eg.
Qed.


(** ** Metrics *)
Definition failed {A} (r : res A) : bool := match r with Err _ => true | _ => false end.
Definition unfinished {A} (r : res A) : bool := match r with Panic | Hang => true | _ => false end.

(** Commands one after the other through one metrics middleware, whatever
    becomes of each; the outcomes. *)
Fixpoint run_measured (p : nat) (cmds : list (CommandContext * Handler Sess)) (st : HState World)
    : list (bytes * res unit) * HState World :=
  match cmds with
  | [] => ([], st)
  | (ctx, handler) :: cmds =>
    let '(r, st1) := MetricsMiddleware clock p (lift handler) ctx st in
    let '(rs, st2) := run_measured p cmds st1 in
    ((x_Name ctx, r) :: rs, st2)
  end.
Definition metrics_of (p : nat) (st : HState World) : Metrics := md_metrics (h_sess st).2 p.

Lemma at_object_eq {A} p (f : A -> A) heap : at_object p f heap p = f (heap p).
Proof. unfold at_object. by rewrite Nat.eqb_refl. Qed.

Lemma metrics_step p handler ctx st r st' :
  MetricsMiddleware clock p (lift handler) ctx st = (r, st') ->
  exists duration, metrics_of p st'
  = (if unfinished r then id else count_end (x_Name ctx) duration (failed r))
      (count_start (x_Name ctx) (metrics_of p st)).
Proof.
  unfold MetricsMiddleware, attempt, lift, mbind, st_bind. simpl.
  destruct (handler ctx _) as [[[]|e| |] i]; simpl; intros [= <- <-];
    unfold metrics_of; simpl; rewrite !at_object_eq; first [by eexists|by exists 0].
Qed.

(** The counters after a number of commands, at the width of an [int64]. *)
Record measured (m : Metrics) (total errors active : Z) (counts : bytes -> Z) : Prop := {
  me_total : CommandsTotal m = i64 total;
  me_errors : CommandErrors m = i64 errors;
  me_active : ActiveCommands m = i64 active;
  me_counts : forall name, CommandCount m name = i64 (counts name);
}.

Lemma counter_Add_lookup (name : bytes) (n : Z) (m : gmap bytes Z) (name' : bytes) :
  default 0 (counter_Add name n m !! name')
  = if bool_decide (name' = name) then i64 (default 0 (m !! name) + n) else default 0 (m !! name').
Proof.
  unfold counter_Add. case_bool_decide as E; [by rewrite E, lookup_insert_eq|by rewrite lookup_insert_ne].
Qed.

Lemma measured_step m m' total errors active counts name r duration :
  measured m total errors active counts ->
  m' = (if unfinished r then id else count_end name duration (failed r)) (count_start name m) ->
  measured m' (total + 1) (errors + if @failed unit r then 1 else 0)
    (active + if unfinished r then 1 else 0)
    (fun name' => counts name' + if bool_decide (name' = name) then 1 else 0).
Proof.
  intros [Ht He Ha Hc] ->.
  assert (Hcount : forall name', default 0 (counter_Add name 1 (commandCounts m) !! name')
    = i64 (counts name' + if bool_decide (name' = name) then 1 else 0)).
  { intros name'. rewrite counter_Add_lookup. case_bool_decide as E.
    - subst. change (default 0 (commandCounts m !! name)) with (CommandCount m name).
      by rewrite Hc, i64_step.
    - rewrite Z.add_0_r. apply Hc. }
  destruct r as [[]|e| |]; split; simpl; try exact Hcount;
    rewrite ?Ht, ?He, ?Ha, ?i64_step, ?Z.add_0_r; try done.
  all: rewrite <- Z.add_opp_r, i64_step; f_equal; lia.
Qed.

Lemma measured_run p cmds : forall st rs st' total errors active counts,
  run_measured p cmds st = (rs, st') -> measured (metrics_of p st) total errors active counts ->
  measured (metrics_of p st') (total + Z.of_nat (length rs)) (errors + count_if (fun o => failed o.2) rs)
    (active + count_if (fun o => unfinished o.2) rs)
    (fun name => counts name + count_if (fun o => bool_decide (name = o.1)) rs).
Proof.
  induction cmds as [|[ctx handler] cmds IH]; intros st rs st' total errors active counts Hrun Hm; simpl in Hrun.
  - injection Hrun as <- <-. destruct Hm. split; simpl; intros; rewrite ?Z.add_0_r; auto.
  - destruct (MetricsMiddleware _ _ _ _ _) as [r st1] eqn:E1. destruct (run_measured p cmds st1) as [rs1 st2] eqn:E2.
    injection Hrun as <- <-. destruct (metrics_step _ _ _ _ _ _ E1) as [duration H1].
    pose proof (measured_step _ _ _ _ _ _ _ _ _ Hm H1) as Hm1.
    destruct (IH _ _ _ _ _ _ _ E2 Hm1) as [Ht He Ha Hc].
    split; simpl length; simpl count_if; [rewrite Ht|rewrite He|rewrite Ha|intros name; rewrite Hc]; f_equal; lia.
Qed.

(** The metrics are the counts they name: after any sequence of
    commands [CommandsTotal] is the number of commands, [CommandErrors] the
    number that returned an error and [CommandCount] the number of each name,
    modulo the width of an [int64]; [ActiveCommands] is the number of those
    that panicked or never ended, so it is back to zero only if every handler
    returned. *)
Theorem metrics_exact p cmds st rs st' :
  run_measured p cmds st = (rs, st') -> metrics_of p st = NewMetrics ->
  measured (metrics_of p st') (Z.of_nat (length rs)) (count_if (fun o => failed o.2) rs)
    (count_if (fun o => unfinished o.2) rs)
    (fun name => count_if (fun o => bool_decide (name = o.1)) rs).
Proof.
  intros Hrun Hnew. apply (measured_run p cmds st rs st' 0 0 0 (fun _ => 0) Hrun). rewrite Hnew.
  by split.
Qed.

(** ** The rate limiter *)
Definition finite (f : float64) : Prop :=
  match f with S754_finite _ _ _ | S754_zero _ => True | _ => False end.

Lemma take_token_instant config k t sgn m e :
  MaxCommandsPerSecond config = S754_finite sgn m e -> 0 <= k <= BurstSize config ->
  0 < BurstSize config < 2 ^ 53 ->
  take_token config t (mkLimiter (to_float k) t) = (0 <? k, mkLimiter (to_float (Z.max 0 (k - 1))) t).
Proof.
  intros Hrate Hk Hb. unfold take_token. simpl lm_lastCheck. simpl lm_tokens.
  assert (Hsub : time_Sub t t = 0) by (unfold time_Sub; lia).
  rewrite Hsub, Hrate, fadd_zero by lia.
  destruct (decide (k = 0)) as [->|Hk0].
  - rewrite (to_float_whole (BurstSize config)) by lia. done.
  - rewrite whole_compare, whole_compare, fsub_one by lia. rewrite (proj2 (Z.ltb_lt 0 k)) by lia.
    by rewrite Z.max_r by lia.
Qed.

Lemma rate_defaults_finite config :
  finite (MaxCommandsPerSecond config) ->
  exists sgn m e, MaxCommandsPerSecond (rate_defaults config) = S754_finite sgn m e.
Proof.
  unfold rate_defaults. destruct (MaxCommandsPerSecond config) as [s|s| |s m e] eqn:E; intros []; simpl.
  - by eexists _, _, _.
  - destruct (SFleb _ _); by eexists _, _, _.
Qed.

(** Commands one after the other through one rate limiter, and without it. *)
Fixpoint run_limited (p : nat) (config : RateLimitConfig) (cmds : list (CommandContext * Handler Sess))
    (st : HState World) : list (res unit) * HState World :=
  match cmds with
  | [] => ([], st)
  | (ctx, handler) :: cmds =>
    let '(r, st1) := RateLimit clock remote p config (lift handler) ctx st in
    let '(rs, st2) := run_limited p config cmds st1 in (r :: rs, st2)
  end.
Fixpoint run_plain (cmds : list (CommandContext * Handler Sess)) (i : HState Sess)
    : list (res unit) * HState Sess :=
  match cmds with
  | [] => ([], i)
  | (ctx, handler) :: cmds =>
    let '(r, i1) := handler ctx i in let '(rs, i2) := run_plain cmds i1 in (r :: rs, i2)
  end.

Lemma lift_run handler ctx (st : HState World) r st' :
  lift handler ctx st = (r, st') -> handler ctx (inner st) = (r, inner st') /\ (h_sess st').2 = (h_sess st).2.
Proof.
  unfold lift. destruct (handler ctx (inner st)) as [r1 i1] eqn:E. intros [= <- <-].
  split; [by rewrite inner_outer|done].
Qed.

(** The limiter of the client at time [t] has [k] tokens. *)
Definition has_tokens (p : nat) (config : RateLimitConfig) (t k : Z) (st : HState World) : Prop :=
  let limiter := md_limiters (h_sess st).2 p !! remote in
  limiter = Some (mkLimiter (to_float k) t) \/ limiter = None /\ k = BurstSize (rate_defaults config).

Section Instant.
Context (p : nat) (config : RateLimitConfig) (t : Z).
Hypothesis (Hclock : forall n, clock n = t).
Hypothesis (Hrate : finite (MaxCommandsPerSecond config)).
Hypothesis (Hburst : BurstSize config < 2 ^ 53).

Lemma burst_range : 0 < BurstSize (rate_defaults config) < 2 ^ 53.
Proof using Hburst. simpl. case_if; to_prop; lia. Qed.

Lemma limit_step k handler ctx st r st' :
  0 <= k <= BurstSize (rate_defaults config) -> has_tokens p config t k st ->
  RateLimit clock remote p config (lift handler) ctx st = (r, st') ->
  has_tokens p config t (Z.max 0 (k - 1)) st'
  /\ (r, inner st') = (if 0 <? k then handler ctx (inner st)
                      else (Err (ErrBad "rate limit exceeded"), inner st)).
Proof using Hclock Hrate Hburst.
  intros Hk Htok Hrun. destruct (rate_defaults_finite _ Hrate) as (sgn & m & e & Hfin).
  pose proof burst_range as Hb.
  unfold RateLimit in Hrun. unfold mbind, st_bind, st_get in Hrun. simpl in Hrun.
  destruct Htok as [Hl|[Hl ->]]; rewrite Hl in Hrun; simpl in Hrun; rewrite !Hclock in Hrun;
    rewrite (take_token_instant (rate_defaults config) _ t sgn m e) in Hrun by (try done; lia);
    (destruct (0 <? _) eqn:E0;
     [destruct (lift_run _ _ _ _ _ Hrun) as [Hh Hmid]; rewrite inner_outer in Hh
     |injection Hrun as <- <-; rewrite !inner_outer]).
  all: split; [left|rewrite ?Hh; try done]; rewrite ?Hmid; simpl; rewrite ?at_object_eq, lookup_insert_eq; try done.
Qed.

Lemma limit_run cmds : forall k st rs st',
  0 <= k <= BurstSize (rate_defaults config) -> has_tokens p config t k st ->
  run_limited p config cmds st = (rs, st') ->
  let '(rs0, i) := run_plain (take (Z.to_nat k) cmds) (inner st) in
  rs = rs0 ++ replicate (length cmds - Z.to_nat k) (Err (ErrBad "rate limit exceeded")) /\ inner st' = i.
Proof using Hclock Hrate Hburst.
  induction cmds as [|[ctx handler] cmds IH]; intros k st rs st' Hk Htok Hrun; simpl in Hrun.
  - injection Hrun as <- <-. by rewrite take_nil.
  - destruct (RateLimit _ _ _ _ _ _ _) as [r1 st1] eqn:E1. destruct (run_limited p config cmds st1) as [rs1 st2] eqn:E2.
    injection Hrun as <- <-. destruct (limit_step _ _ _ _ _ _ Hk Htok E1) as [Htok1 Hout].
    specialize (IH (Z.max 0 (k - 1)) st1 rs1 st2). destruct (0 <? k) eqn:E0; to_prop.
    + replace (Z.to_nat k) with (S (Z.to_nat (Z.max 0 (k - 1)))) by lia. simpl.
      rewrite <- Hout. destruct (run_plain _ _) as [rs0 i]. destruct IH as [-> ->]; [lia|done|done|done].
    + assert (Hi : inner st1 = inner st) by congruence. apply (f_equal fst) in Hout. simpl in Hout. subst r1.
      pose proof burst_range as Hb. replace (Z.max 0 (k - 1)) with 0 in * by lia.
      replace (Z.to_nat k) with 0%nat by lia. simpl length. rewrite Nat.sub_0_r in *. simpl run_plain in *.
      destruct IH as [-> ->]; [lia|done|done|]. by rewrite Hi.
Qed.

(** [C33] At one instant, a client that has not been heard of before gets
    exactly its first [BurstSize] commands through (ten where the
    configuration gives no positive number): they run as if there were no
    limiter, one after the other, and every later one is refused without
    reaching its handler.  The token arithmetic is float64's, for any finite
    rate and any burst below 2^53. *)
Theorem rate_limit_burst cmds st rs st' :
  md_limiters (h_sess st).2 p !! remote = None ->
  run_limited p config cmds st = (rs, st') ->
  let burst := Z.to_nat (if BurstSize config <=? 0 then 10 else BurstSize config) in
  let '(rs0, i) := run_plain (take burst cmds) (inner st) in
  rs = rs0 ++ replicate (length cmds - burst) (Err (ErrBad "rate limit exceeded")) /\ inner st' = i.
Proof using Hclock Hrate Hburst.
  intros Hfresh. pose proof burst_range. apply (limit_run cmds (BurstSize (rate_defaults config))); [lia|by right].
Qed.
End Instant.
End Facts.
