(* ===== verification/Guarded.v ===== *)
(** * A server with extensions behind middleware

    The two ways of changing a server put together: extensions add and wrap
    handlers, and a chain of middlewares wraps all of them.  Every command
    still gets its reply, and with a recovery in the chain also where a backend
    panics. *)

From S2P Require Import Prelude Utf8 GoStrings Imap Encoder Writers ConnState Conn Commands Dispatch Replies.
From S2P Require Import ExtBase Extensions ExtReplies Middleware MiddlewareFacts.

Section Guarded.
Context {U : Unicode} {Sess : Type} {B : Backend Sess} {X : Extended Sess}.
Context (opts : Options) (ord : nat -> list bytes -> list bytes).
Context (clock : nat -> Z) (remote : bytes).
Abbreviation builtin_table := (RegisterAll (builtins opts ord)).

(** Registration and wrapping keep the names of a table in upper case. *)
Lemma upper_register name (h : Handler Sess) d : upper_keys d -> upper_keys (disp_Register name h d).
Proof.
  intros Hd n [h' Hn]. unfold disp_Register in Hn. apply lookup_insert_Some in Hn as [[<- _]|[_ Hn]]; [apply ToUpper_idem|]. by apply Hd.
Qed.
Lemma upper_wrap name (w : Handler Sess -> Handler Sess) d : upper_keys d -> upper_keys (disp_Wrap name w d).
Proof. intros Hd. unfold disp_Wrap. destruct (d !! ToUpper name); [by apply upper_register|done]. Qed.
Lemma installed_upper d : installed builtin_table d -> upper_keys d.
Proof.
  induction 1 as [|e name h d _ _ _ IH|e name w d _ _ _ IH]; [|by apply upper_register|by apply upper_wrap].
  intros n [h Hn]. apply Replies.builtin_table in Hn.
  pose proof (builtin_names opts ord) as HF. rewrite list.Forall_forall in HF. exact (HF _ Hn).
Qed.

(** One more tagged reply after untagged data. *)
Lemma answered_then tag status code text c c' us :
  status ∈ ["OK" : bytes; "NO" : bytes; "BAD" : bytes] -> said c c' us -> Forall untagged us ->
  answered tag 1 c (Encode (Enc.StatusResponse tag status code text) c') (Ok tt).
Proof.
  intros Hst Hs Hu. exists us, [Enc.StatusResponse tag status code text []]. split_and!; [|done| |done].
  - exact (said_trans _ _ _ _ _ Hs (said_one _ _)).
  - by apply list.Forall_singleton, tagged_status.
Qed.

(** What the middlewares leave of a reply. *)
Lemma served_answered ks d tag name rest (s s' : CState Sess) r n :
  (forall r0 s0, dispatch d tag name rest s = (r0, s0) -> answered tag n (cs_conn s) (cs_conn s0) r0) ->
  served ks d tag name rest s r s' ->
  answered tag 1 (cs_conn s) (cs_conn s') r \/ answered tag n (cs_conn s) (cs_conn s') r.
Proof.
  intros Hplain [r0 s0 Hrun Hp|s0 Hrun Hp|Hl].
  - right. by apply Hplain.
  - left. destruct (Hplain _ _ Hrun) as (us & Hs & Hu). eapply answered_then; [set_solver|done|done].
  - left. eapply answered_then; [set_solver|apply said_refl|constructor].
Qed.

End Guarded.
