(* ===== verification/Timeout.v ===== *)
(** * The timeout middleware (middleware/timeout.go)

    [Timeout] runs the handler in a goroutine of its own and answers the
    command when the handler is done or when the deadline passes, whichever is
    first.  Nothing stops the handler then: it goes on over the connection and
    the session, beside the commands that follow, and the result it sends into
    the channel is never read.

    A handler that can be overtaken is given by its atomic steps ([proc]); the
    other middlewares, and the handlers when nothing runs beside them, are the
    functions of the other files, which [denote] leads back to. *)

From S2P Require Import Prelude Utf8 GoStrings NumSet Imap Encoder Writers ConnState Conn Commands Dispatch Replies.

(** ** Processes

    A step changes the state at once; what comes next depends on the state it
    found. *)
Inductive proc (S A : Type) :=
  | PRet (r : res A)
  | PStep (update : S -> S) (next : S -> proc S A).
Arguments PRet {S A} r.
Arguments PStep {S A} update next.

Section Proc.
Context {S : Type}.

Fixpoint denote {A} (p : proc S A) : St S A := fun s =>
  match p with
  | PRet r => (r, s)
  | PStep update next => denote (next s) (update s)
  end.

Definition atom {A} (m : St S A) : proc S A := PStep (fun s => (m s).2) (fun s => PRet (m s).1).

Fixpoint pbind {A B} (p : proc S A) (k : A -> proc S B) : proc S B :=
  match p with
  | PRet (Ok a) => k a
  | PRet (Err e) => PRet (Err e)
  | PRet Panic => PRet Panic
  | PRet Hang => PRet Hang
  | PStep update next => PStep update (fun s => pbind (next s) k)
  end.

Lemma denote_atom {A} (m : St S A) s : denote (atom m) s = m s.
Proof. simpl. by destruct (m s). Qed.
Lemma denote_bind {A B} (p : proc S A) (k : A -> proc S B) s :
  denote (pbind p k) s = (denote p ≫= (fun a => denote (k a))) s.
Proof.
  revert s. induction p as [[a|e| |]|update next IH]; intros s; simpl; [done..|]. apply IH.
Qed.
End Proc.

(** The steps of a FETCH: reading the arguments, the call of the
    backend with what it writes, the reply. *)
Section Handlers.
Context {U : Unicode} {Sess : Type} {B : Backend Sess}.

Definition fetch_proc (ctx : CommandContext) : proc (HState Sess) unit :=
  pbind (atom (_ ← need_args ctx "missing arguments";
               numSet ← read_numset ctx;
               _ ← arg Decoder.ReadSP ?> ErrBad "missing fetch items";
               options ← on_err (arg parseFetchItems) (fun e => ErrBad ("invalid fetch items: " ++ Error e));
               mret (numSet, match x_NumKind ctx with
                             | NumKindUID => upd_base false false false false false true options
                             | NumKindSeq => options
                             end)))
    (fun '(numSet, options) =>
     pbind (atom (session_writing fetch_writes (bk_Fetch numSet options)))
     (fun _ => atom (ok ctx "FETCH completed"))).

Lemma denote_fetch ctx h : denote (fetch_proc ctx) h = Fetch ctx h.
Proof.
  unfold fetch_proc. rewrite denote_bind. unfold Fetch, mbind, st_bind. rewrite denote_atom.
  destruct (need_args _ _ h) as [[?|?| |] h1]; try done. destruct (read_numset _ h1) as [[numSet|?| |] h2]; try done.
  destruct ((_ ?> _) h2) as [[?|?| |] h3]; try done. destruct (on_err _ _ h3) as [[options|?| |] h4]; try done.
  cbn [mret st_ret].
  rewrite denote_bind. unfold mbind, st_bind. rewrite denote_atom.
  by destruct (session_writing _ _ _) as [[?|?| |] ?].
Qed.
End Handlers.

(** ** A command under a timeout *)
Inductive phase := Waiting | TimedOut | Returned.

Section Timed.
Context {U : Unicode} {Sess : Type}.

(** The connection and the session are shared with the rest of the program,
    the arguments are the command's own; the goroutine of the handler runs or
    has ended; the command waits, or has been answered. *)
Record Timed := mkTimed {
  tm_shared : CState Sess;
  tm_args : bytes;
  tm_handler : proc (HState Sess) unit + res unit;
  tm_phase : phase;
}.
Definition timed (p : proc (HState Sess) unit) (args : bytes) (s : CState Sess) : Timed :=
  mkTimed s args (inl p) Waiting.

Context (tag : bytes).

(** A write that answers the command. *)
Definition is_reply (w : bytes) : bool := bool_decide ((tag ++ " ") `prefix_of` w).
Definition adds (k : Z) (c c' : Conn) : Prop := exists ws, said c c' ws /\ count_if is_reply ws = k.

(** Dispatch writes the reply to an error; a select whose two cases are ready
    takes either.  The commands that follow ([Others]) do anything to the
    connection and the session but answer this one. *)
Inductive timed_step : Timed -> Timed -> Prop :=
  | HandlerSteps t update next h :
      tm_handler t = inl (PStep update next) ->
      h = mkH (tm_args t) (cs_conn (tm_shared t)) (cs_sess (tm_shared t)) ->
      timed_step t (mkTimed (mkCS (h_conn (update h)) (h_sess (update h))) (h_args (update h)) (inl (next h)) (tm_phase t))
  | HandlerReturns t :
      tm_handler t = inl (PRet (Ok tt)) -> tm_phase t = Waiting ->
      timed_step t (mkTimed (tm_shared t) (tm_args t) (inr (Ok tt)) Returned)
  | HandlerFails t e r s :
      tm_handler t = inl (PRet (Err e)) -> tm_phase t = Waiting -> reply_error tag e (tm_shared t) = (r, s) ->
      timed_step t (mkTimed s (tm_args t) (inr (Err e)) Returned)
  | DeadlinePasses t r s :
      tm_phase t = Waiting -> reply_error tag (ErrNo "command timed out") (tm_shared t) = (r, s) ->
      timed_step t (mkTimed s (tm_args t) (tm_handler t) TimedOut)
  | ResultDropped t r :
      tm_handler t = inl (PRet r) -> tm_phase t = TimedOut -> r = Ok tt \/ is_err r = true ->
      timed_step t (mkTimed (tm_shared t) (tm_args t) (inr r) TimedOut)
  | Others t s :
      tm_phase t <> Waiting -> adds 0 (cs_conn (tm_shared t)) (cs_conn s) ->
      timed_step t (mkTimed s (tm_args t) (tm_handler t) (tm_phase t)).

(** ** Handlers that answer once

    [n] replies have been written before; in the end there is one if the
    handler succeeds and none if it fails. *)
Inductive answers : Z -> proc (HState Sess) unit -> Prop :=
  | ans_ok : answers 1 (PRet (Ok tt))
  | ans_failed r : (forall a, r <> Ok a) -> answers 0 (PRet r)
  | ans_step n update next :
      (forall h, exists k, adds k (h_conn h) (h_conn (update h)) /\ answers (n + k) (next h)) ->
      answers n (PStep update next).

(** A tag that is not taken for the start of an untagged response. *)
Definition plain_tag : Prop := match tag with [] => False | c :: _ => c <> "*"%char /\ c <> "+"%char end.
Hypothesis (Hplain : plain_tag).

Lemma adds_refl c : adds 0 c c.
Proof. exists []. split; [apply said_refl|done]. Qed.
Lemma adds_trans j k c1 c2 c3 : adds j c1 c2 -> adds k c2 c3 -> adds (j + k) c1 c3.
Proof.
  intros (us & H1 & <-) (vs & H2 & <-). exists (us ++ vs).
  split; [by eapply said_trans|apply count_if_app].
Qed.

Lemma tag_nonstar : (tag =s []) || (tag =s "*") = false.
Proof using Hplain.
  unfold plain_tag in Hplain. destruct tag as [|c l]; [done|]. destruct Hplain as [Hc _].
  apply orb_false_iff. split; apply bool_decide_eq_false; [done|]. by intros [= -> _].
Qed.
Lemma reply_counts w : tagged tag w -> is_reply w = true.
Proof using Hplain.
  intros (status & code & text & -> & _). apply bool_decide_eq_true. unfold Enc.StatusResponse. rewrite tag_nonstar.
  assert (H : (tag ++ " ") `prefix_of` ([] |> Enc.Tag tag |> Enc.SP)) by done. revert H.
  generalize ([] |> Enc.Tag tag |> Enc.SP). intros e He. grow.
Qed.
Lemma untagged_counts w : untagged w -> is_reply w = false.
Proof using Hplain.
  intros Hw. apply bool_decide_eq_false. unfold plain_tag in Hplain. destruct tag as [|c l]; [done|].
  destruct Hplain as [Hs Hp]. intros [k Hk]. destruct Hw as [[k' Hw]|[k' Hw]]; rewrite Hk in Hw; by injection Hw.
Qed.
Lemma untagged_count us : Forall untagged us -> count_if is_reply us = 0.
Proof using Hplain. induction 1 as [|w us Hw _ IH]; [done|]. simpl. by rewrite untagged_counts. Qed.

(** The computations of the handlers, as steps. *)
Lemma quiet_adds {A} (m : H Sess A) h : Quiet m -> adds 0 (h_conn h) (h_conn (m h).2).
Proof using Hplain.
  intros Hm. destruct (m h) as [r h'] eqn:E. destruct (Hm _ _ _ E) as (us & Hs & Hu).
  exists us. split; [done|by apply untagged_count].
Qed.
Lemma answers_atom (m : H Sess unit) : Replies tag m -> answers 0 (atom m).
Proof using Hplain.
  intros Hm. apply ans_step. intros h. destruct (m h) as [r h'] eqn:E.
  destruct (Hm _ _ _ E) as (us & ts & Hs & Hu & Hr). simpl. pose proof (untagged_count us Hu) as Hc.
  destruct r as [[]|e| |].
  - destruct Hr as (t & -> & Ht). exists 1. split; [|constructor]. exists (us ++ [t]). split; [done|].
    rewrite count_if_app, Hc. simpl. by rewrite reply_counts.
  - subst ts. exists 0. split; [|by constructor]. exists us. by rewrite app_nil_r in Hs.
  - subst ts. exists 0. split; [|by constructor]. exists us. by rewrite app_nil_r in Hs.
  - subst ts. exists 0. split; [|by constructor]. exists us. by rewrite app_nil_r in Hs.
Qed.
Lemma answers_bind {A} (m : H Sess A) k : Quiet m -> (forall a, answers 0 (k a)) -> answers 0 (pbind (atom m) k).
Proof using Hplain.
  intros Hm Hk. apply ans_step. intros h. exists 0. split; [by apply quiet_adds|].
  destruct (m h).1 as [a|e| |]; [apply Hk|by constructor..].
Qed.

(** ** What the client sees *)
Definition late (t : Timed) (n : Z) : Prop :=
  match tm_handler t with
  | inl p => answers n p
  | inr (Ok _) => n = 1
  | inr _ => n = 0
  end.
Definition is_bye (e : error) : bool := match e with IMAPError StatusBYE _ _ _ => true | _ => false end.
(** The handler has written [n] replies and the loop of the connection [d]: none
    for a success, one for the timeout and for an error that does not end the
    connection. *)
Record accounted (c0 : Conn) (t : Timed) (n d : Z) : Prop := {
  ac_total : adds (n + d) c0 (cs_conn (tm_shared t));
  ac_late : late t n;
  ac_phase : match tm_phase t with
             | Waiting => d = 0
             | TimedOut => d = 1
             | Returned => match tm_handler t with inr (Err e) => d = if is_bye e then 0 else 1 | _ => d = 0 end
             end;
}.

Lemma error_reply (s s' : CState Sess) e r : reply_error tag e s = (r, s') ->
  adds (if is_bye e then 0 else 1) (cs_conn s) (cs_conn s').
Proof using Hplain.
  intros Hr. pose proof Hr as (w & Hw & Ht)%reply_error_said. exists [w]. split; [done|]. simpl.
  assert (match r with Ok _ => is_bye e = false | _ => is_bye e = true end) as Hb.
  { revert Hr. unfold reply_error. destruct e as [| | | |[]|]; by intros [= <- _]. }
  destruct r as [?|?| |]; rewrite Hb.
  - by rewrite reply_counts.
  - by rewrite untagged_counts by apply Ht.
  - by rewrite untagged_counts by apply Ht.
  - by rewrite untagged_counts by apply Ht.
Qed.

Lemma accounted_step c0 t t' n d :
  timed_step t t' -> accounted c0 t n d -> exists n' d', accounted c0 t' n' d'.
Proof using Hplain.
  intros Hstep [Htot Hlate Hph]. unfold late in Hlate.
  destruct Hstep as [t update next h Hh ->|t Hh Hp|t e r s Hh Hp Hr|t r s Hp Hr|t r Hh Hp Hr|t s Hp Hs].
  - rewrite Hh in Hlate. inversion Hlate as [| |? ? ? Hnext]; subst.
    destruct (Hnext (mkH (tm_args t) (cs_conn (tm_shared t)) (cs_sess (tm_shared t)))) as (k & Hk & Hans).
    exists (n + k), d. split; [|done|].
    + replace (n + k + d) with (n + d + k) by lia. by eapply adds_trans.
    + simpl. rewrite Hh in Hph. by destruct (tm_phase t).
  - rewrite Hh in Hlate. rewrite Hp in Hph. exists n, d. split; [done| |by subst].
    by inversion Hlate as [|? Hno|]; subst; [|destruct (Hno tt)].
  - rewrite Hh in Hlate. rewrite Hp in Hph. inversion Hlate; subst.
    exists 0, (if is_bye e then 0 else 1). split; [|done|done].
    eapply (adds_trans 0); [exact Htot|]. by eapply error_reply.
  - rewrite Hp in Hph. subst. exists n, 1. split; [|done|done].
    rewrite Z.add_0_r in Htot. eapply adds_trans; [done|by eapply (error_reply _ _ (ErrNo _))].
  - rewrite Hh in Hlate. rewrite Hp in Hph. exists n, d. split; [done| |done]. unfold late. simpl.
    inversion Hlate as [|? Hno|]; subst; [done|]. destruct r as [[]|e| |]; [by destruct (Hno tt)|done..].
  - exists n, d. split; [|done|done]. rewrite <- (Z.add_0_r (n + d)). by eapply adds_trans.
Qed.

Lemma accounted_run c0 t t' : rtc timed_step t t' ->
  (exists n d, accounted c0 t n d) -> exists n d, accounted c0 t' n d.
Proof using Hplain. induction 1 as [|t1 t2 t3 H12 _ IH]; [done|]. intros (n & d & H). apply IH. by eapply accounted_step. Qed.

(** The handler alone, to its end. *)
Lemma handler_runs p : forall args s ph r h,
  denote p (mkH args (cs_conn s) (cs_sess s)) = (r, h) ->
  rtc timed_step (mkTimed s args (inl p) ph) (mkTimed (mkCS (h_conn h) (h_sess h)) (h_args h) (inl (PRet r)) ph).
Proof.
  induction p as [r0|update next IH]; intros args s ph r h Hd.
  - simpl in Hd. injection Hd as <- <-. destruct s. apply rtc_refl.
  - eapply rtc_l; [by eapply HandlerSteps|]. apply IH. simpl in Hd. rewrite <- Hd. f_equal. by destruct (update _).
Qed.

End Timed.

Lemma fetch_answers {U : Unicode} {Sess : Type} {B : Backend Sess} ctx :
  plain_tag (x_Tag ctx) -> answers (x_Tag ctx) 0 (fetch_proc ctx : proc (HState Sess) unit).
Proof.
  intros Hp. unfold fetch_proc. apply answers_bind; [done|apply _|]. intros [numSet options].
  apply answers_bind; [done|apply _|]. intros _. apply answers_atom; [done|apply _].
Qed.
