(* ===== verification/Lifecycle.v ===== *)
(** * The life of a server (server/server.go)

    [Serve] accepts connections and starts a goroutine for each
    ([handleConn]); [Shutdown] closes the listeners and the connections.  All
    of them run at once over the fields of [Server]: the model interleaves
    them at the granularity of the code's critical sections and atomic
    operations.  What a connection does while it is served is [Dispatch.serve]
    and is one step here, which ends when the client leaves or when the
    connection has been closed. *)

From S2P Require Import Prelude.

(** ** The server and its goroutines *)

(** The fields of [Server] that change.  Connections are numbered in the order
    in which their goroutines were started, listeners by identity. *)
Record Server := mkServer {
  sv_listeners : list nat;
  sv_conns : gset nat;
  sv_connCount : Z;
  sv_shutdown : bool;      (* the channel is closed *)
  sv_isShutdown : bool;
}.
Definition New : Server := mkServer [] ∅ 0 false false.

(** Where a call of [Serve] is: before the registration of the listener, at
    the head of the loop, after an error of [Accept], with an accepted
    connection, in the deferred function, returned. *)
Inductive serve_pc := SStart | SAccept | SFailed | SAccepted | SReturn | SDone (refused : bool).
(** A call of [handleConn]: at the registration, at [connCount.Add(1)], at the
    creation of the session, in [c.serve()], and at the three parts of the
    deferred function. *)
Inductive conn_pc := HRegister | HCount | HSession | HServing | HUnregister | HUncount | HClose | HDone.
(** A call of [Shutdown]: at its two critical sections. *)
Inductive shutdown_pc := ShListeners | ShConns | ShDone.
#[export] Instance serve_pc_eq_dec : EqDecision serve_pc.
Proof. solve_decision. Defined.
#[export] Instance conn_pc_eq_dec : EqDecision conn_pc.
Proof. solve_decision. Defined.
#[export] Instance shutdown_pc_eq_dec : EqDecision shutdown_pc.
Proof. solve_decision. Defined.

Record World := mkWorld {
  w_srv : Server;
  w_serves : list (nat * serve_pc);   (* the listener of each call of Serve *)
  w_conns : list conn_pc;
  w_shutdowns : list shutdown_pc;
  w_closedListeners : gset nat;
  w_closed : gset nat;                (* connections that have been closed *)
  w_sessions : gset nat;              (* connections with an open session *)
  w_byes : list (nat * bytes);        (* the BYEs written by the server *)
  w_panicked : bool;
}.
Definition start : World := mkWorld New [] [] [] ∅ ∅ ∅ [] false.

Definition on_srv (f : Server -> Server) (w : World) : World :=
  mkWorld (f (w_srv w)) (w_serves w) (w_conns w) (w_shutdowns w) (w_closedListeners w) (w_closed w)
    (w_sessions w) (w_byes w) (w_panicked w).
Definition set_serves (l : list (nat * serve_pc)) (w : World) : World :=
  mkWorld (w_srv w) l (w_conns w) (w_shutdowns w) (w_closedListeners w) (w_closed w)
    (w_sessions w) (w_byes w) (w_panicked w).
Definition set_conns (l : list conn_pc) (w : World) : World :=
  mkWorld (w_srv w) (w_serves w) l (w_shutdowns w) (w_closedListeners w) (w_closed w)
    (w_sessions w) (w_byes w) (w_panicked w).
Definition set_shutdowns (l : list shutdown_pc) (w : World) : World :=
  mkWorld (w_srv w) (w_serves w) (w_conns w) l (w_closedListeners w) (w_closed w)
    (w_sessions w) (w_byes w) (w_panicked w).
Definition close_listeners (l : list nat) (w : World) : World :=
  mkWorld (w_srv w) (w_serves w) (w_conns w) (w_shutdowns w) (list_to_set l ∪ w_closedListeners w)
    (w_closed w) (w_sessions w) (w_byes w) (w_panicked w).
Definition open_session (c : nat) (w : World) : World :=
  mkWorld (w_srv w) (w_serves w) (w_conns w) (w_shutdowns w) (w_closedListeners w) (w_closed w)
    ({[c]} ∪ w_sessions w) (w_byes w) (w_panicked w).
Definition write_byes (cs : list nat) (text : bytes) (w : World) : World :=
  mkWorld (w_srv w) (w_serves w) (w_conns w) (w_shutdowns w) (w_closedListeners w) (w_closed w)
    (w_sessions w) (w_byes w ++ ((fun c => (c, text)) <$> cs)) (w_panicked w).
Definition panic (w : World) : World :=
  mkWorld (w_srv w) (w_serves w) (w_conns w) (w_shutdowns w) (w_closedListeners w) (w_closed w)
    (w_sessions w) (w_byes w) true.
(** [Conn.Close]: nothing the second time; the session is closed if there is
    one by now. *)
Definition Conn_Close (c : nat) (w : World) : World :=
  if bool_decide (c ∈ w_closed w) then w
  else mkWorld (w_srv w) (w_serves w) (w_conns w) (w_shutdowns w) (w_closedListeners w)
         ({[c]} ∪ w_closed w) (w_sessions w ∖ {[c]}) (w_byes w) (w_panicked w).

Definition set_listeners (l : list nat) (s : Server) : Server :=
  mkServer l (sv_conns s) (sv_connCount s) (sv_shutdown s) (sv_isShutdown s).
Definition map_conns (f : gset nat -> gset nat) (s : Server) : Server :=
  mkServer (sv_listeners s) (f (sv_conns s)) (sv_connCount s) (sv_shutdown s) (sv_isShutdown s).
Definition connCount_Add (n : Z) (s : Server) : Server :=
  mkServer (sv_listeners s) (sv_conns s) (i64 (sv_connCount s + n)) (sv_shutdown s) (sv_isShutdown s).
Definition mark_shutdown (s : Server) : Server :=
  mkServer (sv_listeners s) (sv_conns s) (sv_connCount s) true true.

(** The first element equal to [l] taken out. *)
Fixpoint remove_first (l : nat) (ls : list nat) : list nat :=
  match ls with
  | [] => []
  | x :: ls => if (x =? l)%nat then ls else x :: remove_first l ls
  end.

Section Steps.
(** [MaxConnections]; whether the server has a [NewSession]. *)
Context (max : Z) (has_sessions : bool).

(** ** Serve

    What [Accept] returns: a connection or an error; a closed listener only
    returns errors. *)
Definition Serve_step (t : nat) (accepted : bool) (w : World) : option World :=
  l_pc ← w_serves w !! t;
  let '(l, pc) := (l_pc : nat * serve_pc) in
  let goto pc w := set_serves (<[t := (l, pc)]> (w_serves w)) w in
  let s := w_srv w in
  match pc with
  | SStart =>
    if sv_isShutdown s then Some (goto (SDone true) w)
    else Some (goto SAccept (on_srv (set_listeners (sv_listeners s ++ [l])) w))
  | SAccept =>
    if accepted then if bool_decide (l ∈ w_closedListeners w) then None else Some (goto SAccepted w)
    else Some (goto SFailed w)
  | SFailed => if sv_shutdown s then Some (goto SReturn w) else Some (goto SAccept w)
  | SAccepted =>
    if (0 <? max) && (max <=? sv_connCount s) then Some (goto SAccept w)
    else Some (goto SAccept (set_conns (w_conns w ++ [HRegister]) w))
  | SReturn => Some (goto (SDone false) (on_srv (set_listeners (remove_first l (sv_listeners s))) w))
  | SDone _ => None
  end.

(** ** handleConn

    [failing]: [NewSession] returns an error.  [c.serve()] closes the
    connection when it returns. *)
Definition handleConn_step (c : nat) (failing : bool) (w : World) : option World :=
  pc ← w_conns w !! c;
  let goto pc w := set_conns (<[c := pc]> (w_conns w)) w in
  match (pc : conn_pc) with
  | HRegister => Some (goto HCount (on_srv (map_conns (fun cs => {[c]} ∪ cs)) w))
  | HCount => Some (goto HSession (on_srv (connCount_Add 1) w))
  | HSession =>
    if negb has_sessions then Some (goto HServing w)
    else if failing then Some (goto HUnregister (write_byes [c] "internal server error" w))
    else Some (goto HServing (open_session c w))
  | HServing => Some (goto HUnregister (Conn_Close c w))
  | HUnregister => Some (goto HUncount (on_srv (map_conns (fun cs => cs ∖ {[c]})) w))
  | HUncount => Some (goto HClose (on_srv (connCount_Add (-1)) w))
  | HClose => Some (goto HDone (Conn_Close c w))
  | HDone => None
  end.

(** ** Shutdown

    Closing a channel twice panics.  [order] is the order of iteration over
    the set of connections. *)
Context (order : list nat -> list nat).

Definition Shutdown_step (t : nat) (w : World) : option World :=
  pc ← w_shutdowns w !! t;
  let goto pc w := set_shutdowns (<[t := pc]> (w_shutdowns w)) w in
  let s := w_srv w in
  match (pc : shutdown_pc) with
  | ShListeners =>
    if sv_shutdown s then Some (panic w)
    else Some (goto ShConns (close_listeners (sv_listeners s) (on_srv mark_shutdown w)))
  | ShConns =>
    let cs := order (elements (sv_conns s)) in
    Some (goto ShDone (foldl (fun w c => Conn_Close c (write_byes [c] "server shutting down" w)) w cs))
  | ShDone => None
  end.

(** ** Runs

    The program calls [Serve] and [Shutdown] (or [Close], which is the same)
    at any time; clients connect and leave. *)
Inductive action :=
  | CallServe (l : nat)
  | CallShutdown
  | Accepts (t : nat)               (* a client connects *)
  | StepServe (t : nat)
  | StepConn (c : nat) (failing : bool)
  | Leaves (c : nat)                (* the connection is served to its end *)
  | StepShutdown (t : nat).

(** [ListenAndServe], given what [net.Listen] returns; [ListenAndServeTLS],
    given also whether it and the options have a TLS configuration; [Close]. *)
Definition ListenAndServe (listen : error + nat) : error + action :=
  match listen with
  | inl e => inl (Errorf [Txt "listen: "; Wrap e])
  | inr l => inr (CallServe l)
  end.
Definition ListenAndServeTLS (config option_config : bool) (listen : error + nat) : error + action :=
  if negb config && negb option_config then inl (emsg "TLS config required")
  else match listen with
       | inl e => inl (Errorf [Txt "TLS listen: "; Wrap e])
       | inr l => inr (CallServe l)
       end.
Definition Server_Close : action := CallShutdown.

Definition serving (c : nat) (w : World) : bool := bool_decide (w_conns w !! c = Some HServing).
Definition accepting (t : nat) (w : World) : bool :=
  match w_serves w !! t with Some (_, SAccept) => true | _ => false end.

(** [StepServe] at [Accept] is an error of the listener; [StepConn] in
    [c.serve()] needs the connection to be closed, its reads then fail.
    Nothing happens after a panic. *)
Definition step (a : action) (w : World) : option World :=
  if w_panicked w then None
  else match a with
  | CallServe l => Some (set_serves (w_serves w ++ [(l, SStart)]) w)
  | CallShutdown => Some (set_shutdowns (w_shutdowns w ++ [ShListeners]) w)
  | Accepts t => if accepting t w then Serve_step t true w else None
  | StepServe t => Serve_step t false w
  | StepConn c failing =>
    if serving c w && negb (bool_decide (c ∈ w_closed w)) then None else handleConn_step c failing w
  | Leaves c => if serving c w then handleConn_step c false w else None
  | StepShutdown t => Shutdown_step t w
  end.

Definition run (w : World) (l : list action) : option World :=
  foldl (fun o a => w ← o; step a w) (Some w) l.
Definition reachable (w : World) : Prop := exists l, run start l = Some w.
End Steps.
