(* ===== verification/LifecycleFacts.v ===== *)
(** * What a server keeps to while it lives and when it is shut down

    The invariant of the server's fields, the bound on the number of
    connections, and the end of a server after [Shutdown]. *)

From S2P Require Import Prelude Lifecycle.

(** ** The invariant *)

(** The goroutines whose connection is in [srv.conns], that [connCount]
    counts, and that it does not count yet. *)
Definition registered (pc : conn_pc) : bool :=
  match pc with HCount | HSession | HServing | HUnregister => true | _ => false end.
Definition counted (pc : conn_pc) : bool :=
  match pc with HSession | HServing | HUnregister | HUncount => true | _ => false end.
Definition uncounted (pc : conn_pc) : bool :=
  match pc with HRegister | HCount => true | _ => false end.
(** The calls of [Serve] whose listener is in [srv.listeners]. *)
Definition listening (p : nat * serve_pc) : Prop :=
  match p.2 with SStart | SDone _ => False | _ => True end.
#[export] Instance listening_dec p : Decision (listening p).
Proof. destruct p as [l []]; simpl; apply _. Defined.

Record consistent (w : World) : Prop := {
  co_conns : forall c, c ∈ sv_conns (w_srv w) <-> registered <$> w_conns w !! c = Some true;
  co_count : sv_connCount (w_srv w) = i64 (count_if counted (w_conns w));
  co_listeners : sv_listeners (w_srv w) ≡ₚ (filter listening (w_serves w)).*1;
  co_flag : sv_shutdown (w_srv w) = sv_isShutdown (w_srv w);
  co_closed : sv_isShutdown (w_srv w) = true ->
    Forall (fun l => l ∈ w_closedListeners w) (sv_listeners (w_srv w));
  co_done : forall c, w_conns w !! c = Some HDone -> c ∈ w_closed w;
  co_started : forall c, c ∈ w_closed w -> is_Some (w_conns w !! c);
  co_shutdowns : forall t pc, w_shutdowns w !! t = Some pc -> pc <> ShListeners -> sv_isShutdown (w_srv w) = true;
}.

(** Closing connections touches neither the server nor the goroutines. *)
Record only_closes (w w' : World) : Prop := {
  oc_srv : w_srv w' = w_srv w;
  oc_serves : w_serves w' = w_serves w;
  oc_conns : w_conns w' = w_conns w;
  oc_shutdowns : w_shutdowns w' = w_shutdowns w;
  oc_listeners : w_closedListeners w' = w_closedListeners w;
  oc_panicked : w_panicked w' = w_panicked w;
  oc_closed : w_closed w ⊆ w_closed w';
}.
Lemma only_closes_refl w : only_closes w w.
Proof. by split. Qed.
Lemma only_closes_trans w1 w2 w3 : only_closes w1 w2 -> only_closes w2 w3 -> only_closes w1 w3.
Proof. intros [] []. split; try congruence. set_solver. Qed.
Lemma Conn_Close_only c w : only_closes w (Conn_Close c w).
Proof. unfold Conn_Close. case_bool_decide; split; simpl; set_solver. Qed.
Lemma Conn_Close_closed c w : w_closed (Conn_Close c w) = {[c]} ∪ w_closed w.
Proof. unfold Conn_Close. case_bool_decide; simpl; set_solver. Qed.

Definition farewell (w : World) (c : nat) : World := Conn_Close c (write_byes [c] "server shutting down" w).
Lemma farewell_all cs w :
  only_closes w (foldl farewell w cs) /\ w_closed (foldl farewell w cs) = list_to_set cs ∪ w_closed w.
Proof.
  revert w. induction cs as [|c cs IH]; intros w; simpl; [split; [apply only_closes_refl|set_solver]|].
  destruct (IH (farewell w c)) as [H1 H2]. split.
  - eapply only_closes_trans; [|exact H1]. unfold farewell.
    eapply only_closes_trans; [|apply Conn_Close_only]. by split.
  - rewrite H2. unfold farewell. rewrite Conn_Close_closed. simpl. set_solver.
Qed.

(** ** Lists of goroutines *)
Lemma insert_lookup {A B} (f : A -> B) (l : list A) i x y j :
  l !! i = Some x -> f <$> <[i := y]> l !! j = if bool_decide (j = i) then Some (f y) else f <$> l !! j.
Proof.
  intros Hi. case_bool_decide as E; [subst|by rewrite list_lookup_insert_ne].
  by rewrite list_lookup_insert_eq by (by eapply lookup_lt_Some).
Qed.

Lemma filter_insert (l : list (nat * serve_pc)) i n pc pc' :
  l !! i = Some (n, pc) ->
  (listening (n, pc) <-> listening (n, pc')) ->
  (filter listening (<[i := (n, pc')]> l)).*1 = (filter listening l).*1.
Proof.
  revert i. induction l as [|x l IH]; intros [|i] Hi Hl; simplify_eq/=.
  - rewrite !filter_cons. destruct (decide (listening (n, pc))), (decide (listening (n, pc'))); tauto || done.
  - rewrite !filter_cons. destruct (decide (listening x)); rewrite ?fmap_cons; by rewrite (IH i).
Qed.

Lemma filter_insert_on (l : list (nat * serve_pc)) i n pc pc' :
  l !! i = Some (n, pc) -> ~ listening (n, pc) -> listening (n, pc') ->
  (filter listening (<[i := (n, pc')]> l)).*1 ≡ₚ n :: (filter listening l).*1.
Proof.
  revert i. induction l as [|x l IH]; intros [|i] Hi H1 H2; simplify_eq/=.
  - by rewrite filter_cons_True, filter_cons_False.
  - rewrite !filter_cons. destruct (decide (listening x)); rewrite ?fmap_cons, (IH i) by done; [|done]. constructor.
Qed.

Lemma filter_insert_off (l : list (nat * serve_pc)) i n pc pc' :
  l !! i = Some (n, pc) -> listening (n, pc) -> ~ listening (n, pc') ->
  (filter listening l).*1 ≡ₚ n :: (filter listening (<[i := (n, pc')]> l)).*1.
Proof.
  revert i. induction l as [|x l IH]; intros [|i] Hi H1 H2; simplify_eq/=.
  - by rewrite filter_cons_True, filter_cons_False.
  - rewrite !filter_cons. destruct (decide (listening x)); [|by apply IH].
    rewrite !fmap_cons, (IH i) by done. constructor.
Qed.

Lemma remove_first_perm l ls : l ∈ ls -> ls ≡ₚ l :: remove_first l ls.
Proof.
  induction ls as [|x ls IH]; intros Hin; [set_solver|]. simpl.
  destruct (Nat.eqb_spec x l) as [->|Hne]; [done|]. rewrite (IH) at 1 by set_solver. constructor.
Qed.

(** ** Every step keeps the invariant *)

(** [handleConn] moves from [pc] to [pc'] and leaves the rest of the server
    alone but for its place in [conns] and [connCount]. *)
Lemma conn_moves w w' c pc pc' :
  consistent w -> w_conns w !! c = Some pc -> w_conns w' = <[c := pc']> (w_conns w) ->
  (forall d, d ∈ sv_conns (w_srv w') <-> if bool_decide (d = c) then registered pc' = true else d ∈ sv_conns (w_srv w)) ->
  sv_connCount (w_srv w') = i64 (sv_connCount (w_srv w) + (if counted pc' then 1 else 0) - (if counted pc then 1 else 0)) ->
  (w_serves w', w_closedListeners w', w_shutdowns w', sv_listeners (w_srv w'), sv_shutdown (w_srv w'),
   sv_isShutdown (w_srv w'))
  = (w_serves w, w_closedListeners w, w_shutdowns w, sv_listeners (w_srv w), sv_shutdown (w_srv w),
     sv_isShutdown (w_srv w)) ->
  w_closed w ⊆ w_closed w' -> (forall d, d ∈ w_closed w' -> d = c \/ d ∈ w_closed w) ->
  (pc' = HDone -> c ∈ w_closed w') -> consistent w'.
Proof.
  intros [Hc Hn Hl Hf Hcl Hd Hs Hst] Hpc Hconns Hset Hcount Heq Hsub Hnew Hdone.
  injection Heq as E1 E2 E3 E4 E5 E6.
  split; rewrite ?E1, ?E2, ?E3, ?E4, ?E5, ?E6, ?Hconns; try done.
  - intros d. rewrite Hset, (insert_lookup _ _ _ _ _ _ Hpc).
    case_bool_decide; [|apply Hc]. split; [by intros ->|by intros [= ->]].
  - rewrite Hcount, Hn, (count_if_insert _ _ _ _ _ Hpc), <- Z.add_sub_assoc, i64_step. f_equal. lia.
  - intros d Hlook. destruct (decide (d = c)) as [->|Hne].
    + rewrite list_lookup_insert_eq in Hlook by (by eapply lookup_lt_Some). injection Hlook as ->. by apply Hdone.
    + rewrite list_lookup_insert_ne in Hlook by done. apply Hsub, (Hd d Hlook).
  - intros d Hin. rewrite list_lookup_insert_is_Some. destruct (Hnew d Hin) as [->|Hin']; [by eexists|by apply Hs].
Qed.

Section Preserved.
Context (max : Z) (has_sessions : bool) (order : list nat -> list nat).
Hypothesis (Horder : forall l, order l ≡ₚ l).

Lemma conn_consistent c failing w w' :
  handleConn_step has_sessions c failing w = Some w' -> consistent w -> consistent w'.
Proof.
  intros Hstep Hw. unfold handleConn_step in Hstep.
  destruct (w_conns w !! c) as [pc|] eqn:Hpc; [|done]. simpl in Hstep.
  pose proof (co_conns _ Hw c) as Hin. rewrite Hpc in Hin. simpl in Hin.
  assert (Hsame : sv_connCount (w_srv w) = i64 (sv_connCount (w_srv w) + 0 - 0))
    by (rewrite (co_count _ Hw), Z.sub_0_r, i64_step; f_equal; lia).
  assert (Hone : sv_connCount (w_srv w) = i64 (sv_connCount (w_srv w) + 1 - 1))
    by (rewrite Hsame at 1; f_equal; lia).
  pose proof (Conn_Close_only c w) as [Os Ov Oc Osh Ol Op Ocl]. pose proof (Conn_Close_closed c w) as Hcl.
  destruct pc; simpl in Hstep; repeat case_match; simplify_eq.
  all: eapply (conn_moves w); [exact Hw|exact Hpc|simpl; try (rewrite Oc); reflexivity| | | | | |].
  all: simpl; rewrite ?Os, ?Ov, ?Oc, ?Ol, ?Osh, ?Hcl; try done.
  all: clear -Hin Hsame Hone.
  all: try solve [intros d; rewrite ?elem_of_union, ?elem_of_difference, ?elem_of_singleton;
                  case_bool_decide as E; simplify_eq; naive_solver].
  all: first [f_equal; lia | clear; set_solver].
Qed.

Lemma serve_consistent t accepted w w' :
  Serve_step max t accepted w = Some w' -> consistent w -> consistent w'.
Proof.
  intros Hstep [Hc Hn Hl Hf Hcl Hd Hs Hst]. unfold Serve_step in Hstep.
  destruct (w_serves w !! t) as [[l pc]|] eqn:Hpc; [|done]. simpl in Hstep.
  assert (Hkeep : forall pc', (listening (l, pc) <-> listening (l, pc')) ->
    sv_listeners (w_srv w) ≡ₚ (filter listening (<[t := (l, pc')]> (w_serves w))).*1)
    by (intros pc' Hpc'; by rewrite (filter_insert _ _ _ _ _ Hpc Hpc')).
  destruct pc; simpl in Hstep; repeat case_match; simplify_eq; split; simpl;
    try solve [done | by apply Hkeep | intros; congruence | intros; apply Hcl; congruence
              | intros ? ? Ht Hne; pose proof (Hst _ _ Ht Hne); congruence].
  - rewrite Hl, (filter_insert_on _ _ _ _ SAccept Hpc) by (try exact I; by intros []).
    symmetry. apply Permutation_cons_append.
  - intros c. rewrite Hc. destruct (decide (c < length (w_conns w))%nat) as [Hlt|Hge].
    + by rewrite lookup_app_l.
    + rewrite (lookup_ge_None_2 (w_conns w)) by lia. rewrite lookup_app_r by lia.
      destruct (c - length (w_conns w))%nat; simpl; split; discriminate.
  - rewrite count_if_app. simpl. by rewrite Z.add_0_r.
  - intros c Hlook. apply Hd. apply lookup_app_Some in Hlook as [?|[_ Hlook]]; [done|].
    by apply list_lookup_singleton_Some in Hlook as [_ ?].
  - intros c Hin. destruct (Hs c Hin) as [pc Hlook]. exists pc. by apply lookup_app_l_Some.
  - pose proof (filter_insert_off _ _ _ _ (SDone false) Hpc I (fun H => H)) as Hoff.
    assert (Hin : l ∈ sv_listeners (w_srv w)) by (rewrite Hl, Hoff; set_solver).
    apply (Permutation_cons_inv (a := l)). by rewrite <- remove_first_perm, <- Hoff.
  - intros Hsh. specialize (Hcl Hsh). rewrite list.Forall_forall in Hcl |- *. intros x Hx. apply Hcl.
    clear -Hx. induction (sv_listeners (w_srv w)) as [|y ls IH]; simpl in Hx; [done|].
    destruct (y =? l)%nat; set_solver.
Qed.

Lemma shutdown_consistent t w w' :
  Shutdown_step order t w = Some w' -> consistent w -> consistent w'.
Proof using Horder.
  intros Hstep Hw. pose proof Hw as [Hc Hn Hl Hf Hcl Hd Hs Hst]. unfold Shutdown_step in Hstep.
  destruct (w_shutdowns w !! t) as [pc|] eqn:Hpc; [|done]. simpl in Hstep.
  destruct pc; simpl in Hstep; repeat case_match; simplify_eq.
  - split; simpl; try done; intros; first [congruence|apply Hcl; congruence].
  - split; simpl; try done. intros _. apply list.Forall_forall. intros x Hx. by apply elem_of_union_l, elem_of_list_to_set.
  - fold farewell. destruct (farewell_all (order (elements (sv_conns (w_srv w)))) w) as [[Os Ov Oc Osh Ol Op Ocl] Hcl'].
    unfold farewell in *.
    split; simpl; rewrite ?Os, ?Ov, ?Oc, ?Ol, ?Osh, ?Hcl'; try done; [set_solver| |].
    2: { intros t' pc Ht' Hne. apply list_lookup_insert_Some in Ht' as [(_ & <- & _)|[_ Ht']]; [|by eapply Hst].
         by eapply (Hst t). }
    intros c Hin. apply elem_of_union in Hin as [Hin|Hin]; [|by apply Hs].
    rewrite (Horder _), list_to_set_elements in Hin. apply Hc in Hin.
    destruct (w_conns w !! c) as [pc|]; [by eexists|done].
Qed.

Lemma step_consistent a w w' :
  step max has_sessions order a w = Some w' -> consistent w -> consistent w'.
Proof using Horder.
  unfold step. destruct (w_panicked w); [done|].
  destruct a; intros Hstep Hw; repeat case_match; simplify_eq;
    eauto using serve_consistent, conn_consistent, shutdown_consistent.
  - destruct Hw as [Hc Hn Hl Hf Hcl Hd Hs Hst]. split; simpl; try done.
    rewrite list.filter_app, filter_cons_False, app_nil_r by (by intros []). done.
  - destruct Hw as [Hc Hn Hl Hf Hcl Hd Hs Hst]. split; simpl; try done. intros t pc Ht Hne.
    apply lookup_app_Some in Ht as [Ht|[_ Ht]]; [by eapply Hst|].
    by apply list_lookup_singleton_Some in Ht as [_ <-].
Qed.

Lemma start_consistent : consistent start.
Proof. by split. Qed.

Lemma run_snoc w l a : run max has_sessions order w (l ++ [a]) = run max has_sessions order w l ≫= step max has_sessions order a.
Proof. unfold run. by rewrite foldl_app. Qed.

Lemma reachable_consistent w : reachable max has_sessions order w -> consistent w.
Proof using Horder.
  intros [l Hrun]. revert w Hrun. induction l as [|a l IH] using rev_ind; intros w Hrun.
  - injection Hrun as <-. apply start_consistent.
  - rewrite run_snoc in Hrun. destruct (run _ _ _ start l) as [w1|] eqn:E; [|done].
    exact (step_consistent _ _ _ Hrun (IH _ eq_refl)).
Qed.

(** Whatever calls of [Serve], [handleConn] and [Shutdown] interleave,
    [srv.conns] holds exactly the connections between their registration and
    their removal, [connCount] is the number of goroutines between their two
    [Add]s, [srv.listeners] holds the listener of every call of [Serve] that
    has not returned, once for each call, the shutdown channel is closed
    exactly when [isShutdown] is set and every listener still in the list is
    then closed, and a connection whose goroutine has ended is closed. *)
Theorem lifecycle_invariant w : reachable max has_sessions order w -> consistent w.
Proof using Horder. apply reachable_consistent. Qed.

(** ** The limit on connections *)

(** Runs all of whose steps are taken in a world that [P] allows. *)
Inductive reached (P : action -> World -> Prop) : World -> Prop :=
  | reached_start : reached P start
  | reached_step w a w' : reached P w -> P a w -> step max has_sessions order a w = Some w' -> reached P w'.

(** At every admission at most [u] goroutines are started and not yet counted. *)
Definition admission_lag (u : Z) (a : action) (w : World) : Prop :=
  forall t l, a = StepServe t -> w_serves w !! t = Some (l, SAccepted) -> count_if uncounted (w_conns w) <= u.

(** The same as a run that is checked on the way. *)
Definition lag_ok (u : Z) (a : action) (w : World) : bool :=
  match a with
  | StepServe t =>
    match w_serves w !! t with Some (_, SAccepted) => count_if uncounted (w_conns w) <=? u | _ => true end
  | _ => true
  end.
Fixpoint run_within (u : Z) (w : World) (l : list action) : option World :=
  match l with
  | [] => Some w
  | a :: l => if lag_ok u a w then w' ← step max has_sessions order a w; run_within u w' l else None
  end.
Lemma run_within_reached u l : forall w w',
  reached (admission_lag u) w -> run_within u w l = Some w' -> reached (admission_lag u) w'.
Proof.
  induction l as [|a l IH]; intros w w' Hw Hrun; [by injection Hrun as <-|]. simpl in Hrun.
  destruct (lag_ok u a w) eqn:Hl; [|done]. destruct (step max has_sessions order a w) as [w1|] eqn:E; [|done].
  apply (IH w1); [|done]. apply (reached_step _ w a); [done| |done].
  intros t l' -> Ht. simpl in Hl. rewrite Ht in Hl. by to_prop.
Qed.

Definition live (w : World) : Z := count_if counted (w_conns w) + count_if uncounted (w_conns w).

Lemma conn_live c failing w w' :
  handleConn_step has_sessions c failing w = Some w' -> live w' <= live w.
Proof.
  intros Hstep. unfold handleConn_step in Hstep. destruct (w_conns w !! c) as [pc|] eqn:Hpc; [|done].
  simpl in Hstep. pose proof (oc_conns _ _ (Conn_Close_only c w)) as Oc.
  unfold live. destruct pc; simpl in Hstep; repeat case_match; simplify_eq; simpl; rewrite ?Oc;
    rewrite !(count_if_insert _ _ _ _ _ Hpc); simpl; lia.
Qed.

Lemma shutdown_live t w w' : Shutdown_step order t w = Some w' -> w_conns w' = w_conns w.
Proof.
  unfold Shutdown_step. destruct (w_shutdowns w !! t) as [[]|]; simpl; intros; repeat case_match; simplify_eq; try done.
  apply (farewell_all (order (elements (sv_conns (w_srv w)))) w).
Qed.

(** [C15] With a limit on connections, the goroutines that serve one are never
    more than the limit and the number of goroutines that, at some admission,
    were started and had not reached their [connCount.Add(1)].  The limit
    itself is kept ([u = 0]) where every goroutine counts itself before the
    next connection is looked at. *)
Theorem connection_limit u w :
  0 < max -> 0 <= u -> max + u < 2 ^ 63 -> reached (admission_lag u) w ->
  live w <= max + u /\ sv_connCount (w_srv w) <= max + u.
Proof using Horder.
  intros Hmax Hu Hsmall Hreach. assert (Hw : consistent w /\ live w <= max + u).
  { induction Hreach as [|w a w' _ [Hw IH] HP Hstep]; [split; [apply start_consistent|unfold live; simpl; lia]|].
    split; [by eapply step_consistent|].
    assert (Hsame : w_conns w' = w_conns w -> live w' <= max + u) by (unfold live; by intros ->).
    pose proof (count_if_nonneg counted (w_conns w)). pose proof (count_if_nonneg uncounted (w_conns w)).
    unfold step in Hstep. destruct (w_panicked w); [done|].
    destruct a as [l| |t|t|c f|c|t]; repeat case_match; simplify_eq; try (by apply Hsame).
    - unfold Serve_step, accepting in *. destruct (w_serves w !! t) as [[l []]|]; simpl in *; try done.
      case_match; simplify_eq. by apply Hsame.
    - unfold Serve_step in Hstep. destruct (w_serves w !! t) as [[l pc]|] eqn:Ht; [|done]. simpl in Hstep.
      destruct pc; repeat case_match; simplify_eq; try (by apply Hsame).
      specialize (HP _ _ eq_refl Ht). rewrite andb_false_iff in *. to_prop.
      rewrite (co_count _ Hw), i64_small in * by (unfold live in *; lia).
      unfold live in *. simpl. rewrite !count_if_app. simpl. lia.
    - etrans; [by eapply conn_live|done].
    - etrans; [by eapply conn_live|done].
    - apply Hsame. by eapply shutdown_live. }
  destruct Hw as [Hw Hlive]. split; [done|].
  pose proof (count_if_nonneg counted (w_conns w)). pose proof (count_if_nonneg uncounted (w_conns w)).
  rewrite (co_count _ Hw), i64_small by (unfold live in *; lia). unfold live in *. lia.
Qed.

(** ** The end of a server *)

(** The steps a goroutine of the server can take by itself, once the clients
    and the program do nothing. *)
Definition internal (a : action) : bool :=
  match a with StepServe _ | StepConn _ _ | StepShutdown _ => true | _ => false end.
Definition quiescent (w : World) : Prop :=
  forall a, internal a = true -> step max has_sessions order a w = None.

Definition conn_left (pc : conn_pc) : nat :=
  match pc with
  | HRegister => 7 | HCount => 6 | HSession => 5 | HServing => 4
  | HUnregister => 3 | HUncount => 2 | HClose => 1 | HDone => 0
  end.
Definition serve_left (p : nat * serve_pc) : nat :=
  match p.2 with
  | SStart => 1 | SAccepted => 4 | SAccept => 3 | SFailed => 2 | SReturn => 1 | SDone _ => 0
  end.
Definition shutdown_left (pc : shutdown_pc) : nat :=
  match pc with ShListeners => 2 | ShConns => 1 | ShDone => 0 end.
Definition steps_left (w : World) : nat :=
  sum_list (conn_left <$> w_conns w) + sum_list (serve_left <$> w_serves w)
  + sum_list (shutdown_left <$> w_shutdowns w).

(** After the second critical section of [Shutdown]. *)
Record draining (w : World) : Prop := {
  dr_consistent : consistent w;
  dr_flag : sv_isShutdown (w_srv w) = true;
  dr_alive : w_panicked w = false;
  dr_conns : forall c pc, w_conns w !! c = Some pc ->
    pc <> HRegister /\ (registered pc = true -> c ∈ w_closed w);
  dr_serves : forall t l, w_serves w !! t <> Some (l, SAccepted);
  dr_shutdowns : forall t, w_shutdowns w !! t <> Some ShListeners;
}.

Lemma sum_insert {A} (f : A -> nat) (l : list A) i x y :
  l !! i = Some x -> (sum_list (f <$> <[i := y]> l) + f x = sum_list (f <$> l) + f y)%nat.
Proof.
  revert i. induction l as [|a l IH]; intros [|i] Hi; simplify_eq/=; [lia|]. specialize (IH i Hi). lia.
Qed.

Lemma insert_all {A} (P : nat -> A -> Prop) (l : list A) i y :
  (forall j x, l !! j = Some x -> P j x) -> P i y -> forall j x, <[i := y]> l !! j = Some x -> P j x.
Proof. intros Hl Hy j x Hj. apply list_lookup_insert_Some in Hj as [(-> & <- & _)|[_ Hj]]; eauto. Qed.

Lemma drain_conn c failing w w' :
  draining w -> step max has_sessions order (StepConn c failing) w = Some w' ->
  draining w' /\ (steps_left w' < steps_left w)%nat.
Proof using Horder.
  intros [Hw Hflag Hal Hc Hs Hsh] Hstep. pose proof (step_consistent _ _ _ Hstep Hw) as Hw'.
  unfold step in Hstep. rewrite Hal in Hstep. case_match; [done|].
  unfold handleConn_step in Hstep. destruct (w_conns w !! c) as [pc|] eqn:Hpc; [|done]. simpl in Hstep.
  destruct (Hc c pc Hpc) as [Hne Hcl].
  pose proof (Conn_Close_only c w) as [Os Ov Oc Osh Ol Op Ocl].
  assert (Hgo : forall pc', w_conns w' = <[c := pc']> (w_conns w) -> pc' <> HRegister ->
    (registered pc' = true -> c ∈ w_closed w') -> (conn_left pc' < conn_left pc)%nat ->
    (sv_isShutdown (w_srv w'), w_panicked w', w_serves w', w_shutdowns w')
    = (sv_isShutdown (w_srv w), w_panicked w, w_serves w, w_shutdowns w) -> w_closed w ⊆ w_closed w' ->
    draining w' /\ (steps_left w' < steps_left w)%nat).
  { intros pc' Econns H1 H2 Hlt [= E1 E2 E3 E4] Hsub. split.
    - split; rewrite ?E1, ?E2, ?E3, ?E4, ?Econns; try done.
      apply insert_all; [|done]. intros d q Hq. destruct (Hc d q Hq). split; [done|]. auto.
    - unfold steps_left. rewrite E3, E4, Econns. pose proof (sum_insert conn_left _ _ _ pc' Hpc). lia. }
  destruct pc; simpl in Hstep; repeat case_match; simplify_eq; try done;
    (eapply Hgo; [simpl; try rewrite Oc; reflexivity| | | | |]); simpl; rewrite ?Os, ?Ov, ?Oc, ?Osh, ?Op;
    try done; try (by intros; apply Hcl); try lia.
  intros _. rewrite Conn_Close_closed. set_solver.
Qed.

Lemma drain_serve t w w' :
  draining w -> step max has_sessions order (StepServe t) w = Some w' ->
  draining w' /\ (steps_left w' < steps_left w)%nat.
Proof using Horder.
  intros [Hw Hflag Hal Hc Hs Hsh] Hstep. pose proof (step_consistent _ _ _ Hstep Hw) as Hw'.
  pose proof (co_flag _ Hw) as Hchan. rewrite Hflag in Hchan.
  unfold step in Hstep. rewrite Hal in Hstep. unfold Serve_step in Hstep.
  destruct (w_serves w !! t) as [[l pc]|] eqn:Hpc; [|done]. simpl in Hstep.
  assert (Hgo : forall pc', w_serves w' = <[t := (l, pc')]> (w_serves w) -> pc' <> SAccepted ->
    (serve_left (l, pc') < serve_left (l, pc))%nat ->
    (sv_isShutdown (w_srv w'), w_panicked w', w_conns w', w_shutdowns w', w_closed w')
    = (sv_isShutdown (w_srv w), w_panicked w, w_conns w, w_shutdowns w, w_closed w) ->
    draining w' /\ (steps_left w' < steps_left w)%nat).
  { intros pc' Eserves H1 Hlt [= E1 E2 E3 E4 E5]. split.
    - split; rewrite ?E1, ?E2, ?E3, ?E4, ?E5, ?Eserves; try done.
      intros t' l' Ht'. apply list_lookup_insert_Some in Ht' as [(_ & [=] & _)|[_ Ht']]; [done|by eapply Hs].
    - unfold steps_left. rewrite E3, E4, Eserves. pose proof (sum_insert serve_left _ _ _ (l, pc') Hpc). lia. }
  rewrite Hflag, Hchan in Hstep.
  destruct pc; [| | |by destruct (Hs t l)| |done]; simplify_eq;
    (eapply Hgo; [reflexivity|done|unfold serve_left; simpl; lia|done]).
Qed.

(** What the second critical section of [Shutdown] does. *)
Lemma shutdown_conns_step t w w' :
  w_shutdowns w !! t = Some ShConns -> Shutdown_step order t w = Some w' ->
  only_closes (set_shutdowns (<[t := ShDone]> (w_shutdowns w)) w) w'
  /\ w_closed w' = sv_conns (w_srv w) ∪ w_closed w.
Proof using Horder.
  intros Hpc Hstep. unfold Shutdown_step in Hstep. rewrite Hpc in Hstep. simpl in Hstep. simplify_eq.
  destruct (farewell_all (order (elements (sv_conns (w_srv w)))) w) as [[Os Ov Oc Osh Ol Op Ocl] Hcl].
  unfold farewell in *. split; [split; simpl; first [congruence|exact Ocl]|]. simpl. rewrite Hcl, (Horder _).
  by rewrite list_to_set_elements_L.
Qed.

Lemma drain_shutdown t w w' :
  draining w -> step max has_sessions order (StepShutdown t) w = Some w' ->
  draining w' /\ (steps_left w' < steps_left w)%nat.
Proof using Horder.
  intros [Hw Hflag Hal Hc Hs Hsh] Hstep. pose proof (step_consistent _ _ _ Hstep Hw) as Hw'.
  unfold step in Hstep. rewrite Hal in Hstep.
  destruct (w_shutdowns w !! t) as [[]|] eqn:Hpc.
  - by destruct (Hsh t).
  - destruct (shutdown_conns_step _ _ _ Hpc Hstep) as [[Os Ov Oc Osh Ol Op Ocl] _]. simpl in *. split.
    + split; rewrite ?Os, ?Op, ?Ov, ?Oc, ?Osh; try done.
      * intros c pc Hlook. destruct (Hc c pc Hlook). split; [done|]. auto.
      * intros t' Ht'. apply list_lookup_insert_Some in Ht' as [(_ & ? & _)|[_ Ht']]; [done|by eapply Hsh].
    + unfold steps_left. rewrite Ov, Oc, Osh. pose proof (sum_insert shutdown_left _ _ _ ShDone Hpc) as Hsum.
      simpl in Hsum. lia.
  - unfold Shutdown_step in Hstep. by rewrite Hpc in Hstep.
  - unfold Shutdown_step in Hstep. by rewrite Hpc in Hstep.
Qed.

Lemma drain_step a w w' :
  internal a = true -> draining w -> step max has_sessions order a w = Some w' ->
  draining w' /\ (steps_left w' < steps_left w)%nat.
Proof using Horder. destruct a; try done; intros _; eauto using drain_conn, drain_serve, drain_shutdown. Qed.

Lemma drain_run l : forall w w',
  forallb internal l = true -> draining w -> run max has_sessions order w l = Some w' ->
  draining w' /\ (length l + steps_left w' <= steps_left w)%nat.
Proof using Horder.
  induction l as [|a l IH] using rev_ind; intros w w' Hint Hw Hrun.
  - injection Hrun as <-. simpl. by split.
  - rewrite run_snoc in Hrun. destruct (run _ _ _ w l) as [w1|] eqn:E; [|done]. simpl in Hrun.
    rewrite forallb_app in Hint. simpl in Hint. rewrite andb_true_r in Hint. apply andb_true_iff in Hint as [Hl Ha].
    destruct (IH w w1 Hl Hw E) as [Hw1 Hle]. destruct (drain_step _ _ _ Ha Hw1 Hrun) as [Hw' Hlt].
    split; [done|]. rewrite length_app. simpl. lia.
Qed.

(** A goroutine that has not ended can go on. *)
Lemma drain_progress w :
  draining w -> quiescent w ->
  Forall (fun pc => pc = HDone) (w_conns w) /\ Forall (fun p => exists b, p.2 = SDone b) (w_serves w)
  /\ Forall (fun pc => pc = ShDone) (w_shutdowns w).
Proof.
  intros [Hw Hflag Hal Hc Hs Hsh] Hq. repeat split; apply Forall_lookup_2.
  - intros c pc Hpc. specialize (Hq (StepConn c false) eq_refl). unfold step, serving in Hq. rewrite Hal, Hpc in Hq.
    destruct (Hc c pc Hpc) as [_ Hcl]. unfold handleConn_step in Hq. rewrite Hpc in Hq. simpl in Hq.
    destruct pc; simpl in Hq; repeat case_match; try done.
    rewrite bool_decide_eq_true_2 in * by (by apply Hcl). done.
  - intros t [l pc] Hpc. specialize (Hq (StepServe t) eq_refl). unfold step, Serve_step in Hq.
    rewrite Hal, Hpc in Hq. simpl in Hq. destruct pc; repeat case_match; try done. by eexists.
  - intros t pc Hpc. specialize (Hq (StepShutdown t) eq_refl). unfold step, Shutdown_step in Hq.
    rewrite Hal, Hpc in Hq. simpl in Hq. destruct pc; repeat case_match; done.
Qed.

Lemma farewell_byes cs : forall w,
  w_byes (foldl farewell w cs) = w_byes w ++ ((fun c => (c, bytes_of "server shutting down")) <$> cs).
Proof.
  induction cs as [|c cs IH]; intros w; simpl; [by rewrite app_nil_r|]. rewrite IH.
  assert (H : w_byes (farewell w c) = w_byes w ++ [(c, bytes_of "server shutting down")])
    by (unfold farewell, Conn_Close; by case_bool_decide).
  rewrite H. by rewrite <- app_assoc.
Qed.

Lemma drained_empty w : draining w -> quiescent w ->
  sv_conns (w_srv w) = ∅ /\ sv_connCount (w_srv w) = 0 /\ sv_listeners (w_srv w) = [].
Proof.
  intros Hw Hq. destruct (drain_progress w Hw Hq) as (Hc & Hs & _).
  destruct (dr_consistent _ Hw) as [Hco Hn Hl _ _ _ _ _]. repeat split.
  - apply elem_of_equiv_empty_L. intros c Hin. apply Hco in Hin.
    destruct (w_conns w !! c) as [pc|] eqn:Hpc; [|done]. by rewrite (Forall_lookup_1 _ _ _ _ Hc Hpc) in Hin.
  - rewrite Hn. clear -Hc. induction Hc as [|pc l -> Hc IH]; [done|exact IH].
  - apply Permutation_nil. rewrite Hl. clear -Hs.
    induction Hs as [|[l pc] ps [b Hb] Hs IH]; [done|]. simpl in Hb. subst pc.
    by rewrite filter_cons_False by (by intros []).
Qed.

End Preserved.

(** ** Races

    Runs of a server without a limit (with a limit of one for the last but
    one), with sessions. *)
Definition accept_one : list action := [CallServe 0; StepServe 0; Accepts 0; StepServe 0].
Definition survivor_run : list action :=
  accept_one ++ [CallShutdown; StepShutdown 0; StepShutdown 0; StepServe 0; StepServe 0; StepServe 0;
                 StepConn 0 false; StepConn 0 false; StepConn 0 false].
Definition leak_run : list action :=
  accept_one ++ [StepConn 0 false; StepConn 0 false; CallShutdown; StepShutdown 0; StepShutdown 0]
  ++ replicate 5 (StepConn 0 false).
Definition crowd_run : list action :=
  accept_one ++ [Accepts 0; StepServe 0; StepConn 0 false; StepConn 0 false; StepConn 1 false; StepConn 1 false].
Definition twice_run : list action :=
  [CallShutdown; StepShutdown 0; StepShutdown 0; CallShutdown; StepShutdown 1].

(** The world at the end of a run. *)
Ltac outcome_of r :=
  let v := eval vm_compute in r in match v with Some ?w => exists w; split; [by vm_compute|] end.

