(* ===== verification/Pool.v ===== *)
(** * The client pool (client/pool/pool.go)

    Idle clients kept for reuse, last in first out.  Clients are numbered;
    every method holds the pool's mutex throughout, so calls from several
    goroutines are a sequence of calls. *)

From S2P Require Import Prelude.

Record Pool := mkPool { po_clients : list nat; po_maxSize : Z; po_closed : bool }.

(** The pool, the number of calls of its factory, and the clients the pool has
    closed. *)
Record PState := mkPState { ps_pool : Pool; ps_calls : nat; ps_shut : gset nat }.

Definition New (maxSize : Z) : PState := mkPState (mkPool [] maxSize false) 0 ∅.

Definition set_clients (l : list nat) (p : Pool) : Pool := mkPool l (po_maxSize p) (po_closed p).
Definition with_clients (l : list nat) (s : PState) : PState :=
  mkPState (set_clients l (ps_pool s)) (ps_calls s) (ps_shut s).
Definition close_client (c : nat) (s : PState) : PState :=
  mkPState (ps_pool s) (ps_calls s) ({[c]} ∪ ps_shut s).

Section Pool.
(** The results of the calls of [factory], a function of the program that uses
    the pool. *)
Context (factory : nat -> res nat).

Definition Get : St PState nat := fun s =>
  let p := ps_pool s in
  if po_closed p then (Err (emsg "pool is closed"), s)
  else if 0 <? len (po_clients p) then
    match po_clients p !! pred (length (po_clients p)) with
    | Some c => (Ok c, with_clients (take (pred (length (po_clients p))) (po_clients p)) s)
    | None => (Panic, s)
    end
  else (factory (ps_calls s), mkPState p (S (ps_calls s)) (ps_shut s)).

Definition Put (c : nat) (s : PState) : PState :=
  let p := ps_pool s in
  if po_closed p || (po_maxSize p <=? len (po_clients p)) then close_client c s
  else with_clients (po_clients p ++ [c]) s.

Definition Close (s : PState) : PState :=
  let p := ps_pool s in
  let s := foldl (fun s c => close_client c s) s (po_clients p) in
  mkPState (mkPool [] (po_maxSize p) true) (ps_calls s) (ps_shut s).

Definition Len (s : PState) : Z := len (po_clients (ps_pool s)).

(** ** The program that uses the pool

    [held] are the clients it has got and not put back. *)
Inductive use := UGet | UPut (c : nat) | UClose.

Definition perform (u : use) (sh : PState * list nat) : PState * list nat :=
  let '(s, held) := sh in
  match u with
  | UGet => match Get s with (Ok c, s') => (s', c :: held) | (_, s') => (s', held) end
  | UPut c => (Put c s, filter (fun d => d <> c) held)
  | UClose => (Close s, held)
  end.
Definition perform_all (maxSize : Z) (us : list use) : PState * list nat :=
  foldl (fun sh u => perform u sh) (New maxSize, []) us.

(** Only clients that are held are put back. *)
Definition disciplined (maxSize : Z) (us : list use) : Prop :=
  forall l c l', us = l ++ UPut c :: l' -> c ∈ (perform_all maxSize l).2.

(** ** What the pool promises *)
Record pool_ok (maxSize : Z) (s : PState) : Prop := {
  pk_max : po_maxSize (ps_pool s) = maxSize;
  pk_bound : len (po_clients (ps_pool s)) <= Z.max 0 maxSize;
  pk_closed : po_closed (ps_pool s) = true -> po_clients (ps_pool s) = [];
}.

Lemma shut_all cs s :
  foldl (fun s c => close_client c s) s cs
  = mkPState (ps_pool s) (ps_calls s) (list_to_set cs ∪ ps_shut s).
Proof.
  revert s. induction cs as [|c cs IH]; intros s; simpl.
  - destruct s; simpl. f_equal. set_solver.
  - rewrite IH. simpl. f_equal. set_solver.
Qed.

Lemma get_inv s r s' : Get s = (r, s') ->
  (exists c, r = Ok c /\ po_closed (ps_pool s) = false /\ po_clients (ps_pool s) = po_clients (ps_pool s') ++ [c]
     /\ s' = with_clients (po_clients (ps_pool s')) s)
  \/ (po_closed (ps_pool s) = false /\ po_clients (ps_pool s) = [] /\ r = factory (ps_calls s)
      /\ s' = mkPState (ps_pool s) (S (ps_calls s)) (ps_shut s))
  \/ (po_closed (ps_pool s) = true /\ s' = s /\ r = Err (emsg "pool is closed")).
Proof.
  unfold Get. destruct (po_closed (ps_pool s)); [intros [= <- <-]; auto|].
  assert (Hl : po_clients (ps_pool s) = [] \/ exists l c, po_clients (ps_pool s) = l ++ [c])
    by (induction (po_clients (ps_pool s)) as [|c l _] using rev_ind; eauto).
  destruct Hl as [E|(l & c & E)].
  - rewrite E. intros [= <- <-]. right. by left.
  - rewrite E. assert (0 <? len (l ++ [c]) = true) as -> by (apply Z.ltb_lt; unfold len; rewrite length_app; simpl; lia).
    rewrite length_app, Nat.add_1_r. simpl. rewrite list_lookup_middle, take_app_length by done.
    intros [= <- <-]. left. by exists c.
Qed.

Lemma perform_ok maxSize u s held :
  pool_ok maxSize s -> pool_ok maxSize (perform u (s, held)).1.
Proof.
  intros [Hm Hb Hc]. destruct u; simpl.
  - destruct (Get s) as [r s'] eqn:Eg.
    assert (pool_ok maxSize s').
    { destruct (get_inv _ _ _ Eg) as [(c & -> & Hcl & Hl & Hs')|[(Hcl & Hl & -> & ->)|(Hcl & -> & ->)]]; [|by split|by split].
      rewrite Hs'. split; simpl; [done| |by rewrite Hcl].
      rewrite Hl in Hb. unfold len in *. rewrite length_app in Hb. simpl in Hb. lia. }
    by destruct r.
  - unfold Put. destruct (po_closed (ps_pool s) || (po_maxSize (ps_pool s) <=? len (po_clients (ps_pool s)))) eqn:E; [by split|].
    apply orb_false_iff in E as [E1 E2]. to_prop. split; simpl; [done| |by rewrite E1].
    unfold len in *. rewrite length_app. simpl. lia.
  - split; simpl; [done|unfold len; simpl; lia|done].
Qed.

Lemma perform_all_snoc maxSize us u :
  perform_all maxSize (us ++ [u]) = perform u (perform_all maxSize us).
Proof. unfold perform_all. by rewrite foldl_app. Qed.

(** Every client handed out is one the factory made, once. *)
Hypothesis (factory_fresh : forall i j c, factory i = Ok c -> factory j = Ok c -> i = j).

Record pool_inv (s : PState) (held : list nat) : Prop := {
  pi_nodup : NoDup (po_clients (ps_pool s) ++ held);
  pi_made : Forall (fun c => exists i, (i < ps_calls s)%nat /\ factory i = Ok c) (po_clients (ps_pool s) ++ held);
  pi_open : forall c, c ∈ po_clients (ps_pool s) ++ held -> c ∉ ps_shut s;
  pi_shut : forall c, c ∈ ps_shut s -> exists i, (i < ps_calls s)%nat /\ factory i = Ok c;
}.

Lemma get_pool_inv s held r s' :
  pool_inv s held -> Get s = (r, s') -> pool_inv s' (match r with Ok c => c :: held | _ => held end).
Proof using factory_fresh.
  intros [Hnd Hmade Hopen Hshut] Hget.
  destruct (get_inv _ _ _ Hget) as [(c & -> & Hcl & Hl & Hs')|[(Hcl & Hl & -> & ->)|(Hcl & -> & ->)]]; [| |by split].
  - assert (Hp : po_clients (ps_pool s) ++ held ≡ₚ po_clients (ps_pool s') ++ c :: held)
      by (rewrite Hl, <- app_assoc; done).
    rewrite Hs'. split; simpl; [by rewrite <- Hp|by rewrite <- Hp| |done].
    intros d Hd. apply Hopen. by rewrite Hp.
  - rewrite Hl in *. simpl in *.
    assert (Hold : Forall (fun c => exists i, (i < S (ps_calls s))%nat /\ factory i = Ok c) held)
      by (eapply list.Forall_impl; [exact Hmade|]; intros c (i & Hi & Hf); exists i; split; [lia|done]).
    assert (Hnew : forall c, factory (ps_calls s) = Ok c -> forall i, (i < ps_calls s)%nat -> factory i <> Ok c)
      by (intros c Hc i Hi Hf; pose proof (factory_fresh _ _ _ Hc Hf); lia).
    destruct (factory (ps_calls s)) as [c|e| |] eqn:Ef; split; simpl; rewrite ?Hl; simpl; try done;
      try (intros d Hd; destruct (Hshut d Hd) as (i & Hi & Hf); exists i; split; [lia|done]).
    + apply list.NoDup_cons. split; [|done]. intros Hin.
      rewrite list.Forall_forall in Hmade. destruct (Hmade c Hin) as (i & Hi & Hf). by eapply Hnew.
    + apply list.Forall_cons. split; [|done]. exists (ps_calls s). split; [lia|done].
    + intros d Hd. apply elem_of_cons in Hd as [->|Hd]; [|by apply Hopen]. intros Hin.
      destruct (Hshut c Hin) as (i & Hi & Hf). by eapply Hnew.
Qed.

Lemma take_out (c : nat) l : NoDup l -> c ∈ l -> l ≡ₚ c :: filter (fun d => d <> c) l.
Proof.
  induction l as [|x l IH]; intros Hnd Hin; [set_solver|]. apply list.NoDup_cons in Hnd as [Hx Hnd].
  destruct (decide (x = c)) as [->|Hne].
  - rewrite filter_cons_False by tauto. f_equiv.
    clear -Hx. induction l as [|y l IH]; [done|]. rewrite filter_cons_True by set_solver. f_equiv. set_solver.
  - rewrite filter_cons_True by done. rewrite (IH Hnd) at 1 by set_solver. constructor.
Qed.

Lemma put_pool_inv s held c :
  pool_inv s held -> c ∈ held -> pool_inv (Put c s) (filter (fun d => d <> c) held).
Proof.
  intros [Hnd Hmade Hopen Hshut] Hc.
  assert (Hp : po_clients (ps_pool s) ++ held ≡ₚ c :: po_clients (ps_pool s) ++ filter (fun d => d <> c) held).
  { rewrite (take_out c held) at 1; [by rewrite Permutation_middle|by apply list.NoDup_app in Hnd as (_ & _ & ?)|done]. }
  rewrite Hp in Hnd, Hmade. apply list.NoDup_cons in Hnd as [Hnin Hnd]. apply list.Forall_cons in Hmade as [Hmc Hmade].
  unfold Put. case_if.
  - split; simpl; [done|done| |].
    + intros d Hd Hin. apply elem_of_union in Hin as [->%elem_of_singleton|Hin]; [done|].
      eapply Hopen; [|exact Hin]. rewrite Hp. by apply elem_of_cons; right.
    + intros d [->%elem_of_singleton|Hin]%elem_of_union; [done|by apply Hshut].
  - assert (Hq : (po_clients (ps_pool s) ++ [c]) ++ filter (fun d => d <> c) held
      ≡ₚ c :: po_clients (ps_pool s) ++ filter (fun d => d <> c) held)
      by (rewrite <- app_assoc; symmetry; apply Permutation_middle).
    split; simpl; [rewrite Hq; by apply list.NoDup_cons|rewrite Hq; by apply list.Forall_cons| |done].
    intros d Hd. apply Hopen. by rewrite Hp, <- Hq.
Qed.

Lemma close_pool_inv s held : pool_inv s held -> pool_inv (Close s) held.
Proof.
  intros [Hnd Hmade Hopen Hshut]. apply list.NoDup_app in Hnd as (Hnd1 & Hdis & Hnd2).
  apply Forall_app in Hmade as [Hm1 Hm2].
  unfold Close. rewrite shut_all. split; simpl; [done|done| |].
  - intros d Hd [Hin|Hin]%elem_of_union; [|eapply Hopen; [|exact Hin]; set_solver].
    apply elem_of_list_to_set in Hin. by eapply Hdis.
  - intros d [Hin|Hin]%elem_of_union; [|by apply Hshut]. apply elem_of_list_to_set in Hin.
    rewrite list.Forall_forall in Hm1. by apply Hm1.
Qed.

(** [C35] The pool keeps at most [maxSize] idle clients, and none once it is
    closed.  Where the program puts back only what it holds, no client is ever
    idle and in use at once, nor in use twice or idle twice, every one of them
    came from the factory, and the pool closes only clients it no longer
    hands out. *)
Theorem pool_exclusive maxSize us s held :
  disciplined maxSize us -> perform_all maxSize us = (s, held) -> pool_ok maxSize s /\ pool_inv s held.
Proof using factory_fresh.
  revert s held. induction us as [|u us IH] using rev_ind; intros s held Hdis Hrun.
  - injection Hrun as <- <-. split; split; try done; [unfold len; simpl; lia|apply NoDup_nil_2].
  - rewrite perform_all_snoc in Hrun. destruct (perform_all maxSize us) as [s1 held1] eqn:E.
    destruct (IH s1 held1) as [Hok Hinv]; [|done|].
    { intros l c l' ->. apply (Hdis l c (l' ++ [u])). by rewrite <- app_assoc. }
    split; [pose proof (perform_ok maxSize u s1 held1 Hok) as H; by rewrite Hrun in H|].
    destruct u; simpl in Hrun.
    + destruct (Get s1) as [r s'] eqn:Eg. pose proof (get_pool_inv _ _ _ _ Hinv Eg) as H.
      destruct r; by injection Hrun as <- <-.
    + injection Hrun as <- <-. apply put_pool_inv; [done|]. specialize (Hdis us c [] eq_refl). by rewrite E in Hdis.
    + injection Hrun as <- <-. by apply close_pool_inv.
Qed.
End Pool.
