(* ===== verification/ClientTLS.v ===== *)
(** * The TLS upgrade of the client (client/starttls.go)

    After the server has agreed to STARTTLS, [StartTLS] lets package
    crypto/tls do its handshake on the connection, replaces the connection and
    its decoder, and starts a second reader.  The first reader, which has
    delivered the server's OK, goes back to reading from the connection as it
    was: it and the handshake take what arrives from one socket.  A read takes
    one chunk of what has arrived.

    The handshake is code of the standard library, a parameter: what it makes
    of the chunks it has read. *)

From S2P Require Import Prelude.

(** Where [StartTLS] is: in the handshake, at the replacement of the
    connection, at the start of the reader, returned. *)
Inductive tls_pc := UHandshake | USwitch | USpawn | UDone | UFailed.

(** Chunks are numbered in the order in which the server sends them. *)
Record Upgrade := mkUpgrade {
  up_pc : tls_pc;
  up_sent : nat;              (* chunks that have arrived *)
  up_socket : list nat;       (* those nobody has read *)
  up_old : list nat;          (* those the first reader has taken *)
  up_read : list nat;         (* those the handshake has read *)
  up_new : list nat;          (* those the new connection has read since *)
  up_tls : bool;              (* the client works on the new connection *)
}.
Definition begun : Upgrade := mkUpgrade UHandshake 0 [] [] [] [] false.

(** [config] is the argument, [option_config] that of the client's options. *)
Definition Client_StartTLS (config option_config : bool) (executeCheck : res unit) : res Upgrade :=
  if negb config && negb option_config then Err (emsg "TLS config required")
  else _ ← executeCheck; Ok begun.

Definition goto (pc : tls_pc) (u : Upgrade) : Upgrade :=
  mkUpgrade pc (up_sent u) (up_socket u) (up_old u) (up_read u) (up_new u) (up_tls u).

Section Upgrade.
(** [Some true] when the chunks make a complete handshake, [Some false] when
    they cannot, [None] when more is needed. *)
Context (handshake : list nat -> option bool).

Inductive upgrade_step : Upgrade -> Upgrade -> Prop :=
  | Arrives u :
      upgrade_step u (mkUpgrade (up_pc u) (S (up_sent u)) (up_socket u ++ [up_sent u]) (up_old u) (up_read u)
                        (up_new u) (up_tls u))
  | OldReads c cs u : up_socket u = c :: cs ->
      upgrade_step u (mkUpgrade (up_pc u) (up_sent u) cs (up_old u ++ [c]) (up_read u) (up_new u) (up_tls u))
  | HandshakeReads c cs u : up_pc u = UHandshake -> up_socket u = c :: cs -> handshake (up_read u) = None ->
      upgrade_step u (mkUpgrade UHandshake (up_sent u) cs (up_old u) (up_read u ++ [c]) (up_new u) (up_tls u))
  | HandshakeEnds ok u : up_pc u = UHandshake -> handshake (up_read u) = Some ok ->
      upgrade_step u (goto (if (ok : bool) then USwitch else UFailed) u)
  | Switches u : up_pc u = USwitch ->
      upgrade_step u (mkUpgrade USpawn (up_sent u) (up_socket u) (up_old u) (up_read u) (up_new u) true)
  | Spawns u : up_pc u = USpawn -> upgrade_step u (goto UDone u)
  | NewReads c cs u : up_pc u = UDone -> up_socket u = c :: cs ->
      upgrade_step u (mkUpgrade UDone (up_sent u) cs (up_old u) (up_read u) (up_new u ++ [c]) (up_tls u)).

Definition upgraded (u : Upgrade) : bool :=
  match up_pc u with USwitch | USpawn | UDone => true | _ => false end.

(** Every chunk goes to one of the readers, and the handshake that succeeded
    read what it read. *)
Record dealt (u : Upgrade) : Prop := {
  de_all : up_old u ++ up_read u ++ up_new u ++ up_socket u ≡ₚ seq 0 (up_sent u);
  de_done : upgraded u = true -> handshake (up_read u) = Some true;
}.

Lemma dealt_step u u' : upgrade_step u u' -> dealt u -> dealt u'.
Proof.
  intros Hstep [Hall Hdone]. destruct Hstep as [u|c cs u Hs|c cs u Hp Hs Hn|ok u Hp Hh|u Hp|u Hp|c cs u Hp Hs];
    unfold upgraded in *; rewrite ?Hp in *; split;
    cbn [goto up_pc up_sent up_socket up_old up_read up_new]; try done; try (rewrite ?Hs in Hall).
  - rewrite seq_S, <- Hall. rewrite <- !app_assoc. done.
  - rewrite <- Hall. solve_Permutation.
  - rewrite <- Hall. solve_Permutation.
  - by destruct ok.
  - rewrite <- Hall. solve_Permutation.
Qed.

Lemma dealt_reachable u : rtc upgrade_step begun u -> dealt u.
Proof.
  intros Hr. assert (H0 : dealt begun) by by split.
  induction Hr as [|u v w Huv _ IH]; eauto using dealt_step.
Qed.

Lemma old_grows u u' c : rtc upgrade_step u u' -> c ∈ up_old u -> c ∈ up_old u'.
Proof.
  induction 1 as [|u v w Huv _ IH]; [done|]. intros Hc. apply IH. destruct Huv; simpl; set_solver.
Qed.

(** The server's side of the handshake is its first [n] chunks; nothing else
    is a complete one. *)
Context (n : nat).
Hypothesis (handshake_exact : forall l, handshake l = Some true -> l = seq 0 n).

Lemma no_theft u c : rtc upgrade_step begun u -> upgraded u = true -> (c < n)%nat -> c ∉ up_old u.
Proof using handshake_exact.
  intros Hr Hup Hc Hin. destruct (dealt_reachable u Hr) as [Hall Hdone].
  assert (Hnd : NoDup (up_old u ++ up_read u ++ up_new u ++ up_socket u)) by (rewrite Hall; apply NoDup_seq).
  apply list.NoDup_app in Hnd as (_ & Hdis & _). apply (Hdis c Hin).
  rewrite (handshake_exact _ (Hdone Hup)). apply elem_of_app. left. apply elem_of_seq. lia.
Qed.

(** The upgrade succeeds only if the first reader has taken no chunk of the
    handshake; once it has taken one, no continuation succeeds; and when it
    has succeeded the first reader can still take the next chunk, of a stream
    that only the new connection can decipher. *)
Theorem starttls_race u :
  rtc upgrade_step begun u ->
  (upgraded u = true -> forall c, (c < n)%nat -> c ∉ up_old u)
  /\ (forall c u', (c < n)%nat -> c ∈ up_old u -> rtc upgrade_step u u' -> upgraded u' = false)
  /\ (forall c cs, up_pc u = UDone -> up_socket u = c :: cs ->
       exists u', upgrade_step u u' /\ up_pc u' = UDone /\ up_old u' = up_old u ++ [c] /\ up_new u' = up_new u).
Proof using handshake_exact.
  intros Hr. split; [intros Hup c; by apply no_theft|]. split.
  - intros c u' Hc Hin Hr'. destruct (upgraded u') eqn:Hup; [|done].
    destruct (no_theft u' c); [by etrans|done|done|by eapply old_grows].
  - intros c cs Hpc Hs. eexists. split; [by eapply OldReads|]. done.
Qed.
End Upgrade.

(** With a handshake of one chunk, both outcomes happen. *)
Definition one_chunk (l : list nat) : option bool := if decide (l = [0%nat]) then Some true else None.

Lemma starttls_race_witness :
  (exists u, rtc (upgrade_step one_chunk) begun u /\ up_pc u = UDone)
  /\ exists u, rtc (upgrade_step one_chunk) begun u
     /\ forall u', rtc (upgrade_step one_chunk) u u' -> upgraded u' = false.
Proof.
  assert (Hex : forall l, one_chunk l = Some true -> l = seq 0 1)
    by (intros l; unfold one_chunk; by destruct (decide (l = [0%nat]))).
  split.
  - eexists. split; [|].
    + eapply rtc_l; [apply Arrives|]. eapply rtc_l; [by eapply (HandshakeReads _ 0 [])|].
      eapply rtc_l; [by eapply (HandshakeEnds _ true)|]. eapply rtc_l; [by eapply Switches|].
      eapply rtc_l; [by eapply Spawns|]. apply rtc_refl.
    + done.
  - set (u := mkUpgrade UHandshake 1 [] [0%nat] [] [] false).
    assert (Hr : rtc (upgrade_step one_chunk) begun u).
    { eapply rtc_l; [apply Arrives|]. eapply rtc_l; [by eapply (OldReads _ 0 [])|]. apply rtc_refl. }
    exists u. split; [done|]. intros u' Hr'.
    destruct (starttls_race one_chunk 1 Hex u Hr) as (_ & Hlost & _). apply (Hlost 0%nat u'); [lia|set_solver|done].
Defined.
