(* ===== verification/Typing.v ===== *)
(** * What the handlers read has the type it is declared with

    Go's integers are [Z] in this library.  The values that the argument
    readers hand to a backend stay within the widths of the fields they are
    stored in, at any depth of a search program. *)

From S2P Require Import Prelude Utf8 GoStrings GoTime NumSet Imap Decoder.
From S2P Require Import ConnState Conn Commands ExtBase ExtCommands ExtSearch.

Definition is_int64 (z : Z) : Prop := - 2 ^ 63 <= z < 2 ^ 63.
Definition is_uint64 (z : Z) : Prop := 0 <= z < 2 ^ 64.

(** ** Typed values *)
Definition typed_numset (s : NumSet) : Prop :=
  Forall range_wf (match s with NumSeq s => SeqSet_Ranges s | NumUID s => UIDSet_Ranges s end).

Inductive typed_criteria (c : SearchCriteria) : Prop := typed_intro {
  ty_seq : from_option (fun s => Forall range_wf (SeqSet_Ranges s)) True (sc_SeqNum c);
  ty_uid : from_option (fun s => Forall range_wf (UIDSet_Ranges s)) True (sc_UID c);
  ty_larger : is_int64 (sc_Larger c);
  ty_smaller : is_int64 (sc_Smaller c);
  ty_modseq : from_option (fun m => is_uint64 (ModSeq m)) True (se_ModSeq (sc_Ext c));
  ty_or : Forall (fun p => typed_criteria p.1 /\ typed_criteria p.2) (sc_Or c);
  ty_not : Forall typed_criteria (sc_Not c);
}.

Definition typed_partial (p : option SectionPartial) : Prop :=
  from_option (fun p => is_int64 (Offset p) /\ is_int64 (Count p)) True p.
Definition typed_section (s : FetchItemBodySection) : Prop :=
  Forall is_int64 (Part s) /\ typed_partial (Partial s).
Definition typed_binary (s : FetchItemBinarySection) : Prop :=
  Forall is_int64 (bin_Part s) /\ typed_partial (bin_Partial s).
Record typed_fetch (o : FetchOptions) : Prop := {
  tf_sections : Forall typed_section (fo_BodySection o);
  tf_binary : Forall typed_binary (fe_BinarySection (fo_Ext o));
  tf_sizes : Forall (Forall is_int64) (fe_BinarySizeSection (fo_Ext o));
}.

(** ** What a reader can yield *)
Definition Yields {S A} (P : A -> Prop) (m : St S A) : Prop :=
  forall s a s', m s = (Ok a, s') -> P a.
Definition right_of {E A} (P : A -> Prop) (r : E + A) : Prop := match r with inr a => P a | inl _ => True end.

Section Yields.
Context {S : Type}.

Lemma yields_any {A} (m : St S A) : Yields (fun _ => True) m.
Proof. done. Qed.
Lemma yields_ret {A} (P : A -> Prop) a : P a -> Yields P (mret a : St S A).
Proof. by intros Ha s b s' [= <- <-]. Qed.
Lemma yields_fail {A} (P : A -> Prop) e : Yields P (st_fail e : St S A).
Proof. by intros s b s' [=]. Qed.
Lemma yields_hang {A} (P : A -> Prop) : Yields P (st_hang : St S A).
Proof. by intros s b s' [=]. Qed.
Lemma yields_bind {A B} (P : A -> Prop) (Q : B -> Prop) (m : St S A) (k : A -> St S B) :
  Yields P m -> (forall a, P a -> Yields Q (k a)) -> Yields Q (m ≫= k).
Proof.
  intros Hm Hk s b s'. unfold mbind, st_bind. destruct (m s) as [[a|e| |] s1] eqn:E; try done.
  apply Hk, (Hm _ _ _ E).
Qed.
Lemma yields_then {A B} (Q : B -> Prop) (m : St S A) (k : A -> St S B) :
  (forall a, Yields Q (k a)) -> Yields Q (m ≫= k).
Proof. intros Hk. apply (yields_bind (fun _ => True)); auto using yields_any. Qed.
Lemma yields_attempt {A} (P : A -> Prop) (m : St S A) : Yields P m -> Yields (right_of P) (attempt m).
Proof.
  intros Hm s r s'. unfold attempt. destruct (m s) as [[a|e| |] s1] eqn:E; intros [= <- <-]; simpl; [|done].
  by eapply Hm.
Qed.
Lemma yields_on_err {A} (P : A -> Prop) (m : St S A) f : Yields P m -> Yields P (on_err m f).
Proof. intros Hm s r s'. unfold on_err. destruct (m s) as [[a|e| |] s1] eqn:E; intros [= <- <-]. by eapply Hm. Qed.
End Yields.

Lemma yields_res {A} (P : A -> Prop) (r : res A) : (forall a, r = Ok a -> P a) -> Yields P (lift_res r).
Proof. intros Hr s a s'. unfold lift_res. destruct r; intros [= <- <-]; auto. Qed.
Lemma yields_arg {Sess A} (P : A -> Prop) (m : Dec A) : Yields P m -> Yields P (arg m : H Sess A).
Proof. intros Hm h a h'. unfold arg. destruct (m (h_args h)) as [r s] eqn:E. intros [= -> <-]. by eapply Hm. Qed.

(** Stepping through a reader: the value of interest is named by the caller,
    every other one is read for its effect. *)
Create HintDb yields.
#[export] Hint Resolve yields_ret yields_fail yields_hang : yields.
Ltac yields := repeat first [ apply yields_then; intros | case_if | solve [eauto with yields] ].

(** ** Numbers *)
Section Typed.
Context {U : Unicode}.

Lemma yields_number64 : Yields is_uint64 ReadNumber64.
Proof.
  unfold ReadNumber64, ReadNumberBits. apply yields_then. intros atom. apply yields_on_err, yields_res.
  intros n Hn. by apply (ParseUint_range atom 64).
Qed.
Lemma parse_int_range s n : parse_int s = inr n -> is_int64 n.
Proof.
  unfold parse_int, is_int64. destruct (match s with [] => _ | _ => _ end) as [neg t].
  destruct (parse_uint 64 t) as [[]|un] eqn:E; try done.
  assert (0 <= un < 2 ^ 64) by (apply (ParseUint_range t 64); [done|]; unfold ParseUint; by rewrite E).
  destruct neg; simpl; repeat case_if; intros [= <-]; to_prop; lia.
Qed.
Lemma seqset_typed s set : ParseSeqSet s = Ok set -> Forall range_wf (SeqSet_Ranges set).
Proof. unfold ParseSeqSet. rewrite res_bind_Ok. intros (rs & Hrs & [= <-]). by destruct (parseNumSet_wf _ _ Hrs). Qed.
Lemma uidset_typed s set : ParseUIDSet s = Ok set -> Forall range_wf (UIDSet_Ranges set).
Proof. unfold ParseUIDSet. rewrite res_bind_Ok. intros (rs & Hrs & [= <-]). by destruct (parseNumSet_wf _ _ Hrs). Qed.

Lemma yields_numset {Sess} ctx : Yields typed_numset (read_numset ctx : H Sess NumSet).
Proof.
  unfold read_numset. apply yields_then. intros atom. destruct (x_NumKind ctx).
  - eapply yields_bind; [apply yields_on_err, yields_arg, yields_res, seqset_typed|]. eauto with yields.
  - eapply yields_bind; [apply yields_on_err, yields_arg, yields_res, uidset_typed|]. eauto with yields.
Qed.

(** ** Search programs *)
Lemma typed_criteria0 : typed_criteria criteria0.
Proof. by split. Qed.

Lemma flag_key_typed key f c : flag_key key = Some f -> typed_criteria c -> typed_criteria (f c).
Proof.
  intros Hf Hc. revert Hf. unfold flag_key. repeat (case_if; [intros [= <-]; destruct c, Hc; by split|]). done.
Qed.

Lemma yields_modseq : Yields (fun m => is_uint64 (ModSeq m)) parse_modseq.
Proof.
  unfold parse_modseq. yields. match goal with p : bytes * bytes |- _ => destruct p end.
  eapply yields_bind; [apply yields_number64|]. auto with yields.
Qed.

Lemma yields_sp_number : Yields is_uint64 sp_number.
Proof. unfold sp_number. apply yields_then. intros _. apply yields_number64. Qed.

Lemma arg_key_typed key c m : arg_key key c = Some m -> typed_criteria c -> Yields typed_criteria m.
Proof.
  intros Hm Hc. revert Hm. unfold arg_key.
  repeat (case_if; [intros [= <-]|]); [..|done]; try (solve [yields; apply yields_ret; destruct c, Hc; by split]).
  - apply yields_then. intros n. apply yields_ret. destruct c, Hc; split; try done. apply i64_range.
  - apply yields_then. intros n. apply yields_ret. destruct c, Hc; split; try done. apply i64_range.
  - apply yields_then. intros s. eapply yields_bind; [apply yields_res, uidset_typed|].
    intros set Hset. apply yields_ret. destruct c, Hc; by split.
  - eapply yields_bind; [apply yields_modseq|]. intros m Hm. apply yields_ret.
    destruct c as [?????????????????[]], Hc; by split.
  - apply yields_then. intros t. apply yields_ret. destruct c as [?????????????????[]], Hc; by split.
  - apply yields_then. intros t. apply yields_ret. destruct c as [?????????????????[]], Hc; by split.
  - apply yields_then. intros t. apply yields_ret. destruct c as [?????????????????[]], Hc; by split.
Qed.

Lemma with_not_typed sub c : typed_criteria sub -> typed_criteria c -> typed_criteria (with_not sub c).
Proof. intros Hs Hc. destruct c, Hc; split; try done. by apply Forall_app_2; [|apply list.Forall_singleton]. Qed.
Lemma with_seqnum_typed key c : typed_criteria c ->
  Yields (S := bytes) typed_criteria (match ParseSeqSet key with Ok set => mret (with_seqnum set c) | _ => mret c end).
Proof.
  intros Hc. destruct (ParseSeqSet key) as [set|e| |] eqn:E; apply yields_ret; try done.
  apply seqset_typed in E. destruct c, Hc; by split.
Qed.

(** One key, given what NOT negates. *)
Lemma criterion_typed sub key c :
  Yields typed_criteria sub -> typed_criteria c -> Yields typed_criteria (criterion_with sub key c).
Proof.
  intros Hsub Hc. unfold criterion_with. destruct (flag_key (ToUpper key)) as [f|] eqn:Ef.
  - apply yields_ret. by eapply flag_key_typed.
  - destruct (arg_key (ToUpper key) c) as [m|] eqn:Em; [by eapply arg_key_typed|]. case_if; [|by apply with_seqnum_typed].
    apply yields_then. intros _. eapply yields_bind; [exact Hsub|]. intros s Hs. by apply yields_ret, with_not_typed.
Qed.

Lemma criteria_go_typed fuel : forall c, typed_criteria c -> Yields typed_criteria (criteria_go fuel c).
Proof.
  induction fuel as [|fuel IH]; intros c Hc; simpl; [apply yields_hang|].
  apply yields_then. intros [e|b]; [by apply yields_ret|]. case_if; [by apply yields_ret|].
  apply yields_then. intros [e|key]; [by apply yields_ret|].
  eapply yields_bind; [apply criterion_typed; [apply IH, typed_criteria0|done]|]. intros c' Hc'.
  apply yields_then. intros [e|u]; [by apply yields_ret|by apply IH].
Qed.

Lemma search_loop_typed fuel : forall c, typed_criteria c -> Yields typed_criteria (search_loop fuel c).
Proof.
  induction fuel as [|fuel IH]; intros c Hc; simpl; [apply yields_hang|].
  apply yields_then. intros [e|b]; [by apply yields_ret|]. case_if; [by apply yields_ret|].
  apply yields_then. intros [e|key]; [by apply yields_ret|].
  eapply yields_bind; [exact (criterion_typed (search_loop fuel criteria0) key c (IH _ typed_criteria0) Hc)|].
  intros c' Hc'. apply yields_then. intros [e|u]; [by apply yields_ret|by apply IH].
Qed.

(** ** Fetch items *)
Lemma yields_list {A} (P : A -> Prop) (fn : Dec A) : Yields P fn -> Yields (Forall P) (ReadList fn).
Proof.
  intros Hfn. unfold ReadList. apply yields_then. intros _. apply yields_then. intros s.
  generalize true (length s + 2)%nat. intros first fuel.
  assert (Hacc : Forall P []) by constructor. revert first Hacc. generalize (@nil A) as acc.
  induction fuel as [|fuel IH]; intros acc first Hacc; simpl; [apply yields_hang|].
  apply yields_then. intros b. case_if; [apply yields_then; intros _; by apply yields_ret|].
  apply yields_then. intros _. eapply yields_bind; [exact Hfn|]. intros a Ha.
  apply IH. apply Forall_app_2; [done|by apply list.Forall_singleton].
Qed.

Lemma yields_partial : Yields typed_partial consumePartial.
Proof.
  unfold consumePartial. apply yields_then. intros [e|b]; [by apply yields_ret|]. case_if; [by apply yields_ret|].
  apply yields_then. intros _. apply yields_then. intros [e|atom]; [by apply yields_ret|].
  apply yields_then. intros _. destruct (SplitN atom "." 2) as [|p [|q [|]]]; try (by apply yields_ret).
  unfold ParseInt. destruct (parse_int p) eqn:Ep; [by apply yields_ret|].
  destruct (parse_int q) eqn:Eq; apply yields_ret; [done|]. split; simpl; by eapply parse_int_range.
Qed.

Lemma binary_part_typed s : Forall is_int64 (parseBinaryPart s).
Proof.
  unfold parseBinaryPart. case_if; [constructor|]. apply list.Forall_forall. intros n Hn.
  apply list_elem_of_omap in Hn as (p & _ & Hn). unfold Atoi in Hn.
  destruct (parse_int p) eqn:Ep; simplify_eq. by eapply parse_int_range.
Qed.

Definition keeps_typed (u : fetch_upd) : Prop := forall o, typed_fetch o -> typed_fetch (u o).
Lemma keeps_id : keeps_typed id.
Proof. by intros o. Qed.
Lemma keeps_section sec : typed_section sec -> keeps_typed (add_section sec).
Proof. intros Hs o []. split; simpl; try done. by apply Forall_app_2; [|apply list.Forall_singleton]. Qed.
Lemma keeps_binary secs sizes :
  Forall typed_binary secs -> Forall (Forall is_int64) sizes -> keeps_typed (add_binary secs sizes).
Proof. intros H1 H2 o []. split; simpl; try done; by apply Forall_app_2. Qed.
Lemma keeps_base bs e f d z u : keeps_typed (upd_base bs e f d z u).
Proof. by intros o []. Qed.
Lemma keeps_ext m p s e t : keeps_typed (upd_ext m p s e t).
Proof. by intros o []. Qed.

Lemma yields_read_section peek spec : Yields typed_section (read_section peek spec).
Proof. unfold read_section. repeat first [case_if|apply yields_then; intros|by apply yields_ret]. Qed.
Lemma yields_section_atom item peek : Yields typed_section (parseFetchBodySectionFromAtom item peek).
Proof.
  unfold parseFetchBodySectionFromAtom. eapply yields_bind; [apply yields_read_section|]. intros sec Hsec.
  apply yields_then. intros _. apply yields_then. intros _. by apply yields_ret.
Qed.
Lemma yields_section peek : Yields typed_section (parseFetchBodySection peek).
Proof.
  unfold parseFetchBodySection. apply yields_then. intros _. apply yields_then. intros b.
  apply (yields_bind typed_section).
  - case_if; [apply yields_then; intros; apply yields_read_section|by apply yields_ret].
  - intros sec Hsec. apply yields_then. intros _. apply yields_then. intros _. by apply yields_ret.
Qed.

Lemma yields_item : Yields keeps_typed parseSingleFetchItem.
Proof.
  assert (Hsec : forall m, Yields typed_section m ->
    Yields keeps_typed (s ← m; mret (add_section s) : Dec fetch_upd)).
  { intros m Hm. eapply yields_bind; [exact Hm|]. intros sec Hs. by apply yields_ret, keeps_section. }
  assert (Hbin : forall part peek, Yields keeps_typed (parseBinaryItem part peek)).
  { intros part peek. unfold parseBinaryItem. apply yields_then. intros _.
    eapply yields_bind; [apply yields_partial|]. intros pa Hpa. apply yields_ret, keeps_binary; [|constructor].
    apply list.Forall_singleton. split; [apply binary_part_typed|done]. }
  unfold parseSingleFetchItem. apply yields_then. intros item.
  repeat (case_if; [|]); try (apply yields_ret; first [apply keeps_base|apply keeps_ext]).
  all: try apply Hsec; auto using yields_section_atom.
  - apply yields_then. intros [e|b]; [apply yields_ret, keeps_id|].
    case_if; [apply Hsec, yields_section|apply yields_ret, keeps_id].
  - apply yields_then. intros [e|b]; [apply yields_ret, keeps_base|].
    case_if; [apply Hsec, yields_section|apply yields_ret, keeps_base].
  - apply yields_then. intros _. apply yields_ret, keeps_binary; [constructor|].
    apply list.Forall_singleton, binary_part_typed.
  - by apply yields_ret, keeps_section.
  - by apply yields_ret, keeps_section.
  - by apply yields_ret, keeps_section.
  - apply yields_ret, keeps_id.
Qed.

Lemma yields_items : Yields typed_fetch parseFetchItems.
Proof.
  assert (H0 : typed_fetch fetch_options0) by by split.
  unfold parseFetchItems. apply yields_then. intros b. case_if.
  - eapply yields_bind; [apply yields_list, yields_item|]. intros upds Hu. apply yields_ret.
    revert H0. generalize fetch_options0. induction Hu as [|u upds Hu _ IH]; intros o Ho; [done|]. by apply IH, Hu.
  - eapply yields_bind; [apply yields_item|]. intros u Hu. by apply yields_ret, Hu.
Qed.

End Typed.
