(* ===== verification/ServerWitness.v ===== *)
(** * Instances of the theorems on middleware, the life of a server and the pool *)

From Stdlib Require Import Floats.SpecFloat.
From S2P Require Import Prelude Utf8 GoStrings NumSet Imap Encoder ConnState Conn Commands Dispatch.
From S2P Require Import GoFloat Middleware MiddlewareFacts Guarded Timeout.
From S2P Require Import Replies MemSession MemWorld MemServer ClientWitness ExtBase ExtReplies ExtWitness.
From S2P Require Lifecycle LifecycleFacts Pool.

#[local] Existing Instance basic_unicode.

(** ** Middleware

    A NOOP whose handler panics, and one that fails. *)
Definition panicking : Handler unit := fun ctx => st_panic.
Definition failing : Handler unit := fun ctx => st_fail (ErrNo "no").
Definition demo_commands : gmap bytes (Handler unit) := {[ ("NOOP" : bytes) := panicking ]}.
Definition noop_ctx : CommandContext := mkContext "a" "NOOP" NumKindSeq false.
Definition demo_mid : Mid := mkMid 0 [] (fun _ => NewMetrics) (fun _ => ∅).
Definition demo_cstate : CState (unit * Mid) := mkCS (newConn [] None false) (tt, demo_mid).
Definition demo_hstate : HState (unit * Mid) := mkH [] (newConn [] None false) (tt, demo_mid).
Definition demo_config : RateLimitConfig := mkRateLimitConfig (to_float 5) 1.
Definition demo_kinds : list kind := [KLogging; KRecovery; KMetrics 0; KRateLimit 0 demo_config].
Definition still : nat -> Z := fun _ => 7.


Lemma metrics_exact_witness :
  let out := run_measured still 0 [(noop_ctx, failing); (noop_ctx, panicking)] demo_hstate in
  (out.1.*2 = [Err (ErrNo "no"); Panic] :> list (res unit))
  /\ measured (metrics_of 0 out.2) 2 1 1 (fun name => count_if (fun o => bool_decide (name = o.1)) out.1).
Proof.
  split; [reflexivity|].
  exact (metrics_exact still 0 [(noop_ctx, failing); (noop_ctx, panicking)] demo_hstate _ _
    (surjective_pairing _) eq_refl).
Defined.

Lemma rate_limit_burst_witness :
  let cmds := [(noop_ctx, failing); (noop_ctx, failing)] in
  let out := run_limited still "1.2.3.4:5" 0 demo_config cmds demo_hstate in
  let '(rs0, i) := run_plain (take 1 cmds) (inner demo_hstate) in
  out.1 = rs0 ++ [Err (ErrBad "rate limit exceeded")] /\ inner out.2 = i.
Proof.
  exact (rate_limit_burst still "1.2.3.4:5" 0 demo_config 7 (fun _ => eq_refl) I eq_refl
    [(noop_ctx, failing); (noop_ctx, failing)] demo_hstate _ _ eq_refl (surjective_pairing _)).
Defined.

(** SETACL on the extended server, behind all the middlewares. *)
Definition guarded_client : CState (Mem * Mid) := mkCS (cs_conn demo_client) (cs_sess demo_client, demo_mid).
Definition guarded_table : gmap bytes (Handler (Mem * Mid)) :=
  wrapped still "1.2.3.4:5" id demo_kinds (extended_table : gmap bytes (Handler Mem)).


(** A FETCH that ends after its timeout. *)
Definition fetch_ctx : CommandContext := mkContext "a1" "FETCH" NumKindSeq true.

(** ** The life of a server *)
Section Server.
Import Lifecycle LifecycleFacts.

(** One connection served, then the server shut down. *)
Definition demo_run : list action :=
  accept_one ++ [StepConn 0 false; StepConn 0 false; StepConn 0 false; CallShutdown; StepShutdown 0].
Definition demo_world : World := default start (run 0 true id start demo_run).
Definition demo_shut : World := default start (step 0 true id (StepShutdown 0) demo_world).

Lemma lifecycle_invariant_witness : w_conns demo_world = [HServing] /\ consistent demo_world.
Proof.
  split; [by vm_compute|].
  apply (lifecycle_invariant 0 true id); [done|]. exists demo_run. by vm_compute.
Defined.


(** A limit of one, with the first connection counted before the second is
    looked at. *)
Definition patient_run : list action :=
  accept_one ++ [StepConn 0 false; StepConn 0 false; Accepts 0; StepServe 0].
Definition patient_world : World := default start (run 1 true id start patient_run).
Lemma connection_limit_witness :
  live patient_world = 1 /\ (live patient_world <= 1 + 0 /\ sv_connCount (w_srv patient_world) <= 1 + 0).
Proof.
  split; [by vm_compute|]. apply (connection_limit 1 true id (fun l => Permutation_refl l) 0 patient_world);
    [done|done|done|].
  apply (run_within_reached 1 true id 0 patient_run start); [constructor|by vm_compute].
Defined.
End Server.

(** ** The pool

    Three clients are got from a pool of size one and two put back: the second
    is closed, and the first is handed out again. *)
Definition demo_factory : nat -> res nat := fun i => Ok (10 + i)%nat.
Definition demo_uses : list Pool.use :=
  [Pool.UGet; Pool.UGet; Pool.UGet; Pool.UPut 10; Pool.UPut 11; Pool.UGet].

Lemma pool_exclusive_witness :
  let out := Pool.perform_all demo_factory 1 demo_uses in
  out.2 = [10%nat; 12%nat] /\ (Pool.pool_ok 1 out.1 /\ Pool.pool_inv demo_factory out.1 out.2).
Proof.
  split; [by vm_compute|].
  apply (Pool.pool_exclusive demo_factory) with (us := demo_uses).
  - intros i j c [= <-] [=]. lia.
  - intros l c l' Hl. unfold demo_uses in Hl.
    repeat (destruct l as [|u l]; [simplify_eq/=; apply (bool_decide_unpack _); by vm_compute|]; injection Hl as <- Hl).
    by destruct l.
  - apply surjective_pairing.
Defined.
